(** * lua-tokenize.js: a shallow embedding of the Lua tokenizer

    The tokenizer of [src/lua-tokenize.js] is one generator function,
    [tokenize], whose body declares the scanning functions as closures over
    the input string, the resolved options and four mutable variables
    ([index], [line], [lineStart], [tokenStart]).  The embedding keeps that
    shape: the closed-over constants are the variables of a section, the
    mutable variables are the fields of a [Cursor] threaded through every
    function, and a [throw] is the [Throw] constructor of [Result]. *)

From Stdlib Require Import String Ascii ZArith QArith Arith Bool Lia Sorted List.
Import ListNotations.
Local Open Scope Z_scope.

(** ** JavaScript strings and numbers *)

(** A JavaScript string is a sequence of 16-bit code units. *)
Definition jsstring := list Z.

(** The code units of an ASCII literal of the source. *)
Definition js (s : string) : jsstring :=
  map (fun a => Z.of_N (N_of_ascii a)) (list_ascii_of_string s).

Definition jsstring_eqb (a b : jsstring) : bool :=
  if list_eq_dec Z.eq_dec a b then true else false.

(** [String.fromCharCode] keeps the low 16 bits of its argument. *)
Definition fromCharCode (c : Z) : Z := c mod 65536.

(** [charCodeAt] answers [NaN] out of range: [None] here.  Every test the
    tokenizer makes on a character code is false on [NaN]. *)
Definition code_is (k : Z) (charCode : option Z) : bool :=
  match charCode with Some c => c =? k | None => false end.

Definition code_between (lo hi : Z) (charCode : option Z) : bool :=
  match charCode with Some c => (lo <=? c) && (c <=? hi) | None => false end.

Definition code_from (lo : Z) (charCode : option Z) : bool :=
  match charCode with Some c => lo <=? c | None => false end.

(** [a === b] on two character codes; [NaN] equals nothing. *)
Definition code_eq (a b : option Z) : bool :=
  match a, b with Some x, Some y => x =? y | _, _ => false end.

(** ["xX".indexOf(ch || " ") >= 0] for a [ch] obtained from [charAt]. *)
Definition code_among (l : list Z) (charCode : option Z) : bool :=
  match charCode with Some c => existsb (Z.eqb c) l | None => false end.

(** The arithmetic of JavaScript numbers, kept abstract: the tokenizer's
    results are stated over any implementation of these operations (IEEE
    doubles in a JavaScript engine, exact rationals below). *)
Class JsNumber (num : Type) := {
  num_of_Z : Z -> num;            (* the Number value of an integer *)
  num_NaN : num;
  num_add : num -> num -> num;    (* a + b *)
  num_mul : num -> num -> num;    (* a * b *)
  num_div : num -> num -> num;    (* a / b *)
  Math_pow : num -> num -> num;
  parseFloat : jsstring -> num
}.

(** The value of a digit in [parseInt]. *)
Definition digitValue (c : Z) : option Z :=
  if (48 <=? c) && (c <=? 57) then Some (c - 48)
  else if (97 <=? c) && (c <=? 122) then Some (c - 87)
  else if (65 <=? c) && (c <=? 90) then Some (c - 55)
  else None.

(** [parseInt(s, radix)] on a string with no leading white space, sign or
    [0x] prefix (every call of the tokenizer passes a slice of digits): the
    longest prefix of digits of the radix, [NaN] ([None]) when it is empty. *)
Fixpoint parseInt_from (radix : Z) (acc : option Z) (s : jsstring) : option Z :=
  match s with
  | [] => acc
  | c :: s' =>
    match digitValue c with
    | Some d =>
      if d <? radix
      then parseInt_from radix
             (Some (radix * (match acc with Some a => a | None => 0 end) + d)) s'
      else acc
    | None => acc
    end
  end.

Definition parseInt (s : jsstring) (radix : Z) : option Z :=
  parseInt_from radix None s.

Definition toNumber {num} `{JsNumber num} (n : option Z) : num :=
  match n with Some z => num_of_Z z | None => num_NaN end.

(** ** Options and features *)

Inductive LuaVersion := Lua51 | Lua52 | Lua53 | LuaJIT.

Record Features := {
  labels : bool;
  contextualGoto : bool;
  hexEscapes : bool;
  skipWhitespaceEscape : bool;
  strictEscapes : bool;
  unicodeEscapes : bool;
  bitwiseOperators : bool;
  integerDivision : bool;
  const_ : bool;
  typeCheck : bool
}.

(** An absent key reads as [undefined], which every test treats as false. *)
Definition versionFeatures (v : LuaVersion) : Features :=
  match v with
  | Lua51 =>
    {| labels := false; contextualGoto := false; hexEscapes := false;
       skipWhitespaceEscape := false; strictEscapes := false;
       unicodeEscapes := false; bitwiseOperators := false;
       integerDivision := false; const_ := false; typeCheck := false |}
  | Lua52 =>
    {| labels := true; contextualGoto := false; hexEscapes := true;
       skipWhitespaceEscape := true; strictEscapes := true;
       unicodeEscapes := false; bitwiseOperators := false;
       integerDivision := false; const_ := false; typeCheck := false |}
  | Lua53 =>
    {| labels := true; contextualGoto := false; hexEscapes := true;
       skipWhitespaceEscape := true; strictEscapes := true;
       unicodeEscapes := true; bitwiseOperators := true;
       integerDivision := true; const_ := false; typeCheck := false |}
  | LuaJIT =>
    {| labels := true; contextualGoto := true; hexEscapes := true;
       skipWhitespaceEscape := true; strictEscapes := true;
       unicodeEscapes := true; bitwiseOperators := false;
       integerDivision := false; const_ := false; typeCheck := false |}
  end.

(** The [features] object of the options: two optional keys. *)
Record FeatureOptions := {
  opt_const_ : option bool;
  opt_typeCheck : option bool
}.

Record Position := { pos_line : nat; pos_column : nat }.

Record Comment := {
  comment_value : jsstring;
  comment_raw : jsstring;
  comment_start : Position;
  comment_end : Position;
  comment_range : nat * nat
}.

(** [TokenizerOptions]: every key is optional. *)
Record TokenizerOptions := {
  opt_comments : option (list Comment);
  opt_luaVersion : option LuaVersion;
  opt_ignoreShebang : option bool;
  opt_extendedIdentifiers : option bool;
  opt_features : option FeatureOptions
}.

(** [{ ...defaultOptions, ...options_ }] *)
Record Options := {
  comments : option (list Comment);
  luaVersion : LuaVersion;
  ignoreShebang : bool;
  extendedIdentifiers : bool;
  options_features : FeatureOptions
}.

Definition or_default {A} (o : option A) (d : A) : A :=
  match o with Some a => a | None => d end.

Definition defaultOptions : Options :=
  {| comments := None;
     luaVersion := Lua51;
     ignoreShebang := true;
     extendedIdentifiers := false;
     options_features := {| opt_const_ := Some false; opt_typeCheck := Some false |} |}.

Definition resolveOptions (options_ : TokenizerOptions) : Options :=
  {| comments :=
       match opt_comments options_ with
       | Some a => Some a
       | None => comments defaultOptions
       end;
     luaVersion := or_default (opt_luaVersion options_) (luaVersion defaultOptions);
     ignoreShebang := or_default (opt_ignoreShebang options_) (ignoreShebang defaultOptions);
     extendedIdentifiers :=
       or_default (opt_extendedIdentifiers options_) (extendedIdentifiers defaultOptions);
     options_features := or_default (opt_features options_) (options_features defaultOptions) |}.

(** [{ ...versionFeatures[options.luaVersion], ...options.features }] *)
Definition resolveFeatures (options : Options) : Features :=
  let v := versionFeatures (luaVersion options) in
  {| labels := labels v;
     contextualGoto := contextualGoto v;
     hexEscapes := hexEscapes v;
     skipWhitespaceEscape := skipWhitespaceEscape v;
     strictEscapes := strictEscapes v;
     unicodeEscapes := unicodeEscapes v;
     bitwiseOperators := bitwiseOperators v;
     integerDivision := integerDivision v;
     const_ := or_default (opt_const_ (options_features options)) (const_ v);
     typeCheck := or_default (opt_typeCheck (options_features options)) (typeCheck v) |}.

(** ** Tokens and errors *)

Inductive TokenType :=
| StringLiteral | Keyword | Identifier | NumericLiteral
| Punctuator | BooleanLiteral | NilLiteral | VarargLiteral.

(** The enum flags of the source. *)
Definition flag (t : TokenType) : Z :=
  match t with
  | StringLiteral => 2 | Keyword => 4 | Identifier => 8 | NumericLiteral => 16
  | Punctuator => 32 | BooleanLiteral => 64 | NilLiteral => 128
  | VarargLiteral => 256
  end.

Inductive Value (num : Type) :=
| VString (s : jsstring)
| VNumber (n : num)
| VBoolean (b : bool)
| VNull.
Arguments VString {num} s.
Arguments VNumber {num} n.
Arguments VBoolean {num} b.
Arguments VNull {num}.

Record Token (num : Type) := {
  type : TokenType;
  value : Value num;
  tok_line : nat;
  tok_lineStart : nat;
  lastLine : option nat;
  lastLineStart : option nat;
  range : nat * nat
}.
Arguments type {num} t.
Arguments value {num} t.
Arguments tok_line {num} t.
Arguments tok_lineStart {num} t.
Arguments lastLine {num} t.
Arguments lastLineStart {num} t.
Arguments range {num} t.

Inductive ErrorKind :=
| unexpectedSymbol | unfinishedString | unfinishedLongString
| unfinishedLongComment | invalidDelimiter | malformedNumber
| decimalEscapeTooLarge | hexDigitExpected | missingInEscape
| tooLargeCodepoint | invalidEscape.

(** What [tokenError(kind, meta, loc, expected)] is given. *)
Record LexicalError := {
  kind : ErrorKind;
  err_line : nat;
  err_lineStart : nat;
  err_range : nat * nat;
  expected : option jsstring
}.

Definition tokenError (k : ErrorKind) (l ls : nat) (r : nat * nat)
    (e : option jsstring) : LexicalError :=
  {| kind := k; err_line := l; err_lineStart := ls; err_range := r; expected := e |}.

(** The mutable variables of the closure. *)
Record Cursor := {
  index : nat;
  line : nat;
  lineStart : nat;
  tokenStart : nat
}.

Definition set_index (s : Cursor) (i : nat) : Cursor :=
  {| index := i; line := line s; lineStart := lineStart s; tokenStart := tokenStart s |}.

Definition set_tokenStart (s : Cursor) (i : nat) : Cursor :=
  {| index := index s; line := line s; lineStart := lineStart s; tokenStart := i |}.

Inductive Result (A : Type) :=
| Return (a : A) (s : Cursor)
| Throw (e : LexicalError).
Arguments Return {A} a s.
Arguments Throw {A} e.

(** ** Character classes *)

Definition isWhiteSpace (charCode : option Z) : bool :=
  code_is 9 charCode || code_is 32 charCode || code_is 0xb charCode
  || code_is 0xc charCode.

Definition isLineTerminator (charCode : option Z) : bool :=
  code_is 10 charCode || code_is 13 charCode.

Definition isDecDigit (charCode : option Z) : bool :=
  code_between 48 57 charCode.

Definition isHexDigit (charCode : option Z) : bool :=
  code_between 48 57 charCode || code_between 97 102 charCode
  || code_between 65 70 charCode.

(** ** Encoding fixup *)

Definition encodeUTF8 (codepoint : option Z) : option jsstring :=
  match codepoint with
  | None => None
  | Some cp =>
    if cp <? 0x80 then Some [fromCharCode cp]
    else if cp <? 0x800 then
      Some [fromCharCode (Z.lor 0xc0 (Z.shiftr cp 6));
            fromCharCode (Z.lor 0x80 (Z.land cp 0x3f))]
    else if cp <? 0x10000 then
      Some [fromCharCode (Z.lor 0xe0 (Z.shiftr cp 12));
            fromCharCode (Z.lor 0x80 (Z.land (Z.shiftr cp 6) 0x3f));
            fromCharCode (Z.lor 0x80 (Z.land cp 0x3f))]
    else if cp <? 0x110000 then
      Some [fromCharCode (Z.lor 0xf0 (Z.shiftr cp 18));
            fromCharCode (Z.lor 0x80 (Z.land (Z.shiftr cp 12) 0x3f));
            fromCharCode (Z.lor 0x80 (Z.land (Z.shiftr cp 6) 0x3f));
            fromCharCode (Z.lor 0x80 (Z.land cp 0x3f))]
    else None
  end.

(** [nullthrows]: [encodeUTF8] answers [null] only from [0x110000] on, which
    no code unit and no surrogate pair reaches. *)
Definition nullthrows (o : option jsstring) : jsstring :=
  match o with Some s => s | None => [] end.

Definition isHighSurrogate (c : Z) : bool := (0xd800 <=? c) && (c <=? 0xdbff).
Definition isLowSurrogate (c : Z) : bool := (0xdc00 <=? c) && (c <=? 0xdfff).

(** [s.replace(/[\ud800-\udbff][\udc00-\udfff]|[^\x00-\x7f]/g, ...)] *)
Fixpoint fixupHighCharacters (s : jsstring) : jsstring :=
  match s with
  | [] => []
  | c :: s' =>
    match s' with
    | d :: s'' =>
      if isHighSurrogate c && isLowSurrogate d then
        nullthrows (encodeUTF8 (Some (0x10000 +
          Z.lor (Z.shiftl (Z.land c 0x3ff) 10) (Z.land d 0x3ff))))
        ++ fixupHighCharacters s''
      else if (0 <=? c) && (c <=? 0x7f) then c :: fixupHighCharacters s'
      else nullthrows (encodeUTF8 (Some c)) ++ fixupHighCharacters s'
    | [] =>
      if (0 <=? c) && (c <=? 0x7f) then c :: fixupHighCharacters s'
      else nullthrows (encodeUTF8 (Some c)) ++ fixupHighCharacters s'
    end
  end.

(** ** The closure of [tokenize] *)

Local Open Scope nat_scope.

(** What a pull of the generator that runs [lex] ends with; the comments
    array, when there is one, is carried along since [scanComment] pushes
    to it. *)
Inductive LexResult (num : Type) :=
| LexToken (t : Token num) (s : Cursor) (cs : option (list Comment))
| LexEnd (s : Cursor) (cs : option (list Comment))
| LexThrow (e : LexicalError) (cs : option (list Comment)).
Arguments LexToken {num} t s cs.
Arguments LexEnd {num} s cs.
Arguments LexThrow {num} e cs.

Section Closure.

Context {num : Type} `{JsNumber num}.
Variable input : jsstring.
Variable options : Options.

Definition features : Features := resolveFeatures options.

Definition charCodeAt (i : nat) : option Z := nth_error input i.

Definition charAt (i : nat) : jsstring :=
  match nth_error input i with Some c => [c] | None => [] end.

(** [input.slice(a, b)] for [0 <= a] and [0 <= b]. *)
Definition slice (a b : nat) : jsstring := firstn (b - a) (skipn a input).

(** [while (p(input.charCodeAt(i))) ++i;] run for at most [fuel] rounds.
    Every [p] it is used with is false on [NaN], so [length input - i]
    rounds reach the exit of the loop. *)
Fixpoint scanWhile (p : option Z -> bool) (fuel : nat) (i : nat) : nat :=
  match fuel with
  | O => i
  | S fuel' => if p (charCodeAt i) then scanWhile p fuel' (S i) else i
  end.

Definition scanAll (p : option Z -> bool) (i : nat) : nat :=
  scanWhile p (length input - i) i.

Definition consumeEOL (s : Cursor) : bool * Cursor :=
  let charCode := charCodeAt (index s) in
  let peekCharCode := charCodeAt (index s + 1) in
  if isLineTerminator charCode then
    let i1 := if code_is 10 charCode && code_is 13 peekCharCode
              then index s + 1 else index s in
    let i2 := if code_is 13 charCode && code_is 10 peekCharCode
              then i1 + 1 else i1 in
    (true, {| index := i2 + 1; line := line s + 1; lineStart := i2 + 1;
              tokenStart := tokenStart s |})
  else (false, s).

Fixpoint skipWhiteSpace_loop (fuel : nat) (s : Cursor) : Cursor :=
  match fuel with
  | O => s
  | S fuel' =>
    if index s <? length input then
      if isWhiteSpace (charCodeAt (index s))
      then skipWhiteSpace_loop fuel' (set_index s (index s + 1))
      else
        let (eol, s') := consumeEOL s in
        if eol then skipWhiteSpace_loop fuel' s' else s
    else s
  end.

(** Every round moves [index] forward, so [length input - index] rounds
    reach [index >= input.length]. *)
Definition skipWhiteSpace (s : Cursor) : Cursor :=
  skipWhiteSpace_loop (length input - index s) s.

Definition isIdentifierStart (charCode : option Z) : bool :=
  if code_between 65 90 charCode || code_between 97 122 charCode
     || code_is 95 charCode then true
  else if extendedIdentifiers options && code_from 128 charCode then true
  else false.

Definition isIdentifierPart (charCode : option Z) : bool :=
  if code_between 65 90 charCode || code_between 97 122 charCode
     || code_is 95 charCode || code_between 48 57 charCode then true
  else if extendedIdentifiers options && code_from 128 charCode then true
  else false.

Definition baseKeywords : list jsstring :=
  map js ["do"; "if"; "in"; "or"; "and"; "end"; "for"; "not"; "else"; "then";
          "break"; "local"; "until"; "while"; "elseif"; "repeat"; "return";
          "function"]%string.

(** The [Set] built once per call; [add] appends a missing element. *)
Definition keywords : list jsstring :=
  baseKeywords
  ++ (if labels features && negb (contextualGoto features) then [js "goto"] else [])
  ++ (if typeCheck features then [js "declare"] else [])
  ++ (if const_ features then [js "const"] else []).

Definition isKeyword (id : jsstring) : bool :=
  existsb (jsstring_eqb id) keywords.

Definition mkToken (ty : TokenType) (v : Value num) (l ls : nat)
    (r : nat * nat) : Token num :=
  {| type := ty; value := v; tok_line := l; tok_lineStart := ls;
     lastLine := None; lastLineStart := None; range := r |}.

Definition scanIdentifierOrKeyword (s : Cursor) : Result (Token num) :=
  let s := set_index s (scanAll isIdentifierPart (index s + 1)) in
  let value := fixupHighCharacters (slice (tokenStart s) (index s)) in
  let loc := (tokenStart s, index s) in
  if isKeyword value then
    Return (mkToken Keyword (VString value) (line s) (lineStart s) loc) s
  else if jsstring_eqb (js "true") value || jsstring_eqb (js "false") value then
    Return (mkToken BooleanLiteral (VBoolean (jsstring_eqb value (js "true")))
              (line s) (lineStart s) loc) s
  else if jsstring_eqb (js "nil") value then
    Return (mkToken NilLiteral VNull (line s) (lineStart s) loc) s
  else
    Return (mkToken Identifier (VString value) (line s) (lineStart s) loc) s.

Definition scanPunctuator (value : jsstring) (s : Cursor) : Result (Token num) :=
  let s := set_index s (index s + length value) in
  Return (mkToken Punctuator (VString value) (line s) (lineStart s)
            (tokenStart s, index s)) s.

Definition scanVarargLiteral (s : Cursor) : Result (Token num) :=
  let s := set_index s (index s + 3) in
  Return (mkToken VarargLiteral (VString (js "...")) (line s) (lineStart s)
            (tokenStart s, index s)) s.

(** *** Numeric literals *)

Definition readHexLiteral (s : Cursor) : Result num :=
  let s := set_index s (index s + 2) in
  let digitStart := index s in
  if negb (isHexDigit (charCodeAt (index s))) then
    Throw (tokenError malformedNumber (line s) (lineStart s)
             (tokenStart s, index s) None)
  else
    let s := set_index s (scanAll isHexDigit (index s)) in
    let digit : num := toNumber (parseInt (slice digitStart (index s)) 16) in
    let '(fraction, s) :=
      if code_is 46 (charCodeAt (index s)) then
        let fractionStart := index s + 1 in
        let s := set_index s (scanAll isHexDigit fractionStart) in
        ((if fractionStart =? index s then num_of_Z 0
          else num_div (toNumber (parseInt (slice fractionStart (index s)) 16))
                 (Math_pow (num_of_Z 16)
                    (num_of_Z (Z.of_nat (index s - fractionStart))))), s)
      else (num_of_Z 0, s) in
    if code_among [112; 80]%Z (charCodeAt (index s)) then
      let s := set_index s (index s + 1) in
      let '(binarySign, s) :=
        if code_among [43; 45]%Z (charCodeAt (index s))
        then ((if code_is 43 (charCodeAt (index s)) then 1 else -1)%Z,
              set_index s (index s + 1))
        else (1%Z, s) in
      let exponentStart := index s in
      if negb (isDecDigit (charCodeAt (index s))) then
        Throw (tokenError malformedNumber (line s) (lineStart s)
                 (tokenStart s, index s + 1) None)
      else
        let s := set_index s (scanAll isDecDigit (index s)) in
        let binaryExponent : num :=
          toNumber (parseInt (slice exponentStart (index s)) 10) in
        let binaryExponent :=
          Math_pow (num_of_Z 2) (num_mul binaryExponent (num_of_Z binarySign)) in
        Return (num_mul (num_add digit fraction) binaryExponent) s
    else
      Return (num_mul (num_add digit fraction) (num_of_Z 1)) s.

Definition readDecLiteral (s : Cursor) : Result num :=
  let s := set_index s (scanAll isDecDigit (index s)) in
  let s := if code_is 46 (charCodeAt (index s))
           then set_index s (scanAll isDecDigit (index s + 1)) else s in
  if code_among [101; 69]%Z (charCodeAt (index s)) then
    let s := set_index s (index s + 1) in
    let s := if code_among [43; 45]%Z (charCodeAt (index s))
             then set_index s (index s + 1) else s in
    if negb (isDecDigit (charCodeAt (index s))) then
      Throw (tokenError malformedNumber (line s) (lineStart s)
               (tokenStart s, index s + 1) None)
    else
      let s := set_index s (scanAll isDecDigit (index s)) in
      Return (parseFloat (slice (tokenStart s) (index s))) s
  else Return (parseFloat (slice (tokenStart s) (index s))) s.

Definition scanNumericLiteral (s : Cursor) : Result (Token num) :=
  let character := charCodeAt (index s) in
  let next := charCodeAt (index s + 1) in
  match (if code_is 48 character && code_among [120; 88]%Z next
         then readHexLiteral s else readDecLiteral s) with
  | Return value s =>
    Return (mkToken NumericLiteral (VNumber value) (line s) (lineStart s)
              (tokenStart s, index s)) s
  | Throw e => Throw e
  end.

(** *** Escape sequences *)

(** The digit loop of [readUnicodeEscapeSequence]: it throws at the seventh
    significant digit, and stops at the first character that is no digit. *)
Fixpoint readUnicodeDigits (fuel : nat) (escStart : nat) (l ls : nat)
    (s : Cursor) : Result unit :=
  match fuel with
  | O => Return tt s
  | S fuel' =>
    if isHexDigit (charCodeAt (index s)) then
      let s := set_index s (index s + 1) in
      if 6 <? index s - escStart then
        Throw (tokenError tooLargeCodepoint l ls (escStart, index s) None)
      else readUnicodeDigits fuel' escStart l ls s
    else Return tt s
  end.

Definition readUnicodeEscapeSequence (s : Cursor) : Result jsstring :=
  let sequenceStart := index s in
  let s := set_index s (index s + 1) in
  let l := line s in
  let ls := lineStart s in
  let brace := charCodeAt (index s) in
  let s := set_index s (index s + 1) in
  if negb (code_is 123 brace) then
    Throw (tokenError missingInEscape l ls (sequenceStart + 1, sequenceStart + 2)
             (Some (js "{")))
  else if negb (isHexDigit (charCodeAt (index s))) then
    Throw (tokenError hexDigitExpected l ls (index s, index s + 1) None)
  else
    let s := set_index s (scanAll (code_is 0x30) (index s)) in
    let escStart := index s in
    match readUnicodeDigits (length input - index s) escStart l ls s with
    | Throw e => Throw e
    | Return _ s =>
      let b := charCodeAt (index s) in
      let s := set_index s (index s + 1) in
      if negb (code_is 125 b) then
        if code_is 34 b || code_is 39 b then
          Throw (tokenError missingInEscape l ls (sequenceStart, index s - 1)
                   (Some (js "}")))
        else
          Throw (tokenError hexDigitExpected l ls (index s - 1, index s) None)
      else
        let codepoint_int := parseInt (slice escStart (index s - 1)) 16 in
        match encodeUTF8 codepoint_int with
        | None =>
          Throw (tokenError tooLargeCodepoint l ls
                   (sequenceStart + 2, index s - 1) None)
        | Some codepoint => Return codepoint s
        end
    end.

(** The [switch] of [readEscapeSequence] falls through from [case "z"] to
    [case "x"], to [case "u"], to [default], to the cases of the backslash
    and the quotes: each case is a definition that ends in the next one.
    The cases read four keys of the [features] object of the closure; [f]
    stands for that object. *)
Definition escape_case_quote (s : Cursor) : Result jsstring :=
  Return (charAt (index s)) (set_index s (index s + 1)).

Section FeatureGates.

Variable f : Features.

Definition escape_case_default (s : Cursor) : Result jsstring :=
  if strictEscapes f then
    Throw (tokenError invalidEscape (line s) (lineStart s)
             (index s, index s + 1) None)
  else escape_case_quote s.

Definition escape_case_u (s : Cursor) : Result jsstring :=
  if unicodeEscapes f then readUnicodeEscapeSequence s
  else escape_case_default s.

Definition escape_case_x (s : Cursor) : Result jsstring :=
  let sequenceStart := index s in
  if hexEscapes f then
    if isHexDigit (charCodeAt (index s + 1))
       && isHexDigit (charCodeAt (index s + 2)) then
      let s := set_index s (index s + 3) in
      Return [fromCharCode
                (or_default (parseInt (slice (sequenceStart + 1) (index s)) 16) 0%Z)] s
    else
      let non_hex := if isHexDigit (charCodeAt (index s + 1))
                     then index s + 2 else index s + 1 in
      Throw (tokenError hexDigitExpected (line s) (lineStart s)
               (non_hex, non_hex + 1) None)
  else escape_case_u s.

Definition escape_case_z (s : Cursor) : Result jsstring :=
  if skipWhitespaceEscape f
  then Return [] (skipWhiteSpace (set_index s (index s + 1)))
  else escape_case_x s.

Definition readEscapeSequenceWith (s : Cursor) : Result jsstring :=
  let sequenceStart := index s in
  let ch := charCodeAt (index s) in
  let next := set_index s (index s + 1) in
  if code_is 97 ch then Return [7%Z] next               (* a *)
  else if code_is 110 ch then Return [10%Z] next        (* n *)
  else if code_is 114 ch then Return [13%Z] next        (* r *)
  else if code_is 116 ch then Return [9%Z] next         (* t *)
  else if code_is 118 ch then Return [11%Z] next        (* v *)
  else if code_is 98 ch then Return [8%Z] next          (* b *)
  else if code_is 102 ch then Return [12%Z] next        (* f *)
  else if code_is 13 ch || code_is 10 ch then
    Return [10%Z] (snd (consumeEOL s))
  else if code_between 48 57 ch then
    let s := set_index s (scanWhile isDecDigit 3 (index s)) in
    let ddd := or_default (parseInt (slice sequenceStart (index s)) 10) 0%Z in
    if (255 <? ddd)%Z then
      Throw (tokenError decimalEscapeTooLarge (line s) (lineStart s)
               (sequenceStart, index s) None)
    else Return [fromCharCode ddd] s
  else if code_is 122 ch then escape_case_z s           (* z *)
  else if code_is 120 ch then escape_case_x s           (* x *)
  else if code_is 117 ch then escape_case_u s           (* u *)
  else if code_is 92 ch || code_is 34 ch || code_is 39 ch
  then escape_case_quote s
  else escape_case_default s.

End FeatureGates.

(** [readEscapeSequence] as the closure runs it, on its own [features]. *)
Definition readEscapeSequence (s : Cursor) : Result jsstring :=
  readEscapeSequenceWith features s.

(** *** String literals *)

(** The [while] loop of [scanStringLiteral]; it returns [stringStart] and
    [string] as they are when the loop is left. *)
Fixpoint scanStringLiteral_loop (fuel : nat) (delimiter : option Z)
    (beginLine beginLineStart : nat) (stringStart : nat) (string : jsstring)
    (s : Cursor) : Result (nat * jsstring) :=
  match fuel with
  | O => Return (stringStart, string) s
  | S fuel' =>
    if index s <? length input then
      let charCode := charCodeAt (index s) in
      let s := set_index s (index s + 1) in
      if code_eq delimiter charCode then Return (stringStart, string) s
      else
        let escaped : Result (nat * jsstring) :=
          if code_is 92 charCode then
            match readEscapeSequence s with
            | Return esc s' =>
              Return (index s',
                      string ++ fixupHighCharacters (slice stringStart (index s - 1))
                      ++ esc) s'
            | Throw e => Throw e
            end
          else Return (stringStart, string) s in
        match escaped with
        | Throw e => Throw e
        | Return (stringStart, string) s =>
          if (length input <=? index s) || isLineTerminator charCode then
            Throw (tokenError unfinishedString beginLine beginLineStart
                     (stringStart - 1, index s - 1) None)
          else
            scanStringLiteral_loop fuel' delimiter beginLine beginLineStart
              stringStart string s
        end
    else Return (stringStart, string) s
  end.

Definition scanStringLiteral (s : Cursor) : Result (Token num) :=
  let delimiter := charCodeAt (index s) in
  let s := set_index s (index s + 1) in
  let beginLine := line s in
  let beginLineStart := lineStart s in
  match scanStringLiteral_loop (length input - index s) delimiter beginLine
          beginLineStart (index s) [] s with
  | Throw e => Throw e
  | Return (stringStart, string) s =>
    let string := string ++ fixupHighCharacters (slice stringStart (index s - 1)) in
    Return {| type := StringLiteral; value := VString string;
              tok_line := beginLine; tok_lineStart := beginLineStart;
              lastLine := Some (line s); lastLineStart := Some (lineStart s);
              range := (tokenStart s, index s) |} s
  end.

(** *** Long strings *)

(** [while (isLineTerminator(input.charCodeAt(index))) consumeEOL();] *)
Fixpoint consumeEOLs (fuel : nat) (s : Cursor) : Cursor :=
  match fuel with
  | O => s
  | S fuel' =>
    if isLineTerminator (charCodeAt (index s))
    then consumeEOLs fuel' (snd (consumeEOL s))
    else s
  end.

(** The test made on a ["]"] read at [index - 1]: [level] times ["="], then
    ["]"]. *)
Definition isTerminator (level : nat) (i : nat) : bool :=
  forallb (fun k => code_is 61 (charCodeAt (i + k))) (seq 0 level)
  && code_is 93 (charCodeAt (i + level)).

Fixpoint readLongString_loop (fuel : nat) (level : nat) (stringStart : nat)
    (unfinished : LexicalError) (s : Cursor) : Result (option jsstring) :=
  match fuel with
  | O => Throw unfinished
  | S fuel' =>
    if index s <? length input then
      let s := consumeEOLs (length input - index s) s in
      let character := charCodeAt (index s) in
      let s := set_index s (index s + 1) in
      if code_is 93 character && isTerminator level (index s) then
        Return (Some (slice stringStart (index s - 1)))
          (set_index s (index s + level + 1))
      else readLongString_loop fuel' level stringStart unfinished s
    else Throw unfinished
  end.

Definition readLongString (isComment : bool) (s : Cursor)
    : Result (option jsstring) :=
  let firstLine := line s in
  let firstLineStart := lineStart s in
  let from := index s in
  let s := set_index s (index s + 1) in
  let level := scanAll (code_is 61) (index s) - index s in
  if negb (code_is 91 (charCodeAt (index s + level))) then Return None s
  else
    let s := set_index s (index s + level + 1) in
    let s := if isLineTerminator (charCodeAt (index s))
             then snd (consumeEOL s) else s in
    let stringStart := index s in
    readLongString_loop (length input - index s) level stringStart
      (tokenError
         (if isComment then unfinishedLongComment else unfinishedLongString)
         firstLine firstLineStart (from, from + level + 1) None)
      s.

Definition scanLongStringLiteral (s : Cursor) : Result (Token num) :=
  let beginLine := line s in
  let beginLineStart := lineStart s in
  match readLongString false s with
  | Throw e => Throw e
  | Return None s =>
    let delim := scanAll (code_is 61) (index s) in
    Throw (tokenError invalidDelimiter beginLine beginLineStart
             (delim, delim + 1) None)
  | Return (Some string) s =>
    Return {| type := StringLiteral;
              value := VString (fixupHighCharacters string);
              tok_line := beginLine; tok_lineStart := beginLineStart;
              lastLine := Some (line s); lastLineStart := Some (lineStart s);
              range := (tokenStart s, index s) |} s
  end.

(** *** Comments *)

(** [scanComment] pushes to [options.comments] when it is there; the array
    is the second component of the result. *)
Definition scanComment (s : Cursor) (cs : option (list Comment))
    : Result unit * option (list Comment) :=
  let s := set_tokenStart s (index s) in
  let s := set_index s (index s + 2) in
  let character := charAt (index s) in
  let commentStart := index s in
  let long : Result (jsstring * bool) :=
    if code_is 91 (charCodeAt (index s)) then
      match readLongString true s with
      | Throw e => Throw e
      | Return None s => Return (character, false) s
      | Return (Some content) s => Return (content, true) s
      end
    else Return ([], false) s in
  match long with
  | Throw e => (Throw e, cs)
  | Return (content, isLong) s =>
    let '(content, s) :=
      if negb isLong then
        let s := set_index s
                   (scanAll (fun c => negb (isLineTerminator c)
                                      && match c with Some _ => true | None => false end)
                      (index s)) in
        (match cs with
         | Some _ => slice commentStart (index s)
         | None => content
         end, s)
      else (content, s) in
    let lineStartComment := lineStart s in
    let lineComment := line s in
    (Return tt s,
     match cs with
     | Some l =>
       Some (l ++ [{| comment_value := content;
                      comment_raw := slice (tokenStart s) (index s);
                      comment_start :=
                        {| pos_line := lineComment;
                           pos_column := tokenStart s - lineStartComment |};
                      comment_end :=
                        {| pos_line := line s;
                           pos_column := index s - lineStart s |};
                      comment_range := (tokenStart s, index s) |}])
     | None => None
     end)
  end.

(** *** The lexer *)

(** The loop of [lex] that skips comments; every round moves [index]
    forward by two or more. *)
Fixpoint skipComments (fuel : nat) (s : Cursor) (cs : option (list Comment))
    : Result unit * option (list Comment) :=
  match fuel with
  | O => (Return tt s, cs)
  | S fuel' =>
    if code_is 45 (charCodeAt (index s)) && code_is 45 (charCodeAt (index s + 1))
    then
      match scanComment s cs with
      | (Throw e, cs') => (Throw e, cs')
      | (Return _ s', cs') => skipComments fuel' (skipWhiteSpace s') cs'
      end
    else (Return tt s, cs)
  end.

(** [lex] from [const charCode = input.charCodeAt(index)] on. *)
Definition lex_dispatch (s : Cursor) : Result (Token num) :=
  let charCode := charCodeAt (index s) in
  let next := charCodeAt (index s + 1) in
  let s := set_tokenStart s (index s) in
  let unexpected : Result (Token num) :=
    Throw (tokenError unexpectedSymbol (line s) (lineStart s)
             (index s, index s + 1) None) in
  if isIdentifierStart charCode then scanIdentifierOrKeyword s
  else if code_is 39 charCode || code_is 34 charCode then scanStringLiteral s
  else if code_between 48 57 charCode then scanNumericLiteral s
  else if code_is 46 charCode then                              (* . *)
    if isDecDigit next then scanNumericLiteral s
    else if code_is 46 next then
      if code_is 46 (charCodeAt (index s + 2)) then scanVarargLiteral s
      else scanPunctuator (js "..") s
    else scanPunctuator (js ".") s
  else if code_is 61 charCode then                              (* = *)
    if code_is 61 next then scanPunctuator (js "==") s
    else if code_is 62 next then scanPunctuator (js "=>") s
    else scanPunctuator (js "=") s
  else if code_is 62 charCode then                              (* > *)
    if bitwiseOperators features && code_is 62 next then scanPunctuator (js ">>") s
    else if code_is 61 next then scanPunctuator (js ">=") s
    else scanPunctuator (js ">") s
  else if code_is 60 charCode then                              (* < *)
    if bitwiseOperators features && code_is 60 next then scanPunctuator (js "<<") s
    else if code_is 61 next then scanPunctuator (js "<=") s
    else scanPunctuator (js "<") s
  else if code_is 126 charCode then                             (* ~ *)
    if code_is 61 next then scanPunctuator (js "~=") s
    else if negb (bitwiseOperators features) then unexpected
    else scanPunctuator (js "~") s
  else if code_is 58 charCode then                              (* : *)
    if labels features && code_is 58 next then scanPunctuator (js "::") s
    else scanPunctuator (js ":") s
  else if code_is 91 charCode then                              (* [ *)
    if code_is 91 next || code_is 61 next then scanLongStringLiteral s
    else scanPunctuator (js "[") s
  else if code_is 47 charCode then                              (* / *)
    if integerDivision features && code_is 47 next then scanPunctuator (js "//") s
    else scanPunctuator (js "/") s
  else if code_is 38 charCode then                              (* & *)
    if negb (bitwiseOperators features) then unexpected
    else scanPunctuator (charAt (index s)) s
  else if code_among [42; 94; 37; 44; 123; 125; 93; 40; 41; 59; 35; 45; 43; 124]%Z
            charCode
  then scanPunctuator (charAt (index s)) s
  else unexpected.

Definition lex (s : Cursor) (cs : option (list Comment)) : LexResult num :=
  let s := skipWhiteSpace s in
  match skipComments (length input - index s) s cs with
  | (Throw e, cs) => LexThrow e cs
  | (Return _ s, cs) =>
    if length input <=? index s then LexEnd s cs
    else
      match lex_dispatch s with
      | Return t s => LexToken t s cs
      | Throw e => LexThrow e cs
      end
  end.

(** *** The generator *)

(** [while (!consumeEOL()) index++;] has no bound of its own: [None] when
    [fuel] rounds did not reach a line terminator. *)
Fixpoint skipShebang (fuel : nat) (s : Cursor) : option Cursor :=
  match fuel with
  | O => None
  | S fuel' =>
    let (eol, s') := consumeEOL s in
    if eol then Some s' else skipShebang fuel' (set_index s (index s + 1))
  end.

Inductive Completion :=
| Finished                      (* [lex] answered [null]: the generator returns *)
| Raised (e : LexicalError).    (* a pull threw *)

(** What a consumer that pulls the generator to its end has seen: the
    tokens yielded, how the last pull ended, and the comments array. *)
Record Run := {
  tokens : list (Token num);
  completion : Completion;
  collected : option (list Comment)
}.

(** [while (true) { const token = lex(); ... }], [None] when [fuel] pulls
    did not reach the end. *)
Fixpoint pullAll (fuel : nat) (s : Cursor) (cs : option (list Comment))
    : option Run :=
  match fuel with
  | O => None
  | S fuel' =>
    match lex s cs with
    | LexToken t s cs =>
      match pullAll fuel' s cs with
      | Some r => Some {| tokens := t :: tokens r; completion := completion r;
                          collected := collected r |}
      | None => None
      end
    | LexEnd _ cs => Some {| tokens := []; completion := Finished; collected := cs |}
    | LexThrow e cs => Some {| tokens := []; completion := Raised e; collected := cs |}
    end
  end.

Definition start : Cursor :=
  {| index := 0; line := 1; lineStart := 0; tokenStart := 0 |}.

(** The body of [tokenize]; [cs] is the array [options.comments] (or
    [undefined]) as the call finds it. *)
Definition run (cs : option (list Comment)) (fuel : nat) : option Run :=
  if ignoreShebang options && jsstring_eqb (firstn 2 input) (js "#!") then
    match skipShebang fuel start with
    | Some s => pullAll fuel s cs
    | None => None
    end
  else pullAll fuel start cs.

End Closure.

Arguments Run num : clear implicits.

(** [tokenize(input, meta, options_)], pulled to its end with [fuel] rounds
    for each of its two unbounded loops.  [meta] only feeds error messages. *)
Definition tokenize {num} `{JsNumber num} (fuel : nat) (input : jsstring)
    (options_ : TokenizerOptions) : option (Run num) :=
  let options := resolveOptions options_ in
  run input options (comments options) fuel.

Definition noOptions : TokenizerOptions :=
  {| opt_comments := None; opt_luaVersion := None; opt_ignoreShebang := None;
     opt_extendedIdentifiers := None; opt_features := None |}.

Definition withVersion (v : LuaVersion) : TokenizerOptions :=
  {| opt_comments := None; opt_luaVersion := Some v; opt_ignoreShebang := None;
     opt_extendedIdentifiers := None; opt_features := None |}.

(** The options with only [features] given: its keys [const_] and
    [typeCheck], each present or not. *)
Definition withFeatures (const typeCheck : option bool) : TokenizerOptions :=
  {| opt_comments := None; opt_luaVersion := None; opt_ignoreShebang := None;
     opt_extendedIdentifiers := None;
     opt_features := Some {| opt_const_ := const; opt_typeCheck := typeCheck |} |}.

(** ** Exact numbers

    An implementation of the number operations by exact rationals, for the
    literals whose value needs no rounding. *)

Inductive ExactNumber :=
| Finite (q : Q)
| NotANumber.

Definition exact1 (f : Q -> Q) (a : ExactNumber) : ExactNumber :=
  match a with Finite x => Finite (Qred (f x)) | NotANumber => NotANumber end.

Definition exact2 (f : Q -> Q -> Q) (a b : ExactNumber) : ExactNumber :=
  match a, b with
  | Finite x, Finite y => Finite (Qred (f x y))
  | _, _ => NotANumber
  end.

(** [a / b]; a zero divisor does not occur in the tokenizer. *)
Definition exact_div (a b : ExactNumber) : ExactNumber :=
  match a, b with
  | Finite x, Finite y =>
    if Qeq_bool y 0 then NotANumber else Finite (Qred (x / y))
  | _, _ => NotANumber
  end.

(** [Math.pow(a, b)] for an integer [b]. *)
Definition exact_pow (a b : ExactNumber) : ExactNumber :=
  match a, b with
  | Finite x, Finite y =>
    if Pos.eqb (Qden (Qred y)) 1 then Finite (Qred (Qpower x (Qnum (Qred y))))
    else NotANumber
  | _, _ => NotANumber
  end.

Fixpoint decimalDigits (s : jsstring) : jsstring * jsstring :=
  match s with
  | c :: s' =>
    if ((48 <=? c) && (c <=? 57))%Z
    then let (d, r) := decimalDigits s' in (c :: d, r)
    else ([], s)
  | [] => ([], [])
  end.

Definition decimalNat (d : jsstring) : Z :=
  fold_left (fun acc c => (10 * acc + (c - 48))%Z) d 0%Z.

(** [parseFloat] on a decimal literal: digits, a fraction, an exponent. *)
Definition exact_parseFloat (s : jsstring) : ExactNumber :=
  let (ip, r1) := decimalDigits s in
  let (fp, r2) :=
    match r1 with
    | c :: r => if (c =? 46)%Z then decimalDigits r else ([], r1)
    | [] => ([], r1)
    end in
  let e : Z :=
    match r2 with
    | c :: r =>
      if ((c =? 101) || (c =? 69))%Z then
        let (sign, r') :=
          match r with
          | g :: t => if (g =? 43)%Z then (1%Z, t)
                      else if (g =? 45)%Z then ((-1)%Z, t) else (1%Z, r)
          | [] => (1%Z, r)
          end in
        (sign * decimalNat (fst (decimalDigits r')))%Z
      else 0%Z
    | [] => 0%Z
    end in
  match ip, fp with
  | [], [] => NotANumber
  | _, _ =>
    Finite (Qred (inject_Z (decimalNat (ip ++ fp))
                  * Qpower 10 (e - Z.of_nat (length fp))))
  end.

#[export] Instance ExactJsNumber : JsNumber ExactNumber := {
  num_of_Z := fun z => Finite (inject_Z z);
  num_NaN := NotANumber;
  num_add := exact2 Qplus;
  num_mul := exact2 Qmult;
  num_div := exact_div;
  Math_pow := exact_pow;
  parseFloat := exact_parseFloat
}.

(** ** Vocabulary of the statements *)

(** What a token is, without its location. *)
Definition summary {num} (t : Token num) : TokenType * Value num :=
  (type t, value t).

Definition summaries {num} (r : option (Run num))
    : option (list (TokenType * Value num) * Completion) :=
  match r with
  | Some r => Some (map summary (tokens r), completion r)
  | None => None
  end.

Definition raisedKind {num} (r : option (Run num)) : option ErrorKind :=
  match r with
  | Some r => match completion r with Raised e => Some (kind e) | Finished => None end
  | None => None
  end.

Definition quoted (q : Z) (body : jsstring) : jsstring := q :: body ++ [q].

(** The Punctuator token [scanPunctuator(text)] builds at a cursor whose
    [index] is the start of the token, and the cursor it leaves. *)
Definition punctuatorToken {num} (s : Cursor) (text : jsstring) : Token num :=
  {| type := Punctuator; value := VString text;
     tok_line := line s; tok_lineStart := lineStart s;
     lastLine := None; lastLineStart := None;
     range := (index s, index s + length text) |}.

Definition afterToken (s : Cursor) (n : nat) : Cursor :=
  {| index := index s + n; line := line s; lineStart := lineStart s;
     tokenStart := index s |}.

(** The next pull yields the punctuator [text]. *)
Definition lexesPunctuator {num} `{JsNumber num} (input : jsstring)
    (options : Options) (s : Cursor) (cs : option (list Comment))
    (text : string) : Prop :=
  lex (num := num) input options s cs =
    LexToken (punctuatorToken s (js text)) (afterToken s (length (js text))) cs.

(** The next pull raises [unexpectedSymbol] at the character under [index]. *)
Definition lexesUnexpected {num} `{JsNumber num} (input : jsstring)
    (options : Options) (s : Cursor) (cs : option (list Comment)) : Prop :=
  lex (num := num) input options s cs =
    LexThrow (tokenError unexpectedSymbol (line s) (lineStart s)
                (index s, index s + 1) None) cs.

(** The stages of the escape decoder that a feature opens or closes, in
    the order a character falls through them. *)
Inductive EscapeStage :=
| StageZ | StageX | StageU | StageStrict | StageLiteral.

Definition stageGate (f : Features) (st : EscapeStage) : bool :=
  match st with
  | StageZ => skipWhitespaceEscape f
  | StageX => hexEscapes f
  | StageU => unicodeEscapes f
  | StageStrict => strictEscapes f
  | StageLiteral => true
  end.

Definition stageAfter (st : EscapeStage) : option EscapeStage :=
  match st with
  | StageZ => Some StageX
  | StageX => Some StageU
  | StageU => Some StageStrict
  | StageStrict => Some StageLiteral
  | StageLiteral => None
  end.

(** The escapes decoded whatever the features: [a n r t v b f], a line
    terminator, a decimal digit. *)
Definition fixedEscape (ch : option Z) : bool :=
  code_among [97; 110; 114; 116; 118; 98; 102; 13; 10]%Z ch
  || code_between 48 57 ch.

(** The stage at which the character after the backslash enters: [z], [x]
    and [u] at their own, the backslash and the quotes at the last one, any
    other character (and the end of the input) at the strict check. *)
Definition stageOf (ch : option Z) : option EscapeStage :=
  if fixedEscape ch then None
  else if code_is 122 ch then Some StageZ
  else if code_is 120 ch then Some StageX
  else if code_is 117 ch then Some StageU
  else if code_among [92; 34; 39]%Z ch then Some StageLiteral
  else Some StageStrict.

(** A character reaches its own stage, and the next one when the gate of a
    stage it reached is closed. *)
Inductive reaches (f : Features) (ch : option Z) : EscapeStage -> Prop :=
| reaches_own st : stageOf ch = Some st -> reaches f ch st
| reaches_fall st st' :
    reaches f ch st -> stageGate f st = false -> stageAfter st = Some st' ->
    reaches f ch st'.

Definition hexValue (ch : option Z) : option Z :=
  match ch with
  | Some c =>
    if ((48 <=? c) && (c <=? 57))%Z then Some (c - 48)%Z
    else if ((97 <=? c) && (c <=? 102))%Z then Some (c - 87)%Z
    else if ((65 <=? c) && (c <=? 70))%Z then Some (c - 55)%Z
    else None
  | None => None
  end.

(** From [i] on the input holds white space and line terminators (tab,
    space, vertical tab, form feed, line feed, carriage return) up to [j],
    and none of them at [j]. *)
Definition skipsBlanks (input : jsstring) (i j : nat) : Prop :=
  i <= j
  /\ (forall k, i <= k < j ->
        code_among [9; 32; 11; 12; 10; 13]%Z (charCodeAt input k) = true)
  /\ code_among [9; 32; 11; 12; 10; 13]%Z (charCodeAt input j) = false.

(** What each stage does when its gate is open; [s] has [index] on the
    character after the backslash. *)
Definition stageBehaviour (input : jsstring) (st : EscapeStage) (s : Cursor)
    (r : Result jsstring) : Prop :=
  match st with
  | StageZ =>
    exists s', r = Return [] s' /\ skipsBlanks input (index s + 1) (index s')
  | StageX =>
    match hexValue (charCodeAt input (index s + 1)),
          hexValue (charCodeAt input (index s + 2)) with
    | Some h, Some l => r = Return [(16 * h + l)%Z] (set_index s (index s + 3))
    | _, _ => exists e, r = Throw e /\ kind e = hexDigitExpected
    end
  | StageU => r = readUnicodeEscapeSequence input s
  | StageStrict =>
    r = Throw (tokenError invalidEscape (line s) (lineStart s)
                 (index s, index s + 1) None)
  | StageLiteral => r = Return (charAt input (index s)) (set_index s (index s + 1))
  end.

(** The case of the [switch] of [readEscapeSequence] that stands for a
    stage. *)
Definition escapeCase (input : jsstring) (f : Features)
    (st : EscapeStage) : Cursor -> Result jsstring :=
  match st with
  | StageZ => escape_case_z input f
  | StageX => escape_case_x input f
  | StageU => escape_case_u input f
  | StageStrict => escape_case_default input f
  | StageLiteral => escape_case_quote input
  end.

(** A [features] object with the four keys the escape decoder reads. *)
Definition escapeFeatures (z x u strict : bool) : Features :=
  {| labels := false; contextualGoto := false; hexEscapes := x;
     skipWhitespaceEscape := z; strictEscapes := strict;
     unicodeEscapes := u; bitwiseOperators := false;
     integerDivision := false; const_ := false; typeCheck := false |}.

(** The options [o] with its [comments] key set to [c] or removed. *)
Definition withComments (o : TokenizerOptions) (c : option (list Comment))
    : TokenizerOptions :=
  {| opt_comments := c; opt_luaVersion := opt_luaVersion o;
     opt_ignoreShebang := opt_ignoreShebang o;
     opt_extendedIdentifiers := opt_extendedIdentifiers o;
     opt_features := opt_features o |}.

(** A result of [lex] without the comments array. *)
Definition forgetComments {num} (r : LexResult num) : LexResult num :=
  match r with
  | LexToken t s _ => LexToken t s None
  | LexEnd s _ => LexEnd s None
  | LexThrow e _ => LexThrow e None
  end.

Definition commentsOf {num} (r : LexResult num) : option (list Comment) :=
  match r with
  | LexToken _ _ cs => cs
  | LexEnd _ cs => cs
  | LexThrow _ cs => cs
  end.

(** [cs] with the comments [new] pushed to it. *)
Definition pushed (cs : option (list Comment)) (new : list Comment)
    : option (list Comment) :=
  match cs with Some l => Some (l ++ new) | None => None end.

(** A hexadecimal numeral as it is written: [0], [x] or [X], the integer
    digits, the digits after a [.] when there is one, and after [p] or [P]
    an optional sign and the decimal digits of the exponent. *)
Record HexLiteral := {
  hexX : Z;
  hexDigits : jsstring;
  hexFraction : option jsstring;
  hexExponent : option (Z * option Z * jsstring)
}.

Definition hexLiteralText (h : HexLiteral) : jsstring :=
  [48%Z; hexX h] ++ hexDigits h
  ++ match hexFraction h with Some f => 46%Z :: f | None => [] end
  ++ match hexExponent h with
     | Some (p, sign, e) =>
       p :: match sign with Some g => [g] | None => [] end ++ e
     | None => []
     end.

Definition isHexChar (c : Z) : bool := isHexDigit (Some c).
Definition isDecChar (c : Z) : bool := isDecDigit (Some c).

Definition nonEmpty (l : jsstring) : bool :=
  match l with [] => false | _ :: _ => true end.

(** The shape of a numeral, the digits of the exponent left aside. *)
Definition hexShaped (h : HexLiteral) : bool :=
  ((hexX h =? 120) || (hexX h =? 88))%Z
  && nonEmpty (hexDigits h) && forallb isHexChar (hexDigits h)
  && match hexFraction h with Some f => forallb isHexChar f | None => true end
  && match hexExponent h with
     | Some (p, sign, e) =>
       ((p =? 112) || (p =? 80))%Z
       && match sign with Some g => ((g =? 43) || (g =? 45))%Z | None => true end
       && forallb isDecChar e
     | None => true
     end.

(** A numeral the scanner accepts: an exponent has a digit. *)
Definition wellFormedHex (h : HexLiteral) : bool :=
  hexShaped h
  && match hexExponent h with
     | Some (_, _, e) => nonEmpty e
     | None => true
     end.

(** The character after the numeral does not go on with it. *)
Definition endsHexLiteral (h : HexLiteral) (next : option Z) : bool :=
  match hexExponent h with
  | Some _ => negb (isDecDigit next)
  | None =>
    negb (isHexDigit next) && negb (code_among [112; 80]%Z next)
    && match hexFraction h with
       | Some _ => true
       | None => negb (code_is 46 next)
       end
  end.

(** The numeral stops after [p], or after the sign of the exponent, and a
    character that is no decimal digit (and no sign, after [p]) follows. *)
Definition missesExponentDigit (h : HexLiteral) (next : option Z) : bool :=
  match hexExponent h with
  | Some (_, sign, []) =>
    negb (isDecDigit next)
    && match sign with
       | Some _ => true
       | None => negb (code_among [43; 45]%Z next)
       end
  | _ => false
  end.

(** Either way of ending: what the proof of the scan needs. *)
Definition hexScanEnds (h : HexLiteral) (next : option Z) : bool :=
  match hexExponent h with
  | Some (_, sign, e) =>
    negb (isDecDigit next)
    && (nonEmpty e
        || match sign with
           | Some _ => true
           | None => negb (code_among [43; 45]%Z next)
           end)
  | None => endsHexLiteral h next
  end.

(** A run of hex digits read base 16. *)
Definition hexNat (ds : jsstring) : Z :=
  fold_left (fun acc c => (16 * acc + or_default (hexValue (Some c)) 0)%Z) ds 0%Z.

(** [(Digit + Fraction) * BinaryExponent] *)
Definition hexLiteralValue {num} `{JsNumber num} (h : HexLiteral) : num :=
  let Digit := num_of_Z (hexNat (hexDigits h)) in
  let Fraction :=
    match hexFraction h with
    | Some (c :: f) =>
      num_div (num_of_Z (hexNat (c :: f)))
        (Math_pow (num_of_Z 16) (num_of_Z (Z.of_nat (length (c :: f)))))
    | _ => num_of_Z 0
    end in
  let BinaryExponent :=
    match hexExponent h with
    | Some (_, sign, e) =>
      Math_pow (num_of_Z 2)
        (num_mul (num_of_Z (decimalNat e))
           (num_of_Z (match sign with
                      | Some g => if (g =? 45)%Z then (-1)%Z else 1%Z
                      | None => 1%Z
                      end)))
    | None => num_of_Z 1
    end in
  num_mul (num_add Digit Fraction) BinaryExponent.

(** The NumericLiteral token of a numeral of [n] characters scanned from
    the cursor [s]. *)
Definition numericToken {num} (s : Cursor) (v : num) (n : nat) : Token num :=
  {| type := NumericLiteral; value := VNumber v;
     tok_line := line s; tok_lineStart := lineStart s;
     lastLine := None; lastLineStart := None;
     range := (index s, index s + n) |}.

(** A long bracket of [level] opens at [i]: ["["], [level] times ["="],
    ["["]. *)
Definition opensAt (input : jsstring) (level i : nat) : bool :=
  code_is 91 (charCodeAt input i)
  && forallb (fun k => code_is 61 (charCodeAt input (i + 1 + k))) (seq 0 level)
  && code_is 91 (charCodeAt input (i + 1 + level)).

(** A long bracket of [level] closes at [p]: ["]"], [level] times ["="],
    ["]"]. *)
Definition closesAt (input : jsstring) (level p : nat) : bool :=
  code_is 93 (charCodeAt input p)
  && forallb (fun k => code_is 61 (charCodeAt input (p + 1 + k))) (seq 0 level)
  && code_is 93 (charCodeAt input (p + 1 + level)).

(** The first position of the body of a long bracket whose opening
    sequence ends before [i]: a line terminator at [i] (LF, CR, or the two
    of them in either order) is skipped. *)
Definition bodyStart (input : jsstring) (i : nat) : nat :=
  if isLineTerminator (charCodeAt input i) then
    if (code_is 10 (charCodeAt input i) && code_is 13 (charCodeAt input (i + 1)))
       || (code_is 13 (charCodeAt input i) && code_is 10 (charCodeAt input (i + 1)))
    then i + 2 else i + 1
  else i.

(** A code unit of a JavaScript string. *)
Definition codeUnit (c : Z) : Prop := (0 <= c < 65536)%Z.

(** Every text [scanPunctuator] is called with. *)
Definition punctuators : list jsstring :=
  map js [".."; "."; "=="; "=>"; "="; ">>"; ">="; ">"; "<<"; "<="; "<";
          "~="; "~"; "::"; ":"; "["; "//"; "/"; "&"; "*"; "^"; "%"; ",";
          "{"; "}"; "]"; "("; ")"; ";"; "#"; "-"; "+"; "|"]%string.

(** A numeral begins with a digit, or with a dot and a digit. *)
Definition numeralStart (w : jsstring) : bool :=
  isDecDigit (hd_error w)
  || (code_is 46 (hd_error w) && isDecDigit (nth_error w 1)).

Definition hexPrefix (w : jsstring) : bool :=
  code_is 48 (hd_error w) && code_among [120; 88]%Z (nth_error w 1).

(** The token [t] is the lexeme [w] as it is written: what the value of a
    token of each kind is, given the characters of the source it was read
    from. *)
Definition spells {num} `{JsNumber num} (options : Options) (t : Token num)
    (w : jsstring) : Prop :=
  match type t with
  | Punctuator => value t = VString w /\ In w punctuators
  | VarargLiteral => value t = VString w /\ w = js "..."
  | Keyword => value t = VString w /\ isKeyword options w = true
  | Identifier =>
    value t = VString (fixupHighCharacters w)
    /\ isIdentifierStart options (hd_error w) = true
    /\ forallb (fun c => isIdentifierPart options (Some c)) w = true
  | BooleanLiteral =>
    (w = js "true" /\ value t = VBoolean true)
    \/ (w = js "false" /\ value t = VBoolean false)
  | NilLiteral => w = js "nil" /\ value t = VNull
  | NumericLiteral =>
    numeralStart w = true
    /\ (exists v, value t = VNumber v)
    /\ (hexPrefix w = false -> value t = VNumber (parseFloat w))
  | StringLiteral => True
  end.

(** The token [t], read by a scanner started at [s0] that stopped at [s'],
    has the range from the one to the other, and that range of the input
    spells it. *)
Definition tokenSpans {num} `{JsNumber num} (input : jsstring)
    (options : Options) (t : Token num) (s0 s' : Cursor) : Prop :=
  range t = (index s0, index s')
  /\ index s0 < index s' <= length input
  /\ spells options t (slice input (index s0) (index s')).

(** A scanner that stays on the line and keeps [tokenStart]. *)
Definition sameLine (s s' : Cursor) : Prop :=
  line s' = line s /\ lineStart s' = lineStart s /\ tokenStart s' = tokenStart s.

Local Open Scope Z_scope.
Definition byteUnit (b : Z) : Prop := (0 <= b <= 255)%Z.

Definition isContinuationByte (b : Z) : bool := (0x80 <=? b) && (b <=? 0xbf).

Definition utf8Shaped (bs : jsstring) : bool :=
  match bs with
  | [b0] => (0 <=? b0) && (b0 <=? 0x7f)
  | [b0; b1] => (0xc2 <=? b0) && (b0 <=? 0xdf) && isContinuationByte b1
  | [b0; b1; b2] =>
    (0xe0 <=? b0) && (b0 <=? 0xef) && isContinuationByte b1
    && isContinuationByte b2
  | [b0; b1; b2; b3] =>
    (0xf0 <=? b0) && (b0 <=? 0xf4) && isContinuationByte b1
    && isContinuationByte b2 && isContinuationByte b3
  | _ => false
  end.

(** A well-formed UTF-8 sequence of one code point, by the table of the
    Unicode Standard (table 3-7): the shortest form only, no surrogate,
    nothing above [0x10FFFF]. *)
Definition wellFormedUTF8 (bs : jsstring) : bool :=
  match bs with
  | [b0] => (0 <=? b0) && (b0 <=? 0x7f)
  | [b0; b1] => (0xc2 <=? b0) && (b0 <=? 0xdf) && isContinuationByte b1
  | [b0; b1; b2] =>
    ((b0 =? 0xe0) && (0xa0 <=? b1) && (b1 <=? 0xbf)
     || (0xe1 <=? b0) && (b0 <=? 0xec) && isContinuationByte b1
     || (b0 =? 0xed) && (0x80 <=? b1) && (b1 <=? 0x9f)
     || (0xee <=? b0) && (b0 <=? 0xef) && isContinuationByte b1)
    && isContinuationByte b2
  | [b0; b1; b2; b3] =>
    ((b0 =? 0xf0) && (0x90 <=? b1) && (b1 <=? 0xbf)
     || (0xf1 <=? b0) && (b0 <=? 0xf3) && isContinuationByte b1
     || (b0 =? 0xf4) && (0x80 <=? b1) && (b1 <=? 0x8f))
    && isContinuationByte b2 && isContinuationByte b3
  | _ => false
  end.

(** The number that the payload bits of a sequence spell: what is left of
    the lead byte after its length mark, then six bits of each byte that
    follows. *)
Definition utf8Value (bs : jsstring) : Z :=
  match bs with
  | [b0] => b0
  | [b0; b1] => (b0 - 0xc0) * 64 + (b1 - 0x80)
  | [b0; b1; b2] => (b0 - 0xe0) * 4096 + (b1 - 0x80) * 64 + (b2 - 0x80)
  | [b0; b1; b2; b3] =>
    (b0 - 0xf0) * 262144 + (b1 - 0x80) * 4096 + (b2 - 0x80) * 64 + (b3 - 0x80)
  | _ => 0
  end.

(** A code point of the surrogate range, which UTF-8 does not encode. *)
Definition isSurrogate (cp : Z) : bool := (0xd800 <=? cp) && (cp <=? 0xdfff).

(** The number of bytes of the UTF-8 encoding of a codepoint. *)
Definition utf8Length (cp : Z) : nat :=
  if cp <? 0x80 then 1%nat else if cp <? 0x800 then 2%nat
  else if cp <? 0x10000 then 3%nat else 4%nat.

(** One step of the fixup on a unit that begins no surrogate pair. *)
Definition fixupUnit (c : Z) : jsstring :=
  if (0 <=? c) && (c <=? 0x7f) then [c] else nullthrows (encodeUTF8 (Some c)).

Definition fixupPair (c d : Z) : jsstring :=
  nullthrows (encodeUTF8 (Some (0x10000 +
    Z.lor (Z.shiftl (Z.land c 0x3ff) 10) (Z.land d 0x3ff)))).

Definition startsPair (c : Z) (w : jsstring) : bool :=
  match w with d :: _ => isHighSurrogate c && isLowSurrogate d | [] => false end.

Local Open Scope nat_scope.

(** No line terminator stands in the input from [i] up to [j]. *)
Definition clearOfBreaks (input : jsstring) (i j : nat) : Prop :=
  forall k, i <= k < j -> isLineTerminator (charCodeAt input k) = false.

(** [ls] is where the line that holds the position [i] starts: at the
    beginning of the input or right after a line terminator, with no line
    terminator from there to [i]. *)
Definition lineStartsAt (input : jsstring) (ls i : nat) : Prop :=
  ls <= i
  /\ (ls = 0 \/ isLineTerminator (charCodeAt input (ls - 1)) = true)
  /\ clearOfBreaks input ls i.

(** The line breaks of [w] as [consumeEOL] counts them: a carriage return
    and a line feed next to each other, in either order, are one. *)
Fixpoint lineBreaks (w : jsstring) : nat :=
  match w with
  | [] => 0
  | c :: w' =>
    if isLineTerminator (Some c) then
      match w' with
      | d :: w'' =>
        if (c =? 10)%Z && (d =? 13)%Z || (c =? 13)%Z && (d =? 10)%Z
        then S (lineBreaks w'') else S (lineBreaks w')
      | [] => 1
      end
    else lineBreaks w'
  end.

(** The line counters of a cursor fit its position: the line breaks that
    are left from the cursor on are the ones that [line] has not
    counted. *)
Definition wellPlaced (input : jsstring) (s : Cursor) : Prop :=
  1 <= line s /\ lineStartsAt input (lineStart s) (index s)
  /\ line s + lineBreaks (skipn (index s) input) = 1 + lineBreaks input.

(** From [s] to [s'] the cursor went forward and kept its line counters
    right. *)
Definition passes (input : jsstring) (s s' : Cursor) : Prop :=
  index s <= index s' /\ line s <= line s'
  /\ (wellPlaced input s -> wellPlaced input s').

(** The same, within one token: [tokenStart] was not written. *)
Definition moves (input : jsstring) (s s' : Cursor) : Prop :=
  passes input s s' /\ tokenStart s' = tokenStart s.

(** From [s] to [s'] the cursor went forward on its line, within one
    token. *)
Definition advances (input : jsstring) (s s' : Cursor) : Prop :=
  line s' = line s /\ lineStart s' = lineStart s
  /\ tokenStart s' = tokenStart s
  /\ index s <= index s' /\ clearOfBreaks input (index s) (index s').

(** The token [t] was read from the cursor [s], which it left at [s']:
    its range is what was read, which is not empty and lies in the input;
    it is located on the line of its first character; a StringLiteral also
    tells the line it ends on, and any other token stays on its line. *)
Definition tokenPlaced {num} (input : jsstring) (t : Token num)
    (s s' : Cursor) : Prop :=
  range t = (index s, index s')
  /\ index s < index s' <= length input
  /\ tok_line t = line s /\ tok_lineStart t = lineStart s
  /\ match type t with
     | StringLiteral =>
       lastLine t = Some (line s') /\ lastLineStart t = Some (lineStart s')
     | _ =>
       lastLine t = None /\ lastLineStart t = None
       /\ line s' = line s /\ lineStart s' = lineStart s
     end
  /\ passes input s s'.

(** The line a token ends on: a StringLiteral tells it, any other token
    ends on the line it begins on. *)
Definition endLine {num} (t : Token num) : nat :=
  or_default (lastLine t) (tok_line t).

(** [t1] stands before [t2] in the input. *)
Definition precedes {num} (t1 t2 : Token num) : Prop :=
  snd (range t1) <= fst (range t2) /\ endLine t1 <= tok_line t2.

(** The range of [t] is not empty and lies in the input, and its lines
    are counted from 1, in order. *)
Definition inside {num} (input : jsstring) (t : Token num) : Prop :=
  fst (range t) < snd (range t) <= length input
  /\ 1 <= tok_line t <= endLine t.

(** The tokens read by [scanIdentifierOrKeyword]. *)
Definition isWord (ty : TokenType) : bool :=
  match ty with
  | Keyword | Identifier | BooleanLiteral | NilLiteral => true
  | _ => false
  end.

(** What [scanIdentifierOrKeyword] makes of the word [w]. *)
Definition wordType (options : Options) (w : jsstring) : TokenType :=
  if isKeyword options w then Keyword
  else if jsstring_eqb w (js "true") || jsstring_eqb w (js "false")
  then BooleanLiteral
  else if jsstring_eqb w (js "nil") then NilLiteral
  else Identifier.

Definition wordValue {num} (options : Options) (w : jsstring) : Value num :=
  match wordType options w with
  | BooleanLiteral => VBoolean (jsstring_eqb w (js "true"))
  | NilLiteral => VNull
  | _ => VString w
  end.

(** White space or a line terminator. *)
Definition isBlank (c : Z) : bool :=
  isWhiteSpace (Some c) || isLineTerminator (Some c).

(** The scanner the dispatcher hands a token to, by the character under
    the cursor (and the next ones). *)
Inductive scannedBy {num} `{JsNumber num} (input : jsstring) (options : Options)
    (s : Cursor) (t : Token num) (s' : Cursor) : Prop :=
| by_word :
    isIdentifierStart options (charCodeAt input (index s)) = true ->
    scanIdentifierOrKeyword input options s = Return t s' ->
    scannedBy input options s t s'
| by_string :
    code_is 39 (charCodeAt input (index s))
    || code_is 34 (charCodeAt input (index s)) = true ->
    scanStringLiteral input options s = Return t s' ->
    scannedBy input options s t s'
| by_number :
    isDecDigit (charCodeAt input (index s)) = true
    \/ (code_is 46 (charCodeAt input (index s)) = true
        /\ isDecDigit (charCodeAt input (index s + 1)) = true) ->
    scanNumericLiteral input s = Return t s' ->
    scannedBy input options s t s'
| by_long :
    code_is 91 (charCodeAt input (index s)) = true ->
    scanLongStringLiteral input s = Return t s' ->
    scannedBy input options s t s'
| by_vararg :
    slice input (index s) (index s + 3) = js "..." ->
    scanVarargLiteral s = Return t s' ->
    scannedBy input options s t s'
| by_punctuator (text : jsstring) :
    In text punctuators ->
    slice input (index s) (index s + length text) = text ->
    scanPunctuator text s = Return t s' ->
    scannedBy input options s t s'.

(** A character that stands for itself in a short string delimited by
    [q]: not the delimiter, not a backslash, not a line terminator. *)
Definition isPlain (q c : Z) : bool :=
  negb (c =? q)%Z && negb (c =? 92)%Z && negb (c =? 10)%Z && negb (c =? 13)%Z.

(** The StringLiteral token of [n] characters that begins at the cursor
    [s] and ends on the same line. *)
Definition stringToken {num} (s : Cursor) (v : jsstring) (n : nat) : Token num :=
  {| type := StringLiteral; value := VString v;
     tok_line := line s; tok_lineStart := lineStart s;
     lastLine := Some (line s); lastLineStart := Some (lineStart s);
     range := (index s, index s + n) |}.

(** A decimal numeral as it is written: the digits before the dot, the
    digits after a [.] when there is one, and after [e] or [E] an optional
    sign and the digits of the exponent. *)
Record DecLiteral := {
  decDigits : jsstring;
  decFraction : option jsstring;
  decExponent : option (Z * option Z * jsstring)
}.

Definition decLiteralText (d : DecLiteral) : jsstring :=
  decDigits d
  ++ match decFraction d with Some f => 46%Z :: f | None => [] end
  ++ match decExponent d with
     | Some (e, sign, ds) =>
       e :: match sign with Some g => [g] | None => [] end ++ ds
     | None => []
     end.

(** The shape of a numeral the dispatcher takes for a decimal one, the
    digits of the exponent left aside: it begins with a digit, or with a
    dot and a digit. *)
Definition decShaped (d : DecLiteral) : bool :=
  forallb isDecChar (decDigits d)
  && match decFraction d with Some f => forallb isDecChar f | None => true end
  && (nonEmpty (decDigits d)
      || match decFraction d with Some f => nonEmpty f | None => false end)
  && match decExponent d with
     | Some (e, sign, ds) =>
       ((e =? 101) || (e =? 69))%Z
       && match sign with Some g => ((g =? 43) || (g =? 45))%Z | None => true end
       && forallb isDecChar ds
     | None => true
     end.

(** A numeral the scanner accepts: an exponent has a digit. *)
Definition wellFormedDec (d : DecLiteral) : bool :=
  decShaped d
  && match decExponent d with
     | Some (_, _, ds) => nonEmpty ds
     | None => true
     end.

(** The character after the numeral does not go on with it (and does not
    make a hexadecimal prefix of a lone [0]). *)
Definition endsDecLiteral (d : DecLiteral) (next : option Z) : bool :=
  negb (isDecDigit next)
  && match decExponent d with
     | Some _ => true
     | None =>
       negb (code_among [101; 69]%Z next)
       && match decFraction d with
          | Some _ => true
          | None =>
            negb (code_is 46 next)
            && negb (jsstring_eqb (decDigits d) [48%Z]
                     && code_among [120; 88]%Z next)
          end
     end.

(** The numeral stops after [e], or after the sign of the exponent, and a
    character that is no decimal digit (and no sign, after [e]) follows. *)
Definition missesDecExponentDigit (d : DecLiteral) (next : option Z) : bool :=
  match decExponent d with
  | Some (_, sign, []) =>
    negb (isDecDigit next)
    && match sign with
       | Some _ => true
       | None => negb (code_among [43; 45]%Z next)
       end
  | _ => false
  end.

(** Either way of ending: what the proof of the scan needs. *)
Definition decScanEnds (d : DecLiteral) (next : option Z) : bool :=
  match decExponent d with
  | Some (_, sign, x) =>
    negb (isDecDigit next)
    && (nonEmpty x
        || match sign with
           | Some _ => true
           | None => negb (code_among [43; 45]%Z next)
           end)
  | None => endsDecLiteral d next
  end.

(** The character after the equals signs a text begins with. *)
Fixpoint afterEquals (t : jsstring) : option Z :=
  match t with
  | c :: t' => if (c =? 61)%Z then afterEquals t' else Some c
  | [] => None
  end.

(** The text of a comment, after [--], opens a long bracket. *)
Definition opensLongBracket (text : jsstring) : bool :=
  match text with
  | c :: t => (c =? 91)%Z && code_is 91 (afterEquals t)
  | [] => false
  end.

(** The comment that [scanComment] pushes for a line comment of text
    [text] read from the cursor [s]. *)
Definition lineComment (s : Cursor) (text : jsstring) : Comment :=
  {| comment_value := text;
     comment_raw := js "--" ++ text;
     comment_start :=
       {| pos_line := line s; pos_column := index s - lineStart s |};
     comment_end :=
       {| pos_line := line s;
          pos_column := index s + 2 + length text - lineStart s |};
     comment_range := (index s, index s + 2 + length text) |}.

(** What holds of every comment pushed to the comments array: its range
    lies in the input and begins with the two hyphens, its raw text is
    that range of the input, and the two lines of its location are the
    same one. *)
Definition commentPlaced (input : jsstring) (c : Comment) : Prop :=
  fst (comment_range c) + 2 <= snd (comment_range c) <= length input
  /\ comment_raw c
     = slice input (fst (comment_range c)) (snd (comment_range c))
  /\ firstn 2 (comment_raw c) = js "--"
  /\ pos_line (comment_start c) = pos_line (comment_end c).

(** [c1] ends before [c2] begins. *)
Definition commentBefore (c1 c2 : Comment) : Prop :=
  snd (comment_range c1) <= fst (comment_range c2).

(** The comments [new] were pushed, in this order, while the cursor went
    from [i] to [j]. *)
Definition pushedFrom (input : jsstring) (i : nat) (new : list Comment)
    (j : nat) : Prop :=
  Forall (commentPlaced input) new
  /\ StronglySorted commentBefore new
  /\ Forall (fun c => i <= fst (comment_range c)
                      /\ snd (comment_range c) <= j) new.

(** * Properties *)

Lemma jsstring_eqb_eq (a b : jsstring) : jsstring_eqb a b = true <-> a = b.
Proof.
  unfold jsstring_eqb. destruct (list_eq_dec Z.eq_dec a b); split; congruence.
Qed.

Lemma jsstring_eqb_refl (a : jsstring) : jsstring_eqb a a = true.
Proof. now apply jsstring_eqb_eq. Qed.

(** ** The keyword set *)

Section Keywords.

Variable options : Options.

Lemma isKeyword_In (id : jsstring) :
  isKeyword options id = true <-> In id (keywords options).
Proof.
  unfold isKeyword. rewrite existsb_exists. split.
  - intros (x & Hin & Heq). apply jsstring_eqb_eq in Heq. now subst.
  - intros Hin. exists id. split; [assumption | apply jsstring_eqb_refl].
Qed.

Lemma keywords_spec (id : jsstring) :
  In id (keywords options) <->
  In id baseKeywords
  \/ (id = js "goto"
      /\ labels (features options) = true
      /\ contextualGoto (features options) = false)
  \/ (id = js "declare" /\ typeCheck (features options) = true)
  \/ (id = js "const" /\ const_ (features options) = true).
Proof.
  unfold keywords. rewrite !in_app_iff.
  destruct (labels (features options)), (contextualGoto (features options)),
    (typeCheck (features options)), (const_ (features options));
    cbn [andb negb In]; intuition (try discriminate; subst; auto).
Qed.

End Keywords.

(** The features a call resolves: the version's table, and the two keys of
    [options.features]. *)
Lemma resolved_features (options_ : TokenizerOptions) :
  let f := features (resolveOptions options_) in
  let v := versionFeatures (or_default (opt_luaVersion options_) Lua51) in
  labels f = labels v
  /\ contextualGoto f = contextualGoto v
  /\ typeCheck f =
       match opt_features options_ with
       | Some o => or_default (opt_typeCheck o) false
       | None => false
       end
  /\ const_ f =
       match opt_features options_ with
       | Some o => or_default (opt_const_ o) false
       | None => false
       end.
Proof.
  destruct options_ as [c v i e [[k t]|]]; cbn;
    repeat split; try reflexivity; destruct v as [[]|]; reflexivity.
Qed.

Lemma feature_key_set (options_ : TokenizerOptions)
    (key : FeatureOptions -> option bool) :
  match opt_features options_ with
  | Some o => or_default (key o) false
  | None => false
  end = true <->
  exists o, opt_features options_ = Some o /\ key o = Some true.
Proof.
  destruct (opt_features options_) as [o|].
  - destruct (key o) as [[]|] eqn:E; cbn [or_default]; split.
    + intros _. exists o. now split.
    + reflexivity.
    + discriminate.
    + intros (o' & Ho & Hk). inversion Ho; subst. congruence.
    + discriminate.
    + intros (o' & Ho & Hk). inversion Ho; subst. congruence.
  - split; [discriminate | intros (o & Ho & _); discriminate].
Qed.

(** C7. The keyword set of a call is the set of the eighteen Lua keywords,
    with [goto] exactly when the version of the call has [labels] and no
    [contextualGoto], which are the versions 5.2 and 5.3, with [declare]
    exactly when the caller's [features.typeCheck] is set and [const]
    exactly when the caller's [features.const_] is set.  So the word [goto]
    is an Identifier under 5.1 and JIT and a Keyword under 5.2 and 5.3,
    [declare] and [const] are Keywords with their feature and Identifiers
    without, and each of the eighteen is a Keyword. *)
Theorem keyword_set_resolved :
  (forall (options_ : TokenizerOptions) (id : jsstring),
     let v := versionFeatures (or_default (opt_luaVersion options_) Lua51) in
     isKeyword (resolveOptions options_) id = true <->
     In id (map js ["do"; "if"; "in"; "or"; "and"; "end"; "for"; "not"; "else";
                    "then"; "break"; "local"; "until"; "while"; "elseif";
                    "repeat"; "return"; "function"]%string)
     \/ (id = js "goto" /\ labels v = true /\ contextualGoto v = false)
     \/ (id = js "declare"
         /\ exists o, opt_features options_ = Some o
                      /\ opt_typeCheck o = Some true)
     \/ (id = js "const"
         /\ exists o, opt_features options_ = Some o
                      /\ opt_const_ o = Some true))
  /\ (forall options_ : TokenizerOptions,
        isKeyword (resolveOptions options_) (js "goto") = true <->
        opt_luaVersion options_ = Some Lua52
        \/ opt_luaVersion options_ = Some Lua53)
  /\ (forall num (N : JsNumber num),
        summaries (tokenize (num := num) 2 (js "goto") (withVersion Lua51))
          = Some ([(Identifier, VString (js "goto"))], Finished)
        /\ summaries (tokenize (num := num) 2 (js "goto") (withVersion LuaJIT))
          = Some ([(Identifier, VString (js "goto"))], Finished)
        /\ summaries (tokenize (num := num) 2 (js "goto") (withVersion Lua52))
          = Some ([(Keyword, VString (js "goto"))], Finished)
        /\ summaries (tokenize (num := num) 2 (js "goto") (withVersion Lua53))
          = Some ([(Keyword, VString (js "goto"))], Finished)
        /\ summaries (tokenize (num := num) 2 (js "declare")
                        (withFeatures None (Some true)))
          = Some ([(Keyword, VString (js "declare"))], Finished)
        /\ summaries (tokenize (num := num) 2 (js "declare")
                        (withFeatures (Some true) None))
          = Some ([(Identifier, VString (js "declare"))], Finished)
        /\ summaries (tokenize (num := num) 2 (js "const")
                        (withFeatures (Some true) None))
          = Some ([(Keyword, VString (js "const"))], Finished)
        /\ summaries (tokenize (num := num) 2 (js "const")
                        (withFeatures None (Some true)))
          = Some ([(Identifier, VString (js "const"))], Finished)
        /\ forall id,
             In id (map js ["do"; "if"; "in"; "or"; "and"; "end"; "for"; "not";
                            "else"; "then"; "break"; "local"; "until"; "while";
                            "elseif"; "repeat"; "return"; "function"]%string) ->
             summaries (tokenize (num := num) 2 id noOptions)
               = Some ([(Keyword, VString id)], Finished)).
Proof.
  assert (Hset : forall (options_ : TokenizerOptions) (id : jsstring),
     let v := versionFeatures (or_default (opt_luaVersion options_) Lua51) in
     isKeyword (resolveOptions options_) id = true <->
     In id (map js ["do"; "if"; "in"; "or"; "and"; "end"; "for"; "not"; "else";
                    "then"; "break"; "local"; "until"; "while"; "elseif";
                    "repeat"; "return"; "function"]%string)
     \/ (id = js "goto" /\ labels v = true /\ contextualGoto v = false)
     \/ (id = js "declare"
         /\ exists o, opt_features options_ = Some o
                      /\ opt_typeCheck o = Some true)
     \/ (id = js "const"
         /\ exists o, opt_features options_ = Some o
                      /\ opt_const_ o = Some true)).
  { intros options_ id v. unfold v.
    rewrite isKeyword_In, keywords_spec.
    destruct (resolved_features options_) as (Hl & Hc & Ht & Hk).
    rewrite Hl, Hc, Ht, Hk.
    rewrite (feature_key_set options_ opt_typeCheck).
    rewrite (feature_key_set options_ opt_const_).
    reflexivity. }
  split; [exact Hset|]. split.
  - intros options_. rewrite Hset.
    destruct (opt_luaVersion options_) as [[]|]; cbn [or_default]; split;
      intros Hcase.
    all: try (destruct Hcase as [Hcase | Hcase]; discriminate Hcase).
    all: try (right; left; repeat split; reflexivity).
    all: try (now left). all: try (now right).
    all: destruct Hcase as [Hin | [(_ & Hl & Hc) | [(Hid & _) | (Hid & _)]]];
      try discriminate.
    all: cbn in Hin;
      repeat (destruct Hin as [Hin | Hin]; [discriminate Hin|]);
      contradiction.
  - intros num N. repeat split; try reflexivity.
    intros id Hin. cbn [map In] in Hin.
    repeat (destruct Hin as [<- | Hin]; [reflexivity|]). contradiction.
Qed.

Lemma keyword_set_resolved_witness :
  isKeyword (resolveOptions (withFeatures None (Some true))) (js "declare") = true
  /\ isKeyword (resolveOptions (withVersion LuaJIT)) (js "goto") = false.
Proof.
  split.
  - apply (proj1 keyword_set_resolved (withFeatures None (Some true))
             (js "declare")).
    right; right; left. split; [reflexivity|].
    eexists. split; reflexivity.
  - destruct (isKeyword (resolveOptions (withVersion LuaJIT)) (js "goto")) eqn:E;
      [|reflexivity].
    apply (proj1 (proj2 keyword_set_resolved) (withVersion LuaJIT)) in E.
    destruct E as [E | E]; discriminate E.
Defined.

(** ** Reading the input *)

(** Case analysis on the comparisons of character codes in the goal. *)
Ltac zbool :=
  repeat match goal with
         | |- context [(?a <=? ?b)%Z] => destruct (Z.leb_spec a b)
         | |- context [(?a <? ?b)%Z] => destruct (Z.ltb_spec a b)
         | |- context [(?a =? ?b)%Z] => destruct (Z.eqb_spec a b)
         end.

Ltac cursor_simpl :=
  unfold set_index, set_tokenStart in *;
  cbn [index line lineStart tokenStart fst snd] in *.

Lemma skipn_nth_cons {A} (l : list A) (a : nat) (c : A) :
  nth_error l a = Some c -> skipn a l = c :: skipn (S a) l.
Proof.
  revert a. induction l as [|x l IH]; intros [|a] E; cbn in *; try discriminate.
  - now inversion E.
  - now apply IH.
Qed.

Section Reading.

Variable input : jsstring.

Lemma charCodeAt_Some (i : nat) (c : Z) :
  charCodeAt input i = Some c -> i < length input.
Proof. unfold charCodeAt. intros E. apply nth_error_Some. congruence. Qed.

Lemma charCodeAt_None (i : nat) :
  length input <= i -> charCodeAt input i = None.
Proof. unfold charCodeAt. apply nth_error_None. Qed.

Lemma code_is_Some (k : Z) (o : option Z) :
  code_is k o = true <-> o = Some k.
Proof.
  destruct o as [c|]; cbn; [|split; discriminate].
  rewrite Z.eqb_eq. split; congruence.
Qed.

Lemma code_is_lt (k : Z) (i : nat) :
  code_is k (charCodeAt input i) = true -> i < length input.
Proof. rewrite code_is_Some. apply charCodeAt_Some. Qed.

Lemma code_between_lt (lo hi : Z) (i : nat) :
  code_between lo hi (charCodeAt input i) = true -> i < length input.
Proof.
  destruct (charCodeAt input i) eqn:E; [|discriminate].
  intros _. eapply charCodeAt_Some; eauto.
Qed.

Lemma code_among_lt (l : list Z) (i : nat) :
  code_among l (charCodeAt input i) = true -> i < length input.
Proof.
  destruct (charCodeAt input i) eqn:E; [|discriminate].
  intros _. eapply charCodeAt_Some; eauto.
Qed.

Lemma isHexDigit_lt (i : nat) :
  isHexDigit (charCodeAt input i) = true -> i < length input.
Proof.
  destruct (charCodeAt input i) eqn:E; [|discriminate].
  intros _. eapply charCodeAt_Some; eauto.
Qed.

Lemma isDecDigit_lt (i : nat) :
  isDecDigit (charCodeAt input i) = true -> i < length input.
Proof. apply code_between_lt. Qed.

Lemma isLineTerminator_lt (i : nat) :
  isLineTerminator (charCodeAt input i) = true -> i < length input.
Proof.
  destruct (charCodeAt input i) eqn:E; [|discriminate].
  intros _. eapply charCodeAt_Some; eauto.
Qed.

(** *** Slices *)

Lemma slice_length (a b : nat) :
  b <= length input -> length (slice input a b) = b - a.
Proof.
  intros Hb. unfold slice.
  rewrite length_firstn, length_skipn. lia.
Qed.

Lemma slice_empty (a b : nat) : b <= a -> slice input a b = [].
Proof. intros Hb. unfold slice. replace (b - a) with 0 by lia. reflexivity. Qed.

Lemma slice_nth (a b k : nat) :
  k < b - a -> nth_error (slice input a b) k = charCodeAt input (a + k).
Proof.
  intros Hk. unfold slice, charCodeAt.
  rewrite nth_error_firstn.
  destruct (Nat.ltb_spec k (b - a)); [|lia].
  apply nth_error_skipn.
Qed.

Lemma slice_cons (a b : nat) (c : Z) :
  charCodeAt input a = Some c -> a < b ->
  slice input a b = c :: slice input (S a) b.
Proof.
  unfold charCodeAt, slice. intros E Hab.
  replace (b - a) with (S (b - S a)) by lia.
  rewrite (skipn_nth_cons input a c E). reflexivity.
Qed.

Lemma slice_one (a : nat) (c : Z) :
  charCodeAt input a = Some c -> slice input a (a + 1) = [c].
Proof.
  intros E. rewrite (slice_cons a (a + 1) c E) by lia.
  rewrite slice_empty by lia. reflexivity.
Qed.

Lemma slice_two (a : nat) (c d : Z) :
  charCodeAt input a = Some c -> charCodeAt input (a + 1) = Some d ->
  slice input a (a + 2) = [c; d].
Proof.
  intros E1 E2. rewrite (slice_cons a (a + 2) c E1) by lia.
  replace (a + 1) with (S a) in E2 by lia.
  rewrite (slice_cons (S a) (a + 2) d E2) by lia.
  rewrite slice_empty by lia. reflexivity.
Qed.

Lemma slice_three (a : nat) (c d e : Z) :
  charCodeAt input a = Some c -> charCodeAt input (a + 1) = Some d ->
  charCodeAt input (a + 2) = Some e ->
  slice input a (a + 3) = [c; d; e].
Proof.
  intros E1 E2 E3. rewrite (slice_cons a (a + 3) c E1) by lia.
  replace (a + 1) with (S a) in E2 by lia.
  rewrite (slice_cons (S a) (a + 3) d E2) by lia.
  replace (a + 2) with (S (S a)) in E3 by lia.
  rewrite (slice_cons (S (S a)) (a + 3) e E3) by lia.
  rewrite slice_empty by lia. reflexivity.
Qed.

Lemma slice_Forall (P : Z -> Prop) (a b : nat) :
  (forall k c, a <= k < b -> charCodeAt input k = Some c -> P c) ->
  Forall P (slice input a b).
Proof.
  intros Hall. apply Forall_forall. intros c Hin.
  apply In_nth_error in Hin. destruct Hin as (k & Hk).
  assert (Hlen : k < length (slice input a b)).
  { apply nth_error_Some. congruence. }
  assert (Hk' : k < b - a).
  { unfold slice in Hlen. rewrite length_firstn in Hlen. lia. }
  rewrite slice_nth in Hk by assumption.
  apply (Hall (a + k)); [lia | assumption].
Qed.

(** *** The scanning loops *)

Section ScanWhile.

Variable p : option Z -> bool.
Hypothesis p_NaN : p None = false.

Lemma scanWhile_ge (fuel i : nat) : i <= scanWhile input p fuel i.
Proof.
  revert i. induction fuel as [|fuel IH]; intros i; cbn; [lia|].
  destruct (p (charCodeAt input i)); [|lia].
  specialize (IH (S i)). lia.
Qed.

Lemma scanWhile_run (fuel i k : nat) :
  i <= k < scanWhile input p fuel i -> p (charCodeAt input k) = true.
Proof.
  revert i. induction fuel as [|fuel IH]; intros i; cbn; [lia|].
  destruct (p (charCodeAt input i)) eqn:E; [|lia].
  intros Hk. destruct (Nat.eq_dec i k) as [->|Hne]; [assumption|].
  apply (IH (S i)). lia.
Qed.

Lemma scanWhile_le (fuel i : nat) :
  i <= length input -> scanWhile input p fuel i <= length input.
Proof.
  revert i. induction fuel as [|fuel IH]; intros i Hi; cbn; [lia|].
  destruct (p (charCodeAt input i)) eqn:E; [|lia].
  apply IH.
  destruct (charCodeAt input i) eqn:E'; [|congruence].
  apply charCodeAt_Some in E'. lia.
Qed.

(** With [length input - i] rounds the loop is left by its own test. *)
Lemma scanWhile_stop (fuel i : nat) :
  length input - i <= fuel ->
  p (charCodeAt input (scanWhile input p fuel i)) = false.
Proof.
  revert i. induction fuel as [|fuel IH]; intros i Hf; cbn.
  - rewrite charCodeAt_None by lia. assumption.
  - destruct (p (charCodeAt input i)) eqn:E; [|assumption].
    apply IH. lia.
Qed.

Lemma scanWhile_unique (fuel i j : nat) :
  i <= j -> j - i <= fuel ->
  (forall k, i <= k < j -> p (charCodeAt input k) = true) ->
  p (charCodeAt input j) = false ->
  scanWhile input p fuel i = j.
Proof.
  revert i. induction fuel as [|fuel IH]; intros i Hij Hf Hrun Hstop; cbn.
  - lia.
  - destruct (Nat.eq_dec i j) as [->|Hne].
    + now rewrite Hstop.
    + rewrite Hrun by lia. apply IH; try lia; try assumption.
      intros k Hk. apply Hrun. lia.
Qed.

Lemma scanAll_ge (i : nat) : i <= scanAll input p i.
Proof. apply scanWhile_ge. Qed.

Lemma scanAll_le (i : nat) : i <= length input -> scanAll input p i <= length input.
Proof. apply scanWhile_le. Qed.

Lemma scanAll_run (i k : nat) :
  i <= k < scanAll input p i -> p (charCodeAt input k) = true.
Proof. apply scanWhile_run. Qed.

Lemma scanAll_stop (i : nat) : p (charCodeAt input (scanAll input p i)) = false.
Proof. apply scanWhile_stop. lia. Qed.

Lemma scanAll_unique (i j : nat) :
  i <= j ->
  (forall k, i <= k < j -> p (charCodeAt input k) = true) ->
  p (charCodeAt input j) = false ->
  scanAll input p i = j.
Proof.
  intros Hij Hrun Hstop. apply scanWhile_unique; try assumption.
  destruct (Nat.eq_dec i j) as [->|Hne]; [lia|].
  assert (Hlt : j - 1 < length input).
  { specialize (Hrun (j - 1)).
    destruct (charCodeAt input (j - 1)) eqn:E.
    - eapply charCodeAt_Some; eauto.
    - rewrite p_NaN in Hrun. discriminate Hrun. lia. }
  lia.
Qed.

(** More rounds than [length input - i] change nothing. *)
Lemma scanWhile_fuel (fuel i : nat) :
  length input - i <= fuel ->
  scanWhile input p fuel i = scanAll input p i.
Proof.
  intros Hf. symmetry. apply scanAll_unique.
  - apply scanWhile_ge.
  - intros k Hk. eapply scanWhile_run; eauto.
  - now apply scanWhile_stop.
Qed.

End ScanWhile.

End Reading.

(** ** The shebang loop *)

Section Shebang.

Variable input : jsstring.

Lemma consumeEOL_false (s : Cursor) :
  isLineTerminator (charCodeAt input (index s)) = false ->
  consumeEOL input s = (false, s).
Proof. unfold consumeEOL. now intros ->. Qed.

Lemma consumeEOL_true (s : Cursor) :
  isLineTerminator (charCodeAt input (index s)) = true ->
  fst (consumeEOL input s) = true.
Proof. unfold consumeEOL. now intros ->. Qed.

(** With no line terminator ahead the loop never ends. *)
Lemma skipShebang_None (fuel : nat) (s : Cursor) :
  (forall i, index s <= i -> isLineTerminator (charCodeAt input i) = false) ->
  skipShebang input fuel s = None.
Proof.
  revert s. induction fuel as [|fuel IH]; intros s Hno; cbn; [reflexivity|].
  rewrite consumeEOL_false by (apply Hno; lia).
  apply IH. intros i Hi. apply Hno. cbn in Hi. lia.
Qed.

End Shebang.

Lemma no_terminator_in (l : jsstring) (i : nat) :
  Forall (fun c => c <> 10%Z /\ c <> 13%Z) l ->
  isLineTerminator (charCodeAt l i) = false.
Proof.
  intros Hall. unfold charCodeAt.
  destruct (nth_error l i) as [c|] eqn:E; [|reflexivity].
  apply nth_error_In in E. rewrite Forall_forall in Hall.
  destruct (Hall c E) as [H10 H13]. unfold isLineTerminator, code_is.
  apply Z.eqb_neq in H10, H13. now rewrite H10, H13.
Qed.

(** C9. The stream of an input that begins with [#!] is not always finite:
    under the default [ignoreShebang] the loop that skips the first line
    looks for a line terminator and does not stop at the end of the input,
    so on a first line that no terminator ends no number of rounds makes
    the first pull answer. *)
Theorem shebang_without_line_terminator_never_answers :
  forall num (N : JsNumber num) (rest : jsstring) (fuel : nat),
    Forall (fun c => c <> 10%Z /\ c <> 13%Z) rest ->
    tokenize (num := num) fuel (js "#!" ++ rest) noOptions = None.
Proof.
  intros num N rest fuel Hrest.
  unfold tokenize, run. cbn [resolveOptions noOptions opt_ignoreShebang
    ignoreShebang defaultOptions or_default andb].
  change (firstn 2 (js "#!" ++ rest)) with (js "#!").
  rewrite jsstring_eqb_refl.
  rewrite skipShebang_None; [reflexivity|].
  intros i _. apply no_terminator_in.
  apply Forall_app. split; [|assumption].
  repeat constructor; discriminate.
Qed.

Lemma shebang_without_line_terminator_witness :
  tokenize (num := ExactNumber) 1000 (js "#!" ++ js "/usr/bin/lua") noOptions = None.
Proof.
  apply (shebang_without_line_terminator_never_answers ExactNumber _
           (js "/usr/bin/lua") 1000).
  repeat constructor; discriminate.
Defined.

(** ** Short strings *)

(** C3. A quote that is the last character of the input opens a string
    that nothing closes, and yet no [unfinishedString] is raised: the loop
    of [scanStringLiteral], which holds the test for the end of the input,
    is not entered, and the scanner answers a StringLiteral whose value is
    the empty string. *)
Theorem final_opening_quote_yields_empty_string :
  forall num (N : JsNumber num) (input : jsstring) (options : Options)
         (s : Cursor) (q : Z),
    q = 34%Z \/ q = 39%Z ->
    charCodeAt input (index s) = Some q ->
    index s + 1 = length input ->
    lex_dispatch (num := num) input options s =
      Return {| type := StringLiteral; value := VString [];
                tok_line := line s; tok_lineStart := lineStart s;
                lastLine := Some (line s); lastLineStart := Some (lineStart s);
                range := (index s, index s + 1) |}
             {| index := index s + 1; line := line s; lineStart := lineStart s;
                tokenStart := index s |}.
Proof.
  intros num N input options s q Hq Hc Hlast.
  unfold lex_dispatch. rewrite Hc.
  assert (Hid : isIdentifierStart options (Some q) = false).
  { unfold isIdentifierStart.
    destruct Hq as [-> | ->]; cbn; now rewrite andb_false_r. }
  rewrite Hid.
  assert (Hquote : code_is 39 (Some q) || code_is 34 (Some q) = true).
  { destruct Hq as [-> | ->]; reflexivity. }
  rewrite Hquote.
  unfold scanStringLiteral. cbn [set_tokenStart set_index index line lineStart tokenStart].
  replace (length input - (index s + 1)) with 0 by lia.
  cbn [scanStringLiteral_loop]. cursor_simpl.
  rewrite slice_empty by lia. reflexivity.
Qed.

Lemma final_opening_quote_witness :
  summaries (tokenize (num := ExactNumber) 2 [34%Z] noOptions)
    = Some ([(StringLiteral, VString [])], Finished)
  /\ lex_dispatch (num := ExactNumber) [34%Z] defaultOptions start =
      Return {| type := StringLiteral; value := VString [];
                tok_line := 1; tok_lineStart := 0;
                lastLine := Some 1; lastLineStart := Some 0;
                range := (0, 1) |}
             {| index := 1; line := 1; lineStart := 0; tokenStart := 0 |}.
Proof.
  split; [reflexivity|].
  apply (final_opening_quote_yields_empty_string ExactNumber _ [34%Z]
           defaultOptions start 34%Z); [left | |]; reflexivity.
Defined.

(** ** Codepoint escapes *)

(** C5. A codepoint escape whose digits are all zeros is refused: the
    zeros are skipped before the digits are sliced, [parseInt] of the empty
    slice is [NaN], [encodeUTF8] answers [null] on it, and
    [tooLargeCodepoint] is raised for the codepoint 0.  The two examples of
    the specification behave as it says. *)
Theorem zero_codepoint_escape_is_refused :
  forall num (N : JsNumber num),
    raisedKind (tokenize (num := num) 2 (quoted 34 (js "\u{0}")) (withVersion Lua53))
      = Some tooLargeCodepoint
    /\ raisedKind (tokenize (num := num) 2 (quoted 34 (js "\u{000}")) (withVersion LuaJIT))
      = Some tooLargeCodepoint
    /\ encodeUTF8 (parseInt (js "0") 16) = Some [0%Z]
    /\ summaries (tokenize (num := num) 2 (quoted 34 (js "\u{48}\u{49}")) (withVersion Lua53))
      = Some ([(StringLiteral, VString (js "HI"))], Finished)
    /\ raisedKind (tokenize (num := num) 2 (quoted 34 (js "\u{110000}")) (withVersion Lua53))
      = Some tooLargeCodepoint.
Proof. intros num N. repeat split; reflexivity. Qed.

(** ** The dispatcher *)

Section Dispatch.

Context {num : Type} `{JsNumber num}.
Variable input : jsstring.
Variable options : Options.

Lemma skipWhiteSpace_at_token (s : Cursor) :
  isWhiteSpace (charCodeAt input (index s)) = false ->
  isLineTerminator (charCodeAt input (index s)) = false ->
  skipWhiteSpace input s = s.
Proof.
  intros Hw Hl. unfold skipWhiteSpace.
  destruct (length input - index s) as [|fuel]; [reflexivity|].
  cbn [skipWhiteSpace_loop]. rewrite Hw, (consumeEOL_false input s Hl).
  now destruct (index s <? length input).
Qed.

Lemma skipComments_at_token (fuel : nat) (s : Cursor) (cs : option (list Comment)) :
  code_is 45 (charCodeAt input (index s)) = false ->
  skipComments input fuel s cs = (Return tt s, cs).
Proof. intros Hc. destruct fuel; cbn; [reflexivity|]. now rewrite Hc. Qed.

(** On a character that is no white space, no line terminator and no
    hyphen, [lex] goes straight to its [switch]. *)
Lemma lex_at_token (s : Cursor) (cs : option (list Comment)) (c : Z) :
  charCodeAt input (index s) = Some c ->
  isWhiteSpace (Some c) = false ->
  isLineTerminator (Some c) = false ->
  c <> 45%Z ->
  lex (num := num) input options s cs =
    match lex_dispatch input options s with
    | Return t s' => LexToken t s' cs
    | Throw e => LexThrow e cs
    end.
Proof.
  intros Hc Hw Hl Hm. unfold lex.
  rewrite skipWhiteSpace_at_token by (rewrite Hc; assumption).
  rewrite skipComments_at_token
    by (rewrite Hc; cbn; now apply Z.eqb_neq).
  apply charCodeAt_Some in Hc.
  destruct (Nat.leb_spec (length input) (index s)); [lia | reflexivity].
Qed.

Lemma isIdentifierStart_low (c : Z) :
  (c < 65)%Z \/ (90 < c < 95)%Z \/ (c = 96)%Z \/ (122 < c < 128)%Z ->
  isIdentifierStart options (Some c) = false.
Proof.
  intros Hc. unfold isIdentifierStart, code_between, code_is, code_from.
  zbool; cbn; try lia; now rewrite ?andb_false_r.
Qed.

Section Punctuators.

Variable s : Cursor.
Variable cs : option (list Comment).
Variable c : Z.
Variable next : option Z.
Hypothesis at_index : charCodeAt input (index s) = Some c.
Hypothesis at_next : charCodeAt input (index s + 1) = next.

Let f := features options.
Let yields := lexesPunctuator (num := num) input options s cs.
Let unexpected := lexesUnexpected (num := num) input options s cs.

Ltac punctuator_case :=
  unfold yields, unexpected, lexesPunctuator, lexesUnexpected, f in *; intros;
  subst; rewrite (lex_at_token s cs _ at_index) by (reflexivity || discriminate);
  unfold lex_dispatch; rewrite at_index;
  rewrite isIdentifierStart_low by lia;
  repeat match goal with
         | E : _ = true |- _ => rewrite E
         | E : _ = false |- _ => rewrite E
         | E : charCodeAt _ _ = Some _ |- _ => rewrite E
         end;
  cbn - [Nat.add features];
  rewrite ?andb_false_r, ?andb_true_r;
  try (unfold charAt; change (nth_error input (index s)) with (charCodeAt input (index s));
       rewrite at_index);
  try reflexivity.

Lemma code_is_neq (k : Z) (o : option Z) : o <> Some k -> code_is k o = false.
Proof.
  intros Hne. destruct (code_is k o) eqn:E; [|reflexivity].
  apply code_is_Some in E. contradiction.
Qed.

(** C8. Punctuators of more than one character are recognised from the
    character under [index] and the one after it, behind their features:
    [>>] and [<<] need [bitwiseOperators] (without it [>] and [<] are read),
    [//] needs [integerDivision], [::] needs [labels]; [==], [=>], [>=],
    [<=] and [~=] need nothing; [~] before anything but [=], and [&], are
    punctuators under [bitwiseOperators] and raise [unexpectedSymbol]
    without it. *)
Theorem punctuator_recognition :
  (c = 62%Z -> next = Some 62%Z -> bitwiseOperators f = true -> yields ">>")
  /\ (c = 62%Z -> next = Some 62%Z -> bitwiseOperators f = false -> yields ">")
  /\ (c = 62%Z -> next = Some 61%Z -> yields ">=")
  /\ (c = 62%Z -> next <> Some 62%Z -> next <> Some 61%Z -> yields ">")
  /\ (c = 60%Z -> next = Some 60%Z -> bitwiseOperators f = true -> yields "<<")
  /\ (c = 60%Z -> next = Some 60%Z -> bitwiseOperators f = false -> yields "<")
  /\ (c = 60%Z -> next = Some 61%Z -> yields "<=")
  /\ (c = 60%Z -> next <> Some 60%Z -> next <> Some 61%Z -> yields "<")
  /\ (c = 47%Z -> next = Some 47%Z -> integerDivision f = true -> yields "//")
  /\ (c = 47%Z -> next = Some 47%Z -> integerDivision f = false -> yields "/")
  /\ (c = 47%Z -> next <> Some 47%Z -> yields "/")
  /\ (c = 58%Z -> next = Some 58%Z -> labels f = true -> yields "::")
  /\ (c = 58%Z -> next = Some 58%Z -> labels f = false -> yields ":")
  /\ (c = 58%Z -> next <> Some 58%Z -> yields ":")
  /\ (c = 61%Z -> next = Some 61%Z -> yields "==")
  /\ (c = 61%Z -> next = Some 62%Z -> yields "=>")
  /\ (c = 61%Z -> next <> Some 61%Z -> next <> Some 62%Z -> yields "=")
  /\ (c = 126%Z -> next = Some 61%Z -> yields "~=")
  /\ (c = 126%Z -> next <> Some 61%Z -> bitwiseOperators f = true -> yields "~")
  /\ (c = 126%Z -> next <> Some 61%Z -> bitwiseOperators f = false -> unexpected)
  /\ (c = 38%Z -> bitwiseOperators f = true -> yields "&")
  /\ (c = 38%Z -> bitwiseOperators f = false -> unexpected).
Proof.
  repeat match goal with |- _ /\ _ => split end;
    intros ->; intros;
    repeat match goal with
           | E : _ <> Some _ |- _ => apply code_is_neq in E
           end;
    punctuator_case.
Qed.

End Punctuators.

End Dispatch.

Lemma punctuator_recognition_witness :
  lexesPunctuator (num := ExactNumber) (js ">>=")
    (resolveOptions (withVersion Lua53)) start None ">>"
  /\ lexesPunctuator (num := ExactNumber) (js ">>=")
       (resolveOptions (withVersion Lua52)) start None ">"
  /\ lexesUnexpected (num := ExactNumber) (js "&")
       (resolveOptions (withVersion Lua51)) start None.
Proof.
  split; [|split].
  - destruct (punctuator_recognition (js ">>=") (resolveOptions (withVersion Lua53))
                start None 62%Z (Some 62%Z) eq_refl eq_refl) as (Hyes & _).
    apply Hyes; reflexivity.
  - destruct (punctuator_recognition (js ">>=") (resolveOptions (withVersion Lua52))
                start None 62%Z (Some 62%Z) eq_refl eq_refl) as (_ & Hno & _).
    apply Hno; reflexivity.
  - destruct (punctuator_recognition (js "&") (resolveOptions (withVersion Lua51))
                start None 38%Z None eq_refl eq_refl)
      as (_ & _ & _ & _ & _ & _ & _ & _ & _ & _ & _ & _ & _ & _ & _ & _ & _
          & _ & _ & _ & _ & Hamp).
    apply Hamp; reflexivity.
Defined.

(** ** The escape decoder *)

Lemma hexValue_isHexDigit (o : option Z) :
  isHexDigit o = true <-> exists v, hexValue o = Some v.
Proof.
  destruct o as [c|]; cbn.
  - unfold isHexDigit, code_between, hexValue.
    zbool; cbn; split; intros E; try discriminate; eauto;
      destruct E; discriminate.
  - split; [discriminate | intros (v & E); discriminate].
Qed.

Lemma hexValue_digitValue (c v : Z) :
  hexValue (Some c) = Some v ->
  digitValue c = Some v /\ (0 <= v < 16)%Z.
Proof.
  unfold hexValue, digitValue.
  zbool; cbn; intros E; inversion E; subst; split; try reflexivity; try lia.
Qed.

Lemma parseInt_two_hex (c1 c2 v1 v2 : Z) :
  hexValue (Some c1) = Some v1 -> hexValue (Some c2) = Some v2 ->
  parseInt [c1; c2] 16 = Some (16 * v1 + v2)%Z.
Proof.
  intros E1 E2.
  destruct (hexValue_digitValue _ _ E1) as (D1 & B1).
  destruct (hexValue_digitValue _ _ E2) as (D2 & B2).
  unfold parseInt. cbn [parseInt_from]. rewrite D1.
  destruct (Z.ltb_spec v1 16); [|lia].
  rewrite D2. destruct (Z.ltb_spec v2 16); [|lia].
  f_equal; lia.
Qed.

Section Escapes.

Variable input : jsstring.
Variable f : Features.

Lemma blank_codes (o : option Z) :
  code_among [9; 32; 11; 12; 10; 13]%Z o = isWhiteSpace o || isLineTerminator o.
Proof.
  destruct o as [c|]; [|reflexivity].
  unfold isWhiteSpace, isLineTerminator, code_among, code_is. cbn [existsb].
  destruct (c =? 9)%Z, (c =? 32)%Z, (c =? 11)%Z, (c =? 12)%Z, (c =? 10)%Z,
    (c =? 13)%Z; reflexivity.
Qed.

(** [consumeEOL] passes one line terminator, or two. *)
Lemma consumeEOL_passes (s : Cursor) :
  isLineTerminator (charCodeAt input (index s)) = true ->
  index s < index (snd (consumeEOL input s))
  /\ forall k, index s <= k < index (snd (consumeEOL input s)) ->
               isLineTerminator (charCodeAt input k) = true.
Proof.
  intros Hlt. unfold consumeEOL. rewrite Hlt. cbn [snd index].
  destruct (code_is 10 (charCodeAt input (index s))) eqn:H10;
    destruct (code_is 13 (charCodeAt input (index s))) eqn:H13;
    destruct (code_is 10 (charCodeAt input (index s + 1))) eqn:P10;
    destruct (code_is 13 (charCodeAt input (index s + 1))) eqn:P13;
    cbn [andb]; try (apply code_is_Some in H10, H13; congruence);
    (split; [lia|]); intros k Hk;
    (assert (Hk' : k = index s \/ k = index s + 1) by lia);
    destruct Hk' as [-> | ->]; try assumption; try lia;
    unfold isLineTerminator; rewrite ?P10, ?P13; reflexivity.
Qed.

Lemma skipWhiteSpace_loop_skips (fuel : nat) (s : Cursor) :
  length input - index s <= fuel ->
  skipsBlanks input (index s) (index (skipWhiteSpace_loop input fuel s)).
Proof.
  assert (Hstay : forall s : Cursor,
    isWhiteSpace (charCodeAt input (index s)) = false ->
    isLineTerminator (charCodeAt input (index s)) = false ->
    skipsBlanks input (index s) (index s)).
  { intros s0 Hw Hl. split; [lia|]. split; [intros k Hk; lia|].
    rewrite blank_codes, Hw, Hl. reflexivity. }
  assert (Hend : forall s : Cursor, length input <= index s ->
                                    skipsBlanks input (index s) (index s)).
  { intros s0 Hle. apply Hstay; now rewrite charCodeAt_None. }
  revert s. induction fuel as [|fuel IH]; intros s Hfuel;
    cbn [skipWhiteSpace_loop].
  - apply Hend. lia.
  - destruct (Nat.ltb_spec (index s) (length input)); [|now apply Hend].
    destruct (isWhiteSpace (charCodeAt input (index s))) eqn:Hw.
    + destruct (IH (set_index s (index s + 1))) as (Hle & Hall & Hstop);
        [cbn [index set_index]; lia|].
      cbn [index set_index] in Hle, Hall.
      split; [lia|]. split; [|exact Hstop].
      intros k Hk. destruct (Nat.eq_dec k (index s)) as [-> | Hne].
      * rewrite blank_codes, Hw. reflexivity.
      * apply Hall. lia.
    + destruct (isLineTerminator (charCodeAt input (index s))) eqn:Hl.
      * destruct (consumeEOL_passes s Hl) as (Hgt & Hbreaks).
        pose proof (consumeEOL_true input s Hl) as Heol.
        destruct (consumeEOL input s) as [eol s1]. cbn [fst snd] in *.
        subst eol.
        destruct (IH s1) as (Hle & Hall & Hstop); [lia|].
        split; [lia|]. split; [|exact Hstop].
        intros k Hk. destruct (Nat.lt_ge_cases k (index s1)) as [Hlt | Hge].
        -- rewrite blank_codes, (Hbreaks k) by lia. apply orb_true_r.
        -- apply Hall. lia.
      * rewrite (consumeEOL_false input s Hl). now apply Hstay.
Qed.

Lemma skipWhiteSpace_skips (s : Cursor) :
  skipsBlanks input (index s) (index (skipWhiteSpace input s)).
Proof. apply skipWhiteSpace_loop_skips. lia. Qed.

Lemma readEscapeSequenceWith_enters (s : Cursor) (st : EscapeStage) :
  stageOf (charCodeAt input (index s)) = Some st ->
  readEscapeSequenceWith input f s = escapeCase input f st s.
Proof.
  unfold readEscapeSequenceWith, stageOf, fixedEscape.
  destruct (charCodeAt input (index s)) as [c|]; cbn.
  - repeat match goal with
           | |- context [(c =? ?k)%Z] =>
             destruct (Z.eqb_spec c k) as [->|?]; cbn; [discriminate |]
           end.
    destruct ((48 <=? c)%Z && (c <=? 57)%Z); cbn; [discriminate|].
    repeat match goal with
           | |- context [(c =? ?k)%Z] =>
             destruct (Z.eqb_spec c k) as [->|?]; cbn;
             [intros E; inversion E; reflexivity |]
           end.
    intros E; inversion E; reflexivity.
  - intros E; inversion E; reflexivity.
Qed.

Lemma escapeCase_falls (s : Cursor) (st st' : EscapeStage) :
  stageGate f st = false ->
  stageAfter st = Some st' ->
  escapeCase input f st s = escapeCase input f st' s.
Proof.
  destruct st; cbn [stageGate stageAfter escapeCase]; intros Hg Ha;
    inversion Ha; subst; cbn [escapeCase].
  - unfold escape_case_z. now rewrite Hg.
  - unfold escape_case_x. now rewrite Hg.
  - unfold escape_case_u. now rewrite Hg.
  - unfold escape_case_default. now rewrite Hg.
Qed.

Lemma escapeCase_open (s : Cursor) (st : EscapeStage) :
  stageGate f st = true ->
  stageBehaviour input st s (escapeCase input f st s).
Proof.
  destruct st; cbn [stageGate stageBehaviour escapeCase]; intros Hg.
  - unfold escape_case_z. rewrite Hg. eexists. split; [reflexivity|].
    exact (skipWhiteSpace_skips (set_index s (index s + 1))).
  - unfold escape_case_x. rewrite Hg.
    destruct (isHexDigit (charCodeAt input (index s + 1))) eqn:E1.
    + apply hexValue_isHexDigit in E1 as (v1 & V1). rewrite V1.
      destruct (isHexDigit (charCodeAt input (index s + 2))) eqn:E2.
      * apply hexValue_isHexDigit in E2 as (v2 & V2). rewrite V2.
        cbn [andb]. cursor_simpl.
        destruct (charCodeAt input (index s + 1)) as [c1|] eqn:C1;
          [|discriminate].
        destruct (charCodeAt input (index s + 2)) as [c2|] eqn:C2;
          [|discriminate].
        replace (index s + 3) with (index s + 1 + 2) by lia.
        rewrite (slice_two input (index s + 1) c1 c2 C1)
          by (rewrite <- C2; f_equal; lia).
        rewrite (parseInt_two_hex c1 c2 v1 v2 V1 V2). cbn [or_default].
        destruct (hexValue_digitValue _ _ V1) as (_ & B1).
        destruct (hexValue_digitValue _ _ V2) as (_ & B2).
        unfold fromCharCode. rewrite Z.mod_small by lia. reflexivity.
      * cbn [andb].
        destruct (hexValue (charCodeAt input (index s + 2))) as [v2|] eqn:V2.
        -- assert (isHexDigit (charCodeAt input (index s + 2)) = true)
             by (apply hexValue_isHexDigit; eauto).
           congruence.
        -- eexists. split; reflexivity.
    + cbn [andb].
      destruct (hexValue (charCodeAt input (index s + 1))) as [v1|] eqn:V1.
      * assert (isHexDigit (charCodeAt input (index s + 1)) = true)
          by (apply hexValue_isHexDigit; eauto).
        congruence.
      * eexists. split; reflexivity.
  - unfold escape_case_u. now rewrite Hg.
  - unfold escape_case_default. now rewrite Hg.
  - reflexivity.
Qed.

Lemma reaches_case (s : Cursor) (st : EscapeStage) :
  reaches f (charCodeAt input (index s)) st ->
  readEscapeSequenceWith input f s = escapeCase input f st s.
Proof.
  induction 1 as [st Hown | st st' Hreach IH Hgate Hafter].
  - now apply readEscapeSequenceWith_enters.
  - rewrite IH. now apply escapeCase_falls.
Qed.

End Escapes.

(** C2. The escape decoder passes the character after the backslash
    through the stages z, x, u, strict check, literal, in this order,
    whatever the [features] object holds: a character enters at its own
    stage and falls to the next one when the feature of a stage is off, and
    the first stage whose feature is on decides: the white space and line
    terminators that follow are passed and nothing is emitted, the byte of
    two hex digits (or [hexDigitExpected]), the codepoint escape,
    [invalidEscape], and at last the character itself, which the backslash
    and the quotes always get.  The closure runs the decoder on the
    features of the call.  Under 5.1 the string ["\x41"] decodes to [x41],
    under 5.2 to [A]; ["a\z  b"] decodes to [az  b] under 5.1 and to [ab]
    under 5.2; an unknown escape is the character itself under 5.1 and
    raises [invalidEscape] under 5.2, where an escaped quote still is the
    quote. *)
Theorem escape_precedence :
  (forall (input : jsstring) (f : Features) (s : Cursor) (st : EscapeStage),
      reaches f (charCodeAt input (index s)) st ->
      stageGate f st = true ->
      stageBehaviour input st s (readEscapeSequenceWith input f s))
  /\ (forall (input : jsstring) (options : Options) (s : Cursor),
        readEscapeSequence input options s
        = readEscapeSequenceWith input (features options) s)
  /\ (forall num (N : JsNumber num),
        summaries (tokenize (num := num) 2 (quoted 34 (js "\x41")) (withVersion Lua51))
          = Some ([(StringLiteral, VString (js "x41"))], Finished)
        /\ summaries (tokenize (num := num) 2 (quoted 34 (js "\x41")) (withVersion Lua52))
          = Some ([(StringLiteral, VString (js "A"))], Finished)
        /\ summaries (tokenize (num := num) 2 (quoted 34 (js "a\z  b")) (withVersion Lua51))
          = Some ([(StringLiteral, VString (js "az  b"))], Finished)
        /\ summaries (tokenize (num := num) 2 (quoted 34 (js "a\z  b")) (withVersion Lua52))
          = Some ([(StringLiteral, VString (js "ab"))], Finished)
        /\ summaries (tokenize (num := num) 2 (quoted 34 (js "\q")) (withVersion Lua51))
          = Some ([(StringLiteral, VString (js "q"))], Finished)
        /\ raisedKind (tokenize (num := num) 2 (quoted 34 (js "\q")) (withVersion Lua52))
          = Some invalidEscape
        /\ summaries (tokenize (num := num) 2 (quoted 34 (js "\'")) (withVersion Lua52))
          = Some ([(StringLiteral, VString (js "'"))], Finished)).
Proof.
  split; [|split].
  - intros input f s st Hreach Hgate.
    rewrite (reaches_case input f s st Hreach).
    now apply escapeCase_open.
  - reflexivity.
  - intros num N. repeat split; reflexivity.
Qed.

Lemma escape_precedence_witness :
  readEscapeSequenceWith (quoted 34 (js "\z41")) (escapeFeatures false true false true)
      {| index := 2; line := 1; lineStart := 0; tokenStart := 0 |}
    = Return (js "A") {| index := 5; line := 1; lineStart := 0; tokenStart := 0 |}
  /\ readEscapeSequence (quoted 34 (js "\z41")) (resolveOptions (withVersion Lua51))
       {| index := 2; line := 1; lineStart := 0; tokenStart := 0 |}
     = Return (js "z") {| index := 3; line := 1; lineStart := 0; tokenStart := 0 |}.
Proof.
  split.
  - apply (proj1 escape_precedence (quoted 34 (js "\z41"))
             (escapeFeatures false true false true)
             {| index := 2; line := 1; lineStart := 0; tokenStart := 0 |}
             StageX).
    + apply (reaches_fall _ _ StageZ); [|reflexivity|reflexivity].
      apply reaches_own. reflexivity.
    + reflexivity.
  - rewrite (proj1 (proj2 escape_precedence)).
    apply (proj1 escape_precedence (quoted 34 (js "\z41"))
             (features (resolveOptions (withVersion Lua51)))
             {| index := 2; line := 1; lineStart := 0; tokenStart := 0 |}
             StageLiteral).
    + apply (reaches_fall _ _ StageStrict); [|reflexivity|reflexivity].
      apply (reaches_fall _ _ StageU); [|reflexivity|reflexivity].
      apply (reaches_fall _ _ StageX); [|reflexivity|reflexivity].
      apply (reaches_fall _ _ StageZ); [|reflexivity|reflexivity].
      apply reaches_own. reflexivity.
    + reflexivity.
Defined.

(** ** The comments array *)

Lemma pushed_nil (cs : option (list Comment)) : pushed cs [] = cs.
Proof. destruct cs; cbn; [now rewrite app_nil_r | reflexivity]. Qed.

Lemma pushed_pushed (cs : option (list Comment)) (a b : list Comment) :
  pushed (pushed cs a) b = pushed cs (a ++ b).
Proof. destruct cs; cbn; [now rewrite app_assoc | reflexivity]. Qed.

Section CommentsArray.

Context {num : Type} `{JsNumber num}.
Variable input : jsstring.
Variable options : Options.

(** [scanComment] moves the cursor the same way with and without the
    array, and only pushes to it. *)
Lemma scanComment_store (s : Cursor) (cs : option (list Comment)) :
  exists new,
    scanComment input s cs = (fst (scanComment input s None), pushed cs new).
Proof.
  unfold scanComment.
  destruct (if code_is 91 (charCodeAt input (index (set_index (set_tokenStart s (index s)) (index s + 2))))
            then _ else _) as [[content isLong] s1 | e].
  - destruct isLong; cbn [negb fst].
    + destruct cs as [l|]; [eexists; reflexivity | exists []; reflexivity].
    + destruct cs as [l|]; [eexists; reflexivity | exists []; reflexivity].
  - exists []. now rewrite pushed_nil.
Qed.

Lemma skipComments_store (fuel : nat) (s : Cursor) (cs : option (list Comment)) :
  exists new,
    skipComments input fuel s cs
      = (fst (skipComments input fuel s None), pushed cs new).
Proof.
  revert s cs. induction fuel as [|fuel IH]; intros s cs; cbn [skipComments].
  - exists []. now rewrite pushed_nil.
  - destruct (code_is 45 (charCodeAt input (index s))
              && code_is 45 (charCodeAt input (index s + 1))).
    + destruct (scanComment_store s cs) as (new1 & E1). rewrite E1.
      destruct (scanComment input s None) as [[[] s1 | e] cs0] eqn:E0;
        cbn [fst].
      * destruct (IH (skipWhiteSpace input s1) (pushed cs new1)) as (new2 & E2).
        rewrite E2. exists (new1 ++ new2). rewrite pushed_pushed.
        f_equal. f_equal.
        destruct (scanComment_store s None) as (new0 & E0').
        rewrite E0 in E0'. cbn in E0'. inversion E0'; subst. reflexivity.
      * exists new1. reflexivity.
    + exists []. now rewrite pushed_nil.
Qed.

Lemma lex_store (s : Cursor) (cs : option (list Comment)) :
  exists new,
    forgetComments (lex (num := num) input options s cs)
      = lex (num := num) input options s None
    /\ commentsOf (lex (num := num) input options s cs) = pushed cs new.
Proof.
  unfold lex.
  destruct (skipComments_store (length input - index (skipWhiteSpace input s))
              (skipWhiteSpace input s) cs) as (new & E).
  rewrite E. exists new.
  destruct (skipComments_store (length input - index (skipWhiteSpace input s))
              (skipWhiteSpace input s) None) as (new0 & E0).
  destruct (skipComments input (length input - index (skipWhiteSpace input s))
              (skipWhiteSpace input s) None) as [[[] s1 | e] cs0];
    cbn [fst] in *; inversion E0; subst; cbn [pushed].
  - destruct (length input <=? index s1); [split; reflexivity|].
    destruct (lex_dispatch input options s1); split; reflexivity.
  - split; reflexivity.
Qed.

Lemma pullAll_store (fuel : nat) (s : Cursor) (cs : option (list Comment)) :
  match pullAll (num := num) input options fuel s cs,
        pullAll (num := num) input options fuel s None with
  | Some r1, Some r0 =>
    tokens r1 = tokens r0 /\ completion r1 = completion r0
    /\ collected r0 = None
    /\ exists new, collected r1 = pushed cs new
  | None, None => True
  | _, _ => False
  end.
Proof.
  revert s cs. induction fuel as [|fuel IH]; intros s cs; cbn [pullAll].
  - exact I.
  - destruct (lex_store s cs) as (new & Hforget & Hstore).
    destruct (lex input options s cs) as [t s1 cs1 | s1 cs1 | e cs1];
      cbn in Hforget, Hstore; rewrite <- Hforget; subst cs1.
    + specialize (IH s1 (pushed cs new)).
      destruct (pullAll input options fuel s1 (pushed cs new)) as [r1|],
               (pullAll input options fuel s1 None) as [r0|];
        try contradiction; try exact I.
      destruct IH as (Ht & Hc & H0 & new' & Hn). cbn.
      repeat split; try congruence.
      exists (new ++ new'). now rewrite Hn, pushed_pushed.
    + cbn. repeat split. now exists new.
    + cbn. repeat split. now exists new.
Qed.

End CommentsArray.

(** C10. Two calls that differ only in whether a comments array is given
    yield the same tokens and end the same way, with the same error if
    any; the call that has the array leaves it with comments appended and
    nothing else changed. *)
Theorem comments_array_does_not_interfere :
  forall num (N : JsNumber num) (fuel : nat) (input : jsstring)
         (o : TokenizerOptions) (l : list Comment),
    match tokenize (num := num) fuel input (withComments o (Some l)),
          tokenize (num := num) fuel input (withComments o None) with
    | Some r1, Some r0 =>
      tokens r1 = tokens r0 /\ completion r1 = completion r0
      /\ collected r0 = None
      /\ exists new, collected r1 = Some (l ++ new)
    | None, None => True
    | _, _ => False
    end.
Proof.
  intros num N fuel input o l.
  unfold tokenize.
  change (comments (resolveOptions (withComments o (Some l)))) with (Some l).
  change (comments (resolveOptions (withComments o None))) with (@None (list Comment)).
  change (run input (resolveOptions (withComments o (Some l))))
    with (run (num := num) input (resolveOptions o)).
  change (run input (resolveOptions (withComments o None)))
    with (run (num := num) input (resolveOptions o)).
  unfold run.
  destruct (ignoreShebang (resolveOptions o)
            && jsstring_eqb (firstn 2 input) (js "#!")).
  - destruct (skipShebang input fuel start) as [s|]; [|exact I].
    apply (pullAll_store input (resolveOptions o) fuel s (Some l)).
  - apply (pullAll_store input (resolveOptions o) fuel start (Some l)).
Qed.

(** ** Reading from a known suffix *)

Section Suffix.

Variable input : jsstring.

Lemma suffix_hd (i : nat) (suf : jsstring) :
  skipn i input = suf -> charCodeAt input i = hd_error suf.
Proof.
  intros <-. unfold charCodeAt.
  rewrite <- (Nat.add_0_r i) at 1. rewrite <- nth_error_skipn.
  now destruct (skipn i input).
Qed.

Lemma suffix_app (i : nat) (a b : jsstring) :
  skipn i input = a ++ b -> skipn (i + length a) input = b.
Proof.
  intros E. rewrite Nat.add_comm, <- skipn_skipn, E.
  rewrite skipn_app, skipn_all, Nat.sub_diag. reflexivity.
Qed.

Lemma suffix_cons (i : nat) (c : Z) (b : jsstring) :
  skipn i input = c :: b -> skipn (i + 1) input = b.
Proof. intros E. apply (suffix_app i [c] b E). Qed.

Lemma suffix_slice (i : nat) (a b : jsstring) :
  skipn i input = a ++ b -> slice input i (i + length a) = a.
Proof.
  intros E. unfold slice. rewrite E.
  replace (i + length a - i) with (length a) by lia.
  rewrite firstn_app, firstn_all, Nat.sub_diag. cbn. now rewrite app_nil_r.
Qed.

Lemma suffix_nth (i k : nat) (suf : jsstring) :
  skipn i input = suf -> charCodeAt input (i + k) = nth_error suf k.
Proof. intros <-. unfold charCodeAt. now rewrite nth_error_skipn. Qed.

Lemma suffix_scan (p : option Z -> bool) (i : nat) (a b : jsstring) :
  p None = false ->
  skipn i input = a ++ b ->
  forallb (fun c => p (Some c)) a = true ->
  p (hd_error b) = false ->
  scanAll input p i = i + length a.
Proof.
  intros Hnan E Hrun Hstop. apply scanAll_unique; try assumption; try lia.
  - intros k Hk. replace k with (i + (k - i)) by lia.
    rewrite (suffix_nth i (k - i) _ E).
    rewrite nth_error_app1 by lia.
    destruct (nth_error a (k - i)) as [c|] eqn:En.
    + rewrite forallb_forall in Hrun. apply Hrun.
      eapply nth_error_In; eauto.
    + apply nth_error_None in En. lia.
  - rewrite (suffix_hd _ _ (suffix_app i a b E)). assumption.
Qed.

End Suffix.

(** ** Hexadecimal numerals *)

Lemma isHexChar_value (c : Z) :
  isHexChar c = true ->
  exists v, hexValue (Some c) = Some v /\ digitValue c = Some v /\ (0 <= v < 16)%Z.
Proof.
  intros Hc. apply hexValue_isHexDigit in Hc as (v & Hv).
  exists v. split; [assumption|]. now apply hexValue_digitValue.
Qed.

Lemma parseInt_from_hex (ds : jsstring) (a : Z) :
  forallb isHexChar ds = true ->
  parseInt_from 16 (Some a) ds
    = Some (fold_left (fun acc c => (16 * acc + or_default (hexValue (Some c)) 0)%Z) ds a).
Proof.
  revert a. induction ds as [|c ds IH]; intros a Hall; cbn [forallb] in Hall.
  - reflexivity.
  - apply andb_prop in Hall as (Hc & Hall).
    destruct (isHexChar_value c Hc) as (v & Hv & Dv & Bv).
    cbn [parseInt_from fold_left]. rewrite Dv, Hv. cbn [or_default].
    destruct (Z.ltb_spec v 16); [|lia]. now apply IH.
Qed.

Lemma parseInt_hex (ds : jsstring) :
  nonEmpty ds = true -> forallb isHexChar ds = true ->
  parseInt ds 16 = Some (hexNat ds).
Proof.
  destruct ds as [|c ds]; [discriminate|]. intros _ Hall.
  cbn [forallb] in Hall. apply andb_prop in Hall as (Hc & Hall).
  destruct (isHexChar_value c Hc) as (v & Hv & Dv & Bv).
  unfold parseInt, hexNat. cbn [parseInt_from fold_left]. rewrite Dv, Hv.
  cbn [or_default]. destruct (Z.ltb_spec v 16); [|lia]. now apply parseInt_from_hex.
Qed.

Lemma isDecChar_value (c : Z) :
  isDecChar c = true -> digitValue c = Some (c - 48)%Z /\ (0 <= c - 48 < 10)%Z.
Proof.
  unfold isDecChar, isDecDigit, code_between, digitValue.
  zbool; cbn; intros E; try discriminate; try lia; (split; [reflexivity | lia]).
Qed.

Lemma parseInt_from_dec (ds : jsstring) (a : Z) :
  forallb isDecChar ds = true ->
  parseInt_from 10 (Some a) ds
    = Some (fold_left (fun acc c => (10 * acc + (c - 48))%Z) ds a).
Proof.
  revert a. induction ds as [|c ds IH]; intros a Hall; cbn [forallb] in Hall.
  - reflexivity.
  - apply andb_prop in Hall as (Hc & Hall).
    destruct (isDecChar_value c Hc) as (Dv & Bv).
    cbn [parseInt_from fold_left]. rewrite Dv.
    destruct (Z.ltb_spec (c - 48) 10); [|lia]. now apply IH.
Qed.

Lemma parseInt_dec (ds : jsstring) :
  nonEmpty ds = true -> forallb isDecChar ds = true ->
  parseInt ds 10 = Some (decimalNat ds).
Proof.
  destruct ds as [|c ds]; [discriminate|]. intros _ Hall.
  cbn [forallb] in Hall. apply andb_prop in Hall as (Hc & Hall).
  destruct (isDecChar_value c Hc) as (Dv & Bv).
  unfold parseInt, decimalNat. cbn [parseInt_from fold_left]. rewrite Dv.
  destruct (Z.ltb_spec (c - 48) 10); [|lia]. now apply parseInt_from_dec.
Qed.

Lemma isHexChar_hd (ds : jsstring) :
  nonEmpty ds = true -> forallb isHexChar ds = true ->
  isHexDigit (hd_error ds) = true.
Proof.
  destruct ds as [|c ds]; [discriminate|]. cbn. intros _ E.
  now apply andb_prop in E as (E & _).
Qed.

Lemma isDecChar_hd (ds : jsstring) :
  nonEmpty ds = true -> forallb isDecChar ds = true ->
  isDecDigit (hd_error ds) = true.
Proof.
  destruct ds as [|c ds]; [discriminate|]. cbn. intros _ E.
  now apply andb_prop in E as (E & _).
Qed.

Lemma hd_error_app_nonEmpty (a b : jsstring) :
  nonEmpty a = true -> hd_error (a ++ b) = hd_error a.
Proof. destruct a; [discriminate | reflexivity]. Qed.


Lemma exponent_mark (p : Z) :
  ((p =? 112) || (p =? 80))%Z = true ->
  code_among [112; 80]%Z (Some p) = true /\ isHexDigit (Some p) = false
  /\ code_is 46 (Some p) = false.
Proof.
  intros Hp. apply orb_prop in Hp as [Hp | Hp]; apply Z.eqb_eq in Hp; subst;
    repeat split; reflexivity.
Qed.

Lemma sign_mark (g : Z) :
  ((g =? 43) || (g =? 45))%Z = true ->
  code_among [43; 45]%Z (Some g) = true
  /\ (if code_is 43 (Some g) then 1%Z else (-1)%Z)
     = (if (g =? 45)%Z then (-1)%Z else 1%Z).
Proof.
  intros Hg. apply orb_prop in Hg as [Hg | Hg]; apply Z.eqb_eq in Hg; subst;
    split; reflexivity.
Qed.

Lemma digit_not_sign (o : option Z) :
  isDecDigit o = true -> code_among [43; 45]%Z o = false.
Proof.
  destruct o as [c|]; [|discriminate].
  unfold isDecDigit, code_between, code_among. cbn.
  zbool; cbn; intros; try discriminate; try lia; reflexivity.
Qed.

Section Hex.
Context {num : Type} `{JsNumber num}.
Variable input : jsstring.

(** One scanning loop over a run of characters that is known. *)
Lemma scan_run (p : option Z -> bool) (i : nat) (a b : jsstring) :
  p None = false ->
  skipn i input = a ++ b ->
  forallb (fun c => p (Some c)) a = true ->
  p (hd_error b) = false ->
  scanAll input p i = i + length a
  /\ slice input i (i + length a) = a
  /\ skipn (i + length a) input = b.
Proof.
  intros Hnan E Hrun Hstop. repeat split.
  - now apply (suffix_scan input p i a b).
  - now apply (suffix_slice input i a b).
  - now apply (suffix_app input i a b).
Qed.

Lemma readHexLiteral_scan (s : Cursor) (h : HexLiteral) (rest : jsstring) :
  hexShaped h = true ->
  hexScanEnds h (hd_error rest) = true ->
  skipn (index s) input = hexLiteralText h ++ rest ->
  readHexLiteral (num := num) input s
    = match hexExponent h with
      | Some (_, _, []) =>
        Throw (tokenError malformedNumber (line s) (lineStart s)
                 (tokenStart s, index s + length (hexLiteralText h) + 1) None)
      | _ =>
        Return (hexLiteralValue h)
          (set_index s (index s + length (hexLiteralText h)))
      end.
Proof.
  intros Hwf Hend E.
  destruct h as [x ds F Ex]. unfold hexShaped in Hwf.
  cbn [hexX hexDigits hexFraction hexExponent] in Hwf.
  apply andb_prop in Hwf as (Hwf & HEx).
  apply andb_prop in Hwf as (Hwf & HF).
  apply andb_prop in Hwf as (Hwf & Hds).
  apply andb_prop in Hwf as (Hx & Hne).
  unfold hexLiteralText in *.
  cbn [hexX hexDigits hexFraction hexExponent] in *.
  unfold hexScanEnds, endsHexLiteral in Hend.
  cbn [hexExponent hexFraction] in Hend.
  unfold hexLiteralValue. cbn [hexX hexDigits hexFraction hexExponent].
  rewrite <- !app_assoc in E. cbn [app] in E.
  unfold readHexLiteral. cursor_simpl.
  set (i := index s) in *.
  assert (E2 := suffix_app input i [48%Z; x] _ E). cbn [length] in E2.
  rewrite (suffix_hd _ _ _ E2), hd_error_app_nonEmpty, (isHexChar_hd ds)
    by assumption.
  cbn [negb].
  (* what follows the fraction *)
  set (tailE := match Ex with
                | Some (p, sign, e) =>
                  p :: match sign with Some g => [g] | None => [] end ++ e
                | None => []
                end ++ rest) in *.
  assert (HtailE : isHexDigit (hd_error tailE) = false
                   /\ (F = None -> code_is 46 (hd_error tailE) = false)).
  { subst tailE. destruct Ex as [[[p sg] e]|]; cbn [app hd_error] in *.
    - apply andb_prop in HEx as (HEx & _). apply andb_prop in HEx as (Hp & _).
      destruct (exponent_mark p Hp) as (_ & Hh & Hd). now split.
    - apply andb_prop in Hend as (Hend & Hdot).
      apply andb_prop in Hend as (Hhex & _).
      split; [now apply negb_true_iff|].
      intros ->. now apply negb_true_iff. }
  destruct HtailE as (HtailE & Hdot).
  (* the integer digits *)
  destruct (scan_run isHexDigit (i + 2) ds _ eq_refl E2 Hds) as (S1 & L1 & E3).
  { destruct F as [f|]; [reflexivity | assumption]. }
  rewrite !S1, L1, (parseInt_hex ds Hne Hds). cbn [toNumber].
  rewrite (suffix_hd _ _ _ E3).
  set (i3 := i + 2 + length ds) in *.
  (* the fraction *)
  assert (Hfrac : exists i4,
    skipn i4 input = tailE /\
    i4 = i3 + length (match F with Some f => 46%Z :: f | None => [] end) /\
    (if code_is 46 (hd_error (match F with Some f => 46%Z :: f | None => [] end ++ tailE))
     then
       ((if i3 + 1 =? scanAll input isHexDigit (i3 + 1) then num_of_Z 0
         else num_div
                (toNumber (parseInt (slice input (i3 + 1) (scanAll input isHexDigit (i3 + 1))) 16))
                (Math_pow (num_of_Z 16)
                   (num_of_Z (Z.of_nat (scanAll input isHexDigit (i3 + 1) - (i3 + 1)))))),
        {| index := scanAll input isHexDigit (i3 + 1); line := line s;
           lineStart := lineStart s; tokenStart := tokenStart s |})
     else (num_of_Z 0,
           {| index := i3; line := line s; lineStart := lineStart s;
              tokenStart := tokenStart s |}))
    = (match F with
       | Some (c :: f) =>
         num_div (num_of_Z (hexNat (c :: f)))
           (Math_pow (num_of_Z 16) (num_of_Z (Z.of_nat (length (c :: f)))))
       | _ => num_of_Z 0
       end,
       {| index := i4; line := line s; lineStart := lineStart s;
          tokenStart := tokenStart s |})).
  { destruct F as [f|]; cbn [app hd_error] in *.
    - change (code_is 46 (Some 46%Z)) with true. cbn iota.
      assert (E4 := suffix_cons input i3 _ _ E3).
      destruct (scan_run isHexDigit (i3 + 1) f tailE eq_refl E4 HF HtailE)
        as (S2 & L2 & E5).
      exists (i3 + 1 + length f). rewrite !S2, L2.
      split; [assumption|]. split; [cbn [length]; lia|].
      destruct f as [|c f].
      + cbn [length]. rewrite Nat.add_0_r, Nat.eqb_refl. reflexivity.
      + destruct (Nat.eqb_spec (i3 + 1) (i3 + 1 + length (c :: f))) as [Heq|_].
        { cbn [length] in Heq. lia. }
        rewrite parseInt_hex by (assumption || reflexivity). cbn [toNumber].
        replace (i3 + 1 + length (c :: f) - (i3 + 1)) with (length (c :: f)) by lia.
        reflexivity.
    - exists i3. split; [assumption|]. split; [cbn [length]; lia|].
      rewrite (Hdot eq_refl). reflexivity. }
  destruct Hfrac as (i4 & E5 & Hi4 & ->).
  cursor_simpl. rewrite (suffix_hd _ _ _ E5).
  assert (Hlen : i + length (48%Z :: x :: ds
                   ++ match F with Some f => 46%Z :: f | None => [] end
                   ++ match Ex with
                      | Some (p, sign, e) =>
                        p :: match sign with Some g => [g] | None => [] end ++ e
                      | None => []
                      end)
                 = i4 + length match Ex with
                      | Some (p, sign, e) =>
                        p :: match sign with Some g => [g] | None => [] end ++ e
                      | None => []
                      end).
  { cbn [length]. rewrite !length_app. subst i3. lia. }
  cbn [app]. rewrite Hlen. clear Hlen Hdot HtailE.
  subst tailE. destruct Ex as [[[p sg] e]|]; cbn [app hd_error length] in *.
  - (* an exponent *)
    apply andb_prop in HEx as (HEx & He).
    apply andb_prop in HEx as (Hp & Hsg).
    destruct (exponent_mark p Hp) as (-> & _ & _).
    assert (E6 := suffix_cons input i4 _ _ E5).
    apply andb_prop in Hend as (Hstop & Hsign).
    apply negb_true_iff in Hstop.
    destruct sg as [g|]; cbn [app length] in *.
    + destruct (sign_mark g Hsg) as (Hg1 & Hg2).
      rewrite (suffix_hd _ _ _ E6). cbn [hd_error]. rewrite Hg1, Hg2.
      cursor_simpl.
      assert (E7 := suffix_cons input (i4 + 1) _ _ E6).
      rewrite (suffix_hd _ _ _ E7).
      destruct e as [|c e].
      * cbn [app] in *. rewrite Hstop. cbn [negb length].
        unfold tokenError; repeat (f_equal; try lia).
      * rewrite hd_error_app_nonEmpty, (isDecChar_hd (c :: e)) by (assumption || reflexivity).
        cbn [negb].
        destruct (scan_run isDecDigit (i4 + 1 + 1) (c :: e) rest eq_refl E7 He Hstop)
          as (S3 & L3 & _).
        rewrite !S3, L3, (parseInt_dec (c :: e) eq_refl He). cbn [toNumber].
        rewrite ?length_app. cbn [length].
        repeat (f_equal; try lia).
    + destruct e as [|c e].
      * cbn [app orb nonEmpty] in *. apply negb_true_iff in Hsign.
        rewrite (suffix_hd _ _ _ E6), Hsign. cursor_simpl.
        rewrite (suffix_hd _ _ _ E6), Hstop. cbn [negb length].
        unfold tokenError; repeat (f_equal; try lia).
      * rewrite (suffix_hd _ _ _ E6), hd_error_app_nonEmpty by reflexivity.
        rewrite (digit_not_sign _ (isDecChar_hd (c :: e) eq_refl He)).
        cursor_simpl.
        rewrite (suffix_hd _ _ _ E6), hd_error_app_nonEmpty,
          (isDecChar_hd (c :: e)) by (assumption || reflexivity).
        cbn [negb].
        destruct (scan_run isDecDigit (i4 + 1) (c :: e) rest eq_refl E6 He Hstop)
          as (S3 & L3 & _).
        rewrite !S3, L3, (parseInt_dec (c :: e) eq_refl He). cbn [toNumber].
        repeat (f_equal; try lia).
  - (* no exponent *)
    assert (Hp : code_among [112; 80]%Z (hd_error rest) = false).
    { apply andb_prop in Hend as (Hend & _).
      apply andb_prop in Hend as (_ & Hp). now apply negb_true_iff. }
    rewrite Hp. repeat (f_equal; try lia).
Qed.

End Hex.

Section HexTokens.

Context {num : Type} `{JsNumber num}.
Variable input : jsstring.
Variable options : Options.

Lemma lex_dispatch_hex (s : Cursor) (x : Z) :
  charCodeAt input (index s) = Some 48%Z ->
  charCodeAt input (index s + 1) = Some x ->
  ((x =? 120) || (x =? 88))%Z = true ->
  lex_dispatch (num := num) input options s
    = match readHexLiteral input (set_tokenStart s (index s)) with
      | Return v s' =>
        Return (mkToken NumericLiteral (VNumber v) (line s') (lineStart s')
                  (tokenStart s', index s')) s'
      | Throw e => Throw e
      end.
Proof.
  intros H0 Hx Hxx. unfold lex_dispatch. rewrite H0.
  rewrite isIdentifierStart_low by lia.
  cbn [code_is code_between Z.eqb Pos.eqb Z.leb Z.compare Pos.compare
       Pos.compare_cont orb andb].
  unfold scanNumericLiteral. cursor_simpl. rewrite H0, Hx.
  unfold code_among. cbn [code_is existsb Z.eqb Pos.eqb andb].
  rewrite orb_false_r, Hxx. reflexivity.
Qed.

Lemma hex_literal_token (s : Cursor) (h : HexLiteral) (rest : jsstring) :
  wellFormedHex h = true ->
  endsHexLiteral h (hd_error rest) = true ->
  skipn (index s) input = hexLiteralText h ++ rest ->
  lex_dispatch (num := num) input options s
    = Return (numericToken s (hexLiteralValue h) (length (hexLiteralText h)))
        (afterToken s (length (hexLiteralText h))).
Proof.
  intros Hwf Hend E.
  unfold wellFormedHex in Hwf. apply andb_prop in Hwf as (Hshape & Hexp).
  assert (Hx : ((hexX h =? 120) || (hexX h =? 88))%Z = true).
  { unfold hexShaped in Hshape.
    repeat (apply andb_prop in Hshape as (Hshape & _)). assumption. }
  assert (E' := E). unfold hexLiteralText in E'.
  rewrite <- !app_assoc in E'. cbn [app] in E'.
  rewrite (lex_dispatch_hex s (hexX h)); try assumption.
  - rewrite (readHexLiteral_scan input (set_tokenStart s (index s)) h rest);
      try assumption.
    + destruct (hexExponent h) as [[[p sg] [|c e]]|]; try discriminate;
        reflexivity.
    + unfold hexScanEnds, endsHexLiteral in *.
      destruct (hexExponent h) as [[[p sg] e]|]; [|assumption].
      rewrite Hend, Hexp. reflexivity.
  - now rewrite (suffix_hd _ _ _ E').
  - rewrite (suffix_nth input (index s) 1 _ E'). reflexivity.
Qed.

Lemma hex_literal_without_digit (s : Cursor) (x : Z) :
  charCodeAt input (index s) = Some 48%Z ->
  charCodeAt input (index s + 1) = Some x ->
  x = 120%Z \/ x = 88%Z ->
  isHexDigit (charCodeAt input (index s + 2)) = false ->
  lex_dispatch (num := num) input options s
    = Throw (tokenError malformedNumber (line s) (lineStart s)
               (index s, index s + 2) None).
Proof.
  intros H0 Hx Hxx Hno.
  rewrite (lex_dispatch_hex s x); try assumption.
  - unfold readHexLiteral. cursor_simpl. rewrite Hno. reflexivity.
  - destruct Hxx as [-> | ->]; reflexivity.
Qed.

Lemma hex_literal_without_exponent_digit (s : Cursor) (h : HexLiteral)
    (rest : jsstring) :
  hexShaped h = true ->
  missesExponentDigit h (hd_error rest) = true ->
  skipn (index s) input = hexLiteralText h ++ rest ->
  lex_dispatch (num := num) input options s
    = Throw (tokenError malformedNumber (line s) (lineStart s)
               (index s, index s + length (hexLiteralText h) + 1) None).
Proof.
  intros Hshape Hmiss E.
  assert (Hx : ((hexX h =? 120) || (hexX h =? 88))%Z = true).
  { unfold hexShaped in Hshape.
    repeat (apply andb_prop in Hshape as (Hshape & _)). assumption. }
  assert (E' := E). unfold hexLiteralText in E'.
  rewrite <- !app_assoc in E'. cbn [app] in E'.
  rewrite (lex_dispatch_hex s (hexX h)); try assumption.
  - rewrite (readHexLiteral_scan input (set_tokenStart s (index s)) h rest);
      try assumption.
    + unfold missesExponentDigit in Hmiss.
      destruct (hexExponent h) as [[[p sg] [|c e]]|]; try discriminate.
      reflexivity.
    + unfold hexScanEnds, missesExponentDigit in *.
      destruct (hexExponent h) as [[[p sg] [|c e]]|]; try discriminate.
      assumption.
  - now rewrite (suffix_hd _ _ _ E').
  - rewrite (suffix_nth input (index s) 1 _ E'). reflexivity.
Qed.

End HexTokens.

(** C1, as the code has it.  A hexadecimal numeral [0x] or [0X], one or
    more hex digits, an optional [.] with hex digits, an optional [p] or
    [P] with an optional sign and one or more decimal digits, is read up to
    its last character and its NumericLiteral token has the value
    [(Digit + Fraction) * 2^(sign * exponent)], with [Fraction] the
    fraction digits read base 16 over [16^(their number)], 0 when there is
    none, and the exponent factor 1 without [p].  The digits before the
    [.] are required: with no hex digit right after the prefix, or no
    decimal digit after [p] and its sign, [malformedNumber] is raised.  So
    [0x1p4] is 16, [0x1.8p1] is 3, [0x0.8p0] is 0.5, and [0x.8p0] is
    malformed. *)
Theorem hex_literal_decoding :
  (forall num (N : JsNumber num) (input : jsstring) (options : Options)
          (s : Cursor) (h : HexLiteral) (rest : jsstring),
      wellFormedHex h = true ->
      endsHexLiteral h (hd_error rest) = true ->
      skipn (index s) input = hexLiteralText h ++ rest ->
      lex_dispatch (num := num) input options s
        = Return (numericToken s (hexLiteralValue h) (length (hexLiteralText h)))
            (afterToken s (length (hexLiteralText h))))
  /\ (forall num (N : JsNumber num) (input : jsstring) (options : Options)
             (s : Cursor) (x : Z),
        charCodeAt input (index s) = Some 48%Z ->
        charCodeAt input (index s + 1) = Some x ->
        x = 120%Z \/ x = 88%Z ->
        isHexDigit (charCodeAt input (index s + 2)) = false ->
        lex_dispatch (num := num) input options s
          = Throw (tokenError malformedNumber (line s) (lineStart s)
                     (index s, index s + 2) None))
  /\ (forall num (N : JsNumber num) (input : jsstring) (options : Options)
             (s : Cursor) (h : HexLiteral) (rest : jsstring),
        hexShaped h = true ->
        missesExponentDigit h (hd_error rest) = true ->
        skipn (index s) input = hexLiteralText h ++ rest ->
        lex_dispatch (num := num) input options s
          = Throw (tokenError malformedNumber (line s) (lineStart s)
                     (index s, index s + length (hexLiteralText h) + 1) None))
  /\ summaries (tokenize (num := ExactNumber) 2 (js "0x1p4") noOptions)
       = Some ([(NumericLiteral, VNumber (Finite 16))], Finished)
  /\ summaries (tokenize (num := ExactNumber) 2 (js "0x1.8p1") noOptions)
       = Some ([(NumericLiteral, VNumber (Finite 3))], Finished)
  /\ summaries (tokenize (num := ExactNumber) 2 (js "0x0.8p0") noOptions)
       = Some ([(NumericLiteral, VNumber (Finite (1 # 2)))], Finished)
  /\ raisedKind (tokenize (num := ExactNumber) 2 (js "0x.8p0") noOptions)
       = Some malformedNumber.
Proof.
  split; [|split; [|split]].
  - intros num N input options s h rest Hwf Hend E.
    now apply (hex_literal_token input options s h rest).
  - intros num N input options s x H0 Hx Hxx Hno.
    now apply (hex_literal_without_digit input options s x).
  - intros num N input options s h rest Hshape Hmiss E.
    now apply (hex_literal_without_exponent_digit input options s h rest).
  - repeat split; reflexivity.
Qed.

Lemma hex_literal_decoding_witness :
  lex_dispatch (num := ExactNumber) (js "0x1.8p1") defaultOptions start
    = Return (numericToken start (Finite 3) 7) (afterToken start 7)
  /\ lex_dispatch (num := ExactNumber) (js "0x1p+") defaultOptions start
    = Throw (tokenError malformedNumber 1 0 (0, 6) None).
Proof.
  destruct hex_literal_decoding as (Hvalue & _ & Hexponent & _).
  split.
  - exact (Hvalue ExactNumber _ (js "0x1.8p1") defaultOptions start
             {| hexX := 120; hexDigits := js "1"; hexFraction := Some (js "8");
                hexExponent := Some (112%Z, None, js "1") |} []
             eq_refl eq_refl eq_refl).
  - exact (Hexponent ExactNumber _ (js "0x1p+") defaultOptions start
             {| hexX := 120; hexDigits := js "1"; hexFraction := None;
                hexExponent := Some (112%Z, Some 43%Z, []) |} []
             eq_refl eq_refl eq_refl).
Defined.

(** C1 as stated takes [0x.8p0] for a numeral that decodes to 0.5; the
    scanner requires a hex digit right after the prefix and raises
    [malformedNumber] on it. *)
Lemma hex_literal_without_integer_digit :
  summaries (tokenize (num := ExactNumber) 2 (js "0x.8p0") noOptions)
    = Some ([], Raised (tokenError malformedNumber 1 0 (0, 2) None)).
Proof. reflexivity. Qed.

(** ** Long brackets *)

Section LongBrackets.

Variable input : jsstring.

Lemma consumeEOL_index (s : Cursor) :
  isLineTerminator (charCodeAt input (index s)) = true ->
  index (snd (consumeEOL input s)) = bodyStart input (index s).
Proof.
  intros Hlt. unfold consumeEOL, bodyStart. rewrite Hlt. cursor_simpl.
  destruct (charCodeAt input (index s)) as [c|]; [|discriminate].
  destruct (charCodeAt input (index s + 1)) as [d|]; unfold code_is;
    zbool; cbn [andb orb]; try lia.
Qed.

Lemma bodyStart_skips (i : nat) :
  i <= bodyStart input i
  /\ (forall k, i <= k < bodyStart input i ->
        isLineTerminator (charCodeAt input k) = true)
  /\ (isLineTerminator (charCodeAt input i) = true -> i < bodyStart input i).
Proof.
  unfold bodyStart.
  destruct (isLineTerminator (charCodeAt input i)) eqn:Hlt.
  - destruct ((code_is 10 (charCodeAt input i) && code_is 13 (charCodeAt input (i + 1)))
              || (code_is 13 (charCodeAt input i) && code_is 10 (charCodeAt input (i + 1))))
      eqn:Hpair.
    + repeat split; try lia. intros k Hk.
      assert (Hk' : k = i \/ k = i + 1) by lia.
      destruct Hk' as [-> | ->]; [assumption|].
      unfold isLineTerminator.
      apply orb_prop in Hpair as [Hp | Hp]; apply andb_prop in Hp as (_ & Hp);
        rewrite Hp; [apply orb_true_r | reflexivity].
    + repeat split; try lia. intros k Hk.
      replace k with i by lia. assumption.
  - repeat split; try lia; try discriminate.
Qed.

Lemma consumeEOLs_spec (fuel : nat) (s : Cursor) :
  length input - index s <= fuel ->
  index s <= index (consumeEOLs input fuel s)
  /\ (forall k, index s <= k < index (consumeEOLs input fuel s) ->
        isLineTerminator (charCodeAt input k) = true)
  /\ isLineTerminator (charCodeAt input (index (consumeEOLs input fuel s))) = false.
Proof.
  revert s. induction fuel as [|fuel IH]; intros s Hf; cbn [consumeEOLs].
  - repeat split; try lia.
    rewrite charCodeAt_None by lia. reflexivity.
  - destruct (isLineTerminator (charCodeAt input (index s))) eqn:Hlt.
    + assert (Hi := consumeEOL_index s Hlt).
      destruct (bodyStart_skips (index s)) as (Hge & Hrun & Hgt).
      specialize (Hgt Hlt).
      destruct (IH (snd (consumeEOL input s))) as (IH1 & IH2 & IH3); [lia|].
      rewrite Hi in IH1, IH2.
      repeat split; try lia; try assumption.
      intros k Hk.
      destruct (Nat.lt_ge_cases k (bodyStart input (index s))).
      * apply Hrun. lia.
      * apply IH2. lia.
    + repeat split; try lia; assumption.
Qed.

Lemma closesAt_terminator (level p : nat) :
  closesAt input level p
  = code_is 93 (charCodeAt input p) && isTerminator input level (p + 1).
Proof. unfold closesAt, isTerminator. now rewrite andb_assoc. Qed.

Lemma closesAt_lt (level p : nat) :
  closesAt input level p = true ->
  p < length input /\ isLineTerminator (charCodeAt input p) = false.
Proof.
  unfold closesAt. intros Hc.
  apply andb_prop in Hc as (Hc & _). apply andb_prop in Hc as (Hc & _).
  split; [eapply code_is_lt; eauto|].
  apply code_is_Some in Hc. now rewrite Hc.
Qed.

(** The loop returns at the first closing sequence. *)
Lemma readLongString_loop_closes (fuel level stringStart : nat)
    (unfinished : LexicalError) (s : Cursor) (p : nat) :
  index s <= p -> p - index s < fuel ->
  closesAt input level p = true ->
  (forall q, index s <= q < p -> closesAt input level q = false) ->
  exists s',
    readLongString_loop input fuel level stringStart unfinished s
      = Return (Some (slice input stringStart p)) s'
    /\ index s' = p + level + 2.
Proof.
  revert s. induction fuel as [|fuel IH]; intros s Hle Hf Hclose Hfirst; [lia|].
  destruct (closesAt_lt level p Hclose) as (Hp & Hnl).
  cbn [readLongString_loop].
  destruct (Nat.ltb_spec (index s) (length input)); [|lia].
  destruct (consumeEOLs_spec (length input - index s) s (Nat.le_refl _))
    as (Hge & Hrun & Hstop).
  set (s1 := consumeEOLs input (length input - index s) s) in *.
  assert (Hs1 : index s1 <= p).
  { destruct (Nat.le_gt_cases (index s1) p); [assumption|].
    rewrite Hrun in Hnl by lia. discriminate. }
  cursor_simpl. rewrite <- closesAt_terminator.
  destruct (Nat.eq_dec (index s1) p) as [Heq | Hne].
  - rewrite Heq, Hclose. eexists. split.
    + repeat f_equal. lia.
    + cbn. lia.
  - rewrite (Hfirst (index s1)) by lia.
    apply IH; cbn [index]; try lia; try assumption.
    intros q Hq. apply Hfirst. lia.
Qed.

(** With no closing sequence ahead the loop ends in the error. *)
Lemma readLongString_loop_unfinished (fuel level stringStart : nat)
    (unfinished : LexicalError) (s : Cursor) :
  (forall q, index s <= q -> closesAt input level q = false) ->
  readLongString_loop input fuel level stringStart unfinished s
    = Throw unfinished.
Proof.
  revert s. induction fuel as [|fuel IH]; intros s Hnone; [reflexivity|].
  cbn [readLongString_loop].
  destruct (index s <? length input); [|reflexivity].
  destruct (consumeEOLs_spec (length input - index s) s (Nat.le_refl _))
    as (Hge & _ & _).
  set (s1 := consumeEOLs input (length input - index s) s) in *.
  cursor_simpl. rewrite <- closesAt_terminator, Hnone by lia.
  apply IH. intros q Hq. apply Hnone. cbn [index] in Hq. lia.
Qed.

Lemma opensAt_level (level i : nat) :
  opensAt input level i = true ->
  scanAll input (code_is 61) (i + 1) - (i + 1) = level
  /\ code_is 91 (charCodeAt input (i + 1 + level)) = true.
Proof.
  unfold opensAt. intros Ho.
  apply andb_prop in Ho as (Ho & Hclose). apply andb_prop in Ho as (_ & Hrun).
  split; [|assumption].
  rewrite (scanAll_unique input (code_is 61) eq_refl (i + 1) (i + 1 + level));
    try lia.
  - intros k Hk. rewrite forallb_forall in Hrun.
    replace k with (i + 1 + (k - (i + 1))) by lia.
    apply Hrun. apply in_seq. lia.
  - apply code_is_Some in Hclose. now rewrite Hclose.
Qed.

Lemma readLongString_opened (isComment : bool) (s : Cursor) (level : nat) :
  opensAt input level (index s) = true ->
  exists s1,
    index s1 = bodyStart input (index s + level + 2)
    /\ readLongString input isComment s
       = readLongString_loop input (length input - index s1) level (index s1)
           (tokenError
              (if isComment then unfinishedLongComment else unfinishedLongString)
              (line s) (lineStart s) (index s, index s + level + 1) None)
           s1.
Proof.
  intros Ho. destruct (opensAt_level level (index s) Ho) as (Hlevel & Hopen).
  unfold readLongString. cursor_simpl. rewrite Hlevel, Hopen. cbn [negb].
  replace (index s + 1 + level + 1) with (index s + level + 2) by lia.
  destruct (isLineTerminator (charCodeAt input (index s + level + 2))) eqn:Hlt.
  - exists (snd (consumeEOL input
                     {| index := index s + level + 2; line := line s;
                        lineStart := lineStart s; tokenStart := tokenStart s |})).
    split; [|reflexivity].
    rewrite consumeEOL_index; [reflexivity | exact Hlt].
  - eexists. split; [|reflexivity].
    unfold bodyStart. now rewrite Hlt.
Qed.

End LongBrackets.

(** C6. A long bracket opened with [level] equals signs is closed by the
    first ["]"] that [level] equals signs and a ["]"] follow, and by
    nothing else; the value is what stands between the opening sequence (a
    line terminator right after it left out) and that closing sequence.
    When the input ends before one, [unfinishedLongString] is raised, or
    [unfinishedLongComment] in a comment, at the opening bracket.  So
    [[==[text]==]] decodes to [text] and [[==[text]=]] is unfinished. *)
Theorem long_bracket_matching :
  (forall (input : jsstring) (isComment : bool) (s : Cursor) (level p : nat),
      opensAt input level (index s) = true ->
      bodyStart input (index s + level + 2) <= p ->
      closesAt input level p = true ->
      (forall q, bodyStart input (index s + level + 2) <= q < p ->
                 closesAt input level q = false) ->
      exists s',
        readLongString input isComment s
          = Return (Some (slice input (bodyStart input (index s + level + 2)) p)) s'
        /\ index s' = p + level + 2)
  /\ (forall (input : jsstring) (isComment : bool) (s : Cursor) (level : nat),
        opensAt input level (index s) = true ->
        (forall q, bodyStart input (index s + level + 2) <= q ->
                   closesAt input level q = false) ->
        readLongString input isComment s
          = Throw (tokenError
                     (if isComment then unfinishedLongComment
                      else unfinishedLongString)
                     (line s) (lineStart s) (index s, index s + level + 1) None))
  /\ (forall num (N : JsNumber num),
        summaries (tokenize (num := num) 2 (js "[==[text]==]") noOptions)
          = Some ([(StringLiteral, VString (js "text"))], Finished)
        /\ summaries (tokenize (num := num) 2 (js "[==[text]=]") noOptions)
          = Some ([], Raised (tokenError unfinishedLongString 1 0 (0, 3) None))
        /\ summaries (tokenize (num := num) 2 (js "--[==[text]=]") noOptions)
          = Some ([], Raised (tokenError unfinishedLongComment 1 0 (2, 5) None))).
Proof.
  split; [|split].
  - intros input isComment s level p Hopen Hle Hclose Hfirst.
    destruct (readLongString_opened input isComment s level Hopen)
      as (s1 & Hs1 & ->).
    destruct (closesAt_lt input level p Hclose) as (Hp & _).
    rewrite <- Hs1 in *.
    apply readLongString_loop_closes; try assumption. lia.
  - intros input isComment s level Hopen Hnone.
    destruct (readLongString_opened input isComment s level Hopen)
      as (s1 & Hs1 & ->).
    rewrite <- Hs1 in *.
    now apply readLongString_loop_unfinished.
  - intros num N. repeat split; reflexivity.
Qed.

Lemma long_bracket_matching_witness :
  (exists s',
     readLongString (js "[==[text]==]") false start
       = Return (Some (js "text")) s'
     /\ index s' = 12)
  /\ readLongString (js "[==[text]=]") false start
     = Throw (tokenError unfinishedLongString 1 0 (0, 3) None).
Proof.
  destruct long_bracket_matching as (Hcloses & Hunfinished & _).
  split.
  - apply (Hcloses (js "[==[text]==]") false start 2 8).
    + reflexivity.
    + cbn. lia.
    + reflexivity.
    + intros q Hq. cbn in Hq.
      assert (Hcases : q = 4 \/ q = 5 \/ q = 6 \/ q = 7) by lia.
      destruct Hcases as [-> | [-> | [-> | ->]]]; reflexivity.
  - apply (Hunfinished (js "[==[text]=]") false start 2).
    + reflexivity.
    + intros q Hq. cbn in Hq.
      do 12 (destruct q as [|q]; [try reflexivity; lia|]).
      unfold closesAt.
      rewrite (charCodeAt_None (js "[==[text]=]"))
        by (cbn; lia).
      reflexivity.
Defined.

(** ** The encoding fixup on ASCII text *)

Lemma high_bit_ge (y : Z) :
  Z.testbit y 7 = true -> (128 <= fromCharCode y)%Z.
Proof.
  intros Hb. unfold fromCharCode.
  change 65536%Z with (2 ^ 16)%Z.
  assert (Hm : Z.testbit (y mod 2 ^ 16) 7 = true).
  { rewrite Z.mod_pow2_bits_low by lia. assumption. }
  assert (Hpos : (0 <= y mod 2 ^ 16)%Z) by (apply Z.mod_pos_bound; lia).
  destruct (Z.lt_ge_cases (y mod 2 ^ 16) 128) as [Hlt|]; [|assumption].
  exfalso.
  destruct (Z.eq_dec (y mod 2 ^ 16) 0) as [E0 | Hne].
  - rewrite E0 in Hm. rewrite Z.bits_0 in Hm. discriminate.
  - rewrite Z.bits_above_log2 in Hm; [discriminate | assumption |].
    apply Z.log2_lt_pow2; [lia|]. exact Hlt.
Qed.

Lemma lead_byte_ge (k x : Z) :
  Z.testbit k 7 = true -> (128 <= fromCharCode (Z.lor k x))%Z.
Proof.
  intros Hk. apply high_bit_ge. rewrite Z.lor_spec, Hk. reflexivity.
Qed.

Lemma encodeUTF8_high (c : Z) :
  (128 <= c < 65536)%Z ->
  exists b rest, encodeUTF8 (Some c) = Some (b :: rest) /\ (128 <= b)%Z.
Proof.
  intros Hc. unfold encodeUTF8.
  destruct (Z.ltb_spec c 128); [lia|].
  destruct (Z.ltb_spec c 2048).
  - eexists. eexists. split; [reflexivity|]. now apply lead_byte_ge.
  - destruct (Z.ltb_spec c 65536); [|lia].
    eexists. eexists. split; [reflexivity|]. now apply lead_byte_ge.
Qed.

Lemma surrogate_pair_bounds (c d : Z) :
  (65536 <= 65536 + Z.lor (Z.shiftl (Z.land c 1023) 10) (Z.land d 1023) < 1114112)%Z.
Proof.
  change 1023%Z with (Z.ones 10).
  rewrite !Z.land_ones by lia. rewrite Z.shiftl_mul_pow2 by lia.
  assert (Hc : (0 <= c mod 2 ^ 10 < 2 ^ 10)%Z) by (apply Z.mod_pos_bound; lia).
  assert (Hd : (0 <= d mod 2 ^ 10 < 2 ^ 10)%Z) by (apply Z.mod_pos_bound; lia).
  set (a := (c mod 2 ^ 10 * 2 ^ 10)%Z) in *.
  set (b := (d mod 2 ^ 10)%Z) in *.
  assert (Ha : (0 <= a <= 1023 * 1024)%Z).
  { subst a. change (2 ^ 10)%Z with 1024%Z in *. lia. }
  assert (Hlor : (0 <= Z.lor a b)%Z) by (apply Z.lor_nonneg; lia).
  assert (Hland : (0 <= Z.land a b)%Z) by (apply Z.land_nonneg; lia).
  assert (Hsum := Z.add_lor_land a b).
  change (2 ^ 10)%Z with 1024%Z in *. lia.
Qed.

Lemma encodeUTF8_pair (c d : Z) :
  exists b rest,
    encodeUTF8 (Some (65536 + Z.lor (Z.shiftl (Z.land c 1023) 10) (Z.land d 1023))%Z)
      = Some (b :: rest) /\ (128 <= b)%Z.
Proof.
  assert (Hb := surrogate_pair_bounds c d).
  set (cp := (65536 + Z.lor (Z.shiftl (Z.land c 1023) 10) (Z.land d 1023))%Z) in *.
  unfold encodeUTF8.
  destruct (Z.ltb_spec cp 128); [lia|].
  destruct (Z.ltb_spec cp 2048); [lia|].
  destruct (Z.ltb_spec cp 65536); [lia|].
  destruct (Z.ltb_spec cp 1114112); [|lia].
  eexists. eexists. split; [reflexivity|]. now apply lead_byte_ge.
Qed.

Lemma fixupHighCharacters_ascii (w : jsstring) :
  Forall codeUnit w ->
  Forall (fun c => (c <= 127)%Z) (fixupHighCharacters w) ->
  fixupHighCharacters w = w.
Proof.
  induction w as [|c w IH]; intros Hwf Hascii; [reflexivity|].
  inversion Hwf as [|? ? Hc Hw]; subst.
  assert (Hone :
    (if ((0 <=? c)%Z && (c <=? 127)%Z) then c :: fixupHighCharacters w
     else nullthrows (encodeUTF8 (Some c)) ++ fixupHighCharacters w)
    = fixupHighCharacters (c :: w) ->
    fixupHighCharacters (c :: w) = c :: w).
  { intros E. rewrite <- E in *.
    destruct (Z.leb_spec 0 c); [|unfold codeUnit in Hc; lia].
    destruct (Z.leb_spec c 127); cbn [andb] in *.
    - inversion Hascii; subst. f_equal. now apply IH.
    - destruct (encodeUTF8_high c) as (b & rest & Eb & Hb);
        [unfold codeUnit in Hc; lia|].
      rewrite Eb in Hascii. cbn in Hascii. inversion Hascii; subst. lia. }
  destruct w as [|d w].
  - apply Hone. reflexivity.
  - cbn [fixupHighCharacters] in *.
    destruct (isHighSurrogate c && isLowSurrogate d).
    + destruct (encodeUTF8_pair c d) as (b & rest & Eb & Hb).
      rewrite Eb in Hascii. cbn in Hascii. inversion Hascii; subst. lia.
    + apply Hone. reflexivity.
Qed.

(** ** Bounds of the numeric scanners *)

Lemma Return_inj {A} (a b : A) (s s' : Cursor) :
  Return a s = Return b s' -> a = b /\ s = s'.
Proof. intros E. now inversion E. Qed.

Section Bounds.
Context {num : Type} `{JsNumber num}.
Variable input : jsstring.

(** The facts about one scanning loop that the bounds rest on. *)
Lemma scanAll_facts (p : option Z -> bool) (i : nat) :
  p None = false -> i <= length input ->
  i <= scanAll input p i <= length input
  /\ p (charCodeAt input (scanAll input p i)) = false
  /\ (p (charCodeAt input i) = true -> i < scanAll input p i).
Proof.
  intros Hnan Hi. repeat split.
  - now apply scanAll_ge.
  - now apply scanAll_le.
  - now apply scanAll_stop.
  - intros Hp. destruct (Nat.eq_dec (scanAll input p i) i) as [E|].
    + pose proof (scanAll_stop input p Hnan i) as Hs. rewrite E in Hs. congruence.
    + pose proof (scanAll_ge input p i). lia.
Qed.

Lemma readDecLiteral_bounds (s s' : Cursor) (v : num) :
  index s <= length input ->
  readDecLiteral input s = Return v s' ->
  scanAll input isDecDigit (index s) <= index s' <= length input
  /\ (code_is 46 (charCodeAt input (scanAll input isDecDigit (index s))) = true ->
      scanAll input isDecDigit (scanAll input isDecDigit (index s) + 1) <= index s')
  /\ sameLine s s'
  /\ v = parseFloat (slice input (tokenStart s) (index s')).
Proof.
  intros Hi. unfold readDecLiteral. cursor_simpl.
  destruct (scanAll_facts isDecDigit (index s) eq_refl Hi) as (B1 & _ & _).
  set (j1 := scanAll input isDecDigit (index s)) in *.
  destruct (code_is 46 (charCodeAt input j1)) eqn:Hdot.
  - pose proof (code_is_lt input _ _ Hdot) as Hj1. cursor_simpl.
    destruct (scanAll_facts isDecDigit (j1 + 1) eq_refl ltac:(lia)) as (B2 & _ & _).
    set (j2 := scanAll input isDecDigit (j1 + 1)) in *.
    destruct (code_among [101; 69]%Z (charCodeAt input j2)) eqn:He.
    + pose proof (code_among_lt input _ _ He) as Hj2. cursor_simpl.
      destruct (code_among [43; 45]%Z (charCodeAt input (j2 + 1))) eqn:Hs.
      * pose proof (code_among_lt input _ _ Hs) as Hj3. cursor_simpl.
        destruct (isDecDigit (charCodeAt input (j2 + 1 + 1))); cbn [negb];
          [|intros E; discriminate E].
        destruct (scanAll_facts isDecDigit (j2 + 1 + 1) eq_refl ltac:(lia))
          as (B3 & _ & _).
        intros E; apply Return_inj in E as (<- & <-). cbn [index].
        unfold sameLine. cbn. repeat split; try lia.
      * cursor_simpl.
        destruct (isDecDigit (charCodeAt input (j2 + 1))); cbn [negb];
          [|intros E; discriminate E].
        destruct (scanAll_facts isDecDigit (j2 + 1) eq_refl ltac:(lia))
          as (B3 & _ & _).
        intros E; apply Return_inj in E as (<- & <-). cbn [index].
        unfold sameLine. cbn. repeat split; try lia.
    + intros E; apply Return_inj in E as (<- & <-).
      unfold sameLine. cbn. repeat split; try lia.
  - cursor_simpl.
    destruct (code_among [101; 69]%Z (charCodeAt input j1)) eqn:He.
    + pose proof (code_among_lt input _ _ He) as Hj2. cursor_simpl.
      destruct (code_among [43; 45]%Z (charCodeAt input (j1 + 1))) eqn:Hs.
      * pose proof (code_among_lt input _ _ Hs) as Hj3. cursor_simpl.
        destruct (isDecDigit (charCodeAt input (j1 + 1 + 1))); cbn [negb];
          [|intros E; discriminate E].
        destruct (scanAll_facts isDecDigit (j1 + 1 + 1) eq_refl ltac:(lia))
          as (B3 & _ & _).
        intros E; apply Return_inj in E as (<- & <-).
        unfold sameLine. cbn. repeat split; try lia; discriminate.
      * cursor_simpl.
        destruct (isDecDigit (charCodeAt input (j1 + 1))); cbn [negb];
          [|intros E; discriminate E].
        destruct (scanAll_facts isDecDigit (j1 + 1) eq_refl ltac:(lia))
          as (B3 & _ & _).
        intros E; apply Return_inj in E as (<- & <-).
        unfold sameLine. cbn. repeat split; try lia; discriminate.
    + intros E; apply Return_inj in E as (<- & <-).
      unfold sameLine. cbn. repeat split; try lia; discriminate.
Qed.

Ltac hex_exponent j :=
  destruct (code_among [112; 80]%Z (charCodeAt input j)) eqn:Hp;
  [ pose proof (code_among_lt input _ _ Hp); cursor_simpl;
    destruct (code_among [43; 45]%Z (charCodeAt input (j + 1))) eqn:Hs;
    cursor_simpl;
    [ pose proof (code_among_lt input _ _ Hs);
      destruct (isDecDigit (charCodeAt input (j + 1 + 1))) eqn:Hdig;
      cbn [negb]; [|intros E; discriminate E];
      destruct (scanAll_facts isDecDigit (j + 1 + 1) eq_refl ltac:(lia))
        as (B3 & _ & _)
    | destruct (isDecDigit (charCodeAt input (j + 1))) eqn:Hdig;
      cbn [negb]; [|intros E; discriminate E];
      destruct (scanAll_facts isDecDigit (j + 1) eq_refl ltac:(lia))
        as (B3 & _ & _) ]
  | ];
  intros E; apply Return_inj in E as (_ & <-);
  unfold sameLine; cbn; repeat split; lia.

Lemma readHexLiteral_bounds (s s' : Cursor) (v : num) :
  index s + 2 <= length input ->
  readHexLiteral input s = Return v s' ->
  index s + 2 < index s' <= length input /\ sameLine s s'.
Proof.
  intros Hi. unfold readHexLiteral. cursor_simpl.
  destruct (isHexDigit (charCodeAt input (index s + 2))) eqn:Hd; cbn [negb];
    [|intros E; discriminate E].
  destruct (scanAll_facts isHexDigit (index s + 2) eq_refl Hi) as (B1 & _ & G1).
  specialize (G1 Hd).
  set (j1 := scanAll input isHexDigit (index s + 2)) in *.
  destruct (code_is 46 (charCodeAt input j1)) eqn:Hdot; cursor_simpl.
  - pose proof (code_is_lt input _ _ Hdot) as Hj1.
    destruct (scanAll_facts isHexDigit (j1 + 1) eq_refl ltac:(lia)) as (B2 & _ & _).
    set (j2 := scanAll input isHexDigit (j1 + 1)) in *.
    hex_exponent j2.
  - hex_exponent j1.
Qed.

End Bounds.

(** ** Ranges of tokens *)

Lemma hd_error_nth_error {A} (l : list A) : hd_error l = nth_error l 0.
Proof. now destruct l. Qed.

Section TokenRanges.

Context {num : Type} `{JsNumber num}.
Variable input : jsstring.
Variable options : Options.
Hypothesis input_units : Forall codeUnit input.

Lemma slice_hd (a b : nat) :
  a < b -> hd_error (slice input a b) = charCodeAt input a.
Proof.
  intros Hab. rewrite hd_error_nth_error, slice_nth by lia.
  now rewrite Nat.add_0_r.
Qed.

Lemma slice_second (a b : nat) :
  a + 1 < b -> nth_error (slice input a b) 1 = charCodeAt input (a + 1).
Proof. intros Hab. now rewrite slice_nth by lia. Qed.

Lemma slice_forallb (p : option Z -> bool) (a b : nat) :
  (forall k, a <= k < b -> p (charCodeAt input k) = true) ->
  forallb (fun c => p (Some c)) (slice input a b) = true.
Proof.
  intros Hall. apply forallb_forall. intros c Hin.
  assert (HF : Forall (fun c => p (Some c) = true) (slice input a b)).
  { apply slice_Forall. intros k d Hk Hd. rewrite <- Hd. now apply Hall. }
  rewrite Forall_forall in HF. now apply HF.
Qed.

Lemma slice_units (a b : nat) : Forall codeUnit (slice input a b).
Proof.
  apply slice_Forall. intros k c _ Hc.
  rewrite Forall_forall in input_units. apply input_units.
  unfold charCodeAt in Hc. eapply nth_error_In; eauto.
Qed.

Lemma ascii_literal (v : jsstring) :
  forallb (fun c => (c <=? 127)%Z) v = true -> Forall (fun c => (c <= 127)%Z) v.
Proof.
  intros Hall. apply Forall_forall. intros c Hc. apply Z.leb_le.
  rewrite forallb_forall in Hall. now apply Hall.
Qed.

Lemma keyword_ascii (v : jsstring) :
  isKeyword options v = true -> Forall (fun c => (c <= 127)%Z) v.
Proof.
  intros Hk. apply isKeyword_In, keywords_spec in Hk.
  destruct Hk as [Hb | [(-> & _) | [(-> & _) | (-> & _)]]];
    try (apply ascii_literal; reflexivity).
  cbn in Hb.
  repeat (destruct Hb as [<- | Hb]; [apply ascii_literal; reflexivity|]).
  contradiction.
Qed.

Lemma isIdentifierPart_NaN : isIdentifierPart options None = false.
Proof. unfold isIdentifierPart. cbn. now rewrite andb_false_r. Qed.

Lemma isIdentifierStart_Part (o : option Z) :
  isIdentifierStart options o = true -> isIdentifierPart options o = true.
Proof.
  unfold isIdentifierStart, isIdentifierPart.
  destruct (code_between 65 90 o || code_between 97 122 o || code_is 95 o);
    cbn [orb]; [reflexivity|].
  destruct (extendedIdentifiers options && code_from 128 o);
    [intros _ | discriminate].
  now destruct (code_between 48 57 o).
Qed.

Lemma isIdentifierStart_lt (i : nat) :
  isIdentifierStart options (charCodeAt input i) = true -> i < length input.
Proof.
  destruct (charCodeAt input i) eqn:E.
  - intros _. eapply charCodeAt_Some; eauto.
  - unfold isIdentifierStart. cbn. rewrite andb_false_r. discriminate.
Qed.

Lemma scanIdentifierOrKeyword_spans (s s' : Cursor) (t : Token num) :
  isIdentifierStart options (charCodeAt input (index s)) = true ->
  tokenStart s = index s ->
  scanIdentifierOrKeyword input options s = Return t s' ->
  type t <> StringLiteral /\ tokenSpans input options t s s'.
Proof.
  intros Hstart Hts. unfold scanIdentifierOrKeyword. cursor_simpl.
  rewrite Hts.
  pose proof (isIdentifierStart_lt _ Hstart) as Hlt.
  destruct (scanAll_facts input (isIdentifierPart options) (index s + 1)
              isIdentifierPart_NaN ltac:(lia)) as (B & _ & _).
  set (j := scanAll input (isIdentifierPart options) (index s + 1)) in *.
  set (w := slice input (index s) j).
  assert (Hshape : isIdentifierStart options (hd_error w) = true
                   /\ forallb (fun c => isIdentifierPart options (Some c)) w = true).
  { subst w. rewrite slice_hd by lia. split; [assumption|].
    apply slice_forallb. intros k Hk.
    destruct (Nat.eq_dec k (index s)) as [-> | Hne].
    - now apply isIdentifierStart_Part.
    - apply (scanAll_run input (isIdentifierPart options) (index s + 1)).
      fold j. lia. }
  assert (Hascii : Forall (fun c => (c <= 127)%Z) (fixupHighCharacters w) ->
                   fixupHighCharacters w = w).
  { apply fixupHighCharacters_ascii. apply slice_units. }
  destruct (isKeyword options (fixupHighCharacters w)) eqn:Hk.
  { intros E. apply Return_inj in E as (<- & <-).
    split; [discriminate|]. unfold tokenSpans, spells. cbn.
    fold w. rewrite Hascii in * by (now apply keyword_ascii).
    repeat split; try lia; assumption. }
  destruct (jsstring_eqb (js "true") (fixupHighCharacters w)
            || jsstring_eqb (js "false") (fixupHighCharacters w)) eqn:Hb.
  { intros E. apply Return_inj in E as (<- & <-).
    split; [discriminate|]. unfold tokenSpans, spells. cbn - [js].
    fold w. repeat split; try lia.
    apply orb_prop in Hb as [Hb | Hb]; apply jsstring_eqb_eq in Hb;
      symmetry in Hb; [left | right];
      (split; [rewrite <- Hb; symmetry; apply Hascii; rewrite Hb;
               apply ascii_literal; reflexivity
              | rewrite Hb; reflexivity]). }
  destruct (jsstring_eqb (js "nil") (fixupHighCharacters w)) eqn:Hn.
  { intros E. apply Return_inj in E as (<- & <-).
    split; [discriminate|]. unfold tokenSpans, spells. cbn - [js].
    fold w. repeat split; try lia.
    apply jsstring_eqb_eq in Hn. symmetry in Hn.
    rewrite <- Hn. symmetry. apply Hascii. rewrite Hn.
    apply ascii_literal; reflexivity. }
  intros E. apply Return_inj in E as (<- & <-).
  split; [discriminate|]. unfold tokenSpans, spells. cbn.
  fold w. repeat split; try lia; apply Hshape.
Qed.

Lemma scanNumericLiteral_spans (s s' : Cursor) (t : Token num) :
  isDecDigit (charCodeAt input (index s)) = true
  \/ (code_is 46 (charCodeAt input (index s)) = true
      /\ isDecDigit (charCodeAt input (index s + 1)) = true) ->
  tokenStart s = index s ->
  scanNumericLiteral input s = Return t s' ->
  type t <> StringLiteral /\ tokenSpans input options t s s'.
Proof.
  intros Hstart Hts. unfold scanNumericLiteral.
  destruct (code_is 48 (charCodeAt input (index s))
            && code_among [120; 88]%Z (charCodeAt input (index s + 1))) eqn:Hhex.
  - apply andb_prop in Hhex as (H0 & Hx).
    pose proof (code_among_lt input _ _ Hx) as Hlen.
    destruct (readHexLiteral input s) as [v s1|e] eqn:E; [|discriminate].
    destruct (readHexLiteral_bounds input s s1 v ltac:(lia) E)
      as (B & Hl & Hls & Hstart').
    intros R. apply Return_inj in R as (<- & <-).
    split; [discriminate|]. unfold tokenSpans, spells. cbn.
    rewrite Hstart', Hts. repeat split; try lia.
    + unfold numeralStart. rewrite slice_hd by lia.
      apply code_is_Some in H0. rewrite H0. reflexivity.
    + eauto.
    + unfold hexPrefix. rewrite slice_hd, slice_second, H0, Hx by lia.
      discriminate.
  - destruct (readDecLiteral input s) as [v s1|e] eqn:E; [|discriminate].
    assert (Hi : index s < length input).
    { destruct Hstart as [Hd | (Hd & _)];
        [eapply isDecDigit_lt | eapply code_is_lt]; eauto. }
    destruct (readDecLiteral_bounds input s s1 v ltac:(lia) E)
      as (B & Bdot & (Hl & Hls & Hstart') & Hv).
    destruct (scanAll_facts input isDecDigit (index s) eq_refl ltac:(lia))
      as (B1 & Hstop & Hgt).
    assert (Hspan : index s < index s1
                    /\ numeralStart (slice input (index s) (index s1)) = true).
    { unfold numeralStart. destruct Hstart as [Hd | (Hdot & Hd)].
      - specialize (Hgt Hd). split; [lia|].
        rewrite slice_hd by lia. now rewrite Hd.
      - assert (Hj : scanAll input isDecDigit (index s) = index s).
        { apply scanAll_unique; try reflexivity; try lia.
          apply code_is_Some in Hdot. now rewrite Hdot. }
        rewrite Hj in *. specialize (Bdot Hdot).
        pose proof (code_between_lt input _ _ _ Hd) as Hlt1.
        destruct (scanAll_facts input isDecDigit (index s + 1) eq_refl ltac:(lia))
          as (_ & _ & Hgt2).
        specialize (Hgt2 Hd).
        split; [lia|].
        rewrite slice_hd, slice_second, Hdot, Hd by lia.
        now rewrite orb_true_r. }
    destruct Hspan as (Hlt & Hns).
    intros R. apply Return_inj in R as (<- & <-).
    split; [discriminate|]. unfold tokenSpans, spells. cbn.
    rewrite Hstart', Hts. repeat split; try lia; try assumption.
    + eauto.
    + intros _. rewrite Hv, Hts. reflexivity.
Qed.

Lemma punctuator_listed (w : jsstring) :
  existsb (jsstring_eqb w) punctuators = true -> In w punctuators.
Proof.
  intros E. apply existsb_exists in E as (x & Hin & Hx).
  apply jsstring_eqb_eq in Hx. now subst.
Qed.

Lemma scanPunctuator_spans (text : jsstring) (s s' : Cursor) (t : Token num) :
  tokenStart s = index s ->
  slice input (index s) (index s + length text) = text ->
  existsb (jsstring_eqb text) punctuators = true ->
  0 < length text ->
  index s + length text <= length input ->
  scanPunctuator text s = Return t s' ->
  type t <> StringLiteral /\ tokenSpans input options t s s'.
Proof.
  intros Hts Hslice Hin Hpos Hlen. unfold scanPunctuator. cursor_simpl.
  intros R. apply Return_inj in R as (<- & <-).
  split; [discriminate|]. unfold tokenSpans, spells, mkToken.
  cbn [type value range index].
  rewrite Hts, Hslice. repeat split; try lia.
  now apply punctuator_listed.
Qed.

Lemma scanStringLiteral_type (s s' : Cursor) (t : Token num) :
  scanStringLiteral input options s = Return t s' -> type t = StringLiteral.
Proof.
  unfold scanStringLiteral.
  destruct (scanStringLiteral_loop _ _ _ _ _ _ _ _ _) as [[st str] s1|e];
    [|discriminate].
  intros R. apply Return_inj in R as (<- & _). reflexivity.
Qed.

Lemma scanLongStringLiteral_type (s s' : Cursor) (t : Token num) :
  scanLongStringLiteral input s = Return t s' -> type t = StringLiteral.
Proof.
  unfold scanLongStringLiteral.
  destruct (readLongString input false s) as [[str|] s1|e]; try discriminate.
  intros R. apply Return_inj in R as (<- & _). reflexivity.
Qed.

Lemma scanVarargLiteral_spans (s s' : Cursor) (t : Token num) :
  tokenStart s = index s ->
  slice input (index s) (index s + 3) = js "..." ->
  index s + 3 <= length input ->
  scanVarargLiteral s = Return t s' ->
  type t <> StringLiteral /\ tokenSpans input options t s s'.
Proof.
  intros Hts Hslice Hlen. unfold scanVarargLiteral. cursor_simpl.
  intros R. apply Return_inj in R as (<- & <-).
  split; [discriminate|]. unfold tokenSpans, spells, mkToken.
  cbn [type value range index].
  rewrite Hts, Hslice. repeat split; lia.
Qed.

Lemma charAt_code (i : nat) (c : Z) :
  charCodeAt input i = Some c -> charAt input i = [c].
Proof. unfold charCodeAt, charAt. now intros ->. Qed.

Lemma lex_dispatch_spans (s s' : Cursor) (t : Token num) :
  index s < length input ->
  lex_dispatch input options s = Return t s' ->
  type t <> StringLiteral ->
  tokenSpans input options t s s'.
Proof.
  intros Hlt. unfold lex_dispatch.
  set (s1 := set_tokenStart s (index s)).
  change (tokenSpans input options t s s')
    with (tokenSpans input options t s1 s').
  change (index s) with (index s1).
  assert (Hts : tokenStart s1 = index s1) by reflexivity.
  clearbody s1. clear s Hlt.
  pose (one := fun (text : jsstring) =>
    tokenStart s1 = index s1 ->
    slice input (index s1) (index s1 + length text) = text ->
    existsb (jsstring_eqb text) punctuators = true ->
    0 < length text ->
    index s1 + length text <= length input ->
    scanPunctuator text s1 = Return t s' ->
    type t <> StringLiteral -> tokenSpans input options t s1 s').
  assert (Hone : forall text, one text).
  { intros text Ha Hb Hc Hd He R _.
    now apply (scanPunctuator_spans text s1 s' t). }
  assert (Hsingle : forall k text,
    code_is k (charCodeAt input (index s1)) = true ->
    text = [k] ->
    existsb (jsstring_eqb text) punctuators = true ->
    scanPunctuator text s1 = Return t s' ->
    type t <> StringLiteral -> tokenSpans input options t s1 s').
  { intros k text Hk -> Hin. apply code_is_Some in Hk.
    apply Hone; try assumption; cbn [length]; try lia.
    - exact (slice_one input (index s1) k Hk).
    - apply charCodeAt_Some in Hk. lia. }
  assert (Hdouble : forall k l text,
    code_is k (charCodeAt input (index s1)) = true ->
    code_is l (charCodeAt input (index s1 + 1)) = true ->
    text = [k; l] ->
    existsb (jsstring_eqb text) punctuators = true ->
    scanPunctuator text s1 = Return t s' ->
    type t <> StringLiteral -> tokenSpans input options t s1 s').
  { intros k l text Hk Hl -> Hin. apply code_is_Some in Hk, Hl.
    apply Hone; try assumption; cbn [length]; try lia.
    - exact (slice_two input (index s1) k l Hk Hl).
    - apply charCodeAt_Some in Hl. lia. }
  clear Hone. subst one.
  destruct (isIdentifierStart options (charCodeAt input (index s1))) eqn:Hid.
  { intros R _. now apply (scanIdentifierOrKeyword_spans s1 s' t). }
  destruct (code_is 39 (charCodeAt input (index s1))
            || code_is 34 (charCodeAt input (index s1))).
  { intros R Hty. apply scanStringLiteral_type in R. contradiction. }
  destruct (code_between 48 57 (charCodeAt input (index s1))) eqn:Hdig.
  { intros R _. apply (scanNumericLiteral_spans s1 s' t); try assumption.
    left. exact Hdig. }
  destruct (code_is 46 (charCodeAt input (index s1))) eqn:Hdot.
  { destruct (isDecDigit (charCodeAt input (index s1 + 1))) eqn:Hd.
    { intros R _. apply (scanNumericLiteral_spans s1 s' t); try assumption.
      right. split; assumption. }
    destruct (code_is 46 (charCodeAt input (index s1 + 1))) eqn:Hdot2.
    - destruct (code_is 46 (charCodeAt input (index s1 + 2))) eqn:Hdot3.
      + intros R _. apply (scanVarargLiteral_spans s1 s' t); try assumption.
        * apply code_is_Some in Hdot, Hdot2, Hdot3.
          exact (slice_three input (index s1) _ _ _ Hdot Hdot2 Hdot3).
        * apply code_is_lt in Hdot3. lia.
      + now apply (Hdouble 46%Z 46%Z).
    - now apply (Hsingle 46%Z). }
  destruct (code_is 61 (charCodeAt input (index s1))) eqn:H61.
  { destruct (code_is 61 (charCodeAt input (index s1 + 1))) eqn:Hn1;
      [now apply (Hdouble 61%Z 61%Z)|].
    destruct (code_is 62 (charCodeAt input (index s1 + 1))) eqn:Hn2;
      [now apply (Hdouble 61%Z 62%Z) | now apply (Hsingle 61%Z)]. }
  destruct (code_is 62 (charCodeAt input (index s1))) eqn:H62.
  { destruct (bitwiseOperators (features options)
              && code_is 62 (charCodeAt input (index s1 + 1))) eqn:Hn1.
    { apply andb_prop in Hn1 as (_ & Hn1). now apply (Hdouble 62%Z 62%Z). }
    destruct (code_is 61 (charCodeAt input (index s1 + 1))) eqn:Hn2;
      [now apply (Hdouble 62%Z 61%Z) | now apply (Hsingle 62%Z)]. }
  destruct (code_is 60 (charCodeAt input (index s1))) eqn:H60.
  { destruct (bitwiseOperators (features options)
              && code_is 60 (charCodeAt input (index s1 + 1))) eqn:Hn1.
    { apply andb_prop in Hn1 as (_ & Hn1). now apply (Hdouble 60%Z 60%Z). }
    destruct (code_is 61 (charCodeAt input (index s1 + 1))) eqn:Hn2;
      [now apply (Hdouble 60%Z 61%Z) | now apply (Hsingle 60%Z)]. }
  destruct (code_is 126 (charCodeAt input (index s1))) eqn:H126.
  { destruct (code_is 61 (charCodeAt input (index s1 + 1))) eqn:Hn1;
      [now apply (Hdouble 126%Z 61%Z)|].
    destruct (negb (bitwiseOperators (features options)));
      [discriminate | now apply (Hsingle 126%Z)]. }
  destruct (code_is 58 (charCodeAt input (index s1))) eqn:H58.
  { destruct (labels (features options)
              && code_is 58 (charCodeAt input (index s1 + 1))) eqn:Hn1.
    { apply andb_prop in Hn1 as (_ & Hn1). now apply (Hdouble 58%Z 58%Z). }
    now apply (Hsingle 58%Z). }
  destruct (code_is 91 (charCodeAt input (index s1))) eqn:H91.
  { destruct (code_is 91 (charCodeAt input (index s1 + 1))
              || code_is 61 (charCodeAt input (index s1 + 1))).
    { intros R Hty. apply scanLongStringLiteral_type in R. contradiction. }
    now apply (Hsingle 91%Z). }
  destruct (code_is 47 (charCodeAt input (index s1))) eqn:H47.
  { destruct (integerDivision (features options)
              && code_is 47 (charCodeAt input (index s1 + 1))) eqn:Hn1.
    { apply andb_prop in Hn1 as (_ & Hn1). now apply (Hdouble 47%Z 47%Z). }
    now apply (Hsingle 47%Z). }
  destruct (code_is 38 (charCodeAt input (index s1))) eqn:H38.
  { destruct (negb (bitwiseOperators (features options))); [discriminate|].
    rewrite (charAt_code _ 38%Z) by (now apply code_is_Some).
    now apply (Hsingle 38%Z). }
  destruct (code_among [42; 94; 37; 44; 123; 125; 93; 40; 41; 59; 35; 45; 43; 124]%Z
              (charCodeAt input (index s1))) eqn:Hamong; [|discriminate].
  destruct (charCodeAt input (index s1)) as [c|] eqn:Hc; [|discriminate].
  rewrite (charAt_code _ _ Hc).
  unfold code_among in Hamong. cbn [existsb] in Hamong.
  repeat (apply orb_prop in Hamong as [Hk | Hamong];
          [apply Z.eqb_eq in Hk; subst c;
           match type of Hc with
           | _ = Some ?k =>
             apply (Hsingle k [k]);
             reflexivity
           end|]).
  discriminate Hamong.
Qed.

Lemma lex_token (s s' : Cursor) (cs cs' : option (list Comment)) (t : Token num) :
  lex input options s cs = LexToken t s' cs' ->
  exists s0, index s0 < length input
             /\ lex_dispatch input options s0 = Return t s'.
Proof.
  unfold lex.
  destruct (skipComments input _ _ cs) as [[[] s0|e] cs0]; [|discriminate].
  destruct (Nat.leb_spec (length input) (index s0)); [discriminate|].
  destruct (lex_dispatch input options s0) as [t0 s1|e] eqn:E; [|discriminate].
  intros R. inversion R; subst. exists s0. split; [lia | assumption].
Qed.

Lemma pullAll_tokens (fuel : nat) (s : Cursor) (cs : option (list Comment))
    (r : Run num) (t : Token num) :
  pullAll input options fuel s cs = Some r ->
  In t (tokens r) ->
  exists s0 s', index s0 < length input
                /\ lex_dispatch input options s0 = Return t s'.
Proof.
  revert s cs r. induction fuel as [|fuel IH]; intros s cs r; cbn [pullAll];
    [discriminate|].
  destruct (lex input options s cs) as [t0 s1 cs1 | s1 cs1 | e cs1] eqn:E.
  - destruct (pullAll input options fuel s1 cs1) as [r1|] eqn:E1; [|discriminate].
    intros R Hin. inversion R; subst; clear R. cbn [tokens] in Hin.
    destruct Hin as [<- | Hin].
    + destruct (lex_token _ _ _ _ _ E) as (s0 & Hlt & Hd). eauto.
    + eapply IH; eauto.
  - intros R Hin. inversion R; subst. contradiction.
  - intros R Hin. inversion R; subst. contradiction.
Qed.

End TokenRanges.

(** C4. Every token that is no StringLiteral has the range from the
    character the dispatcher started on to the one its scanner stopped
    before, a range that is not empty and lies in the input, and the
    characters of the input in that range spell the token: the text of a
    punctuator, the three dots, the keyword, the letters of an identifier
    (its value is their encoding fixup), [true], [false] or [nil], and for
    a number the whole numeral that was consumed, whose value is
    [parseFloat] of it when it is decimal. *)
Theorem token_range_spells_token :
  forall num (N : JsNumber num) (fuel : nat) (input : jsstring)
         (options_ : TokenizerOptions) (r : Run num) (t : Token num),
    Forall codeUnit input ->
    tokenize fuel input options_ = Some r ->
    In t (tokens r) ->
    type t <> StringLiteral ->
    fst (range t) < snd (range t) <= length input
    /\ spells (resolveOptions options_) t
         (slice input (fst (range t)) (snd (range t)))
    /\ exists s0 s',
         index s0 = fst (range t) /\ index s' = snd (range t)
         /\ lex_dispatch input (resolveOptions options_) s0 = Return t s'.
Proof.
  intros num N fuel input options_ r t Hunits Hrun Hin Hty.
  assert (Hd : exists s0 s', index s0 < length input
             /\ lex_dispatch input (resolveOptions options_) s0 = Return t s').
  { unfold tokenize, run in Hrun.
    destruct (ignoreShebang (resolveOptions options_)
              && jsstring_eqb (firstn 2 input) (js "#!")).
    - destruct (skipShebang input fuel start) as [s|]; [|discriminate].
      eapply pullAll_tokens; eauto.
    - eapply pullAll_tokens; eauto. }
  destruct Hd as (s0 & s' & Hlt & Hd).
  destruct (lex_dispatch_spans input (resolveOptions options_) Hunits s0 s' t
              Hlt Hd Hty) as (Hrange & Hbounds & Hspells).
  rewrite Hrange. cbn [fst snd].
  split; [assumption|]. split; [assumption|].
  exists s0, s'. repeat split; assumption.
Qed.

Lemma token_range_spells_token_witness :
  let input := js "if x >= .5" in
  let t : Token ExactNumber :=
    {| type := Punctuator; value := VString (js ">=");
       tok_line := 1; tok_lineStart := 0; lastLine := None;
       lastLineStart := None; range := (5, 7) |} in
  fst (range t) < snd (range t) <= length input
  /\ spells (resolveOptions noOptions) t
       (slice input (fst (range t)) (snd (range t)))
  /\ exists s0 s',
       index s0 = fst (range t) /\ index s' = snd (range t)
       /\ lex_dispatch input (resolveOptions noOptions) s0 = Return t s'.
Proof.
  intros input t.
  assert (Hrun : exists r,
    tokenize (num := ExactNumber) 5 input noOptions = Some r /\ In t (tokens r)).
  { eexists. split; [vm_compute; reflexivity|].
    right. right. left. reflexivity. }
  destruct Hrun as (r & Hrun & Hin).
  refine (token_range_spells_token ExactNumber _ 5 input noOptions r t
            _ Hrun Hin _).
  - apply Forall_forall. intros c Hc. unfold codeUnit.
    vm_compute in Hc.
    repeat (destruct Hc as [<- | Hc]; [lia|]). contradiction.
  - discriminate.
Defined.

(** ** Progress of the cursor

    Every loop of the tokenizer but the one that skips a shebang line moves
    [index] forward in each round and stops at the end of the input, so the
    rounds the definitions allow are never the reason a loop is left, and
    the stream of tokens ends. *)

Section Progress.

Context {num : Type} `{JsNumber num}.
Variable input : jsstring.
Variable options : Options.

Lemma consumeEOL_ge (s : Cursor) :
  index s <= index (snd (consumeEOL input s))
  /\ (fst (consumeEOL input s) = true ->
      index s < index (snd (consumeEOL input s)) /\ index s < length input)
  /\ (fst (consumeEOL input s) = false -> snd (consumeEOL input s) = s).
Proof.
  unfold consumeEOL.
  destruct (isLineTerminator (charCodeAt input (index s))) eqn:Hlt; cbn [fst snd].
  - apply isLineTerminator_lt in Hlt.
    destruct (code_is 10 (charCodeAt input (index s))
              && code_is 13 (charCodeAt input (index s + 1)));
      destruct (code_is 13 (charCodeAt input (index s))
                && code_is 10 (charCodeAt input (index s + 1)));
      cbn [index]; repeat split; try lia; discriminate.
  - repeat split; try lia; discriminate.
Qed.

(** *** [skipWhiteSpace] *)

Lemma skipWhiteSpace_loop_ge (fuel : nat) (s : Cursor) :
  index s <= index (skipWhiteSpace_loop input fuel s).
Proof.
  revert s. induction fuel as [|fuel IH]; intros s; cbn [skipWhiteSpace_loop];
    [lia|].
  destruct (index s <? length input); [|lia].
  destruct (isWhiteSpace (charCodeAt input (index s))).
  - specialize (IH (set_index s (index s + 1))). cbn [index set_index] in IH. lia.
  - destruct (consumeEOL_ge s) as (Hge & _).
    destruct (consumeEOL input s) as [[] s1]; cbn [snd] in *; [|lia].
    specialize (IH s1). lia.
Qed.

(** [length input - index] rounds are enough: more change nothing. *)
Lemma skipWhiteSpace_loop_fuels (f1 f2 : nat) (s : Cursor) :
  length input - index s <= f1 -> length input - index s <= f2 ->
  skipWhiteSpace_loop input f1 s = skipWhiteSpace_loop input f2 s.
Proof.
  revert f2 s. induction f1 as [|f1 IH]; intros f2 s H1 H2.
  - destruct f2; [reflexivity|]. cbn [skipWhiteSpace_loop].
    destruct (Nat.ltb_spec (index s) (length input)); [lia | reflexivity].
  - destruct f2 as [|f2]; cbn [skipWhiteSpace_loop];
      destruct (Nat.ltb_spec (index s) (length input)); try lia;
      try reflexivity.
    destruct (isWhiteSpace (charCodeAt input (index s))).
    + apply IH; cbn [index set_index]; lia.
    + destruct (consumeEOL_ge s) as (_ & Hgt & _).
      destruct (consumeEOL input s) as [[] s1]; cbn [fst snd] in *;
        [|reflexivity].
      specialize (Hgt eq_refl). apply IH; lia.
Qed.

Lemma skipWhiteSpace_loop_fuel (fuel : nat) (s : Cursor) :
  length input - index s <= fuel ->
  skipWhiteSpace_loop input fuel s = skipWhiteSpace input s.
Proof. intros Hf. now apply skipWhiteSpace_loop_fuels. Qed.

Lemma skipWhiteSpace_ge (s : Cursor) : index s <= index (skipWhiteSpace input s).
Proof. apply skipWhiteSpace_loop_ge. Qed.

(** The loop is left at the end of the input or on a character that is
    neither white space nor a line terminator. *)
Lemma skipWhiteSpace_stops (s : Cursor) :
  let s' := skipWhiteSpace input s in
  length input <= index s'
  \/ (isWhiteSpace (charCodeAt input (index s')) = false
      /\ isLineTerminator (charCodeAt input (index s')) = false).
Proof.
  unfold skipWhiteSpace.
  remember (length input - index s) as n eqn:Hn.
  assert (Hle : length input - index s <= n) by lia. clear Hn.
  revert s Hle. induction n as [|n IH]; intros s Hn; cbn [skipWhiteSpace_loop].
  - left. lia.
  - destruct (Nat.ltb_spec (index s) (length input)); [|left; lia].
    destruct (isWhiteSpace (charCodeAt input (index s))) eqn:Hw.
    + apply IH. cbn [index set_index]. lia.
    + destruct (consumeEOL_ge s) as (_ & Hgt & _).
      unfold consumeEOL in *.
      destruct (isLineTerminator (charCodeAt input (index s))) eqn:Hl;
        cbn [fst snd] in *.
      * specialize (Hgt eq_refl). apply IH. lia.
      * right. split; assumption.
Qed.

(** *** Escape sequences and strings *)

Lemma scanWhile_gt (p : option Z -> bool) (fuel i : nat) :
  p (charCodeAt input i) = true -> i < scanWhile input p (S fuel) i.
Proof.
  intros Hp. cbn [scanWhile]. rewrite Hp.
  pose proof (scanWhile_ge input p fuel (S i)). lia.
Qed.

Lemma readUnicodeDigits_ge (fuel escStart l ls : nat) (s s' : Cursor) :
  readUnicodeDigits input fuel escStart l ls s = Return tt s' ->
  index s <= index s'.
Proof.
  revert s. induction fuel as [|fuel IH]; intros s; cbn [readUnicodeDigits].
  - intros R. apply Return_inj in R as (_ & <-). lia.
  - destruct (isHexDigit (charCodeAt input (index s))).
    + cursor_simpl. destruct (6 <? index s + 1 - escStart); [discriminate|].
      intros R. apply IH in R. cbn [index] in R. lia.
    + intros R. apply Return_inj in R as (_ & <-). lia.
Qed.

Lemma readUnicodeEscapeSequence_gt (s s' : Cursor) (e : jsstring) :
  readUnicodeEscapeSequence input s = Return e s' -> index s < index s'.
Proof.
  unfold readUnicodeEscapeSequence. cursor_simpl.
  destruct (negb (code_is 123 (charCodeAt input (index s + 1)))); [discriminate|].
  destruct (negb (isHexDigit (charCodeAt input (index s + 1 + 1))));
    [discriminate|].
  pose proof (scanAll_ge input (code_is 48) (index s + 1 + 1)) as Hz.
  set (z := scanAll input (code_is 48) (index s + 1 + 1)) in *.
  destruct (readUnicodeDigits input (length input - z) z (line s) (lineStart s) _)
    as [[] s1|err] eqn:E; [|discriminate].
  apply readUnicodeDigits_ge in E. cbn [index] in E.
  cursor_simpl.
  destruct (negb (code_is 125 (charCodeAt input (index s1)))).
  - destruct (code_is 34 (charCodeAt input (index s1))
              || code_is 39 (charCodeAt input (index s1))); discriminate.
  - destruct (encodeUTF8 _); [|discriminate].
    intros R. apply Return_inj in R as (_ & <-). cbn [index]. lia.
Qed.

Lemma readEscapeSequence_gt (s s' : Cursor) (e : jsstring) :
  readEscapeSequence input options s = Return e s' -> index s < index s'.
Proof.
  assert (Hquote : forall e s', escape_case_quote input s = Return e s' ->
                                index s < index s').
  { unfold escape_case_quote. intros e0 s0 R.
    apply Return_inj in R as (_ & <-). cbn [index set_index]. lia. }
  assert (Hdefault : forall e s', escape_case_default input (features options) s = Return e s' ->
                                  index s < index s').
  { unfold escape_case_default. intros e0 s0.
    destruct (strictEscapes (features options)); [discriminate | apply Hquote]. }
  assert (Hu : forall e s', escape_case_u input (features options) s = Return e s' ->
                            index s < index s').
  { unfold escape_case_u. intros e0 s0.
    destruct (unicodeEscapes (features options));
      [apply readUnicodeEscapeSequence_gt | apply Hdefault]. }
  assert (Hx : forall e s', escape_case_x input (features options) s = Return e s' ->
                            index s < index s').
  { unfold escape_case_x. intros e0 s0.
    destruct (hexEscapes (features options)); [|apply Hu].
    destruct (isHexDigit (charCodeAt input (index s + 1))
              && isHexDigit (charCodeAt input (index s + 2))); [|discriminate].
    cursor_simpl. intros R. apply Return_inj in R as (_ & <-). cbn [index]. lia. }
  assert (Hz : forall e s', escape_case_z input (features options) s = Return e s' ->
                            index s < index s').
  { unfold escape_case_z. intros e0 s0.
    destruct (skipWhitespaceEscape (features options)); [|apply Hx].
    intros R. apply Return_inj in R as (_ & <-).
    pose proof (skipWhiteSpace_ge (set_index s (index s + 1))) as Hge.
    cbn [index set_index] in Hge. lia. }
  unfold readEscapeSequence, readEscapeSequenceWith.
  repeat match goal with
         | |- (if code_is ?k ?c then Return _ (set_index _ _) else _) = _ -> _ =>
           destruct (code_is k c);
           [intros R; apply Return_inj in R as (_ & <-); cbn [index set_index]; lia|]
         end.
  destruct (code_is 13 (charCodeAt input (index s))
            || code_is 10 (charCodeAt input (index s))) eqn:Heol.
  { intros R. apply Return_inj in R as (_ & <-).
    destruct (consumeEOL_ge s) as (_ & Hgt & _).
    apply Hgt. apply consumeEOL_true.
    unfold isLineTerminator. now rewrite orb_comm. }
  destruct (code_between 48 57 (charCodeAt input (index s))) eqn:Hdig.
  { cursor_simpl.
    pose proof (scanWhile_gt isDecDigit 2 (index s) Hdig) as Hge.
    destruct (255 <? _)%Z; [discriminate|].
    intros R. apply Return_inj in R as (_ & <-). cbn [index]. lia. }
  destruct (code_is 122 (charCodeAt input (index s))); [apply Hz|].
  destruct (code_is 120 (charCodeAt input (index s))); [apply Hx|].
  destruct (code_is 117 (charCodeAt input (index s))); [apply Hu|].
  destruct (code_is 92 (charCodeAt input (index s))
            || code_is 34 (charCodeAt input (index s))
            || code_is 39 (charCodeAt input (index s)));
    [apply Hquote | apply Hdefault].
Qed.

Lemma scanStringLiteral_loop_fuels (f1 f2 : nat) (delimiter : option Z)
    (beginLine beginLineStart stringStart : nat) (string : jsstring)
    (s : Cursor) :
  length input - index s <= f1 -> length input - index s <= f2 ->
  scanStringLiteral_loop input options f1 delimiter beginLine beginLineStart
    stringStart string s
  = scanStringLiteral_loop input options f2 delimiter beginLine beginLineStart
      stringStart string s.
Proof.
  revert f2 stringStart string s.
  induction f1 as [|f1 IH]; intros f2 stringStart string s H1 H2.
  - destruct f2; [reflexivity|]. cbn [scanStringLiteral_loop].
    destruct (Nat.ltb_spec (index s) (length input)); [lia | reflexivity].
  - destruct f2 as [|f2]; cbn [scanStringLiteral_loop];
      destruct (Nat.ltb_spec (index s) (length input)); try lia;
      try reflexivity.
    destruct (code_eq delimiter (charCodeAt input (index s))); [reflexivity|].
    destruct (code_is 92 (charCodeAt input (index s))).
    + destruct (readEscapeSequence input options (set_index s (index s + 1)))
        as [esc s1|e] eqn:E; [|reflexivity].
      apply readEscapeSequence_gt in E. cbn [index set_index] in E.
      destruct ((length input <=? index s1)
                || isLineTerminator (charCodeAt input (index s)));
        [reflexivity|].
      apply IH; lia.
    + destruct ((length input <=? index (set_index s (index s + 1)))
                || isLineTerminator (charCodeAt input (index s)));
        [reflexivity|].
      apply IH; cbn [index set_index]; lia.
Qed.

Lemma scanStringLiteral_loop_ge (fuel : nat) (delimiter : option Z)
    (beginLine beginLineStart stringStart : nat) (string : jsstring)
    (s s' : Cursor) (r : nat * jsstring) :
  scanStringLiteral_loop input options fuel delimiter beginLine beginLineStart
    stringStart string s = Return r s' ->
  index s <= index s'.
Proof.
  revert stringStart string s.
  induction fuel as [|fuel IH]; intros stringStart string s;
    cbn [scanStringLiteral_loop].
  - intros R. apply Return_inj in R as (_ & <-). lia.
  - destruct (index s <? length input);
      [|intros R; apply Return_inj in R as (_ & <-); lia].
    destruct (code_eq delimiter (charCodeAt input (index s))).
    { intros R. apply Return_inj in R as (_ & <-). cbn [index set_index]. lia. }
    destruct (code_is 92 (charCodeAt input (index s))).
    + destruct (readEscapeSequence input options (set_index s (index s + 1)))
        as [esc s1|e] eqn:E; [|discriminate].
      apply readEscapeSequence_gt in E. cbn [index set_index] in E.
      destruct ((length input <=? index s1)
                || isLineTerminator (charCodeAt input (index s)));
        [discriminate|].
      intros R. apply IH in R. lia.
    + destruct ((length input <=? index (set_index s (index s + 1)))
                || isLineTerminator (charCodeAt input (index s)));
        [discriminate|].
      intros R. apply IH in R. cbn [index set_index] in R. lia.
Qed.

Lemma scanStringLiteral_gt (s s' : Cursor) (t : Token num) :
  scanStringLiteral input options s = Return t s' -> index s < index s'.
Proof.
  unfold scanStringLiteral.
  destruct (scanStringLiteral_loop _ _ _ _ _ _ _ _ _) as [[st str] s1|e] eqn:E;
    [|discriminate].
  apply scanStringLiteral_loop_ge in E. cbn [index set_index] in E.
  intros R. apply Return_inj in R as (_ & <-). lia.
Qed.

(** With [length input - index] rounds the digit loop is left on a
    character that is no hex digit. *)
Lemma readUnicodeDigits_stops (fuel escStart l ls : nat) (s s' : Cursor) :
  length input - index s <= fuel ->
  readUnicodeDigits input fuel escStart l ls s = Return tt s' ->
  isHexDigit (charCodeAt input (index s')) = false.
Proof.
  revert s. induction fuel as [|fuel IH]; intros s Hf; cbn [readUnicodeDigits].
  - intros R. apply Return_inj in R as (_ & <-).
    rewrite charCodeAt_None by lia. reflexivity.
  - destruct (isHexDigit (charCodeAt input (index s))) eqn:Hd.
    + cursor_simpl. destruct (6 <? index s + 1 - escStart); [discriminate|].
      apply IH. cbn [index]. lia.
    + intros R. apply Return_inj in R as (_ & <-). assumption.
Qed.

(** *** Long strings and comments *)

Lemma consumeEOLs_ge (fuel : nat) (s : Cursor) :
  index s <= index (consumeEOLs input fuel s).
Proof.
  revert s. induction fuel as [|fuel IH]; intros s; cbn [consumeEOLs]; [lia|].
  destruct (isLineTerminator (charCodeAt input (index s))); [|lia].
  destruct (consumeEOL_ge s) as (Hge & _).
  specialize (IH (snd (consumeEOL input s))). lia.
Qed.

Lemma readLongString_loop_gt (fuel level stringStart : nat)
    (unfinished : LexicalError) (s s' : Cursor) (r : option jsstring) :
  readLongString_loop input fuel level stringStart unfinished s = Return r s' ->
  index s < index s'.
Proof.
  revert s. induction fuel as [|fuel IH]; intros s; cbn [readLongString_loop];
    [discriminate|].
  destruct (index s <? length input); [|discriminate].
  pose proof (consumeEOLs_ge (length input - index s) s) as Hge.
  set (s1 := consumeEOLs input (length input - index s) s) in *.
  cursor_simpl.
  destruct (code_is 93 (charCodeAt input (index s1))
            && isTerminator input level (index s1 + 1)).
  - intros R. apply Return_inj in R as (_ & <-). cbn [index]. lia.
  - intros R. apply IH in R. cbn [index] in R. lia.
Qed.

Lemma readLongString_gt (isComment : bool) (s s' : Cursor) (r : option jsstring) :
  readLongString input isComment s = Return r s' -> index s < index s'.
Proof.
  unfold readLongString. cursor_simpl.
  destruct (negb (code_is 91 (charCodeAt input _))).
  - intros R. apply Return_inj in R as (_ & <-). cbn [index]. lia.
  - match goal with
    | |- readLongString_loop _ _ _ _ _ ?c = _ -> _ =>
      assert (Hc : index s < index c)
    end.
    { destruct (isLineTerminator (charCodeAt input _)).
      - match goal with
        | |- _ < index (snd (consumeEOL input ?c)) =>
          destruct (consumeEOL_ge c) as (Hge & _); cbn [index] in Hge; lia
        end.
      - cbn [index]. lia. }
    intros R. apply readLongString_loop_gt in R. lia.
Qed.

Lemma scanLongStringLiteral_gt (s s' : Cursor) (t : Token num) :
  scanLongStringLiteral input s = Return t s' -> index s < index s'.
Proof.
  unfold scanLongStringLiteral.
  destruct (readLongString input false s) as [[str|] s1|e] eqn:E;
    try discriminate.
  apply readLongString_gt in E.
  intros R. apply Return_inj in R as (_ & <-). assumption.
Qed.

Lemma scanComment_gt (s s' : Cursor) (cs cs' : option (list Comment)) :
  scanComment input s cs = (Return tt s', cs') -> index s + 2 <= index s'.
Proof.
  unfold scanComment. cursor_simpl.
  assert (Hlong : forall c sl,
    (if code_is 91 (charCodeAt input (index s + 2))
     then match readLongString input true
                  {| index := index s + 2; line := line s;
                     lineStart := lineStart s; tokenStart := index s |} with
          | Return (Some content) s0 => Return (content, true) s0
          | Return None s0 => Return (charAt input (index s + 2), false) s0
          | Throw e => Throw e
          end
     else Return ([], false)
            {| index := index s + 2; line := line s;
               lineStart := lineStart s; tokenStart := index s |})
    = Return c sl -> index s + 2 <= index sl).
  { intros c sl. destruct (code_is 91 (charCodeAt input (index s + 2))).
    - destruct (readLongString input true _) as [[str|] s1|e] eqn:E;
        try discriminate;
        apply readLongString_gt in E; cbn [index] in E;
        intros R; apply Return_inj in R as (_ & <-); lia.
    - intros R. apply Return_inj in R as (_ & <-). cbn [index]. lia. }
  destruct (if code_is 91 (charCodeAt input (index s + 2)) then _ else _)
    as [[content isLong] s1|e] eqn:E.
  - specialize (Hlong _ _ eq_refl).
    destruct isLong; cbn [negb].
    + intros R. inversion R; subst. assumption.
    + pose proof (scanAll_ge input
        (fun c => negb (isLineTerminator c)
                  && match c with Some _ => true | None => false end)
        (index s1)) as Hge.
      intros R. inversion R; subst. cbn [index]. lia.
  - discriminate.
Qed.

Lemma skipComments_fuels (f1 f2 : nat) (s : Cursor) (cs : option (list Comment)) :
  length input - index s <= f1 -> length input - index s <= f2 ->
  skipComments input f1 s cs = skipComments input f2 s cs.
Proof.
  revert f2 s cs. induction f1 as [|f1 IH]; intros f2 s cs H1 H2.
  - destruct f2; [reflexivity|]. cbn [skipComments].
    destruct (code_is 45 (charCodeAt input (index s))) eqn:Hc; [|reflexivity].
    apply code_is_lt in Hc. lia.
  - destruct f2 as [|f2]; cbn [skipComments].
    + destruct (code_is 45 (charCodeAt input (index s))) eqn:Hc; [|reflexivity].
      apply code_is_lt in Hc. lia.
    + destruct (code_is 45 (charCodeAt input (index s))
                && code_is 45 (charCodeAt input (index s + 1))); [|reflexivity].
      destruct (scanComment input s cs) as [[[] s1|e] cs1] eqn:E;
        [|reflexivity].
      apply scanComment_gt in E.
      pose proof (skipWhiteSpace_ge s1).
      apply IH; lia.
Qed.

Lemma skipComments_ge (fuel : nat) (s s' : Cursor) (cs cs' : option (list Comment)) :
  skipComments input fuel s cs = (Return tt s', cs') -> index s <= index s'.
Proof.
  revert s cs. induction fuel as [|fuel IH]; intros s cs; cbn [skipComments].
  - intros R. inversion R; subst. lia.
  - destruct (code_is 45 (charCodeAt input (index s))
              && code_is 45 (charCodeAt input (index s + 1))).
    + destruct (scanComment input s cs) as [[[] s1|e] cs1] eqn:E;
        [|discriminate].
      apply scanComment_gt in E. pose proof (skipWhiteSpace_ge s1).
      intros R. apply IH in R. lia.
    + intros R. inversion R; subst. lia.
Qed.

(** The loop of [lex] is left on a position that starts no comment. *)
Lemma skipComments_stops (fuel : nat) (s s' : Cursor)
    (cs cs' : option (list Comment)) :
  length input - index s <= fuel ->
  skipComments input fuel s cs = (Return tt s', cs') ->
  code_is 45 (charCodeAt input (index s'))
  && code_is 45 (charCodeAt input (index s' + 1)) = false.
Proof.
  revert s cs. induction fuel as [|fuel IH]; intros s cs Hf; cbn [skipComments].
  - intros R. inversion R; subst.
    rewrite charCodeAt_None by lia. reflexivity.
  - destruct (code_is 45 (charCodeAt input (index s))
              && code_is 45 (charCodeAt input (index s + 1))) eqn:Hc.
    + destruct (scanComment input s cs) as [[[] s1|e] cs1] eqn:E;
        [|discriminate].
      apply scanComment_gt in E. pose proof (skipWhiteSpace_ge s1).
      apply IH. lia.
    + intros R. inversion R; subst. assumption.
Qed.

(** *** Tokens *)

Lemma scanIdentifierOrKeyword_gt (s s' : Cursor) (t : Token num) :
  scanIdentifierOrKeyword input options s = Return t s' -> index s < index s'.
Proof.
  unfold scanIdentifierOrKeyword. cursor_simpl.
  pose proof (scanAll_ge input (isIdentifierPart options) (index s + 1)) as Hge.
  destruct (isKeyword options _);
    [|destruct (jsstring_eqb (js "true") _ || jsstring_eqb (js "false") _);
      [|destruct (jsstring_eqb (js "nil") _)]];
    intros R; apply Return_inj in R as (_ & <-); cbn [index]; lia.
Qed.

Lemma scanNumericLiteral_gt (s s' : Cursor) (t : Token num) :
  isDecDigit (charCodeAt input (index s)) = true
  \/ (code_is 46 (charCodeAt input (index s)) = true
      /\ isDecDigit (charCodeAt input (index s + 1)) = true) ->
  scanNumericLiteral input s = Return t s' -> index s < index s'.
Proof.
  intros Hstart. unfold scanNumericLiteral.
  destruct (code_is 48 (charCodeAt input (index s))
            && code_among [120; 88]%Z (charCodeAt input (index s + 1))) eqn:Hhex.
  - apply andb_prop in Hhex as (_ & Hx). apply code_among_lt in Hx.
    destruct (readHexLiteral input s) as [v s1|e] eqn:E; [|discriminate].
    destruct (readHexLiteral_bounds input s s1 v ltac:(lia) E) as (B & _).
    intros R. apply Return_inj in R as (_ & <-). lia.
  - destruct (readDecLiteral input s) as [v s1|e] eqn:E; [|discriminate].
    assert (Hi : index s < length input).
    { destruct Hstart as [Hd | (Hd & _)];
        [eapply isDecDigit_lt | eapply code_is_lt]; eauto. }
    destruct (readDecLiteral_bounds input s s1 v ltac:(lia) E) as (B & Bdot & _).
    destruct (scanAll_facts input isDecDigit (index s) eq_refl ltac:(lia))
      as (B1 & _ & Hgt).
    intros R. apply Return_inj in R as (_ & <-).
    destruct Hstart as [Hd | (Hdot & Hd)]; [specialize (Hgt Hd); lia|].
    assert (Hj : scanAll input isDecDigit (index s) = index s).
    { apply scanAll_unique; try reflexivity; try lia.
      apply code_is_Some in Hdot. now rewrite Hdot. }
    rewrite Hj in *. specialize (Bdot Hdot).
    pose proof (scanAll_ge input isDecDigit (index s + 1)). lia.
Qed.

Lemma scanPunctuator_gt (text : jsstring) (s s' : Cursor) (t : Token num) :
  0 < length text ->
  scanPunctuator text s = Return t s' -> index s < index s'.
Proof.
  intros Hpos. unfold scanPunctuator. cursor_simpl.
  intros R. apply Return_inj in R as (_ & <-). cbn [index]. lia.
Qed.

Lemma lex_dispatch_gt (s s' : Cursor) (t : Token num) :
  index s < length input ->
  lex_dispatch input options s = Return t s' -> index s < index s'.
Proof.
  intros Hlt. unfold lex_dispatch.
  assert (Hchar : 0 < length (charAt input (index s))).
  { unfold charAt. destruct (nth_error input (index s)) eqn:E; [cbn; lia|].
    apply nth_error_None in E. lia. }
  set (s1 := set_tokenStart s (index s)).
  change (index s) with (index s1) in Hchar |- *. clearbody s1. clear s Hlt.
  repeat match goal with
         | |- (if ?c then _ else _) = _ -> _ => destruct c eqn:?
         end;
    try discriminate;
    try (apply scanPunctuator_gt; (assumption || (cbn; lia)));
    try apply scanIdentifierOrKeyword_gt;
    try apply scanStringLiteral_gt;
    try apply scanLongStringLiteral_gt;
    try (apply scanNumericLiteral_gt; (left; assumption) || (right; split; assumption)).
  unfold scanVarargLiteral. cursor_simpl.
  intros R. apply Return_inj in R as (_ & <-). cbn [index]. lia.
Qed.

Lemma lex_gt (s s' : Cursor) (cs cs' : option (list Comment)) (t : Token num) :
  lex input options s cs = LexToken t s' cs' ->
  index s < index s' /\ index s < length input.
Proof.
  unfold lex. pose proof (skipWhiteSpace_ge s) as Hw.
  destruct (skipComments input _ _ cs) as [[[] s0|e] cs0] eqn:E; [|discriminate].
  apply skipComments_ge in E.
  destruct (Nat.leb_spec (length input) (index s0)); [discriminate|].
  destruct (lex_dispatch input options s0) as [t0 s1|e] eqn:D; [|discriminate].
  apply lex_dispatch_gt in D; [|assumption].
  intros R. inversion R; subst. lia.
Qed.

(** *** The stream *)

(** Every token moves the cursor forward, so the stream ends within
    [length input - index] tokens. *)
Lemma pullAll_ends (fuel : nat) (s : Cursor) (cs : option (list Comment)) :
  length input - index s < fuel ->
  exists r, pullAll input options fuel s cs = Some r.
Proof.
  revert s cs. induction fuel as [|fuel IH]; intros s cs Hf; [lia|].
  cbn [pullAll].
  destruct (lex input options s cs) as [t s1 cs1 | s1 cs1 | e cs1] eqn:E;
    try (eexists; reflexivity).
  apply lex_gt in E as (Hgt & Hlt).
  destruct (IH s1 cs1) as (r & ->); [lia|].
  eexists. reflexivity.
Qed.

End Progress.

Lemma skipShebang_ends (input : jsstring) (fuel : nat) (s : Cursor) (j : nat) :
  index s <= j -> j - index s < fuel ->
  isLineTerminator (charCodeAt input j) = true ->
  exists s', skipShebang input fuel s = Some s'.
Proof.
  revert s. induction fuel as [|fuel IH]; intros s Hle Hf Hj; [lia|].
  cbn [skipShebang].
  destruct (consumeEOL input s) as [[] s1] eqn:E; [eexists; reflexivity|].
  assert (Hne : index s <> j).
  { intros Heq. subst j. pose proof (consumeEOL_true input s Hj) as Ht.
    rewrite E in Ht. discriminate. }
  apply IH; cbn [index set_index]; try lia. assumption.
Qed.


(** X1. Outside the shebang loop the stream is finite: a call whose input
    has no shebang line to skip, or has a line terminator, ends within
    [length input + 1] pulls, normally or by an error. *)
Theorem tokenize_ends :
  forall num (N : JsNumber num) (input : jsstring) (options_ : TokenizerOptions)
         (fuel : nat),
    length input < fuel ->
    (ignoreShebang (resolveOptions options_) = true ->
     firstn 2 input = js "#!" ->
     exists j, isLineTerminator (charCodeAt input j) = true) ->
    exists r, tokenize (num := num) fuel input options_ = Some r.
Proof.
  intros num N input options_ fuel Hf Hshebang.
  unfold tokenize, run.
  destruct (ignoreShebang (resolveOptions options_)
            && jsstring_eqb (firstn 2 input) (js "#!")) eqn:Hs.
  - apply andb_prop in Hs as (Hi & Hb). apply jsstring_eqb_eq in Hb.
    destruct (Hshebang Hi Hb) as (j & Hj).
    pose proof (isLineTerminator_lt input j Hj) as Hlt.
    destruct (skipShebang_ends input fuel start j) as (s' & ->);
      cbn [index start]; try lia; try assumption.
    apply pullAll_ends. lia.
  - apply pullAll_ends. cbn [index start]. lia.
Qed.

Lemma tokenize_ends_witness :
  exists r,
    tokenize (num := ExactNumber) 20 (js "#!lua" ++ 10%Z :: js "return 0x10")
      noOptions = Some r.
Proof.
  apply (tokenize_ends ExactNumber _ _ noOptions 20).
  - cbn. lia.
  - intros _ _. exists 5. reflexivity.
Defined.

Local Open Scope Z_scope.

Lemma lor_high_low (n k x : Z) :
  0 <= n -> 0 <= x < 2 ^ n -> k mod 2 ^ n = 0 -> Z.lor k x = k + x.
Proof.
  intros Hn Hx Hk.
  assert (Hland : Z.land k x = 0).
  { apply Z.bits_inj'. intros i Hi. rewrite Z.land_spec, Z.bits_0.
    destruct (Z.lt_ge_cases i n) as [Hlt | Hge].
    - replace (Z.testbit k i) with false; [reflexivity|].
      rewrite <- (Z.mod_pow2_bits_low k n i) by lia. rewrite Hk.
      now rewrite Z.bits_0.
    - replace (Z.testbit x i) with false; [now rewrite andb_false_r|].
      rewrite <- (Z.mod_small x (2 ^ n)) by lia.
      now rewrite Z.mod_pow2_bits_high by lia. }
  pose proof (Z.add_lor_land k x). lia.
Qed.

Lemma land_63 (x : Z) : Z.land x 63 = x mod 64.
Proof. change 63 with (Z.ones 6). now rewrite Z.land_ones by lia. Qed.

Lemma shiftr_div (x n : Z) : 0 <= n -> Z.shiftr x n = x / 2 ^ n.
Proof. intros. now rewrite Z.shiftr_div_pow2. Qed.

Lemma fromCharCode_small (x : Z) : 0 <= x < 65536 -> fromCharCode x = x.
Proof. intros. unfold fromCharCode. now apply Z.mod_small. Qed.

Lemma continuation_byte (x : Z) :
  fromCharCode (Z.lor 128 (Z.land x 63)) = 128 + x mod 64.
Proof.
  rewrite land_63.
  assert (0 <= x mod 64 < 64) by (apply Z.mod_pos_bound; lia).
  rewrite (lor_high_low 7) by (cbn; lia || reflexivity).
  apply fromCharCode_small. lia.
Qed.

Lemma lead_byte (n k x : Z) :
  0 <= n <= 5 -> 0 <= x < 2 ^ n -> k mod 2 ^ n = 0 -> 0 <= k < 65000 ->
  fromCharCode (Z.lor k x) = k + x.
Proof.
  intros Hn Hx Hk Hr. rewrite (lor_high_low n) by (lia || assumption).
  apply fromCharCode_small.
  assert (2 ^ n <= 2 ^ 5) by (apply Z.pow_le_mono_r; lia).
  change (2 ^ 5) with 32 in *. lia.
Qed.

Lemma encodeUTF8_arith (cp : Z) :
  0 <= cp ->
  encodeUTF8 (Some cp) =
    if cp <? 0x80 then Some [cp]
    else if cp <? 0x800 then Some [192 + cp / 64; 128 + cp mod 64]
    else if cp <? 0x10000
    then Some [224 + cp / 4096; 128 + (cp / 64) mod 64; 128 + cp mod 64]
    else if cp <? 0x110000
    then Some [240 + cp / 262144; 128 + (cp / 4096) mod 64;
               128 + (cp / 64) mod 64; 128 + cp mod 64]
    else None.
Proof.
  intros Hcp. unfold encodeUTF8.
  rewrite !continuation_byte.
  rewrite !shiftr_div by lia.
  change (2 ^ 6) with 64. change (2 ^ 12) with 4096. change (2 ^ 18) with 262144.
  destruct (Z.ltb_spec cp 128).
  { now rewrite fromCharCode_small by lia. }
  destruct (Z.ltb_spec cp 2048).
  { rewrite (lead_byte 5); [reflexivity|lia| |reflexivity|lia].
    split; [apply Z.div_pos; lia | apply Z.div_lt_upper_bound; cbn; lia]. }
  destruct (Z.ltb_spec cp 65536).
  { rewrite (lead_byte 4); [reflexivity|lia| |reflexivity|lia].
    split; [apply Z.div_pos; lia | apply Z.div_lt_upper_bound; cbn; lia]. }
  destruct (Z.ltb_spec cp 1114112); [|reflexivity].
  rewrite (lead_byte 3); [reflexivity|lia| |reflexivity|lia].
  split; [apply Z.div_pos; lia | apply Z.div_lt_upper_bound; cbn; lia].
Qed.

Lemma encodeUTF8_utf8 (cp : Z) :
  0 <= cp < 0x110000 ->
  exists bs, encodeUTF8 (Some cp) = Some bs /\ utf8Shaped bs = true
             /\ Forall byteUnit bs.
Proof.
  intros Hcp. rewrite encodeUTF8_arith by lia.
  destruct (Z.ltb_spec cp 128); [|destruct (Z.ltb_spec cp 2048);
    [|destruct (Z.ltb_spec cp 65536); [|destruct (Z.ltb_spec cp 1114112); [|lia]]]];
  eexists; (split; [reflexivity|]); unfold utf8Shaped, isContinuationByte, byteUnit;
  (split; [rewrite ?andb_true_iff, ?Z.leb_le; Z.div_mod_to_equations; lia
          | repeat (apply Forall_cons; [Z.div_mod_to_equations; lia|]);
            apply Forall_nil]).
Qed.

Lemma Some_inj {A} (x y : A) : Some x = Some y -> x = y.
Proof. congruence. Qed.

Lemma cons_inj {A} (x y : A) (l l' : list A) :
  x :: l = y :: l' -> x = y /\ l = l'.
Proof. intros E. split; congruence. Qed.

Lemma encodeUTF8_injective_aux (a b : Z) :
  0 <= a < 0x110000 -> 0 <= b < 0x110000 ->
  encodeUTF8 (Some a) = encodeUTF8 (Some b) -> a = b.
Proof.
  intros Ha Hb. rewrite !encodeUTF8_arith by lia.
  destruct (Z.ltb_spec a 128); [|destruct (Z.ltb_spec a 2048);
    [|destruct (Z.ltb_spec a 65536); [|destruct (Z.ltb_spec a 1114112); [|lia]]]];
  (destruct (Z.ltb_spec b 128); [|destruct (Z.ltb_spec b 2048);
    [|destruct (Z.ltb_spec b 65536); [|destruct (Z.ltb_spec b 1114112); [|lia]]]]);
  intros E; try discriminate E; apply Some_inj in E;
  repeat (let E1 := fresh "E" in apply cons_inj in E as (E1 & E));
  Z.div_mod_to_equations; lia.
Qed.

Lemma encodeUTF8_length (cp : Z) :
  0 <= cp < 0x110000 ->
  exists bs, encodeUTF8 (Some cp) = Some bs
    /\ length bs = if cp <? 0x80 then 1%nat else if cp <? 0x800 then 2%nat
                   else if cp <? 0x10000 then 3%nat else 4%nat.
Proof.
  intros Hcp. rewrite encodeUTF8_arith by lia.
  destruct (Z.ltb_spec cp 128); [|destruct (Z.ltb_spec cp 2048);
    [|destruct (Z.ltb_spec cp 65536); [|destruct (Z.ltb_spec cp 1114112); [|lia]]]];
  eexists; split; reflexivity.
Qed.

(** Induction over a string two code units at a time, as the encoding
    fixup reads it. *)
Lemma pair_induction (P : jsstring -> Prop) :
  P [] -> (forall c, P [c]) ->
  (forall c d w, P w -> P (d :: w) -> P (c :: d :: w)) ->
  forall w, P w.
Proof.
  intros H0 H1 H2 w.
  assert (Hboth : P w /\ forall c, P (c :: w)).
  { induction w as [|d w [IHw IHc]]; [split; auto|].
    split; [apply IHc|]. intros c. apply H2; auto. }
  apply Hboth.
Qed.

Lemma fixup_cons (c : Z) (w : jsstring) :
  fixupHighCharacters (c :: w) =
    match w with
    | d :: w' =>
      if isHighSurrogate c && isLowSurrogate d
      then fixupPair c d ++ fixupHighCharacters w'
      else fixupUnit c ++ fixupHighCharacters w
    | [] => fixupUnit c
    end.
Proof.
  unfold fixupUnit, fixupPair. destruct w as [|d w]; cbn [fixupHighCharacters].
  - destruct ((0 <=? c) && (c <=? 127)); [reflexivity | now rewrite app_nil_r].
  - destruct (isHighSurrogate c && isLowSurrogate d); [reflexivity|].
    destruct ((0 <=? c) && (c <=? 127)); reflexivity.
Qed.

Lemma fixupUnit_facts (c : Z) :
  codeUnit c ->
  Forall byteUnit (fixupUnit c)
  /\ (1 <= length (fixupUnit c) <= 3)%nat
  /\ (length (fixupUnit c) = 1%nat -> c <= 127 /\ fixupUnit c = [c]).
Proof.
  unfold codeUnit, fixupUnit. intros Hc.
  destruct (Z.leb_spec 0 c); [|lia]. cbn [andb].
  destruct (Z.leb_spec c 127).
  - repeat split; cbn; try lia. repeat constructor; unfold byteUnit; lia.
  - destruct (encodeUTF8_utf8 c) as (bs & E & _ & Hb); [lia|].
    destruct (encodeUTF8_length c) as (bs' & E' & Hl); [lia|].
    rewrite E in E'. inversion E'; subst bs'. rewrite E. cbn [nullthrows].
    destruct (Z.ltb_spec c 128); [lia|].
    destruct (Z.ltb_spec c 2048); [|destruct (Z.ltb_spec c 65536); [|lia]];
      rewrite Hl; repeat split; try lia; assumption.
Qed.

Lemma fixupPair_facts (c d : Z) :
  Forall byteUnit (fixupPair c d) /\ length (fixupPair c d) = 4%nat.
Proof.
  unfold fixupPair. pose proof (surrogate_pair_bounds c d) as Hb.
  set (cp := 65536 + Z.lor (Z.shiftl (Z.land c 1023) 10) (Z.land d 1023)) in *.
  destruct (encodeUTF8_utf8 cp) as (bs & E & _ & Hbytes); [lia|].
  destruct (encodeUTF8_length cp) as (bs' & E' & Hl); [lia|].
  rewrite E in E'. inversion E'; subst bs'. rewrite E. cbn [nullthrows].
  split; [assumption|]. rewrite Hl.
  destruct (Z.ltb_spec cp 128); [lia|].
  destruct (Z.ltb_spec cp 2048); [lia|].
  destruct (Z.ltb_spec cp 65536); [lia|]. reflexivity.
Qed.

Lemma fixupHighCharacters_bytes_aux (w : jsstring) :
  Forall codeUnit w -> Forall byteUnit (fixupHighCharacters w).
Proof.
  induction w as [|c|c d w IHw IHd] using pair_induction; intros Hw.
  - constructor.
  - rewrite fixup_cons. inversion Hw; subst. now apply fixupUnit_facts.
  - rewrite fixup_cons. inversion Hw as [|? ? Hc Hdw]; subst.
    inversion Hdw as [|? ? Hd Hw']; subst.
    destruct (isHighSurrogate c && isLowSurrogate d).
    + apply Forall_app. split; [apply fixupPair_facts | now apply IHw].
    + apply Forall_app. split; [now apply fixupUnit_facts | now apply IHd].
Qed.

Lemma fixupHighCharacters_length_aux (w : jsstring) :
  Forall codeUnit w ->
  (length w <= length (fixupHighCharacters w) <= 3 * length w)%nat
  /\ (length (fixupHighCharacters w) = length w -> Forall (fun c => c <= 127) w).
Proof.
  induction w as [|c|c d w IHw IHd] using pair_induction; intros Hw.
  - cbn. split; [lia|constructor].
  - rewrite fixup_cons. inversion Hw as [|? ? Hc ?]; subst.
    destruct (fixupUnit_facts c Hc) as (_ & Hl & H1). cbn [length].
    split; [lia|]. intros E. constructor; [|constructor]. now apply H1.
  - rewrite fixup_cons. inversion Hw as [|? ? Hc Hdw]; subst.
    inversion Hdw as [|? ? Hd Hw']; subst.
    destruct (isHighSurrogate c && isLowSurrogate d).
    + destruct (fixupPair_facts c d) as (_ & Hl).
      destruct (IHw Hw') as (Hlen & _).
      rewrite length_app, Hl. cbn [length]. split; [lia|]. intros E. lia.
    + destruct (fixupUnit_facts c Hc) as (_ & Hl & H1).
      destruct (IHd Hdw) as (Hlen & Hascii).
      rewrite length_app. cbn [length] in *. split; [lia|]. intros E.
      constructor; [apply H1; lia | apply Hascii; lia].
Qed.

Lemma fixupHighCharacters_ascii_id (w : jsstring) :
  Forall (fun c => 0 <= c <= 127) w -> fixupHighCharacters w = w.
Proof.
  induction w as [|c w IH]; intros Hw; [reflexivity|].
  inversion Hw as [|? ? Hc Hw']; subst.
  rewrite fixup_cons.
  assert (Hu : fixupUnit c = [c]).
  { unfold fixupUnit. destruct (Z.leb_spec 0 c); [|lia].
    destruct (Z.leb_spec c 127); [reflexivity|lia]. }
  assert (Hh : isHighSurrogate c = false).
  { unfold isHighSurrogate. destruct (Z.leb_spec 55296 c); [lia|reflexivity]. }
  rewrite Hh, Hu. cbn [andb]. destruct w; [reflexivity|].
  cbn [app]. f_equal. now apply IH.
Qed.

Lemma fixupHighCharacters_app_aux (a b : jsstring) :
  startsPair (last a 0) b = false ->
  fixupHighCharacters (a ++ b) = fixupHighCharacters a ++ fixupHighCharacters b.
Proof.
  induction a as [|c|c d a IHa IHd] using pair_induction; intros Hsplit.
  - reflexivity.
  - cbn [app last] in *. rewrite !fixup_cons. unfold startsPair in Hsplit.
    destruct b as [|e b]; [now rewrite app_nil_r|].
    rewrite Hsplit. reflexivity.
  - cbn [app]. rewrite (fixup_cons c (d :: a ++ b)), (fixup_cons c (d :: a)).
    change (last (c :: d :: a) 0) with (last (d :: a) 0) in Hsplit.
    destruct (isHighSurrogate c && isLowSurrogate d).
    + rewrite <- app_assoc. f_equal.
      destruct a as [|e a]; [reflexivity|].
      apply IHa. exact Hsplit.
    + rewrite <- app_assoc. f_equal. apply (IHd Hsplit).
Qed.

Ltac bool_lia :=
  match goal with
  | |- _ = true =>
    rewrite ?andb_true_iff, ?orb_true_iff, ?Z.leb_le, ?Z.eqb_eq;
    Z.div_mod_to_equations; lia
  | |- _ = false =>
    let Hb := fresh "Hb" in
    apply not_true_is_false; intros Hb;
    rewrite ?andb_true_iff, ?orb_true_iff, ?Z.leb_le, ?Z.eqb_eq in Hb;
    Z.div_mod_to_equations; lia
  end.

Lemma encodeUTF8_well_formed (cp : Z) :
  0 <= cp < 0x110000 ->
  exists bs, encodeUTF8 (Some cp) = Some bs
             /\ utf8Value bs = cp
             /\ wellFormedUTF8 bs = negb (isSurrogate cp).
Proof.
  intros Hcp. rewrite encodeUTF8_arith by lia.
  unfold isSurrogate.
  destruct (Z.ltb_spec cp 128); [|destruct (Z.ltb_spec cp 2048);
    [|destruct (Z.ltb_spec cp 65536); [|destruct (Z.ltb_spec cp 1114112); [|lia]]]];
  eexists; (split; [reflexivity|]);
  (split; [unfold utf8Value; Z.div_mod_to_equations; lia|]);
  unfold wellFormedUTF8, isContinuationByte;
  destruct (Z.leb_spec 0xd800 cp); destruct (Z.leb_spec cp 0xdfff);
  cbn [andb negb]; try lia; bool_lia.
Qed.

(** X3. For every code point up to [0x10FFFF] that is no surrogate,
    [encodeUTF8] answers its well-formed UTF-8 encoding: one to four bytes,
    by the size of the code point, in the shortest form, whose payload
    bits spell the code point.  A surrogate ([0xD800] to [0xDFFF]) gets
    three bytes of the same layout, [0xED] first, which UTF-8 does not
    admit.  From [0x110000] on, and on [NaN], the answer is [null]. *)
Theorem encodeUTF8_is_utf8 :
  (forall cp, 0 <= cp < 0x110000 ->
     exists bs, encodeUTF8 (Some cp) = Some bs
                /\ length bs = utf8Length cp
                /\ utf8Value bs = cp
                /\ wellFormedUTF8 bs = negb (isSurrogate cp))
  /\ (forall cp, 0x110000 <= cp -> encodeUTF8 (Some cp) = None)
  /\ encodeUTF8 None = None.
Proof.
  split; [|split].
  - intros cp Hcp.
    destruct (encodeUTF8_well_formed cp Hcp) as (bs & E & Hv & Hw).
    destruct (encodeUTF8_length cp Hcp) as (bs' & E' & Hl).
    rewrite E in E'. apply Some_inj in E'. subst bs'.
    exists bs. repeat split; assumption.
  - intros cp Hcp. unfold encodeUTF8.
    destruct (Z.ltb_spec cp 128); [lia|].
    destruct (Z.ltb_spec cp 2048); [lia|].
    destruct (Z.ltb_spec cp 65536); [lia|].
    destruct (Z.ltb_spec cp 1114112); [lia|]. reflexivity.
  - reflexivity.
Qed.

Lemma encodeUTF8_is_utf8_witness :
  (exists bs, encodeUTF8 (Some 0x20ac) = Some bs
              /\ length bs = 3%nat
              /\ utf8Value bs = 0x20ac
              /\ wellFormedUTF8 bs = true)
  /\ encodeUTF8 (Some 0x20ac) = Some [0xe2; 0x82; 0xac]
  /\ (exists bs, encodeUTF8 (Some 0xd800) = Some bs
                 /\ length bs = 3%nat
                 /\ utf8Value bs = 0xd800
                 /\ wellFormedUTF8 bs = false)
  /\ encodeUTF8 (Some 0xd800) = Some [0xed; 0xa0; 0x80]
  /\ encodeUTF8 (Some 0x110000) = None.
Proof.
  destruct encodeUTF8_is_utf8 as (Hin & Hout & _).
  split; [apply (Hin 0x20ac); lia|].
  split; [reflexivity|].
  split; [apply (Hin 0xd800); lia|].
  split; [reflexivity | apply (Hout 0x110000); lia].
Defined.

(** X4. [encodeUTF8] is one to one on the codepoints it encodes: two
    codepoints with the same bytes are the same codepoint. *)
Theorem encodeUTF8_injective :
  forall a b : Z,
    0 <= a < 0x110000 -> 0 <= b < 0x110000 ->
    encodeUTF8 (Some a) = encodeUTF8 (Some b) -> a = b.
Proof. exact encodeUTF8_injective_aux. Qed.

Lemma encodeUTF8_injective_witness :
  encodeUTF8 (Some 0xe9) = Some [0xc3; 0xa9] /\ 0xe9 = 0xe9.
Proof.
  split; [reflexivity|].
  apply (encodeUTF8_injective 0xe9 0xe9); [lia | lia | reflexivity].
Defined.

(** X5. The encoding fixup leaves a string as it is exactly when the string
    is ASCII; any other string grows, to at most three times its length. *)
Theorem fixupHighCharacters_keeps_ascii :
  forall w : jsstring,
    Forall codeUnit w ->
    (fixupHighCharacters w = w <-> Forall (fun c => c <= 127) w)
    /\ (length w <= length (fixupHighCharacters w) <= 3 * length w)%nat.
Proof.
  intros w Hw.
  destruct (fixupHighCharacters_length_aux w Hw) as (Hlen & Hascii).
  split; [|assumption]. split.
  - intros E. apply Hascii. now rewrite E.
  - intros Ha. apply fixupHighCharacters_ascii_id.
    rewrite Forall_forall in *. intros c Hin.
    specialize (Hw c Hin). specialize (Ha c Hin). unfold codeUnit in Hw. lia.
Qed.

Lemma fixupHighCharacters_keeps_ascii_witness :
  fixupHighCharacters (js "local") = js "local"
  /\ fixupHighCharacters [0xe9] = [0xc3; 0xa9].
Proof.
  split; [|reflexivity].
  apply (fixupHighCharacters_keeps_ascii (js "local")).
  - cbn. repeat (apply Forall_cons; [unfold codeUnit; lia|]). apply Forall_nil.
  - cbn. repeat (apply Forall_cons; [lia|]). apply Forall_nil.
Defined.

(** X6. The encoding fixup of a string of code units is a string of
    bytes. *)
Theorem fixupHighCharacters_bytes :
  forall w : jsstring,
    Forall codeUnit w -> Forall byteUnit (fixupHighCharacters w).
Proof. exact fixupHighCharacters_bytes_aux. Qed.

Lemma fixupHighCharacters_bytes_witness :
  fixupHighCharacters [0x20ac; 0xd83d; 0xde00] = [0xe2; 0x82; 0xac; 0xf0; 0x9f; 0x98; 0x80]
  /\ Forall byteUnit (fixupHighCharacters [0x20ac; 0xd83d; 0xde00]).
Proof.
  split; [reflexivity|].
  apply (fixupHighCharacters_bytes [0x20ac; 0xd83d; 0xde00]).
  repeat (apply Forall_cons; [unfold codeUnit; lia|]). apply Forall_nil.
Defined.

(** X7. The encoding fixup goes through a concatenation, unless the cut
    separates the two halves of a surrogate pair. *)
Theorem fixupHighCharacters_app :
  forall a b : jsstring,
    startsPair (last a 0) b = false ->
    fixupHighCharacters (a ++ b) = fixupHighCharacters a ++ fixupHighCharacters b.
Proof. exact fixupHighCharacters_app_aux. Qed.

Lemma fixupHighCharacters_app_witness :
  fixupHighCharacters ([0xe9; 0xd83d; 0xde00] ++ [0x20ac])
    = fixupHighCharacters [0xe9; 0xd83d; 0xde00] ++ fixupHighCharacters [0x20ac]
  /\ fixupHighCharacters [0xd83d; 0xde00] = [0xf0; 0x9f; 0x98; 0x80]
  /\ fixupHighCharacters [0xd83d] ++ fixupHighCharacters [0xde00]
     = [0xed; 0xa0; 0xbd; 0xed; 0xb8; 0x80].
Proof.
  split; [|split; reflexivity].
  apply (fixupHighCharacters_app [0xe9; 0xd83d; 0xde00] [0x20ac]). reflexivity.
Defined.

Local Open Scope nat_scope.

Section Positions.

Context {num : Type} `{JsNumber num}.
Variable input : jsstring.
Variable options : Options.

Lemma clear_refl (i : nat) : clearOfBreaks input i i.
Proof. intros k Hk. lia. Qed.

Lemma clear_trans (i j k : nat) :
  clearOfBreaks input i j -> clearOfBreaks input j k -> clearOfBreaks input i k.
Proof.
  intros H1 H2 n Hn. destruct (Nat.lt_ge_cases n j); [apply H1 | apply H2]; lia.
Qed.

Lemma clear_one (i : nat) :
  isLineTerminator (charCodeAt input i) = false -> clearOfBreaks input i (i + 1).
Proof. intros Hi k Hk. replace k with i by lia. assumption. Qed.

Lemma clear_scan (p : option Z -> bool) (fuel i : nat) :
  (forall c, p c = true -> isLineTerminator c = false) ->
  clearOfBreaks input i (scanWhile input p fuel i).
Proof.
  intros Hp. revert i. induction fuel as [|fuel IH]; intros i; cbn [scanWhile].
  - apply clear_refl.
  - destruct (p (charCodeAt input i)) eqn:E; [|apply clear_refl].
    apply (clear_trans i (S i)); [|apply IH].
    replace (S i) with (i + 1) by lia. apply clear_one. now apply Hp.
Qed.

Lemma clear_past (i j : nat) : length input <= i -> clearOfBreaks input i j.
Proof.
  intros Hi k Hk. rewrite charCodeAt_None by lia. reflexivity.
Qed.

Lemma code_is_no_break (k : Z) (c : option Z) :
  k <> 10%Z -> k <> 13%Z -> code_is k c = true -> isLineTerminator c = false.
Proof.
  intros H10 H13 Hc. apply code_is_Some in Hc. subst c.
  unfold isLineTerminator, code_is.
  destruct (Z.eqb_spec k 10); [contradiction|].
  destruct (Z.eqb_spec k 13); [contradiction|]. reflexivity.
Qed.

Lemma code_between_no_break (lo hi : Z) (c : option Z) :
  (13 < lo)%Z -> code_between lo hi c = true -> isLineTerminator c = false.
Proof.
  intros Hlo. destruct c as [c|]; [|discriminate]. cbn.
  intros Hc. apply andb_prop in Hc as (Hc & _). apply Z.leb_le in Hc.
  unfold isLineTerminator, code_is.
  destruct (Z.eqb_spec c 10); [lia|]. destruct (Z.eqb_spec c 13); [lia|].
  reflexivity.
Qed.

Lemma isDecDigit_no_break (c : option Z) :
  isDecDigit c = true -> isLineTerminator c = false.
Proof. apply code_between_no_break. lia. Qed.

Lemma isHexDigit_no_break (c : option Z) :
  isHexDigit c = true -> isLineTerminator c = false.
Proof.
  unfold isHexDigit. intros Hc.
  apply orb_prop in Hc as [Hc | Hc]; [apply orb_prop in Hc as [Hc | Hc]|];
    revert Hc; apply code_between_no_break; lia.
Qed.

Lemma code_among_no_break (l : list Z) (c : option Z) :
  forallb (fun k => negb (k =? 10)%Z && negb (k =? 13)%Z) l = true ->
  code_among l c = true -> isLineTerminator c = false.
Proof.
  intros Hl. destruct c as [c|]; [|discriminate]. cbn [code_among].
  intros Hc. apply existsb_exists in Hc as (k & Hin & Hk).
  apply Z.eqb_eq in Hk. subst k.
  rewrite forallb_forall in Hl. specialize (Hl c Hin).
  apply andb_prop in Hl as (H10 & H13).
  unfold isLineTerminator, code_is.
  apply negb_true_iff in H10, H13. now rewrite H10, H13.
Qed.

Lemma isWhiteSpace_no_break (c : option Z) :
  isWhiteSpace c = true -> isLineTerminator c = false.
Proof.
  unfold isWhiteSpace. intros Hc.
  repeat (apply orb_prop in Hc as [Hc | Hc]);
    revert Hc; apply code_is_no_break; lia.
Qed.

Lemma isIdentifierPart_no_break (c : option Z) :
  isIdentifierPart options c = true -> isLineTerminator c = false.
Proof.
  unfold isIdentifierPart. destruct c as [c|]; [|now rewrite andb_false_r].
  cbn. unfold isLineTerminator, code_is.
  destruct (Z.eqb_spec c 10) as [-> | ?]; [now rewrite andb_false_r|].
  destruct (Z.eqb_spec c 13) as [-> | ?]; [now rewrite andb_false_r|].
  reflexivity.
Qed.

(** *** Moving the cursor *)

Lemma passes_refl (s : Cursor) : passes input s s.
Proof. unfold passes. split; [lia|]. split; [lia|]. auto. Qed.

Lemma passes_trans (s1 s2 s3 : Cursor) :
  passes input s1 s2 -> passes input s2 s3 -> passes input s1 s3.
Proof.
  intros (A1 & B1 & C1) (A2 & B2 & C2). unfold passes.
  split; [lia|]. split; [lia|]. auto.
Qed.

Lemma passes_set_tokenStart (s : Cursor) (i : nat) :
  passes input s (set_tokenStart s i).
Proof. unfold passes. split; [cbn; lia|]. split; [cbn; lia|]. auto. Qed.

Lemma moves_refl (s : Cursor) : moves input s s.
Proof. split; [apply passes_refl | reflexivity]. Qed.

Lemma moves_trans (s1 s2 s3 : Cursor) :
  moves input s1 s2 -> moves input s2 s3 -> moves input s1 s3.
Proof.
  intros (P1 & T1) (P2 & T2). split; [|congruence].
  now apply (passes_trans s1 s2 s3).
Qed.

Lemma advances_refl (s : Cursor) : advances input s s.
Proof.
  unfold advances. split; [reflexivity|]. split; [reflexivity|].
  split; [reflexivity|]. split; [lia | apply clear_refl].
Qed.

Lemma advances_trans (s1 s2 s3 : Cursor) :
  advances input s1 s2 -> advances input s2 s3 -> advances input s1 s3.
Proof.
  intros (A1 & B1 & T1 & C1 & D1) (A2 & B2 & T2 & C2 & D2). unfold advances.
  split; [congruence|]. split; [congruence|]. split; [congruence|].
  split; [lia|]. now apply (clear_trans _ (index s2)).
Qed.

Lemma skipn_past {A} (l : list A) (i : nat) :
  nth_error l i = None -> skipn i l = [].
Proof. intros E. apply skipn_all2. now apply nth_error_None. Qed.

Lemma lineBreaks_step (i : nat) :
  isLineTerminator (charCodeAt input i) = false ->
  lineBreaks (skipn i input) = lineBreaks (skipn (S i) input).
Proof.
  unfold charCodeAt. intros Hc.
  destruct (nth_error input i) as [c|] eqn:E.
  - rewrite (skipn_nth_cons _ _ _ E). cbn [lineBreaks]. now rewrite Hc.
  - rewrite (skipn_past _ _ E). rewrite skipn_all2; [reflexivity|].
    apply nth_error_None in E. lia.
Qed.

Lemma lineBreaks_clear (i j : nat) :
  i <= j -> clearOfBreaks input i j ->
  lineBreaks (skipn i input) = lineBreaks (skipn j input).
Proof.
  intros Hij. induction Hij as [|j Hij IH]; intros Hc; [reflexivity|].
  rewrite IH by (intros k Hk; apply Hc; lia).
  apply lineBreaks_step. apply Hc. lia.
Qed.

Lemma consumeEOL_count (s : Cursor) :
  isLineTerminator (charCodeAt input (index s)) = true ->
  lineBreaks (skipn (index s) input)
  = S (lineBreaks (skipn (index (snd (consumeEOL input s))) input)).
Proof.
  intros Hlt. unfold consumeEOL. rewrite Hlt. cbn [snd index].
  unfold charCodeAt in *.
  destruct (nth_error input (index s)) as [c|] eqn:E; [|discriminate].
  rewrite (skipn_nth_cons _ _ _ E). cbn [lineBreaks]. rewrite Hlt.
  replace (index s + 1) with (S (index s)) by lia.
  destruct (nth_error input (S (index s))) as [d|] eqn:E1.
  - rewrite (skipn_nth_cons _ _ _ E1). cbn [code_is].
    destruct (Z.eqb_spec c 10); destruct (Z.eqb_spec d 13);
      destruct (Z.eqb_spec c 13); destruct (Z.eqb_spec d 10);
      try lia; cbn [andb orb]; rewrite ?Nat.add_1_r;
      rewrite ?(skipn_nth_cons _ _ _ E1); reflexivity.
  - rewrite (skipn_past _ _ E1). cbn [code_is]. rewrite !andb_false_r.
    now rewrite Nat.add_1_r, (skipn_past _ _ E1).
Qed.

Lemma advances_moves (s s' : Cursor) : advances input s s' -> moves input s s'.
Proof.
  intros (Hl & Hls & Hts & Hi & Hc). split; [|assumption].
  unfold passes, wellPlaced, lineStartsAt.
  rewrite Hl, Hls. split; [lia|]. split; [lia|].
  intros (Hline & (Hle & Hbefore & Hclear) & Hcount).
  split; [assumption|]. split.
  - split; [lia|]. split; [assumption|].
    now apply (clear_trans _ (index s)).
  - now rewrite <- (lineBreaks_clear (index s) (index s')).
Qed.

Lemma advances_to (s : Cursor) (j : nat) :
  index s <= j -> clearOfBreaks input (index s) j ->
  advances input s (set_index s j).
Proof.
  intros Hj Hc. unfold advances. cbn.
  split; [reflexivity|]. split; [reflexivity|]. split; [reflexivity|].
  split; assumption.
Qed.

Lemma consumeEOL_moves (s : Cursor) : moves input s (snd (consumeEOL input s)).
Proof.
  destruct (isLineTerminator (charCodeAt input (index s))) eqn:Hlt;
    [|unfold consumeEOL; rewrite Hlt; apply moves_refl].
  pose proof (consumeEOL_count s Hlt) as Hcount. revert Hcount.
  unfold consumeEOL. rewrite Hlt.
  cbn [snd]. intros Hcount. split; [|reflexivity].
  unfold passes, wellPlaced, lineStartsAt. cbn [index line lineStart] in *.
  assert (Hcases :
    (if code_is 13 (charCodeAt input (index s))
        && code_is 10 (charCodeAt input (index s + 1))
     then (if code_is 10 (charCodeAt input (index s))
              && code_is 13 (charCodeAt input (index s + 1))
           then index s + 1 else index s) + 1
     else (if code_is 10 (charCodeAt input (index s))
              && code_is 13 (charCodeAt input (index s + 1))
           then index s + 1 else index s)) = index s
    \/ (if code_is 13 (charCodeAt input (index s))
           && code_is 10 (charCodeAt input (index s + 1))
        then (if code_is 10 (charCodeAt input (index s))
                 && code_is 13 (charCodeAt input (index s + 1))
              then index s + 1 else index s) + 1
        else (if code_is 10 (charCodeAt input (index s))
                 && code_is 13 (charCodeAt input (index s + 1))
              then index s + 1 else index s)) = index s + 1
       /\ isLineTerminator (charCodeAt input (index s + 1)) = true).
  { unfold isLineTerminator.
    destruct (code_is 10 (charCodeAt input (index s))) eqn:H10;
      destruct (code_is 13 (charCodeAt input (index s))) eqn:H13;
      destruct (code_is 10 (charCodeAt input (index s + 1))) eqn:P10;
      destruct (code_is 13 (charCodeAt input (index s + 1))) eqn:P13;
      cbn [andb orb]; try (left; reflexivity); try (right; split; reflexivity).
    all: apply code_is_Some in H10, H13; congruence. }
  revert Hcount. destruct Hcases as [-> | (-> & Hnext)]; intros Hcount.
  - split; [lia|]. split; [lia|]. intros (_ & _ & Hc).
    split; [lia|]. split; [|lia]. split; [lia|]. split; [|apply clear_refl].
    right. replace (index s + 1 - 1) with (index s) by lia. assumption.
  - split; [lia|]. split; [lia|]. intros (_ & _ & Hc).
    split; [lia|]. split; [|lia]. split; [lia|]. split; [|apply clear_refl].
    right. replace (index s + 1 + 1 - 1) with (index s + 1) by lia. assumption.
Qed.

Lemma skipWhiteSpace_loop_moves (fuel : nat) (s : Cursor) :
  moves input s (skipWhiteSpace_loop input fuel s).
Proof.
  revert s. induction fuel as [|fuel IH]; intros s; cbn [skipWhiteSpace_loop];
    [apply moves_refl|].
  destruct (index s <? length input); [|apply moves_refl].
  destruct (isWhiteSpace (charCodeAt input (index s))) eqn:Hw.
  - eapply moves_trans; [|apply IH].
    apply advances_moves, advances_to; [lia|].
    apply clear_one. now apply isWhiteSpace_no_break.
  - pose proof (consumeEOL_moves s) as Hm.
    destruct (consumeEOL input s) as [[] s1]; cbn [snd] in Hm;
      [|apply moves_refl].
    eapply moves_trans; [exact Hm | apply IH].
Qed.

Lemma skipWhiteSpace_moves (s : Cursor) : moves input s (skipWhiteSpace input s).
Proof. apply skipWhiteSpace_loop_moves. Qed.

(** *** Escape sequences and short strings *)

Lemma readUnicodeDigits_advances (fuel escStart l ls : nat) (s s' : Cursor) :
  readUnicodeDigits input fuel escStart l ls s = Return tt s' ->
  advances input s s'.
Proof.
  revert s. induction fuel as [|fuel IH]; intros s; cbn [readUnicodeDigits].
  - intros R. apply Return_inj in R as (_ & <-). apply advances_refl.
  - destruct (isHexDigit (charCodeAt input (index s))) eqn:Hd.
    + destruct (6 <? index (set_index s (index s + 1)) - escStart);
        [discriminate|].
      intros R. apply IH in R.
      eapply advances_trans; [|exact R].
      apply advances_to; [lia|]. apply clear_one.
      now apply isHexDigit_no_break.
    + intros R. apply Return_inj in R as (_ & <-). apply advances_refl.
Qed.

Lemma advances_step (s : Cursor) :
  isLineTerminator (charCodeAt input (index s)) = false ->
  advances input s (set_index s (index s + 1)).
Proof. intros Hc. apply advances_to; [lia | now apply clear_one]. Qed.

Lemma advances_scanAll (p : option Z -> bool) (s : Cursor) :
  (forall c, p c = true -> isLineTerminator c = false) ->
  advances input s (set_index s (scanAll input p (index s))).
Proof.
  intros Hp. apply advances_to; [apply scanWhile_ge | now apply clear_scan].
Qed.

Lemma readUnicodeEscapeSequence_advances (s s' : Cursor) (e : jsstring) :
  isLineTerminator (charCodeAt input (index s)) = false ->
  readUnicodeEscapeSequence input s = Return e s' -> advances input s s'.
Proof.
  intros Hu. unfold readUnicodeEscapeSequence.
  pose proof (advances_step s Hu) as A1.
  set (s1 := set_index s (index s + 1)) in *.
  destruct (code_is 123 (charCodeAt input (index s1))) eqn:Hbrace;
    cbn [negb]; [|discriminate].
  assert (A2 : advances input s1 (set_index s1 (index s1 + 1))).
  { apply advances_step. revert Hbrace. apply code_is_no_break; lia. }
  set (s2 := set_index s1 (index s1 + 1)) in *.
  destruct (negb (isHexDigit (charCodeAt input (index s2)))); [discriminate|].
  assert (A3 : advances input s2
                 (set_index s2 (scanAll input (code_is 48) (index s2)))).
  { apply advances_scanAll. intros c. apply code_is_no_break; lia. }
  set (s3 := set_index s2 (scanAll input (code_is 48) (index s2))) in *.
  destruct (readUnicodeDigits input (length input - index s3) (index s3)
              (line s1) (lineStart s1) s3) as [[] s4|err] eqn:E; [|discriminate].
  apply readUnicodeDigits_advances in E.
  destruct (code_is 125 (charCodeAt input (index s4))) eqn:Hclose; cbn [negb].
  - destruct (encodeUTF8 _); [|discriminate].
    intros R. apply Return_inj in R as (_ & <-).
    eapply advances_trans; [exact A1|]. eapply advances_trans; [exact A2|].
    eapply advances_trans; [exact A3|]. eapply advances_trans; [exact E|].
    apply advances_step. revert Hclose. apply code_is_no_break; lia.
  - destruct (code_is 34 (charCodeAt input (index s4))
              || code_is 39 (charCodeAt input (index s4))); discriminate.
Qed.

Lemma readEscapeSequence_moves (s s' : Cursor) (e : jsstring) :
  readEscapeSequence input options s = Return e s' -> moves input s s'.
Proof.
  destruct (isLineTerminator (charCodeAt input (index s))) eqn:Hbreak.
  { unfold readEscapeSequence, readEscapeSequenceWith.
    assert (Hnot : forall k, k <> 10%Z -> k <> 13%Z ->
                             code_is k (charCodeAt input (index s)) = false).
    { intros k H10 H13. destruct (code_is k _) eqn:E; [|reflexivity].
      apply (code_is_no_break k _ H10 H13) in E. congruence. }
    rewrite !Hnot by lia.
    assert (Heol : code_is 13 (charCodeAt input (index s))
                   || code_is 10 (charCodeAt input (index s)) = true).
    { unfold isLineTerminator in Hbreak. now rewrite orb_comm. }
    rewrite Heol. intros R. apply Return_inj in R as (_ & <-).
    apply consumeEOL_moves. }
  assert (Hstep : forall (e1 e2 : jsstring) s',
             Return e1 (set_index s (index s + 1)) = Return e2 s' ->
             moves input s s').
  { intros e1 e2 s0 R. apply Return_inj in R as (_ & <-).
    apply advances_moves. now apply advances_step. }
  assert (Hquote : forall e s', escape_case_quote input s = Return e s' ->
                                moves input s s').
  { unfold escape_case_quote. intros e0 s0 R. apply Return_inj in R as (_ & <-).
    apply advances_moves. now apply advances_step. }
  assert (Hdefault : forall e s', escape_case_default input (features options) s = Return e s' ->
                                  moves input s s').
  { unfold escape_case_default. intros e0 s0.
    destruct (strictEscapes (features options)); [discriminate | apply Hquote]. }
  assert (Hu : forall e s', escape_case_u input (features options) s = Return e s' ->
                            moves input s s').
  { unfold escape_case_u. intros e0 s0.
    destruct (unicodeEscapes (features options)); [|apply Hdefault].
    intros R. apply advances_moves.
    now apply (readUnicodeEscapeSequence_advances s s0 e0). }
  assert (Hx : forall e s', escape_case_x input (features options) s = Return e s' ->
                            moves input s s').
  { unfold escape_case_x. intros e0 s0.
    destruct (hexEscapes (features options)); [|apply Hu].
    destruct (isHexDigit (charCodeAt input (index s + 1))
              && isHexDigit (charCodeAt input (index s + 2))) eqn:Hh;
      [|discriminate].
    apply andb_prop in Hh as (H1 & H2).
    intros R. apply Return_inj in R as (_ & <-).
    apply advances_moves, advances_to; [lia|].
    apply (clear_trans _ (index s + 1)); [now apply clear_one|].
    apply (clear_trans _ (index s + 1 + 1));
      [apply clear_one; now apply isHexDigit_no_break|].
    replace (index s + 3) with (index s + 2 + 1) by lia.
    replace (index s + 1 + 1) with (index s + 2) by lia.
    apply clear_one; now apply isHexDigit_no_break. }
  assert (Hz : forall e s', escape_case_z input (features options) s = Return e s' ->
                            moves input s s').
  { unfold escape_case_z. intros e0 s0.
    destruct (skipWhitespaceEscape (features options)); [|apply Hx].
    intros R. apply Return_inj in R as (_ & <-).
    eapply moves_trans; [|apply skipWhiteSpace_moves].
    apply advances_moves. now apply advances_step. }
  unfold readEscapeSequence, readEscapeSequenceWith.
  repeat match goal with
         | |- (if code_is ?k ?c then Return _ (set_index _ _) else _) = _ -> _ =>
           destruct (code_is k c); [apply Hstep|]
         end.
  destruct (code_is 13 (charCodeAt input (index s))
            || code_is 10 (charCodeAt input (index s))) eqn:Heol.
  { intros R. apply Return_inj in R as (_ & <-). apply consumeEOL_moves. }
  destruct (code_between 48 57 (charCodeAt input (index s))) eqn:Hdig.
  { destruct (255 <? _)%Z; [discriminate|].
    intros R. apply Return_inj in R as (_ & <-).
    apply advances_moves, advances_to; [apply scanWhile_ge|].
    apply clear_scan. apply isDecDigit_no_break. }
  destruct (code_is 122 (charCodeAt input (index s))); [apply Hz|].
  destruct (code_is 120 (charCodeAt input (index s))); [apply Hx|].
  destruct (code_is 117 (charCodeAt input (index s))); [apply Hu|].
  destruct (code_is 92 (charCodeAt input (index s))
            || code_is 34 (charCodeAt input (index s))
            || code_is 39 (charCodeAt input (index s)));
    [apply Hquote | apply Hdefault].
Qed.

Lemma scanStringLiteral_loop_moves (fuel : nat) (delimiter : option Z)
    (beginLine beginLineStart stringStart : nat) (string : jsstring)
    (s s' : Cursor) (r : nat * jsstring) :
  (delimiter = Some 34%Z \/ delimiter = Some 39%Z) ->
  index s <= length input ->
  scanStringLiteral_loop input options fuel delimiter beginLine beginLineStart
    stringStart string s = Return r s' ->
  moves input s s' /\ index s' <= length input.
Proof.
  intros Hdelim.
  revert stringStart string s.
  induction fuel as [|fuel IH]; intros stringStart string s Hle;
    cbn [scanStringLiteral_loop].
  - intros R. apply Return_inj in R as (_ & <-). split; [apply moves_refl | lia].
  - destruct (Nat.ltb_spec (index s) (length input));
      [|intros R; apply Return_inj in R as (_ & <-);
        split; [apply moves_refl | lia]].
    destruct (code_eq delimiter (charCodeAt input (index s))) eqn:Hd.
    { intros R. apply Return_inj in R as (_ & <-).
      split; [|cbn [index set_index]; lia].
      apply advances_moves, advances_step.
      destruct (charCodeAt input (index s)) as [c|]; [|reflexivity].
      destruct Hdelim as [-> | ->]; cbn [code_eq] in Hd; apply Z.eqb_eq in Hd;
        subst c; reflexivity. }
    destruct (isLineTerminator (charCodeAt input (index s))) eqn:Hbreak.
    { destruct (code_is 92 (charCodeAt input (index s))) eqn:Hb.
      - apply (code_is_no_break 92) in Hb; [congruence|lia|lia].
      - rewrite orb_true_r. discriminate. }
    assert (A1 : moves input s (set_index s (index s + 1))).
    { apply advances_moves. now apply advances_step. }
    destruct (code_is 92 (charCodeAt input (index s))).
    + destruct (readEscapeSequence input options (set_index s (index s + 1)))
        as [esc s1|e] eqn:E; [|discriminate].
      apply readEscapeSequence_moves in E.
      rewrite orb_false_r.
      destruct (Nat.leb_spec (length input) (index s1)); [discriminate|].
      intros R. apply IH in R; [|lia].
      destruct R as (R & Hlen). split; [|assumption].
      eapply moves_trans; [exact A1|]. eapply moves_trans; [exact E | exact R].
    + rewrite orb_false_r.
      destruct (Nat.leb_spec (length input) (index (set_index s (index s + 1))));
        [discriminate|].
      intros R. apply IH in R; [|lia].
      destruct R as (R & Hlen). split; [|assumption].
      eapply moves_trans; [exact A1 | exact R].
Qed.

Lemma scanStringLiteral_placed (s s' : Cursor) (t : Token num) :
  code_is 39 (charCodeAt input (index s))
  || code_is 34 (charCodeAt input (index s)) = true ->
  tokenStart s = index s ->
  scanStringLiteral input options s = Return t s' ->
  tokenPlaced input t s s'.
Proof.
  intros Hq Hts. unfold scanStringLiteral.
  assert (Hdelim : charCodeAt input (index s) = Some 34%Z
                   \/ charCodeAt input (index s) = Some 39%Z).
  { apply orb_prop in Hq as [Hq | Hq]; apply code_is_Some in Hq; auto. }
  assert (Hlt : index s < length input).
  { destruct Hdelim as [E | E]; apply charCodeAt_Some in E; assumption. }
  assert (A1 : advances input s (set_index s (index s + 1))).
  { apply advances_step. destruct Hdelim as [-> | ->]; reflexivity. }
  set (s1 := set_index s (index s + 1)) in *.
  destruct (scanStringLiteral_loop input options (length input - index s1)
              (charCodeAt input (index s)) (line s1) (lineStart s1) (index s1)
              [] s1) as [[st str] s2|e] eqn:E; [|discriminate].
  pose proof (scanStringLiteral_loop_ge _ _ _ _ _ _ _ _ _ _ _ E) as Hge.
  apply scanStringLiteral_loop_moves in E; [|assumption|cbn [s1 index set_index]; lia].
  destruct E as (Hm & Hlen).
  destruct Hm as (Hp & Hts2).
  intros R. apply Return_inj in R as (<- & <-).
  unfold tokenPlaced. cbn [range type tok_line tok_lineStart lastLine lastLineStart].
  rewrite Hts2. cbn [s1 set_index tokenStart line lineStart index] in *.
  split; [now rewrite Hts|]. split; [lia|].
  split; [reflexivity|]. split; [reflexivity|]. split; [split; reflexivity|].
  eapply passes_trans; [apply advances_moves; exact A1 | exact Hp].
Qed.

(** *** Long strings and comments *)

Lemma consumeEOLs_moves (fuel : nat) (s : Cursor) :
  moves input s (consumeEOLs input fuel s).
Proof.
  revert s. induction fuel as [|fuel IH]; intros s; cbn [consumeEOLs];
    [apply moves_refl|].
  destruct (isLineTerminator (charCodeAt input (index s))); [|apply moves_refl].
  eapply moves_trans; [apply consumeEOL_moves | apply IH].
Qed.

Lemma isTerminator_clear (level i : nat) :
  isTerminator input level i = true ->
  clearOfBreaks input i (i + level + 1) /\ i + level + 1 <= length input.
Proof.
  unfold isTerminator. intros Ht. apply andb_prop in Ht as (Heq & Hclose).
  rewrite forallb_forall in Heq. split.
  - intros k Hk. destruct (Nat.eq_dec k (i + level)) as [-> | Hne].
    + revert Hclose. apply code_is_no_break; lia.
    + specialize (Heq (k - i)). replace (i + (k - i)) with k in Heq by lia.
      apply (code_is_no_break 61); [lia | lia |].
      apply Heq. apply in_seq. lia.
  - apply code_is_lt in Hclose. lia.
Qed.

Lemma readLongString_loop_moves (fuel level stringStart : nat)
    (unfinished : LexicalError) (s s' : Cursor) (r : option jsstring) :
  readLongString_loop input fuel level stringStart unfinished s = Return r s' ->
  moves input s s' /\ index s' <= length input /\ r <> None.
Proof.
  revert s. induction fuel as [|fuel IH]; intros s; cbn [readLongString_loop];
    [discriminate|].
  destruct (index s <? length input); [|discriminate].
  pose proof (consumeEOLs_moves (length input - index s) s) as M1.
  destruct (consumeEOLs_spec input (length input - index s) s (Nat.le_refl _))
    as (_ & _ & Hstop).
  set (s1 := consumeEOLs input (length input - index s) s) in *.
  pose proof (advances_moves _ _ (advances_step s1 Hstop)) as M2.
  set (s2 := set_index s1 (index s1 + 1)) in *.
  destruct (code_is 93 (charCodeAt input (index s1))
            && isTerminator input level (index s2)) eqn:Ht.
  - apply andb_prop in Ht as (_ & Ht).
    destruct (isTerminator_clear _ _ Ht) as (Hclear & Hlen).
    intros R. apply Return_inj in R as (<- & <-).
    split; [|split; [cbn [index set_index]; lia | discriminate]].
    eapply moves_trans; [exact M1|]. eapply moves_trans; [exact M2|].
    apply advances_moves, advances_to; [lia | assumption].
  - intros R. apply IH in R. destruct R as (R & Hlen & Hr).
    split; [|split; assumption].
    eapply moves_trans; [exact M1|]. eapply moves_trans; [exact M2 | exact R].
Qed.

Lemma readLongString_moves (isComment : bool) (s s' : Cursor)
    (r : option jsstring) :
  isLineTerminator (charCodeAt input (index s)) = false ->
  readLongString input isComment s = Return r s' ->
  moves input s s' /\ (r <> None -> index s' <= length input).
Proof.
  intros Hopen. unfold readLongString.
  pose proof (advances_step s Hopen) as A1.
  set (s1 := set_index s (index s + 1)) in *.
  pose proof (scanAll_ge input (code_is 61) (index s1)) as Hge.
  set (j := scanAll input (code_is 61) (index s1)) in *.
  replace (index s1 + (j - index s1)) with j by lia.
  destruct (code_is 91 (charCodeAt input j)) eqn:Hsecond; cbn [negb].
  - assert (A2 : advances input s1 (set_index s1 (j + 1))).
    { apply advances_to; [lia|].
      apply (clear_trans _ j).
      - apply clear_scan. intros c. apply code_is_no_break; lia.
      - apply clear_one. revert Hsecond. apply code_is_no_break; lia. }
    set (s2 := set_index s1 (j + 1)) in *.
    assert (M3 : moves input s2
                   (if isLineTerminator (charCodeAt input (index s2))
                    then snd (consumeEOL input s2) else s2)).
    { destruct (isLineTerminator (charCodeAt input (index s2)));
        [apply consumeEOL_moves | apply moves_refl]. }
    set (s3 := if isLineTerminator (charCodeAt input (index s2))
               then snd (consumeEOL input s2) else s2) in *.
    intros R. apply readLongString_loop_moves in R.
    destruct R as (R & Hlen & _). split; [|intros _; assumption].
    eapply moves_trans; [apply advances_moves; exact A1|].
    eapply moves_trans; [apply advances_moves; exact A2|].
    eapply moves_trans; [exact M3 | exact R].
  - intros R. apply Return_inj in R as (<- & <-).
    split; [now apply advances_moves | intros Hr; now contradiction Hr].
Qed.

Lemma scanLongStringLiteral_placed (s s' : Cursor) (t : Token num) :
  code_is 91 (charCodeAt input (index s)) = true ->
  tokenStart s = index s ->
  scanLongStringLiteral input s = Return t s' ->
  tokenPlaced input t s s'.
Proof.
  intros Hopen Hts. unfold scanLongStringLiteral.
  destruct (readLongString input false s) as [[str|] s1|e] eqn:E;
    try discriminate.
  pose proof (readLongString_gt input _ _ _ _ E) as Hgt.
  apply readLongString_moves in E;
    [|revert Hopen; apply code_is_no_break; lia].
  destruct E as ((Hp & Hts1) & Hlen).
  intros R. apply Return_inj in R as (<- & <-).
  unfold tokenPlaced. cbn [range type tok_line tok_lineStart lastLine lastLineStart].
  rewrite Hts1, Hts.
  split; [reflexivity|]. split; [split; [lia | apply Hlen; discriminate]|].
  split; [reflexivity|]. split; [reflexivity|]. split; [split; reflexivity|].
  assumption.
Qed.

Lemma scanComment_passes (s s' : Cursor) (cs cs' : option (list Comment)) :
  code_is 45 (charCodeAt input (index s)) = true ->
  code_is 45 (charCodeAt input (index s + 1)) = true ->
  scanComment input s cs = (Return tt s', cs') -> passes input s s'.
Proof.
  intros H1 H2. unfold scanComment.
  pose proof (passes_set_tokenStart s (index s)) as P0.
  set (s0 := set_tokenStart s (index s)) in *.
  assert (A1 : advances input s0 (set_index s0 (index s0 + 2))).
  { apply advances_to; [lia|].
    apply (clear_trans _ (index s0 + 1)).
    - apply clear_one. revert H1. apply code_is_no_break; lia.
    - replace (index s0 + 2) with (index s0 + 1 + 1) by lia.
      apply clear_one. revert H2. apply code_is_no_break; lia. }
  set (s1 := set_index s0 (index s0 + 2)) in *.
  assert (Hlong : forall c sl,
    (if code_is 91 (charCodeAt input (index s1))
     then match readLongString input true s1 with
          | Return (Some content) s0 => Return (content, true) s0
          | Return None s0 => Return (charAt input (index s1), false) s0
          | Throw e => Throw e
          end
     else Return ([], false) s1)
    = Return c sl -> moves input s1 sl).
  { intros c sl. destruct (code_is 91 (charCodeAt input (index s1))) eqn:Hb.
    - destruct (readLongString input true s1) as [[str|] s2|e] eqn:E;
        try discriminate;
        (apply readLongString_moves in E;
          [|revert Hb; apply code_is_no_break; lia]);
        destruct E as (E & _);
        intros R; apply Return_inj in R as (_ & <-); assumption.
    - intros R. apply Return_inj in R as (_ & <-). apply moves_refl. }
  destruct (if code_is 91 (charCodeAt input (index s1)) then _ else _)
    as [[content isLong] s2|e] eqn:E; [|discriminate].
  specialize (Hlong _ _ eq_refl).
  assert (Hall : passes input s s2).
  { eapply passes_trans; [exact P0|].
    eapply passes_trans; [apply advances_moves; exact A1 | apply Hlong]. }
  destruct isLong; cbn [negb].
  - intros R. inversion R; subst. assumption.
  - intros R. inversion R; subst.
    eapply passes_trans; [exact Hall|].
    apply advances_moves, advances_scanAll.
    intros c Hc. apply andb_prop in Hc as (Hc & _).
    now apply negb_true_iff in Hc.
Qed.

Lemma skipComments_passes (fuel : nat) (s s' : Cursor)
    (cs cs' : option (list Comment)) :
  skipComments input fuel s cs = (Return tt s', cs') -> passes input s s'.
Proof.
  revert s cs. induction fuel as [|fuel IH]; intros s cs; cbn [skipComments].
  - intros R. inversion R; subst. apply passes_refl.
  - destruct (code_is 45 (charCodeAt input (index s))
              && code_is 45 (charCodeAt input (index s + 1))) eqn:Hc.
    + apply andb_prop in Hc as (H1 & H2).
      destruct (scanComment input s cs) as [[[] s1|e] cs1] eqn:E;
        [|discriminate].
      apply scanComment_passes in E; try assumption.
      intros R. apply IH in R.
      eapply passes_trans; [exact E|].
      eapply passes_trans; [apply skipWhiteSpace_moves | exact R].
    + intros R. inversion R; subst. apply passes_refl.
Qed.

(** *** Numbers, names and punctuators *)

Lemma readDecLiteral_advances (s s' : Cursor) (v : num) :
  readDecLiteral input s = Return v s' -> advances input s s'.
Proof.
  unfold readDecLiteral.
  pose proof (advances_scanAll isDecDigit s isDecDigit_no_break) as A1.
  set (s1 := set_index s (scanAll input isDecDigit (index s))) in *.
  assert (A2 : advances input s1
                 (if code_is 46 (charCodeAt input (index s1))
                  then set_index s1 (scanAll input isDecDigit (index s1 + 1))
                  else s1)).
  { destruct (code_is 46 (charCodeAt input (index s1))) eqn:Hdot;
      [|apply advances_refl].
    apply advances_to.
    - pose proof (scanAll_ge input isDecDigit (index s1 + 1)). lia.
    - apply (clear_trans _ (index s1 + 1)).
      + apply clear_one. revert Hdot. apply code_is_no_break; lia.
      + apply clear_scan. apply isDecDigit_no_break. }
  set (s2 := if code_is 46 (charCodeAt input (index s1))
             then set_index s1 (scanAll input isDecDigit (index s1 + 1))
             else s1) in *.
  destruct (code_among [101; 69]%Z (charCodeAt input (index s2))) eqn:He.
  - assert (A3 : advances input s2 (set_index s2 (index s2 + 1))).
    { apply advances_step. revert He. now apply code_among_no_break. }
    set (s3 := set_index s2 (index s2 + 1)) in *.
    assert (A4 : advances input s3
                   (if code_among [43; 45]%Z (charCodeAt input (index s3))
                    then set_index s3 (index s3 + 1) else s3)).
    { destruct (code_among [43; 45]%Z (charCodeAt input (index s3))) eqn:Hs;
        [|apply advances_refl].
      apply advances_step. revert Hs. now apply code_among_no_break. }
    set (s4 := if code_among [43; 45]%Z (charCodeAt input (index s3))
               then set_index s3 (index s3 + 1) else s3) in *.
    destruct (negb (isDecDigit (charCodeAt input (index s4)))); [discriminate|].
    intros R. apply Return_inj in R as (_ & <-).
    eapply advances_trans; [exact A1|]. eapply advances_trans; [exact A2|].
    eapply advances_trans; [exact A3|]. eapply advances_trans; [exact A4|].
    apply advances_scanAll. apply isDecDigit_no_break.
  - intros R. apply Return_inj in R as (_ & <-).
    eapply advances_trans; [exact A1 | exact A2].
Qed.

Ltac clear_chain :=
  match goal with
  | |- clearOfBreaks _ ?a ?a => apply clear_refl
  | K : clearOfBreaks _ ?a ?b |- clearOfBreaks _ ?a ?c =>
    first [ exact K | apply (clear_trans a b c K); clear K; clear_chain ]
  end.

Ltac hex_exponent_clear s j :=
  destruct (code_among [112; 80]%Z (charCodeAt input j)) eqn:Hp;
  [ pose proof (clear_one j (code_among_no_break [112; 80]%Z _ eq_refl Hp)) as Cp;
    cursor_simpl;
    destruct (code_among [43; 45]%Z (charCodeAt input (j + 1))) eqn:Hs;
    cursor_simpl;
    [ pose proof (clear_one (j + 1) (code_among_no_break [43; 45]%Z _ eq_refl Hs)) as Cs;
      destruct (isDecDigit (charCodeAt input (j + 1 + 1))) eqn:Hdig;
      cbn [negb]; [|intros E; discriminate E];
      pose proof (clear_scan isDecDigit (length input - (j + 1 + 1)) (j + 1 + 1)
                    isDecDigit_no_break) as Ce;
      pose proof (scanAll_ge input isDecDigit (j + 1 + 1))
    | destruct (isDecDigit (charCodeAt input (j + 1))) eqn:Hdig;
      cbn [negb]; [|intros E; discriminate E];
      pose proof (clear_scan isDecDigit (length input - (j + 1)) (j + 1)
                    isDecDigit_no_break) as Ce;
      pose proof (scanAll_ge input isDecDigit (j + 1)) ]
  | ];
  intros E; apply Return_inj in E as (_ & <-);
  (apply (advances_to s); [cbn [index]; unfold scanAll in *; lia | clear_chain]).

Lemma readHexLiteral_advances (s s' : Cursor) (v : num) :
  clearOfBreaks input (index s) (index s + 2) ->
  readHexLiteral input s = Return v s' -> advances input s s'.
Proof.
  intros C0. unfold readHexLiteral. cursor_simpl.
  destruct (isHexDigit (charCodeAt input (index s + 2))) eqn:Hd; cbn [negb];
    [|intros E; discriminate E].
  pose proof (clear_scan isHexDigit (length input - (index s + 2)) (index s + 2)
                isHexDigit_no_break) as C1.
  pose proof (scanAll_ge input isHexDigit (index s + 2)) as G1.
  fold (scanAll input isHexDigit (index s + 2)) in C1.
  set (j1 := scanAll input isHexDigit (index s + 2)) in *.
  destruct (code_is 46 (charCodeAt input j1)) eqn:Hdot; cursor_simpl.
  - pose proof (clear_one j1 (code_is_no_break 46 _ ltac:(lia) ltac:(lia) Hdot))
      as C2.
    pose proof (clear_scan isHexDigit (length input - (j1 + 1)) (j1 + 1)
                  isHexDigit_no_break) as C3.
    pose proof (scanAll_ge input isHexDigit (j1 + 1)) as G2.
    fold (scanAll input isHexDigit (j1 + 1)) in C3.
    set (j2 := scanAll input isHexDigit (j1 + 1)) in *.
    hex_exponent_clear s j2.
  - hex_exponent_clear s j1.
Qed.

Lemma tokenPlaced_same (t : Token num) (s s' : Cursor) :
  type t <> StringLiteral ->
  lastLine t = None -> lastLineStart t = None ->
  range t = (index s, index s') ->
  tok_line t = line s -> tok_lineStart t = lineStart s ->
  index s < index s' <= length input ->
  advances input s s' ->
  tokenPlaced input t s s'.
Proof.
  intros Hty Hl Hls Hr Hline Hstart Hb Ha.
  pose proof Ha as (Al & Als & _).
  unfold tokenPlaced.
  split; [assumption|]. split; [assumption|]. split; [assumption|].
  split; [assumption|].
  split; [|apply advances_moves; assumption].
  destruct (type t); try contradiction; repeat split; assumption.
Qed.

Lemma scanIdentifierOrKeyword_placed (s s' : Cursor) (t : Token num) :
  isIdentifierStart options (charCodeAt input (index s)) = true ->
  tokenStart s = index s ->
  scanIdentifierOrKeyword input options s = Return t s' ->
  tokenPlaced input t s s'.
Proof.
  intros Hstart Hts. unfold scanIdentifierOrKeyword. cursor_simpl.
  rewrite Hts.
  pose proof (isIdentifierStart_lt input options _ Hstart) as Hlt.
  destruct (scanAll_facts input (isIdentifierPart options) (index s + 1)
              (isIdentifierPart_NaN options) ltac:(lia)) as (B & _ & _).
  assert (A : advances input s
                (set_index s (scanAll input (isIdentifierPart options) (index s + 1)))).
  { apply advances_to; [lia|].
    apply (clear_trans _ (index s + 1)).
    - apply clear_one. apply isIdentifierPart_no_break.
      now apply isIdentifierStart_Part.
    - apply clear_scan. apply isIdentifierPart_no_break. }
  set (j := scanAll input (isIdentifierPart options) (index s + 1)) in *.
  destruct (isKeyword options _);
    [|destruct (jsstring_eqb (js "true") _ || jsstring_eqb (js "false") _);
      [|destruct (jsstring_eqb (js "nil") _)]];
    intros R; apply Return_inj in R as (<- & <-);
    (apply tokenPlaced_same; try reflexivity; try discriminate;
     [cbn [index]; lia | rewrite <- Hts; exact A]).
Qed.

Lemma scanNumericLiteral_placed (s s' : Cursor) (t : Token num) :
  isDecDigit (charCodeAt input (index s)) = true
  \/ (code_is 46 (charCodeAt input (index s)) = true
      /\ isDecDigit (charCodeAt input (index s + 1)) = true) ->
  tokenStart s = index s ->
  scanNumericLiteral input s = Return t s' ->
  tokenPlaced input t s s'.
Proof.
  intros Hstart Hts R.
  pose proof (scanNumericLiteral_gt input s s' t Hstart R) as Hgt.
  revert R. unfold scanNumericLiteral.
  destruct (code_is 48 (charCodeAt input (index s))
            && code_among [120; 88]%Z (charCodeAt input (index s + 1))) eqn:Hhex.
  - apply andb_prop in Hhex as (H0 & Hx).
    pose proof (code_among_lt input _ _ Hx) as Hlt.
    destruct (readHexLiteral input s) as [v s1|e] eqn:E; [|discriminate].
    destruct (readHexLiteral_bounds input s s1 v ltac:(lia) E) as (B & _).
    apply readHexLiteral_advances in E.
    + pose proof E as (El & Els & Ets & _).
      intros R. apply Return_inj in R as (<- & <-).
      apply tokenPlaced_same; try reflexivity; try discriminate;
        cbn [range tok_line tok_lineStart mkToken]; try congruence; try lia;
        try assumption.
    + apply (clear_trans _ (index s + 1)).
      * apply clear_one. revert H0. apply code_is_no_break; lia.
      * replace (index s + 2) with (index s + 1 + 1) by lia.
        apply clear_one. revert Hx. now apply code_among_no_break.
  - destruct (readDecLiteral input s) as [v s1|e] eqn:E; [|discriminate].
    assert (Hi : index s < length input).
    { destruct Hstart as [Hd | (Hd & _)];
        [eapply isDecDigit_lt | eapply code_is_lt]; eauto. }
    destruct (readDecLiteral_bounds input s s1 v ltac:(lia) E) as (B & _).
    apply readDecLiteral_advances in E.
    pose proof E as (El & Els & Ets & _).
    intros R. apply Return_inj in R as (<- & <-).
    apply tokenPlaced_same; try reflexivity; try discriminate;
      cbn [range tok_line tok_lineStart mkToken]; try congruence; try lia;
      try assumption.
Qed.

Lemma scanPunctuator_placed (text : jsstring) (s s' : Cursor) (t : Token num) :
  tokenStart s = index s ->
  0 < length text ->
  index s + length text <= length input ->
  clearOfBreaks input (index s) (index s + length text) ->
  scanPunctuator text s = Return t s' ->
  tokenPlaced input t s s'.
Proof.
  intros Hts Hpos Hlen Hclear. unfold scanPunctuator. cursor_simpl.
  intros R. apply Return_inj in R as (<- & <-).
  apply tokenPlaced_same; try reflexivity; try discriminate.
  - cbn. now rewrite Hts.
  - cbn [index]. lia.
  - apply (advances_to s); [lia | assumption].
Qed.

Lemma scanVarargLiteral_placed (s s' : Cursor) (t : Token num) :
  tokenStart s = index s ->
  index s + 3 <= length input ->
  clearOfBreaks input (index s) (index s + 3) ->
  scanVarargLiteral s = Return t s' ->
  tokenPlaced input t s s'.
Proof.
  intros Hts Hlen Hclear. unfold scanVarargLiteral. cursor_simpl.
  intros R. apply Return_inj in R as (<- & <-).
  apply tokenPlaced_same; try reflexivity; try discriminate.
  - cbn. now rewrite Hts.
  - cbn [index]. lia.
  - apply (advances_to s); [lia | assumption].
Qed.

(** *** The dispatcher and the stream *)

Lemma lex_dispatch_placed (s s' : Cursor) (t : Token num) :
  lex_dispatch input options s = Return t s' -> tokenPlaced input t s s'.
Proof.
  unfold lex_dispatch.
  set (s1 := set_tokenStart s (index s)).
  change (tokenPlaced input t s s') with (tokenPlaced input t s1 s').
  change (index s) with (index s1).
  assert (Hts : tokenStart s1 = index s1) by reflexivity.
  clearbody s1. clear s.
  assert (Hsingle : forall k text,
    code_is k (charCodeAt input (index s1)) = true ->
    k <> 10%Z -> k <> 13%Z -> length text = 1 ->
    scanPunctuator text s1 = Return t s' -> tokenPlaced input t s1 s').
  { intros k text Hk H10 H13 Hlen.
    apply scanPunctuator_placed; try assumption; rewrite Hlen; try lia.
    - apply code_is_lt in Hk. lia.
    - apply clear_one. revert Hk. now apply code_is_no_break. }
  assert (Hdouble : forall k l text,
    code_is k (charCodeAt input (index s1)) = true ->
    code_is l (charCodeAt input (index s1 + 1)) = true ->
    k <> 10%Z -> k <> 13%Z -> l <> 10%Z -> l <> 13%Z -> length text = 2 ->
    scanPunctuator text s1 = Return t s' -> tokenPlaced input t s1 s').
  { intros k l text Hk Hl K10 K13 L10 L13 Hlen.
    apply scanPunctuator_placed; try assumption; rewrite Hlen; try lia.
    - apply code_is_lt in Hl. lia.
    - apply (clear_trans _ (index s1 + 1)).
      + apply clear_one. revert Hk. now apply code_is_no_break.
      + replace (index s1 + 2) with (index s1 + 1 + 1) by lia.
        apply clear_one. revert Hl. now apply code_is_no_break. }
  destruct (isIdentifierStart options (charCodeAt input (index s1))) eqn:Hid.
  { now apply scanIdentifierOrKeyword_placed. }
  destruct (code_is 39 (charCodeAt input (index s1))
            || code_is 34 (charCodeAt input (index s1))) eqn:Hq.
  { now apply scanStringLiteral_placed. }
  destruct (code_between 48 57 (charCodeAt input (index s1))) eqn:Hdig.
  { apply scanNumericLiteral_placed; try assumption. left. exact Hdig. }
  destruct (code_is 46 (charCodeAt input (index s1))) eqn:Hdot.
  { destruct (isDecDigit (charCodeAt input (index s1 + 1))) eqn:Hd.
    { apply scanNumericLiteral_placed; try assumption. right. now split. }
    destruct (code_is 46 (charCodeAt input (index s1 + 1))) eqn:Hdot2.
    - destruct (code_is 46 (charCodeAt input (index s1 + 2))) eqn:Hdot3.
      + apply scanVarargLiteral_placed; try assumption.
        * apply code_is_lt in Hdot3. lia.
        * apply (clear_trans _ (index s1 + 1));
            [apply clear_one; revert Hdot; apply code_is_no_break; lia|].
          apply (clear_trans _ (index s1 + 1 + 1));
            [apply clear_one; revert Hdot2; apply code_is_no_break; lia|].
          replace (index s1 + 3) with (index s1 + 2 + 1) by lia.
          replace (index s1 + 1 + 1) with (index s1 + 2) by lia.
          apply clear_one; revert Hdot3; apply code_is_no_break; lia.
      + apply (Hdouble 46%Z 46%Z); (assumption || lia || reflexivity).
    - apply (Hsingle 46%Z); (assumption || lia || reflexivity). }
  destruct (code_is 61 (charCodeAt input (index s1))) eqn:H61.
  { destruct (code_is 61 (charCodeAt input (index s1 + 1))) eqn:Hn1;
      [apply (Hdouble 61%Z 61%Z); (assumption || lia || reflexivity)|].
    destruct (code_is 62 (charCodeAt input (index s1 + 1))) eqn:Hn2;
      [apply (Hdouble 61%Z 62%Z); (assumption || lia || reflexivity)
      |apply (Hsingle 61%Z); (assumption || lia || reflexivity)]. }
  destruct (code_is 62 (charCodeAt input (index s1))) eqn:H62.
  { destruct (bitwiseOperators (features options)
              && code_is 62 (charCodeAt input (index s1 + 1))) eqn:Hn1.
    { apply andb_prop in Hn1 as (_ & Hn1).
      apply (Hdouble 62%Z 62%Z); (assumption || lia || reflexivity). }
    destruct (code_is 61 (charCodeAt input (index s1 + 1))) eqn:Hn2;
      [apply (Hdouble 62%Z 61%Z); (assumption || lia || reflexivity)
      |apply (Hsingle 62%Z); (assumption || lia || reflexivity)]. }
  destruct (code_is 60 (charCodeAt input (index s1))) eqn:H60.
  { destruct (bitwiseOperators (features options)
              && code_is 60 (charCodeAt input (index s1 + 1))) eqn:Hn1.
    { apply andb_prop in Hn1 as (_ & Hn1).
      apply (Hdouble 60%Z 60%Z); (assumption || lia || reflexivity). }
    destruct (code_is 61 (charCodeAt input (index s1 + 1))) eqn:Hn2;
      [apply (Hdouble 60%Z 61%Z); (assumption || lia || reflexivity)
      |apply (Hsingle 60%Z); (assumption || lia || reflexivity)]. }
  destruct (code_is 126 (charCodeAt input (index s1))) eqn:H126.
  { destruct (code_is 61 (charCodeAt input (index s1 + 1))) eqn:Hn1;
      [apply (Hdouble 126%Z 61%Z); (assumption || lia || reflexivity)|].
    destruct (negb (bitwiseOperators (features options)));
      [discriminate | apply (Hsingle 126%Z); (assumption || lia || reflexivity)]. }
  destruct (code_is 58 (charCodeAt input (index s1))) eqn:H58.
  { destruct (labels (features options)
              && code_is 58 (charCodeAt input (index s1 + 1))) eqn:Hn1.
    { apply andb_prop in Hn1 as (_ & Hn1).
      apply (Hdouble 58%Z 58%Z); (assumption || lia || reflexivity). }
    apply (Hsingle 58%Z); (assumption || lia || reflexivity). }
  destruct (code_is 91 (charCodeAt input (index s1))) eqn:H91.
  { destruct (code_is 91 (charCodeAt input (index s1 + 1))
              || code_is 61 (charCodeAt input (index s1 + 1))).
    { now apply scanLongStringLiteral_placed. }
    apply (Hsingle 91%Z); (assumption || lia || reflexivity). }
  destruct (code_is 47 (charCodeAt input (index s1))) eqn:H47.
  { destruct (integerDivision (features options)
              && code_is 47 (charCodeAt input (index s1 + 1))) eqn:Hn1.
    { apply andb_prop in Hn1 as (_ & Hn1).
      apply (Hdouble 47%Z 47%Z); (assumption || lia || reflexivity). }
    apply (Hsingle 47%Z); (assumption || lia || reflexivity). }
  destruct (code_is 38 (charCodeAt input (index s1))) eqn:H38.
  { destruct (negb (bitwiseOperators (features options))); [discriminate|].
    apply (Hsingle 38%Z); try (assumption || lia).
    apply code_is_Some in H38. unfold charAt, charCodeAt in *. now rewrite H38. }
  destruct (code_among [42; 94; 37; 44; 123; 125; 93; 40; 41; 59; 35; 45; 43; 124]%Z
              (charCodeAt input (index s1))) eqn:Hamong; [|discriminate].
  pose proof (code_among_lt input _ _ Hamong) as Hlt.
  apply scanPunctuator_placed; try assumption.
  - unfold charAt. destruct (nth_error input (index s1)) eqn:E; [cbn; lia|].
    apply nth_error_None in E. lia.
  - unfold charAt. destruct (nth_error input (index s1)); cbn; lia.
  - unfold charAt. destruct (nth_error input (index s1)) eqn:E;
      [|apply nth_error_None in E; lia].
    cbn [length]. apply clear_one. revert Hamong.
    now apply code_among_no_break.
Qed.

Lemma lex_placed (s s' : Cursor) (cs cs' : option (list Comment)) (t : Token num) :
  lex input options s cs = LexToken t s' cs' ->
  exists s0, passes input s s0 /\ tokenPlaced input t s0 s'.
Proof.
  unfold lex.
  pose proof (skipWhiteSpace_moves s) as (P1 & _).
  destruct (skipComments input _ _ cs) as [[[] s0|e] cs0] eqn:E; [|discriminate].
  apply skipComments_passes in E.
  destruct (Nat.leb_spec (length input) (index s0)); [discriminate|].
  destruct (lex_dispatch input options s0) as [t0 s1|e] eqn:D; [|discriminate].
  apply lex_dispatch_placed in D.
  intros R. inversion R; subst. exists s0. split; [|assumption].
  eapply passes_trans; [exact P1 | exact E].
Qed.

Lemma skipShebang_passes (fuel : nat) (s s' : Cursor) :
  skipShebang input fuel s = Some s' -> passes input s s'.
Proof.
  revert s. induction fuel as [|fuel IH]; intros s; cbn [skipShebang];
    [discriminate|].
  pose proof (consumeEOL_moves s) as (P & _).
  unfold consumeEOL in *.
  destruct (isLineTerminator (charCodeAt input (index s))) eqn:Hb;
    cbn [snd] in *.
  - intros R. inversion R; subst. exact P.
  - intros R. apply IH in R.
    eapply passes_trans; [|exact R].
    apply advances_moves. now apply advances_step.
Qed.

Lemma tokenPlaced_endLine (t : Token num) (s s' : Cursor) :
  tokenPlaced input t s s' -> endLine t = line s'.
Proof.
  intros (_ & _ & Hl & _ & Hlast & _). unfold endLine.
  destruct (type t); destruct Hlast as (-> & Hlast); cbn [or_default];
    try reflexivity; destruct Hlast as (_ & -> & _); assumption.
Qed.

Lemma pullAll_ordered (fuel : nat) (s : Cursor) (cs : option (list Comment))
    (r : Run num) :
  pullAll input options fuel s cs = Some r ->
  StronglySorted precedes (tokens r)
  /\ Forall (fun t => index s <= fst (range t) /\ line s <= tok_line t
                      /\ (1 <= line s -> inside input t)) (tokens r).
Proof.
  revert s cs r. induction fuel as [|fuel IH]; intros s cs r; cbn [pullAll];
    [discriminate|].
  destruct (lex input options s cs) as [t s1 cs1 | s1 cs1 | e cs1] eqn:E.
  - destruct (pullAll input options fuel s1 cs1) as [r1|] eqn:E1; [|discriminate].
    intros R. inversion R; subst; clear R. cbn [tokens].
    destruct (lex_placed _ _ _ _ _ E) as (s0 & (Pi & Pl & _) & Hplaced).
    pose proof (tokenPlaced_endLine _ _ _ Hplaced) as Hend.
    destruct Hplaced as (Hr & Hb & Hline & _ & _ & (_ & Hl01 & _)).
    destruct (IH _ _ _ E1) as (Hsorted & Hall).
    split.
    + constructor; [assumption|].
      eapply Forall_impl; [|exact Hall]. cbn beta.
      intros t' (Hi & Hl & _). unfold precedes. rewrite Hr, Hend. cbn [snd].
      split; assumption.
    + constructor.
      * rewrite Hr, Hline. cbn [fst]. split; [lia|]. split; [lia|].
        intros H1. unfold inside. rewrite Hr, Hend, Hline. cbn [fst snd]. lia.
      * eapply Forall_impl; [|exact Hall]. cbn beta.
        intros t' (Hi & Hl & Hin). split; [lia|]. split; [lia|].
        intros H1. apply Hin. lia.
  - intros R. inversion R; subst. cbn [tokens]. split; constructor.
  - intros R. inversion R; subst. cbn [tokens]. split; constructor.
Qed.

Lemma pullAll_placed (fuel : nat) (s : Cursor) (cs : option (list Comment))
    (r : Run num) (t : Token num) :
  wellPlaced input s ->
  pullAll input options fuel s cs = Some r ->
  In t (tokens r) ->
  lineStartsAt input (tok_lineStart t) (fst (range t))
  /\ match lastLineStart t with
     | Some ls => lineStartsAt input ls (snd (range t))
     | None => True
     end.
Proof.
  revert s cs r. induction fuel as [|fuel IH]; intros s cs r Hs; cbn [pullAll];
    [discriminate|].
  destruct (lex input options s cs) as [t0 s1 cs1 | s1 cs1 | e cs1] eqn:E.
  - destruct (pullAll input options fuel s1 cs1) as [r1|] eqn:E1; [|discriminate].
    intros R Hin. inversion R; subst; clear R. cbn [tokens] in Hin.
    destruct (lex_placed _ _ _ _ _ E) as (s0 & (_ & _ & P0) & Hplaced).
    specialize (P0 Hs).
    destruct Hplaced as (Hr & _ & _ & Hstart & Hlast & (_ & _ & P1)).
    specialize (P1 P0).
    destruct Hin as [<- | Hin]; [|now apply (IH s1 cs1 r1 P1 E1)].
    rewrite Hr, Hstart. cbn [fst snd]. split; [apply P0|].
    destruct (type t0);
      [destruct Hlast as (_ & ->); apply P1
      |destruct Hlast as (_ & -> & _); exact I ..].
  - intros R Hin. inversion R; subst. contradiction.
  - intros R Hin. inversion R; subst. contradiction.
Qed.

End Positions.

Lemma start_wellPlaced (input : jsstring) : wellPlaced input start.
Proof.
  unfold wellPlaced, lineStartsAt. cbn [start line lineStart index skipn].
  split; [lia|]. split; [|lia]. split; [lia|].
  split; [now left|]. intros k Hk. lia.
Qed.

(** X8. The tokens of a call come in the order of the input: every token
    has a range that is not empty and lies in the input, each token ends
    before the next one begins, and the line numbers, counted from 1, do
    not go back. *)
Theorem tokens_follow_the_input :
  forall num (N : JsNumber num) (fuel : nat) (input : jsstring)
         (options_ : TokenizerOptions) (r : Run num),
    tokenize fuel input options_ = Some r ->
    StronglySorted precedes (tokens r) /\ Forall (inside input) (tokens r).
Proof.
  intros num N fuel input options_ r. unfold tokenize, run.
  assert (Hfrom : forall s,
    1 <= line s ->
    pullAll input (resolveOptions options_) fuel s
      (comments (resolveOptions options_)) = Some r ->
    StronglySorted precedes (tokens r) /\ Forall (inside input) (tokens r)).
  { intros s H1 R. destruct (pullAll_ordered _ _ _ _ _ _ R) as (Hs & Hall).
    split; [assumption|]. eapply Forall_impl; [|exact Hall].
    cbn beta. intros t (_ & _ & Hin). now apply Hin. }
  destruct (ignoreShebang (resolveOptions options_)
            && jsstring_eqb (firstn 2 input) (js "#!")).
  - destruct (skipShebang input fuel start) as [s|] eqn:E; [|discriminate].
    apply skipShebang_passes in E. destruct E as (_ & Hl & _).
    apply Hfrom. cbn [line start] in Hl. lia.
  - apply Hfrom. cbn. lia.
Qed.

Lemma tokens_follow_the_input_witness :
  exists r,
    tokenize (num := ExactNumber) 20
      (js "a = [[x" ++ 10%Z :: js "y]] -- z" ++ 13%Z :: 10%Z :: js "b") noOptions
      = Some r
    /\ map (fun t => (range t, tok_line t, endLine t)) (tokens r)
       = [((0, 1), 1, 1); ((2, 3), 1, 1); ((4, 11), 1, 2); ((18, 19), 3, 3)]
    /\ StronglySorted precedes (tokens r)
    /\ Forall (inside (js "a = [[x" ++ 10%Z :: js "y]] -- z"
                        ++ 13%Z :: 10%Z :: js "b")) (tokens r).
Proof.
  assert (Hrun : exists r,
    tokenize (num := ExactNumber) 20
      (js "a = [[x" ++ 10%Z :: js "y]] -- z" ++ 13%Z :: 10%Z :: js "b") noOptions
      = Some r
    /\ map (fun t => (range t, tok_line t, endLine t)) (tokens r)
       = [((0, 1), 1, 1); ((2, 3), 1, 1); ((4, 11), 1, 2); ((18, 19), 3, 3)]).
  { eexists. split; [vm_compute; reflexivity | reflexivity]. }
  destruct Hrun as (r & Hrun & Hmap). exists r.
  split; [exact Hrun|]. split; [exact Hmap|].
  exact (tokens_follow_the_input ExactNumber _ 20 _ noOptions r Hrun).
Defined.

(** X9. Every token is located on its line: [lineStart] is the position
    where the line of the token's first character begins (the start of the
    input, or right after a line terminator, with no line terminator
    between it and the token), so that the column is the distance between
    the two; the [lastLineStart] of a StringLiteral is in the same way the
    start of the line it ends on. *)
Theorem token_line_starts :
  forall num (N : JsNumber num) (fuel : nat) (input : jsstring)
         (options_ : TokenizerOptions) (r : Run num) (t : Token num),
    tokenize fuel input options_ = Some r ->
    In t (tokens r) ->
    lineStartsAt input (tok_lineStart t) (fst (range t))
    /\ match lastLineStart t with
       | Some ls => lineStartsAt input ls (snd (range t))
       | None => True
       end.
Proof.
  intros num N fuel input options_ r t. unfold tokenize, run.
  destruct (ignoreShebang (resolveOptions options_)
            && jsstring_eqb (firstn 2 input) (js "#!")).
  - destruct (skipShebang input fuel start) as [s|] eqn:E; [|discriminate].
    apply skipShebang_passes in E. destruct E as (_ & _ & Hs).
    apply pullAll_placed. apply Hs. apply start_wellPlaced.
  - apply pullAll_placed. apply start_wellPlaced.
Qed.

Lemma token_line_starts_witness :
  exists r t,
    tokenize (num := ExactNumber) 20
      (js "a = [[x" ++ 10%Z :: js "y]] -- z" ++ 13%Z :: 10%Z :: js "b") noOptions
      = Some r
    /\ nth_error (tokens r) 3 = Some t
    /\ (range t, tok_line t, tok_lineStart t) = ((18, 19), 3, 18)
    /\ lineStartsAt (js "a = [[x" ++ 10%Z :: js "y]] -- z"
                      ++ 13%Z :: 10%Z :: js "b") 18 18.
Proof.
  assert (Hrun : exists r t,
    tokenize (num := ExactNumber) 20
      (js "a = [[x" ++ 10%Z :: js "y]] -- z" ++ 13%Z :: 10%Z :: js "b") noOptions
      = Some r
    /\ nth_error (tokens r) 3 = Some t
    /\ (range t, tok_line t, tok_lineStart t) = ((18, 19), 3, 18)).
  { eexists. eexists. split; [vm_compute; reflexivity|].
    split; reflexivity. }
  destruct Hrun as (r & t & Hrun & Hnth & Hpos). exists r, t.
  split; [exact Hrun|]. split; [exact Hnth|]. split; [exact Hpos|].
  pose proof (token_line_starts ExactNumber _ 20 _ noOptions r t Hrun
                (nth_error_In _ _ Hnth)) as (Hstart & _).
  injection Hpos as Hrange _ Hls. now rewrite Hrange, Hls in Hstart.
Defined.

Section Words.

Context {num : Type} `{JsNumber num}.
Variable input : jsstring.
Variable options : Options.

Lemma jsstring_eqb_sym (a b : jsstring) : jsstring_eqb a b = jsstring_eqb b a.
Proof.
  destruct (jsstring_eqb a b) eqn:E.
  - apply jsstring_eqb_eq in E. subst. symmetry. apply jsstring_eqb_refl.
  - destruct (jsstring_eqb b a) eqn:E'; [|reflexivity].
    apply jsstring_eqb_eq in E'. subst. rewrite jsstring_eqb_refl in E.
    discriminate.
Qed.

Lemma scanIdentifierOrKeyword_word (s s' : Cursor) (t : Token num) :
  scanIdentifierOrKeyword input options s = Return t s' ->
  let w := fixupHighCharacters (slice input (tokenStart s) (index s')) in
  type t = wordType options w /\ value t = wordValue options w
  /\ isWord (type t) = true
  /\ isIdentifierPart options (charCodeAt input (index s')) = false.
Proof.
  unfold scanIdentifierOrKeyword. cursor_simpl.
  pose proof (scanAll_stop input (isIdentifierPart options)
                (isIdentifierPart_NaN options) (index s + 1)) as Hstop.
  set (j := scanAll input (isIdentifierPart options) (index s + 1)) in *.
  set (w := fixupHighCharacters (slice input (tokenStart s) j)).
  unfold wordValue, wordType.
  rewrite (jsstring_eqb_sym (js "true") w), (jsstring_eqb_sym (js "false") w),
    (jsstring_eqb_sym (js "nil") w).
  destruct (isKeyword options w) eqn:Hk;
    [|destruct (jsstring_eqb w (js "true") || jsstring_eqb w (js "false")) eqn:Hb;
      [|destruct (jsstring_eqb w (js "nil")) eqn:Hn]];
    intros R; apply Return_inj in R as (<- & <-);
    cbn [index type value mkToken]; fold w;
    rewrite ?Hk, ?Hb, ?Hn; repeat split; try reflexivity; assumption.
Qed.

Lemma lex_dispatch_cases (s s' : Cursor) (t : Token num) :
  lex_dispatch input options s = Return t s' ->
  scannedBy input options (set_tokenStart s (index s)) t s'.
Proof.
  unfold lex_dispatch.
  set (s1 := set_tokenStart s (index s)).
  change (index s) with (index s1).
  clearbody s1. clear s.
  assert (Hsingle : forall k text,
    code_is k (charCodeAt input (index s1)) = true ->
    text = [k] ->
    existsb (jsstring_eqb text) punctuators = true ->
    scanPunctuator text s1 = Return t s' -> scannedBy input options s1 t s').
  { intros k text Hk -> Hin R. apply code_is_Some in Hk.
    apply (by_punctuator _ _ _ _ _ [k]); try assumption.
    - now apply punctuator_listed.
    - exact (slice_one input (index s1) k Hk). }
  assert (Hdouble : forall k l text,
    code_is k (charCodeAt input (index s1)) = true ->
    code_is l (charCodeAt input (index s1 + 1)) = true ->
    text = [k; l] ->
    existsb (jsstring_eqb text) punctuators = true ->
    scanPunctuator text s1 = Return t s' -> scannedBy input options s1 t s').
  { intros k l text Hk Hl -> Hin R. apply code_is_Some in Hk, Hl.
    apply (by_punctuator _ _ _ _ _ [k; l]); try assumption.
    - now apply punctuator_listed.
    - exact (slice_two input (index s1) k l Hk Hl). }
  destruct (isIdentifierStart options (charCodeAt input (index s1))) eqn:Hid.
  { now apply by_word. }
  destruct (code_is 39 (charCodeAt input (index s1))
            || code_is 34 (charCodeAt input (index s1))) eqn:Hq.
  { now apply by_string. }
  destruct (code_between 48 57 (charCodeAt input (index s1))) eqn:Hdig.
  { apply by_number. left. exact Hdig. }
  destruct (code_is 46 (charCodeAt input (index s1))) eqn:Hdot.
  { destruct (isDecDigit (charCodeAt input (index s1 + 1))) eqn:Hd.
    { apply by_number. right. now split. }
    destruct (code_is 46 (charCodeAt input (index s1 + 1))) eqn:Hdot2.
    - destruct (code_is 46 (charCodeAt input (index s1 + 2))) eqn:Hdot3.
      + apply by_vararg. apply code_is_Some in Hdot, Hdot2, Hdot3.
        exact (slice_three input (index s1) _ _ _ Hdot Hdot2 Hdot3).
      + now apply (Hdouble 46%Z 46%Z).
    - now apply (Hsingle 46%Z). }
  destruct (code_is 61 (charCodeAt input (index s1))) eqn:H61.
  { destruct (code_is 61 (charCodeAt input (index s1 + 1))) eqn:Hn1;
      [now apply (Hdouble 61%Z 61%Z)|].
    destruct (code_is 62 (charCodeAt input (index s1 + 1))) eqn:Hn2;
      [now apply (Hdouble 61%Z 62%Z) | now apply (Hsingle 61%Z)]. }
  destruct (code_is 62 (charCodeAt input (index s1))) eqn:H62.
  { destruct (bitwiseOperators (features options)
              && code_is 62 (charCodeAt input (index s1 + 1))) eqn:Hn1.
    { apply andb_prop in Hn1 as (_ & Hn1). now apply (Hdouble 62%Z 62%Z). }
    destruct (code_is 61 (charCodeAt input (index s1 + 1))) eqn:Hn2;
      [now apply (Hdouble 62%Z 61%Z) | now apply (Hsingle 62%Z)]. }
  destruct (code_is 60 (charCodeAt input (index s1))) eqn:H60.
  { destruct (bitwiseOperators (features options)
              && code_is 60 (charCodeAt input (index s1 + 1))) eqn:Hn1.
    { apply andb_prop in Hn1 as (_ & Hn1). now apply (Hdouble 60%Z 60%Z). }
    destruct (code_is 61 (charCodeAt input (index s1 + 1))) eqn:Hn2;
      [now apply (Hdouble 60%Z 61%Z) | now apply (Hsingle 60%Z)]. }
  destruct (code_is 126 (charCodeAt input (index s1))) eqn:H126.
  { destruct (code_is 61 (charCodeAt input (index s1 + 1))) eqn:Hn1;
      [now apply (Hdouble 126%Z 61%Z)|].
    destruct (negb (bitwiseOperators (features options)));
      [discriminate | now apply (Hsingle 126%Z)]. }
  destruct (code_is 58 (charCodeAt input (index s1))) eqn:H58.
  { destruct (labels (features options)
              && code_is 58 (charCodeAt input (index s1 + 1))) eqn:Hn1.
    { apply andb_prop in Hn1 as (_ & Hn1). now apply (Hdouble 58%Z 58%Z). }
    now apply (Hsingle 58%Z). }
  destruct (code_is 91 (charCodeAt input (index s1))) eqn:H91.
  { destruct (code_is 91 (charCodeAt input (index s1 + 1))
              || code_is 61 (charCodeAt input (index s1 + 1))).
    { now apply by_long. }
    now apply (Hsingle 91%Z). }
  destruct (code_is 47 (charCodeAt input (index s1))) eqn:H47.
  { destruct (integerDivision (features options)
              && code_is 47 (charCodeAt input (index s1 + 1))) eqn:Hn1.
    { apply andb_prop in Hn1 as (_ & Hn1). now apply (Hdouble 47%Z 47%Z). }
    now apply (Hsingle 47%Z). }
  destruct (code_is 38 (charCodeAt input (index s1))) eqn:H38.
  { destruct (negb (bitwiseOperators (features options))); [discriminate|].
    rewrite (charAt_code input _ 38%Z) by (now apply code_is_Some).
    now apply (Hsingle 38%Z). }
  destruct (code_among [42; 94; 37; 44; 123; 125; 93; 40; 41; 59; 35; 45; 43; 124]%Z
              (charCodeAt input (index s1))) eqn:Hamong; [|discriminate].
  destruct (charCodeAt input (index s1)) as [c|] eqn:Hc; [|discriminate].
  rewrite (charAt_code input _ _ Hc).
  unfold code_among in Hamong. cbn [existsb] in Hamong.
  repeat (apply orb_prop in Hamong as [Hk | Hamong];
          [apply Z.eqb_eq in Hk; subst c;
           match type of Hc with
           | _ = Some ?k =>
             apply (Hsingle k [k]);
             reflexivity
           end|]).
  discriminate Hamong.
Qed.

Lemma lex_scanned (s s' : Cursor) (cs cs' : option (list Comment)) (t : Token num) :
  lex input options s cs = LexToken t s' cs' ->
  exists s0, tokenStart s0 = index s0 /\ index s0 < length input
             /\ scannedBy input options s0 t s'.
Proof.
  intros R. destruct (lex_token input options _ _ _ _ _ R) as (s0 & Hlt & D).
  apply lex_dispatch_cases in D.
  exists (set_tokenStart s0 (index s0)). repeat split; assumption.
Qed.

Lemma pullAll_scanned (fuel : nat) (s : Cursor) (cs : option (list Comment))
    (r : Run num) (t : Token num) :
  pullAll input options fuel s cs = Some r ->
  In t (tokens r) ->
  exists s0 s', tokenStart s0 = index s0 /\ index s0 < length input
                /\ scannedBy input options s0 t s'.
Proof.
  intros R Hin.
  destruct (pullAll_tokens input options fuel s cs r t R Hin) as (s0 & s' & Hlt & D).
  apply lex_dispatch_cases in D.
  exists (set_tokenStart s0 (index s0)), s'. repeat split; assumption.
Qed.

End Words.

Lemma tokenize_scanned {num} `{JsNumber num} (fuel : nat) (input : jsstring)
    (options_ : TokenizerOptions) (r : Run num) (t : Token num) :
  tokenize fuel input options_ = Some r ->
  In t (tokens r) ->
  exists s0 s', tokenStart s0 = index s0 /\ index s0 < length input
                /\ scannedBy input (resolveOptions options_) s0 t s'.
Proof.
  unfold tokenize, run.
  destruct (ignoreShebang (resolveOptions options_)
            && jsstring_eqb (firstn 2 input) (js "#!")).
  - destruct (skipShebang input fuel start) as [s|]; [|discriminate].
    apply pullAll_scanned.
  - apply pullAll_scanned.
Qed.

Section Munch.

Context {num : Type} `{JsNumber num}.
Variable input : jsstring.
Variable options : Options.

Lemma isHexDigit_isDecDigit (c : option Z) :
  isHexDigit c = false -> isDecDigit c = false.
Proof.
  unfold isHexDigit, isDecDigit. intros Hc.
  apply orb_false_elim in Hc as (Hc & _).
  now apply orb_false_elim in Hc as (Hc & _).
Qed.

Lemma readDecLiteral_stops (s s' : Cursor) (v : num) :
  readDecLiteral input s = Return v s' ->
  isDecDigit (charCodeAt input (index s')) = false.
Proof.
  unfold readDecLiteral. cursor_simpl.
  pose proof (scanAll_stop input isDecDigit eq_refl (index s)) as S1.
  set (j1 := scanAll input isDecDigit (index s)) in *.
  destruct (code_is 46 (charCodeAt input j1)) eqn:Hdot; cursor_simpl.
  - pose proof (scanAll_stop input isDecDigit eq_refl (j1 + 1)) as S2.
    set (j2 := scanAll input isDecDigit (j1 + 1)) in *.
    destruct (code_among [101; 69]%Z (charCodeAt input j2)); cursor_simpl.
    + destruct (code_among [43; 45]%Z (charCodeAt input (j2 + 1))); cursor_simpl;
        (destruct (negb (isDecDigit _)); [intros E; discriminate E|]);
        intros E; apply Return_inj in E as (_ & <-);
        apply (scanAll_stop input isDecDigit eq_refl).
    + intros E; apply Return_inj in E as (_ & <-). exact S2.
  - destruct (code_among [101; 69]%Z (charCodeAt input j1)); cursor_simpl.
    + destruct (code_among [43; 45]%Z (charCodeAt input (j1 + 1))); cursor_simpl;
        (destruct (negb (isDecDigit _)); [intros E; discriminate E|]);
        intros E; apply Return_inj in E as (_ & <-);
        apply (scanAll_stop input isDecDigit eq_refl).
    + intros E; apply Return_inj in E as (_ & <-). exact S1.
Qed.

Ltac hex_exponent_stops j Sj :=
  destruct (code_among [112; 80]%Z (charCodeAt input j)); cursor_simpl;
  [ destruct (code_among [43; 45]%Z (charCodeAt input (j + 1))); cursor_simpl;
    (destruct (negb (isDecDigit _)); [intros E; discriminate E|]);
    intros E; apply Return_inj in E as (_ & <-);
    apply (scanAll_stop input isDecDigit eq_refl)
  | intros E; apply Return_inj in E as (_ & <-);
    apply isHexDigit_isDecDigit; exact Sj ].

Lemma readHexLiteral_stops (s s' : Cursor) (v : num) :
  readHexLiteral input s = Return v s' ->
  isDecDigit (charCodeAt input (index s')) = false.
Proof.
  unfold readHexLiteral. cursor_simpl.
  destruct (negb (isHexDigit (charCodeAt input (index s + 2))));
    [intros E; discriminate E|].
  pose proof (scanAll_stop input isHexDigit eq_refl (index s + 2)) as S1.
  set (j1 := scanAll input isHexDigit (index s + 2)) in *.
  destruct (code_is 46 (charCodeAt input j1)) eqn:Hdot; cursor_simpl.
  - pose proof (scanAll_stop input isHexDigit eq_refl (j1 + 1)) as S2.
    set (j2 := scanAll input isHexDigit (j1 + 1)) in *.
    hex_exponent_stops j2 S2.
  - hex_exponent_stops j1 S1.
Qed.

Lemma scanNumericLiteral_stops (s s' : Cursor) (t : Token num) :
  scanNumericLiteral input s = Return t s' ->
  type t = NumericLiteral
  /\ isDecDigit (charCodeAt input (index s')) = false.
Proof.
  unfold scanNumericLiteral.
  destruct (code_is 48 (charCodeAt input (index s))
            && code_among [120; 88]%Z (charCodeAt input (index s + 1))).
  - destruct (readHexLiteral input s) as [v s1|e] eqn:E; [|discriminate].
    apply readHexLiteral_stops in E.
    intros R. apply Return_inj in R as (<- & <-). now split.
  - destruct (readDecLiteral input s) as [v s1|e] eqn:E; [|discriminate].
    apply readDecLiteral_stops in E.
    intros R. apply Return_inj in R as (<- & <-). now split.
Qed.

(** The type of a token tells the scanner that read it. *)
Lemma scannedBy_type (s s' : Cursor) (t : Token num) :
  scannedBy input options s t s' ->
  match type t with
  | Keyword | Identifier | BooleanLiteral | NilLiteral =>
    isIdentifierStart options (charCodeAt input (index s)) = true
    /\ scanIdentifierOrKeyword input options s = Return t s'
  | NumericLiteral => scanNumericLiteral input s = Return t s'
  | StringLiteral =>
    scanStringLiteral input options s = Return t s'
    \/ scanLongStringLiteral input s = Return t s'
  | VarargLiteral => scanVarargLiteral s = Return t s'
  | Punctuator =>
    exists text, In text punctuators /\ scanPunctuator text s = Return t s'
  end.
Proof.
  intros [Hid R | Hq R | Hn R | Hb R | Hd R | text Hin Hs R].
  - destruct (scanIdentifierOrKeyword_word input options _ _ _ R)
      as (_ & _ & Hw & _).
    destruct (type t); try discriminate Hw; now split.
  - rewrite (scanStringLiteral_type input options _ _ _ R). now left.
  - destruct (scanNumericLiteral_stops _ _ _ R) as (-> & _). assumption.
  - rewrite (scanLongStringLiteral_type input _ _ _ R). now right.
  - pose proof R as R'. unfold scanVarargLiteral in R'.
    apply Return_inj in R' as (<- & _). assumption.
  - pose proof R as R'. unfold scanPunctuator in R'.
    apply Return_inj in R' as (<- & _). exists text. now split.
Qed.

End Munch.

(** X10. The scanners are greedy: a Keyword, Identifier, BooleanLiteral or
    NilLiteral token is never followed, at the end of its range, by a
    character that could go on with the word, and a NumericLiteral is never
    followed by a decimal digit. *)
Theorem tokens_are_maximal :
  forall num (N : JsNumber num) (fuel : nat) (input : jsstring)
         (options_ : TokenizerOptions) (r : Run num) (t : Token num),
    tokenize fuel input options_ = Some r ->
    In t (tokens r) ->
    (isWord (type t) = true ->
     isIdentifierPart (resolveOptions options_)
       (charCodeAt input (snd (range t))) = false)
    /\ (type t = NumericLiteral ->
        isDecDigit (charCodeAt input (snd (range t))) = false).
Proof.
  intros num N fuel input options_ r t Hrun Hin.
  destruct (tokenize_scanned fuel input options_ r t Hrun Hin)
    as (s0 & s' & Hts & Hlt & Hby).
  pose proof (scannedBy_type input _ _ _ _ Hby) as Hty.
  assert (Hplaced : range t = (index s0, index s')).
  { destruct Hby as [? R | ? R | ? R | ? R | ? R | text ? ? R].
    - now apply scanIdentifierOrKeyword_placed in R as (-> & _).
    - now apply scanStringLiteral_placed in R as (-> & _).
    - now apply scanNumericLiteral_placed in R as (-> & _).
    - now apply scanLongStringLiteral_placed in R as (-> & _).
    - unfold scanVarargLiteral in R. apply Return_inj in R as (<- & <-).
      cbn. now rewrite Hts.
    - unfold scanPunctuator in R. apply Return_inj in R as (<- & <-).
      cbn. now rewrite Hts. }
  rewrite Hplaced. cbn [snd]. split.
  - intros Hw. destruct (type t); try discriminate Hw;
      destruct Hty as (_ & R);
      now apply scanIdentifierOrKeyword_word in R as (_ & _ & _ & Hstop).
  - intros Hnum. rewrite Hnum in Hty.
    now apply scanNumericLiteral_stops in Hty as (_ & Hstop).
Qed.

Lemma tokens_are_maximal_witness :
  exists r t,
    tokenize (num := ExactNumber) 20 (js "x1 = 12.5e3y") noOptions = Some r
    /\ nth_error (tokens r) 2 = Some t
    /\ (type t, range t) = (NumericLiteral, (5, 11))
    /\ isDecDigit (charCodeAt (js "x1 = 12.5e3y") 11) = false.
Proof.
  assert (Hrun : exists r t,
    tokenize (num := ExactNumber) 20 (js "x1 = 12.5e3y") noOptions = Some r
    /\ nth_error (tokens r) 2 = Some t
    /\ (type t, range t) = (NumericLiteral, (5, 11))).
  { eexists. eexists. split; [vm_compute; reflexivity|]. split; reflexivity. }
  destruct Hrun as (r & t & Hrun & Hnth & Hshape). exists r, t.
  split; [exact Hrun|]. split; [exact Hnth|]. split; [exact Hshape|].
  destruct (tokens_are_maximal ExactNumber _ 20 _ noOptions r t Hrun
              (nth_error_In _ _ Hnth)) as (_ & Hnum).
  injection Hshape as Hty Hrange. rewrite Hrange in Hnum. now apply Hnum.
Defined.

(** X11. What a word is depends on its text alone: the token of a word is
    a Keyword when the text is in the keyword set of the call, the
    BooleanLiteral of [true] or [false], the NilLiteral of [nil], and an
    Identifier otherwise; so no Identifier token carries a reserved
    word. *)
Theorem words_are_classified_by_their_text :
  forall num (N : JsNumber num) (fuel : nat) (input : jsstring)
         (options_ : TokenizerOptions) (r : Run num) (t : Token num),
    tokenize fuel input options_ = Some r ->
    In t (tokens r) ->
    isWord (type t) = true ->
    let w := fixupHighCharacters (slice input (fst (range t)) (snd (range t))) in
    type t = wordType (resolveOptions options_) w
    /\ value t = wordValue (resolveOptions options_) w
    /\ (type t = Identifier ->
        value t = VString w
        /\ isKeyword (resolveOptions options_) w = false
        /\ w <> js "true" /\ w <> js "false" /\ w <> js "nil").
Proof.
  intros num N fuel input options_ r t Hrun Hin Hw.
  destruct (tokenize_scanned fuel input options_ r t Hrun Hin)
    as (s0 & s' & Hts & Hlt & Hby).
  pose proof (scannedBy_type input _ _ _ _ Hby) as Hty.
  assert (Hscan : isIdentifierStart (resolveOptions options_)
                    (charCodeAt input (index s0)) = true
                  /\ scanIdentifierOrKeyword input (resolveOptions options_) s0
                     = Return t s').
  { destruct (type t); try discriminate Hw; exact Hty. }
  destruct Hscan as (Hid & R).
  pose proof (scanIdentifierOrKeyword_placed input _ _ _ _ Hid Hts R) as (Hr & _).
  apply scanIdentifierOrKeyword_word in R as (Htype & Hvalue & _ & _).
  rewrite Hr. cbn [fst snd]. rewrite <- Hts.
  set (w := fixupHighCharacters (slice input (tokenStart s0) (index s'))) in *.
  cbn zeta. split; [assumption|]. split; [assumption|].
  intros Hident. rewrite Hvalue. unfold wordValue. rewrite <- Htype, Hident.
  split; [reflexivity|].
  rewrite Hident in Htype. unfold wordType in Htype.
  destruct (isKeyword (resolveOptions options_) w); [discriminate|].
  destruct (jsstring_eqb w (js "true")) eqn:Et; [discriminate|].
  destruct (jsstring_eqb w (js "false")) eqn:Ef; [discriminate|].
  destruct (jsstring_eqb w (js "nil")) eqn:En; [discriminate|].
  repeat split; try reflexivity; intros E; apply jsstring_eqb_eq in E; congruence.
Qed.

Lemma words_are_classified_by_their_text_witness :
  exists r t,
    tokenize (num := ExactNumber) 20 (js "goto done") (withVersion Lua51) = Some r
    /\ nth_error (tokens r) 0 = Some t
    /\ (type t, range t) = (Identifier, (0, 4))
    /\ value t = VString (js "goto")
    /\ isKeyword (resolveOptions (withVersion Lua51)) (js "goto") = false.
Proof.
  assert (Hrun : exists r t,
    tokenize (num := ExactNumber) 20 (js "goto done") (withVersion Lua51) = Some r
    /\ nth_error (tokens r) 0 = Some t
    /\ (type t, range t) = (Identifier, (0, 4))).
  { eexists. eexists. split; [vm_compute; reflexivity|]. split; reflexivity. }
  destruct Hrun as (r & t & Hrun & Hnth & Hshape). exists r, t.
  split; [exact Hrun|]. split; [exact Hnth|]. split; [exact Hshape|].
  injection Hshape as Hty Hrange.
  destruct (words_are_classified_by_their_text ExactNumber _ 20 _
              (withVersion Lua51) r t Hrun (nth_error_In _ _ Hnth))
    as (_ & _ & Hident); [now rewrite Hty|].
  rewrite Hrange in Hident. destruct (Hident Hty) as (Hv & Hk & _).
  split; [exact Hv | exact Hk].
Defined.

(** X12. An input of white space and line terminators only, the empty
    input among them, has no token: the first pull ends the stream, and
    the comments array is left as it was given. *)
Theorem blank_input_has_no_token :
  forall num (N : JsNumber num) (fuel : nat) (input : jsstring)
         (options_ : TokenizerOptions),
    forallb isBlank input = true ->
    tokenize (num := num) (S fuel) input options_
      = Some {| tokens := []; completion := Finished;
                collected := opt_comments options_ |}.
Proof.
  intros num N fuel input options_ Hblank.
  assert (Hat : forall i, i < length input ->
    isWhiteSpace (charCodeAt input i) || isLineTerminator (charCodeAt input i)
    = true).
  { intros i Hi. unfold charCodeAt.
    destruct (nth_error input i) as [c|] eqn:E;
      [|apply nth_error_None in E; lia].
    rewrite forallb_forall in Hblank. apply (Hblank c).
    now apply nth_error_In in E. }
  unfold tokenize, run.
  assert (Hno : jsstring_eqb (firstn 2 input) (js "#!") = false).
  { destruct (jsstring_eqb (firstn 2 input) (js "#!")) eqn:E; [|reflexivity].
    apply jsstring_eqb_eq in E.
    destruct input as [|c input']; [discriminate|].
    destruct input' as [|d input'']; [discriminate|].
    cbn in E. injection E as -> _. cbn in Hblank. discriminate. }
  rewrite Hno, andb_false_r. cbn [pullAll]. unfold lex.
  assert (Hend : length input <= index (skipWhiteSpace input start)).
  { destruct (skipWhiteSpace_stops input start) as [Hend | (Hw & Hl)];
      [exact Hend|].
    destruct (Nat.lt_ge_cases (index (skipWhiteSpace input start)) (length input))
      as [Hlt | Hge]; [|exact Hge].
    specialize (Hat _ Hlt). rewrite Hw, Hl in Hat. discriminate. }
  replace (length input - index (skipWhiteSpace input start)) with 0 by lia.
  cbn [skipComments].
  destruct (Nat.leb_spec (length input) (index (skipWhiteSpace input start)));
    [|lia].
  cbn [resolveOptions comments defaultOptions].
  destruct (opt_comments options_); reflexivity.
Qed.

Lemma blank_input_has_no_token_witness :
  tokenize (num := ExactNumber) 1 [32%Z; 9%Z; 13%Z; 10%Z; 11%Z; 12%Z; 10%Z]
    noOptions
  = Some {| tokens := []; completion := Finished; collected := None |}.
Proof.
  apply (blank_input_has_no_token ExactNumber _ 0
           [32%Z; 9%Z; 13%Z; 10%Z; 11%Z; 12%Z; 10%Z] noOptions).
  reflexivity.
Defined.

(** ** Characters outside ASCII *)

Lemma fixupHighCharacters_high_head (c : Z) (w : jsstring) :
  (128 <= c < 65536)%Z ->
  exists b rest, fixupHighCharacters (c :: w) = b :: rest /\ (128 <= b)%Z.
Proof.
  intros Hc. rewrite fixup_cons.
  assert (Hunit : exists b rest, fixupUnit c = b :: rest /\ (128 <= b)%Z).
  { unfold fixupUnit. destruct (Z.leb_spec 0 c); [|lia].
    destruct (Z.leb_spec c 127); [lia|]. cbn [andb].
    destruct (encodeUTF8_high c Hc) as (b & rest & -> & Hb).
    now exists b, rest. }
  destruct w as [|d w].
  - exact Hunit.
  - destruct (isHighSurrogate c && isLowSurrogate d).
    + unfold fixupPair. destruct (encodeUTF8_pair c d) as (b & rest & -> & Hb).
      exists b, (rest ++ fixupHighCharacters w). now split.
    + destruct Hunit as (b & rest & -> & Hb).
      exists b, (rest ++ fixupHighCharacters (d :: w)). now split.
Qed.

Lemma high_head_is_identifier (options : Options) (b : Z) (rest : jsstring) :
  (128 <= b)%Z -> wordType options (b :: rest) = Identifier.
Proof.
  intros Hb. unfold wordType.
  destruct (isKeyword options (b :: rest)) eqn:Hk.
  { apply keyword_ascii in Hk. inversion Hk; subst. lia. }
  assert (Hne : forall lit, (hd 0%Z (js lit) < 128)%Z ->
                            jsstring_eqb (b :: rest) (js lit) = false).
  { intros lit Hlit. destruct (jsstring_eqb (b :: rest) (js lit)) eqn:E;
      [|reflexivity].
    apply jsstring_eqb_eq in E. rewrite <- E in Hlit. cbn in Hlit. lia. }
  rewrite !Hne by (cbn; lia). reflexivity.
Qed.

(** X13. A character outside ASCII, met where a token begins, is refused
    with [unexpectedSymbol] unless [extendedIdentifiers] is set; with it
    the character begins a word, and a word that begins so is always an
    Identifier. *)
Theorem non_ascii_needs_extendedIdentifiers :
  forall num (N : JsNumber num) (input : jsstring) (options : Options)
         (s : Cursor) (c : Z),
    charCodeAt input (index s) = Some c ->
    (128 <= c < 65536)%Z ->
    (extendedIdentifiers options = false ->
     lex_dispatch (num := num) input options s
       = Throw (tokenError unexpectedSymbol (line s) (lineStart s)
                  (index s, index s + 1) None))
    /\ (extendedIdentifiers options = true ->
        exists t s', lex_dispatch (num := num) input options s = Return t s'
                     /\ type t = Identifier /\ fst (range t) = index s).
Proof.
  intros num N input options s c Hc Hhigh. split; intros Hext.
  - unfold lex_dispatch, isIdentifierStart. rewrite Hc, Hext.
    unfold code_is, code_between, code_among, existsb.
    cbn [andb orb set_tokenStart index line lineStart].
    repeat match goal with
           | |- context [(c =? ?k)%Z] => destruct (Z.eqb_spec c k); [lia|]
           | |- context [(?k <=? c)%Z] => destruct (Z.leb_spec k c)
           | |- context [(c <=? ?k)%Z] => destruct (Z.leb_spec c k); [lia|]
           end; cbn [andb orb]; reflexivity.
  - assert (Hid : isIdentifierStart options (charCodeAt input (index s)) = true).
    { unfold isIdentifierStart. rewrite Hc, Hext. cbn [code_from andb].
      destruct (Z.leb_spec 128 c); [|lia].
      now destruct (code_between 65 90 (Some c) || code_between 97 122 (Some c)
                    || code_is 95 (Some c)). }
    unfold lex_dispatch. rewrite Hid.
    set (s1 := set_tokenStart s (index s)).
    destruct (scanIdentifierOrKeyword input options s1) as [t s'|e] eqn:R;
      [|unfold scanIdentifierOrKeyword in R;
        repeat match type of R with
               | (if ?b then _ else _) = _ => destruct b
               end; discriminate R].
    exists t, s'. split; [reflexivity|].
    pose proof (scanIdentifierOrKeyword_gt input options _ _ _ R) as Hgt.
    pose proof (scanIdentifierOrKeyword_placed input options s1 s' t Hid eq_refl R)
      as (Hr & _).
    apply scanIdentifierOrKeyword_word in R as (Hty & _).
    cbn [s1 set_tokenStart tokenStart index] in *.
    rewrite (slice_cons input (index s) (index s') c Hc Hgt) in Hty.
    destruct (fixupHighCharacters_high_head c (slice input (S (index s)) (index s'))
                Hhigh) as (b & rest & E & Hb).
    rewrite E in Hty. rewrite (high_head_is_identifier options b rest Hb) in Hty.
    split; [assumption | now rewrite Hr].
Qed.

Lemma non_ascii_needs_extendedIdentifiers_witness :
  lex_dispatch (num := ExactNumber) [0xe9%Z; 116%Z; 0xe9%Z] defaultOptions start
    = Throw (tokenError unexpectedSymbol 1 0 (0, 1) None)
  /\ summaries (tokenize (num := ExactNumber) 2 [0xe9%Z; 116%Z; 0xe9%Z]
                  {| opt_comments := None; opt_luaVersion := None;
                     opt_ignoreShebang := None;
                     opt_extendedIdentifiers := Some true;
                     opt_features := None |})
     = Some ([(Identifier, VString [0xc3; 0xa9; 116; 0xc3; 0xa9]%Z)], Finished).
Proof.
  split; [|reflexivity].
  apply (non_ascii_needs_extendedIdentifiers ExactNumber _
           [0xe9%Z; 116%Z; 0xe9%Z] defaultOptions start 0xe9%Z);
    [reflexivity | lia | reflexivity].
Defined.

(** X14. When [ignoreShebang] is turned off, a first line that begins
    with [#!] is lexed like any other: [#] is the length operator, and
    [!] is no Lua symbol, so the second pull raises [unexpectedSymbol]. *)
Theorem unignored_shebang_is_refused :
  forall num (N : JsNumber num) (fuel : nat) (rest : jsstring)
         (options_ : TokenizerOptions),
    opt_ignoreShebang options_ = Some false ->
    summaries (tokenize (num := num) (S (S fuel)) (js "#!" ++ rest) options_)
      = Some ([(Punctuator, VString (js "#"))],
              Raised (tokenError unexpectedSymbol 1 0 (1, 2) None)).
Proof.
  intros num N fuel rest options_ Hopt.
  unfold tokenize, run.
  assert (Hig : ignoreShebang (resolveOptions options_) = false).
  { cbn [resolveOptions ignoreShebang]. now rewrite Hopt. }
  rewrite Hig. cbn [andb].
  set (input := js "#!" ++ rest).
  set (options := resolveOptions options_).
  cbn [pullAll].
  rewrite (lex_at_token input options start _ 35%Z)
    by (reflexivity || discriminate).
  assert (D1 : lex_dispatch (num := num) input options start
               = Return (punctuatorToken start (js "#")) (afterToken start 1)).
  { unfold lex_dispatch.
    change (charCodeAt input (index start)) with (Some 35%Z).
    rewrite isIdentifierStart_low by lia. reflexivity. }
  rewrite D1.
  rewrite (lex_at_token input options (afterToken start 1) _ 33%Z)
    by (reflexivity || discriminate).
  assert (D2 : lex_dispatch (num := num) input options (afterToken start 1)
               = Throw (tokenError unexpectedSymbol 1 0 (1, 2) None)).
  { unfold lex_dispatch.
    change (charCodeAt input (index (afterToken start 1))) with (Some 33%Z).
    rewrite isIdentifierStart_low by lia. reflexivity. }
  rewrite D2. reflexivity.
Qed.

Lemma unignored_shebang_is_refused_witness :
  summaries (tokenize (num := ExactNumber) 2 (js "#!" ++ js "/usr/bin/lua")
               {| opt_comments := None; opt_luaVersion := None;
                  opt_ignoreShebang := Some false;
                  opt_extendedIdentifiers := None; opt_features := None |})
    = Some ([(Punctuator, VString (js "#"))],
            Raised (tokenError unexpectedSymbol 1 0 (1, 2) None)).
Proof.
  apply (unignored_shebang_is_refused ExactNumber _ 0 (js "/usr/bin/lua")).
  reflexivity.
Defined.

Section ShortStrings.

Context {num : Type} `{JsNumber num}.
Variable input : jsstring.
Variable options : Options.

Lemma suffix_lt (i : nat) (c : Z) (b : jsstring) :
  skipn i input = c :: b -> i < length input.
Proof.
  intros E. destruct (Nat.lt_ge_cases i (length input)) as [|Hge]; [assumption|].
  rewrite skipn_all2 in E by assumption. discriminate.
Qed.

Lemma isPlain_spec (q c : Z) :
  isPlain q c = true ->
  code_eq (Some q) (Some c) = false /\ code_is 92 (Some c) = false
  /\ isLineTerminator (Some c) = false.
Proof.
  unfold isPlain, code_eq, code_is, isLineTerminator, code_is.
  rewrite (Z.eqb_sym q c).
  destruct (c =? q)%Z, (c =? 92)%Z, (c =? 10)%Z, (c =? 13)%Z; cbn;
    intros E; try discriminate E; repeat split.
Qed.

(** The loop goes over a run of plain characters that something follows. *)
Lemma scanStringLiteral_loop_plain (body : jsstring) :
  forall (fuel : nat) (q : Z) (bl bls st : nat) (str : jsstring) (s : Cursor)
         (c : Z) (suffix : jsstring),
    skipn (index s) input = body ++ c :: suffix ->
    forallb (isPlain q) body = true ->
    scanStringLiteral_loop input options (length body + fuel) (Some q) bl bls
      st str s
    = scanStringLiteral_loop input options fuel (Some q) bl bls st str
        (set_index s (index s + length body)).
Proof.
  induction body as [|b body IH]; intros fuel q bl bls st str s c suffix E Hplain.
  - cbn [length Nat.add].
    replace (set_index s (index s + 0)) with s; [reflexivity|].
    destruct s; unfold set_index; cbn. f_equal. lia.
  - cbn [forallb] in Hplain. apply andb_prop in Hplain as (Hb & Hplain).
    destruct (isPlain_spec q b Hb) as (Hq & Hbs & Hlt).
    cbn [length Nat.add scanStringLiteral_loop].
    cbn [app] in E.
    pose proof (suffix_lt _ _ _ E) as Hi.
    pose proof (suffix_hd input _ _ E) as Hc. cbn [hd_error] in Hc.
    pose proof (suffix_cons input _ _ _ E) as E1.
    assert (Hi1 : index s + 1 < length input).
    { destruct body; cbn [app] in E1; eapply suffix_lt; exact E1. }
    destruct (Nat.ltb_spec (index s) (length input)); [|lia].
    rewrite Hc, Hq, Hbs, Hlt. cbn [index set_index].
    destruct (Nat.leb_spec (length input) (index s + 1)); [lia|].
    cbn [orb].
    rewrite (IH fuel q bl bls st str (set_index s (index s + 1)) c suffix E1 Hplain).
    f_equal. unfold set_index. cbn. f_equal. lia.
Qed.

Lemma plain_string_token (s : Cursor) (q : Z) (body rest : jsstring) :
  q = 34%Z \/ q = 39%Z ->
  skipn (index s) input = q :: body ++ q :: rest ->
  forallb (isPlain q) body = true ->
  lex_dispatch (num := num) input options s
    = Return (stringToken s (fixupHighCharacters body) (length body + 2))
        (afterToken s (length body + 2)).
Proof.
  intros Hq E Hplain.
  pose proof (suffix_hd input _ _ E) as Hc. cbn [hd_error] in Hc.
  pose proof (suffix_cons input _ _ _ E) as E1.
  unfold lex_dispatch. rewrite Hc.
  assert (Hid : isIdentifierStart options (Some q) = false).
  { apply isIdentifierStart_low. destruct Hq; lia. }
  rewrite Hid.
  assert (Hquote : code_is 39 (Some q) || code_is 34 (Some q) = true).
  { destruct Hq as [-> | ->]; reflexivity. }
  rewrite Hquote.
  unfold scanStringLiteral. cbn [set_tokenStart set_index index line lineStart tokenStart].
  rewrite Hc.
  set (s1 := {| index := index s + 1; line := line s; lineStart := lineStart s;
                tokenStart := index s |}).
  pose proof (suffix_app input _ _ _ E1) as E2.
  pose proof (suffix_lt _ _ _ E2) as Hlen.
  replace (length input - (index s + 1))
    with (length body + S (length input - (index s + 1) - length body - 1)) by lia.
  rewrite (scanStringLiteral_loop_plain body _ q _ _ _ _ s1 q rest E1 Hplain).
  cbn [scanStringLiteral_loop s1 index set_index].
  destruct (Nat.ltb_spec (index s + 1 + length body) (length input)); [|lia].
  rewrite (suffix_hd input _ _ E2). cbn [hd_error code_eq].
  rewrite Z.eqb_refl. subst s1. cursor_simpl. cbn [app].
  replace (index s + 1 + length body + 1 - 1) with (index s + 1 + length body)
    by lia.
  rewrite (suffix_slice input _ _ _ E1).
  unfold stringToken, afterToken.
  replace (index s + 1 + length body + 1) with (index s + (length body + 2))
    by lia.
  reflexivity.
Qed.

Lemma broken_string_raises (s : Cursor) (q c : Z) (body rest : jsstring) :
  q = 34%Z \/ q = 39%Z ->
  skipn (index s) input = q :: body ++ c :: rest ->
  forallb (isPlain q) body = true ->
  isLineTerminator (Some c) = true ->
  lex_dispatch (num := num) input options s
    = Throw (tokenError unfinishedString (line s) (lineStart s)
               (index s, index s + length body + 1) None).
Proof.
  intros Hq E Hplain Hbreak.
  pose proof (suffix_hd input _ _ E) as Hc. cbn [hd_error] in Hc.
  pose proof (suffix_cons input _ _ _ E) as E1.
  unfold lex_dispatch. rewrite Hc.
  assert (Hid : isIdentifierStart options (Some q) = false).
  { apply isIdentifierStart_low. destruct Hq; lia. }
  rewrite Hid.
  assert (Hquote : code_is 39 (Some q) || code_is 34 (Some q) = true).
  { destruct Hq as [-> | ->]; reflexivity. }
  rewrite Hquote.
  unfold scanStringLiteral. cbn [set_tokenStart set_index index line lineStart tokenStart].
  rewrite Hc.
  set (s1 := {| index := index s + 1; line := line s; lineStart := lineStart s;
                tokenStart := index s |}).
  pose proof (suffix_app input _ _ _ E1) as E2.
  pose proof (suffix_lt _ _ _ E2) as Hlen.
  replace (length input - (index s + 1))
    with (length body + S (length input - (index s + 1) - length body - 1)) by lia.
  rewrite (scanStringLiteral_loop_plain body _ q _ _ _ _ s1 c rest E1 Hplain).
  cbn [scanStringLiteral_loop s1 index set_index].
  destruct (Nat.ltb_spec (index s + 1 + length body) (length input)); [|lia].
  rewrite (suffix_hd input _ _ E2). cbn [hd_error].
  assert (Hnq : code_eq (Some q) (Some c) = false).
  { unfold isLineTerminator, code_is in Hbreak. cbn [code_eq].
    destruct (Z.eqb_spec q c) as [<- | ]; [|reflexivity].
    destruct Hq as [-> | ->]; discriminate Hbreak. }
  assert (Hnb : code_is 92 (Some c) = false).
  { unfold isLineTerminator, code_is in *.
    destruct (Z.eqb_spec c 92) as [-> | ]; [discriminate Hbreak | reflexivity]. }
  rewrite Hnq, Hnb, Hbreak, orb_true_r.
  subst s1. cursor_simpl.
  replace (index s + 1 - 1) with (index s) by lia.
  replace (index s + 1 + length body + 1 - 1) with (index s + length body + 1)
    by lia.
  reflexivity.
Qed.

Lemma open_string_raises (s : Cursor) (q : Z) (body : jsstring) :
  q = 34%Z \/ q = 39%Z ->
  skipn (index s) input = q :: body ->
  nonEmpty body = true ->
  forallb (isPlain q) body = true ->
  lex_dispatch (num := num) input options s
    = Throw (tokenError unfinishedString (line s) (lineStart s)
               (index s, index s + length body) None).
Proof.
  intros Hq E Hne Hplain.
  destruct (exists_last (l := body)) as (body' & c & ->);
    [destruct body; [discriminate | discriminate]|].
  rewrite forallb_app in Hplain. apply andb_prop in Hplain as (Hplain & Hc0).
  cbn [forallb] in Hc0. rewrite andb_true_r in Hc0.
  destruct (isPlain_spec q c Hc0) as (Hnq & Hnb & Hnl).
  pose proof (suffix_hd input _ _ E) as Hc. cbn [hd_error] in Hc.
  pose proof (suffix_cons input _ _ _ E) as E1.
  unfold lex_dispatch. rewrite Hc.
  assert (Hid : isIdentifierStart options (Some q) = false).
  { apply isIdentifierStart_low. destruct Hq; lia. }
  rewrite Hid.
  assert (Hquote : code_is 39 (Some q) || code_is 34 (Some q) = true).
  { destruct Hq as [-> | ->]; reflexivity. }
  rewrite Hquote.
  unfold scanStringLiteral. cbn [set_tokenStart set_index index line lineStart tokenStart].
  rewrite Hc.
  set (s1 := {| index := index s + 1; line := line s; lineStart := lineStart s;
                tokenStart := index s |}).
  pose proof (suffix_app input _ _ _ E1) as E2.
  pose proof (suffix_lt _ _ _ E2) as Hlen.
  assert (Hend : length input = index s + 1 + length body' + 1).
  { pose proof (f_equal (@length Z) E2) as L. rewrite length_skipn in L.
    cbn in L. lia. }
  replace (length input - (index s + 1)) with (length body' + 1) by lia.
  rewrite (scanStringLiteral_loop_plain body' _ q _ _ _ _ s1 c [] E1 Hplain).
  cbn [scanStringLiteral_loop s1 index set_index].
  destruct (Nat.ltb_spec (index s + 1 + length body') (length input)); [|lia].
  rewrite (suffix_hd input _ _ E2). cbn [hd_error].
  rewrite Hnq, Hnb.
  subst s1. cursor_simpl.
  destruct (Nat.leb_spec (length input) (index s + 1 + length body' + 1)); [|lia].
  cbn [orb]. rewrite length_app. cbn [length].
  replace (index s + 1 - 1) with (index s) by lia.
  replace (index s + 1 + length body' + 1 - 1)
    with (index s + (length body' + 1)) by lia.
  reflexivity.
Qed.

End ShortStrings.

(** X15. A short string with no backslash in it is read up to the next
    occurrence of its opening quote: the token covers the two quotes and
    what stands between them, and its value is the encoding fixup of that
    text, which for ASCII text is the text itself. *)
Theorem plain_string_literal :
  forall num (N : JsNumber num) (input : jsstring) (options : Options)
         (s : Cursor) (q : Z) (body rest : jsstring),
    q = 34%Z \/ q = 39%Z ->
    skipn (index s) input = q :: body ++ q :: rest ->
    forallb (isPlain q) body = true ->
    lex_dispatch (num := num) input options s
      = Return (stringToken s (fixupHighCharacters body) (length body + 2))
          (afterToken s (length body + 2)).
Proof.
  intros num N input options s q body rest. apply plain_string_token.
Qed.

Lemma plain_string_literal_witness :
  lex_dispatch (num := ExactNumber) (js "'it is so' .. x") defaultOptions start
    = Return (stringToken start (js "it is so") 10) (afterToken start 10).
Proof.
  apply (plain_string_literal ExactNumber _ (js "'it is so' .. x")
           defaultOptions start 39%Z (js "it is so") (js " .. x"));
    [now right | reflexivity | reflexivity].
Defined.

(** X16. A short string that meets a line terminator, or the end of the
    input after at least one character, before its closing quote raises
    [unfinishedString], located on the line of the opening quote, with a
    range from the opening quote to the last character read. *)
Theorem unfinished_string :
  forall num (N : JsNumber num) (input : jsstring) (options : Options)
         (s : Cursor) (q : Z) (body : jsstring),
    q = 34%Z \/ q = 39%Z ->
    forallb (isPlain q) body = true ->
    (forall c rest,
       skipn (index s) input = q :: body ++ c :: rest ->
       isLineTerminator (Some c) = true ->
       lex_dispatch (num := num) input options s
         = Throw (tokenError unfinishedString (line s) (lineStart s)
                    (index s, index s + length body + 1) None))
    /\ (skipn (index s) input = q :: body ->
        nonEmpty body = true ->
        lex_dispatch (num := num) input options s
          = Throw (tokenError unfinishedString (line s) (lineStart s)
                     (index s, index s + length body) None)).
Proof.
  intros num N input options s q body Hq Hplain. split.
  - intros c rest E Hc. now apply (broken_string_raises input options s q c body rest).
  - intros E Hne. now apply (open_string_raises input options s q body).
Qed.

Lemma unfinished_string_witness :
  lex_dispatch (num := ExactNumber) (js "x = 'abc" ++ 10%Z :: js "def'")
      defaultOptions {| index := 4; line := 1; lineStart := 0; tokenStart := 2 |}
    = Throw (tokenError unfinishedString 1 0 (4, 8) None)
  /\ lex_dispatch (num := ExactNumber) (js "x = 'abc")
       defaultOptions {| index := 4; line := 1; lineStart := 0; tokenStart := 2 |}
     = Throw (tokenError unfinishedString 1 0 (4, 7) None).
Proof.
  split.
  - destruct (unfinished_string ExactNumber _ (js "x = 'abc" ++ 10%Z :: js "def'")
                defaultOptions
                {| index := 4; line := 1; lineStart := 0; tokenStart := 2 |}
                39%Z (js "abc")) as (Hbroken & _);
      [now right | reflexivity|].
    apply (Hbroken 10%Z (js "def'")); reflexivity.
  - destruct (unfinished_string ExactNumber _ (js "x = 'abc") defaultOptions
                {| index := 4; line := 1; lineStart := 0; tokenStart := 2 |}
                39%Z (js "abc")) as (_ & Hopen);
      [now right | reflexivity|].
    apply Hopen; reflexivity.
Defined.

Section EscapeValues.

Variable input : jsstring.
Variable options : Options.

Lemma scanWhile_prefix (p : option Z -> bool) (a : jsstring) :
  forall (fuel i : nat) (b : jsstring),
    skipn i input = a ++ b ->
    forallb (fun c => p (Some c)) a = true ->
    length a <= fuel ->
    length a = fuel \/ p (hd_error b) = false ->
    scanWhile input p fuel i = i + length a.
Proof.
  induction a as [|c a IH]; intros fuel i b E Ha Hf Hstop.
  - cbn [length] in *. destruct fuel as [|fuel]; cbn [scanWhile]; [lia|].
    destruct Hstop as [Hstop | Hstop]; [lia|].
    rewrite (suffix_hd input _ _ E). cbn [app]. rewrite Hstop. lia.
  - cbn [forallb] in Ha. apply andb_prop in Ha as (Hc & Ha).
    cbn [length] in *. destruct fuel as [|fuel]; [lia|]. cbn [scanWhile].
    rewrite (suffix_hd input _ _ E). cbn [app hd_error]. rewrite Hc.
    cbn [app] in E. apply suffix_cons in E.
    replace (S i) with (i + 1) by lia.
    rewrite (IH fuel (i + 1) b E Ha); [lia | lia|].
    destruct Hstop as [Hstop | Hstop]; [left; lia | now right].
Qed.

Lemma decimalNat_nonneg (ds : jsstring) :
  forallb isDecChar ds = true -> (0 <= decimalNat ds)%Z.
Proof.
  unfold decimalNat. intros Hds.
  assert (Hacc : forall acc, (0 <= acc)%Z ->
    (0 <= fold_left (fun acc c => (10 * acc + (c - 48))%Z) ds acc)%Z).
  { induction ds as [|c ds IH]; intros acc Hacc; [exact Hacc|].
    cbn [forallb] in Hds. apply andb_prop in Hds as (Hc & Hds).
    cbn [fold_left]. apply IH; [assumption|].
    destruct (isDecChar_value c Hc) as (_ & Hv). lia. }
  apply Hacc. lia.
Qed.

Lemma digit_is_no_letter (c k : Z) :
  isDecChar c = true -> (57 < k)%Z \/ (k < 48)%Z -> code_is k (Some c) = false.
Proof.
  unfold isDecChar, isDecDigit, code_between, code_is. intros Hc Hk.
  apply andb_prop in Hc as (H1 & H2). apply Z.leb_le in H1, H2.
  destruct (Z.eqb_spec c k); [lia | reflexivity].
Qed.

Lemma decimal_escape_value (s : Cursor) (ds rest : jsstring) :
  skipn (index s) input = ds ++ rest ->
  nonEmpty ds = true ->
  forallb isDecChar ds = true ->
  length ds <= 3 ->
  length ds = 3 \/ isDecDigit (hd_error rest) = false ->
  readEscapeSequence input options s
    = if (255 <? decimalNat ds)%Z
      then Throw (tokenError decimalEscapeTooLarge (line s) (lineStart s)
                    (index s, index s + length ds) None)
      else Return [decimalNat ds] (set_index s (index s + length ds)).
Proof.
  intros E Hne Hds Hlen Hstop.
  destruct ds as [|d ds']; [discriminate|].
  set (ds := d :: ds') in *.
  pose proof (suffix_hd input _ _ E) as Hc. cbn [ds app hd_error] in Hc.
  assert (Hd : isDecChar d = true).
  { cbn [ds forallb] in Hds. now apply andb_prop in Hds as (Hd & _). }
  unfold readEscapeSequence, readEscapeSequenceWith. rewrite Hc.
  rewrite !(digit_is_no_letter d) by (assumption || lia).
  cbn [orb].
  change (code_between 48 57 (Some d)) with (isDecChar d). rewrite Hd.
  rewrite (scanWhile_prefix isDecDigit ds 3 (index s) rest E Hds Hlen Hstop).
  cbn [index set_index].
  rewrite (suffix_slice input _ _ _ E).
  rewrite (parseInt_dec ds Hne Hds). cbn [or_default].
  pose proof (decimalNat_nonneg ds Hds) as Hpos.
  destruct (Z.ltb_spec 255 (decimalNat ds)); [reflexivity|].
  unfold fromCharCode. rewrite Z.mod_small by lia. reflexivity.
Qed.

Lemma readUnicodeDigits_run (ds : jsstring) :
  forall (fuel escStart l ls : nat) (s : Cursor) (rest : jsstring),
    skipn (index s) input = ds ++ rest ->
    forallb isHexChar ds = true ->
    escStart <= index s ->
    index s - escStart + length ds <= 6 ->
    length ds <= fuel ->
    length ds = fuel \/ isHexDigit (hd_error rest) = false ->
    readUnicodeDigits input fuel escStart l ls s
      = Return tt (set_index s (index s + length ds)).
Proof.
  induction ds as [|c ds IH]; intros fuel escStart l ls s rest E Hds Hle H6 Hf Hstop.
  - cbn [length] in *.
    replace (set_index s (index s + 0)) with s
      by (destruct s; unfold set_index; cbn; f_equal; lia).
    destruct fuel as [|fuel]; cbn [readUnicodeDigits]; [reflexivity|].
    destruct Hstop as [Hstop | Hstop]; [lia|].
    rewrite (suffix_hd input _ _ E). cbn [app]. now rewrite Hstop.
  - cbn [forallb] in Hds. apply andb_prop in Hds as (Hc & Hds).
    cbn [length] in *. destruct fuel as [|fuel]; [lia|].
    cbn [readUnicodeDigits].
    rewrite (suffix_hd input _ _ E). cbn [app hd_error].
    change (isHexDigit (Some c)) with (isHexChar c). rewrite Hc.
    cbn [index set_index].
    destruct (Nat.ltb_spec 6 (index s + 1 - escStart)); [lia|].
    cbn [app] in E. apply suffix_cons in E.
    rewrite (IH fuel escStart l ls (set_index s (index s + 1)) rest E Hds);
      cbn [index set_index]; try lia.
    + unfold set_index. cbn. do 2 f_equal. lia.
    + destruct Hstop as [Hstop | Hstop]; [left; lia | now right].
Qed.

Lemma unicode_escape_value (s : Cursor) (zeros ds rest : jsstring) :
  unicodeEscapes (features options) = true ->
  skipn (index s) input = js "u{" ++ zeros ++ ds ++ 125%Z :: rest ->
  forallb (Z.eqb 48) zeros = true ->
  forallb isHexChar ds = true ->
  nonEmpty ds = true ->
  code_is 48 (hd_error ds) = false ->
  length ds <= 6 ->
  readEscapeSequence input options s
    = match encodeUTF8 (Some (hexNat ds)) with
      | Some bytes =>
        Return bytes (set_index s (index s + length zeros + length ds + 3))
      | None =>
        Throw (tokenError tooLargeCodepoint (line s) (lineStart s)
                 (index s + 2, index s + 2 + length zeros + length ds) None)
      end.
Proof.
  intros Hu E Hzeros Hds Hne Hfirst Hlen.
  pose proof (suffix_hd input _ _ E) as Hc. cbn [js app hd_error] in Hc.
  change (hd_error (map _ _ ++ _)) with (Some 117%Z) in Hc.
  unfold readEscapeSequence, readEscapeSequenceWith. rewrite Hc.
  cbn [code_is code_between Z.eqb Z.leb Z.compare Pos.compare Pos.compare_cont
       Pos.eqb andb orb].
  unfold escape_case_u. rewrite Hu.
  unfold readUnicodeEscapeSequence.
  change (js "u{" ++ zeros ++ ds ++ 125%Z :: rest)
    with (117%Z :: 123%Z :: zeros ++ ds ++ 125%Z :: rest) in E.
  pose proof (suffix_cons input _ _ _ E) as E1.
  pose proof (suffix_cons input _ _ _ E1) as E2.
  cbn [index set_index line lineStart].
  rewrite (suffix_hd input _ _ E1). cbn [hd_error code_is negb].
  rewrite Z.eqb_refl. cbn [negb].
  assert (Hhex : isHexDigit (charCodeAt input (index s + 1 + 1)) = true).
  { rewrite (suffix_hd input _ _ E2).
    destruct zeros as [|z zeros'].
    - cbn [app]. rewrite hd_error_app_nonEmpty by assumption.
      now apply isHexChar_hd.
    - cbn [app hd_error]. cbn [forallb] in Hzeros.
      apply andb_prop in Hzeros as (Hz & _). apply Z.eqb_eq in Hz. now subst z. }
  rewrite Hhex. cbn [negb].
  assert (Hscan : scanAll input (code_is 48) (index s + 1 + 1)
                  = index s + 1 + 1 + length zeros).
  { apply (suffix_scan input (code_is 48) _ zeros (ds ++ 125%Z :: rest));
      [reflexivity | exact E2 | | ].
    - rewrite forallb_forall in *. intros c Hin. specialize (Hzeros c Hin).
      cbn [code_is]. apply Z.eqb_eq in Hzeros. subst c. reflexivity.
    - now rewrite hd_error_app_nonEmpty. }
  rewrite Hscan.
  pose proof (suffix_app input _ _ _ E2) as E3.
  set (s3 := {| index := index s + 1 + 1 + length zeros; line := line s;
                lineStart := lineStart s; tokenStart := tokenStart s |}) in *.
  pose proof (suffix_app input _ _ _ E3) as E4.
  pose proof (suffix_lt input _ _ _ E4) as Hlt.
  rewrite (readUnicodeDigits_run ds _ (index s3) (line s) (lineStart s) s3
             (125%Z :: rest));
    try assumption; cbn [s3 index]; try lia; [|now right].
  cbn [index set_index].
  rewrite (suffix_hd input _ _ E4). cbn [hd_error code_is].
  rewrite Z.eqb_refl. cbn [negb].
  replace (index s + 1 + 1 + length zeros + length ds + 1 - 1)
    with (index s + 1 + 1 + length zeros + length ds) by lia.
  rewrite (suffix_slice input _ _ _ E3).
  rewrite (parseInt_hex ds Hne Hds).
  unfold set_index. cbn [index line lineStart tokenStart].
  replace (index s + 1 + 1 + length zeros + length ds + 1)
    with (index s + length zeros + length ds + 3) by lia.
  replace (index s + 1 + 1 + length zeros + length ds)
    with (index s + 2 + length zeros + length ds) by lia.
  destruct (encodeUTF8 (Some (hexNat ds))); reflexivity.
Qed.

Lemma readUnicodeDigits_overflow (ds : jsstring) :
  forall (fuel escStart l ls : nat) (s : Cursor) (rest : jsstring),
    skipn (index s) input = ds ++ rest ->
    forallb isHexChar ds = true ->
    escStart <= index s ->
    index s - escStart + length ds = 7 ->
    length ds <= fuel ->
    nonEmpty ds = true ->
    readUnicodeDigits input fuel escStart l ls s
      = Throw (tokenError tooLargeCodepoint l ls (escStart, escStart + 7) None).
Proof.
  induction ds as [|c ds IH]; intros fuel escStart l ls s rest E Hds Hle H7 Hf Hne;
    [discriminate|].
  cbn [forallb] in Hds. apply andb_prop in Hds as (Hc & Hds).
  cbn [length] in *. destruct fuel as [|fuel]; [lia|].
  cbn [readUnicodeDigits].
  rewrite (suffix_hd input _ _ E). cbn [app hd_error].
  change (isHexDigit (Some c)) with (isHexChar c). rewrite Hc.
  cbn [index set_index].
  destruct (Nat.ltb_spec 6 (index s + 1 - escStart)).
  - replace (index s + 1) with (escStart + 7) by lia. reflexivity.
  - cbn [app] in E. apply suffix_cons in E.
    apply (IH fuel escStart l ls (set_index s (index s + 1)) rest E Hds);
      cbn [index set_index]; try lia.
    destruct ds; [cbn [length] in *; lia | reflexivity].
Qed.

Lemma unicode_escape_overflow (s : Cursor) (zeros ds rest : jsstring) :
  unicodeEscapes (features options) = true ->
  skipn (index s) input = js "u{" ++ zeros ++ ds ++ rest ->
  forallb (Z.eqb 48) zeros = true ->
  forallb isHexChar ds = true ->
  code_is 48 (hd_error ds) = false ->
  length ds = 7 ->
  readEscapeSequence input options s
    = Throw (tokenError tooLargeCodepoint (line s) (lineStart s)
               (index s + 2 + length zeros, index s + 2 + length zeros + 7) None).
Proof.
  intros Hu E Hzeros Hds Hfirst Hlen.
  assert (Hne : nonEmpty ds = true) by (destruct ds; [discriminate | reflexivity]).
  pose proof (suffix_hd input _ _ E) as Hc. cbn [js app hd_error] in Hc.
  change (hd_error (map _ _ ++ _)) with (Some 117%Z) in Hc.
  unfold readEscapeSequence, readEscapeSequenceWith. rewrite Hc.
  cbn [code_is code_between Z.eqb Z.leb Z.compare Pos.compare Pos.compare_cont
       Pos.eqb andb orb].
  unfold escape_case_u. rewrite Hu.
  unfold readUnicodeEscapeSequence.
  change (js "u{" ++ zeros ++ ds ++ rest)
    with (117%Z :: 123%Z :: zeros ++ ds ++ rest) in E.
  pose proof (suffix_cons input _ _ _ E) as E1.
  pose proof (suffix_cons input _ _ _ E1) as E2.
  cbn [index set_index line lineStart].
  rewrite (suffix_hd input _ _ E1). cbn [hd_error code_is negb].
  rewrite Z.eqb_refl. cbn [negb].
  assert (Hhex : isHexDigit (charCodeAt input (index s + 1 + 1)) = true).
  { rewrite (suffix_hd input _ _ E2).
    destruct zeros as [|z zeros'].
    - cbn [app]. rewrite hd_error_app_nonEmpty by assumption.
      now apply isHexChar_hd.
    - cbn [app hd_error]. cbn [forallb] in Hzeros.
      apply andb_prop in Hzeros as (Hz & _). apply Z.eqb_eq in Hz. now subst z. }
  rewrite Hhex. cbn [negb].
  assert (Hscan : scanAll input (code_is 48) (index s + 1 + 1)
                  = index s + 1 + 1 + length zeros).
  { apply (suffix_scan input (code_is 48) _ zeros (ds ++ rest));
      [reflexivity | exact E2 | | ].
    - rewrite forallb_forall in *. intros c Hin. specialize (Hzeros c Hin).
      cbn [code_is]. apply Z.eqb_eq in Hzeros. subst c. reflexivity.
    - now rewrite hd_error_app_nonEmpty. }
  rewrite Hscan.
  pose proof (suffix_app input _ _ _ E2) as E3.
  set (s3 := {| index := index s + 1 + 1 + length zeros; line := line s;
                lineStart := lineStart s; tokenStart := tokenStart s |}) in *.
  assert (Hlt : length ds <= length input - index s3).
  { pose proof (f_equal (@length Z) E3) as L.
    rewrite length_skipn, length_app in L. cbn [s3 index]. lia. }
  rewrite (readUnicodeDigits_overflow ds _ (index s3) (line s) (lineStart s) s3
             rest);
    try assumption; cbn [s3 index]; try lia.
  replace (index s + 1 + 1 + length zeros) with (index s + 2 + length zeros) by lia.
  reflexivity.
Qed.

End EscapeValues.

(** X17. A decimal escape takes the digits that follow the backslash, at
    most three of them, and stands for the character with that code; a
    value above 255 raises [decimalEscapeTooLarge] over the digits. *)
Theorem decimal_escape :
  forall (input : jsstring) (options : Options) (s : Cursor)
         (ds rest : jsstring),
    skipn (index s) input = ds ++ rest ->
    nonEmpty ds = true ->
    forallb isDecChar ds = true ->
    length ds <= 3 ->
    length ds = 3 \/ isDecDigit (hd_error rest) = false ->
    readEscapeSequence input options s
      = if (255 <? decimalNat ds)%Z
        then Throw (tokenError decimalEscapeTooLarge (line s) (lineStart s)
                      (index s, index s + length ds) None)
        else Return [decimalNat ds] (set_index s (index s + length ds)).
Proof. exact decimal_escape_value. Qed.

Lemma decimal_escape_witness :
  readEscapeSequence (js "'\0651'") defaultOptions
      {| index := 2; line := 1; lineStart := 0; tokenStart := 0 |}
    = Return (js "A") {| index := 5; line := 1; lineStart := 0; tokenStart := 0 |}
  /\ readEscapeSequence (js "'\256'") defaultOptions
       {| index := 2; line := 1; lineStart := 0; tokenStart := 0 |}
     = Throw (tokenError decimalEscapeTooLarge 1 0 (2, 5) None).
Proof.
  split.
  - apply (decimal_escape (js "'\0651'") defaultOptions
             {| index := 2; line := 1; lineStart := 0; tokenStart := 0 |}
             (js "065") (js "1'")); try reflexivity; try (cbn; lia); now left.
  - apply (decimal_escape (js "'\256'") defaultOptions
             {| index := 2; line := 1; lineStart := 0; tokenStart := 0 |}
             (js "256") (js "'")); try reflexivity; try (cbn; lia); now left.
Defined.

(** X18. Under [unicodeEscapes] a codepoint escape [u{XXX}] with one to
    six significant hex digits (leading zeros aside) stands for the UTF-8
    bytes of the codepoint the digits spell, and raises
    [tooLargeCodepoint] when [encodeUTF8] has no encoding for it; a
    seventh significant digit raises [tooLargeCodepoint] at once. *)
Theorem codepoint_escape :
  forall (input : jsstring) (options : Options) (s : Cursor)
         (zeros ds : jsstring),
    unicodeEscapes (features options) = true ->
    forallb (Z.eqb 48) zeros = true ->
    forallb isHexChar ds = true ->
    code_is 48 (hd_error ds) = false ->
    (forall rest,
       skipn (index s) input = js "u{" ++ zeros ++ ds ++ 125%Z :: rest ->
       nonEmpty ds = true -> length ds <= 6 ->
       readEscapeSequence input options s
         = match encodeUTF8 (Some (hexNat ds)) with
           | Some bytes =>
             Return bytes (set_index s (index s + length zeros + length ds + 3))
           | None =>
             Throw (tokenError tooLargeCodepoint (line s) (lineStart s)
                      (index s + 2, index s + 2 + length zeros + length ds) None)
           end)
    /\ (forall rest,
          skipn (index s) input = js "u{" ++ zeros ++ ds ++ rest ->
          length ds = 7 ->
          readEscapeSequence input options s
            = Throw (tokenError tooLargeCodepoint (line s) (lineStart s)
                       (index s + 2 + length zeros,
                        index s + 2 + length zeros + 7) None)).
Proof.
  intros input options s zeros ds Hu Hzeros Hds Hfirst. split.
  - intros rest E Hne Hlen.
    now apply (unicode_escape_value input options s zeros ds rest).
  - intros rest E Hlen. now apply (unicode_escape_overflow input options s zeros ds rest).
Qed.

Lemma codepoint_escape_witness :
  readEscapeSequence (js "'\u{0020AC}'") (resolveOptions (withVersion Lua53))
      {| index := 2; line := 1; lineStart := 0; tokenStart := 0 |}
    = Return [0xe2; 0x82; 0xac]%Z
        {| index := 11; line := 1; lineStart := 0; tokenStart := 0 |}
  /\ readEscapeSequence (js "'\u{1234567}'") (resolveOptions (withVersion Lua53))
       {| index := 2; line := 1; lineStart := 0; tokenStart := 0 |}
     = Throw (tokenError tooLargeCodepoint 1 0 (4, 11) None).
Proof.
  split.
  - pose proof (codepoint_escape (js "'\u{0020AC}'")
                  (resolveOptions (withVersion Lua53))
                  {| index := 2; line := 1; lineStart := 0; tokenStart := 0 |}
                  (js "00") (js "20AC") eq_refl eq_refl eq_refl eq_refl)
      as (Hvalue & _).
    apply (Hvalue (js "'")); [reflexivity | reflexivity | cbn; lia].
  - pose proof (codepoint_escape (js "'\u{1234567}'")
                  (resolveOptions (withVersion Lua53))
                  {| index := 2; line := 1; lineStart := 0; tokenStart := 0 |}
                  [] (js "1234567") eq_refl eq_refl eq_refl eq_refl)
      as (_ & Hover).
    apply (Hover (js "}'")); reflexivity.
Defined.

Section Dec.

Context {num : Type} `{JsNumber num}.
Variable input : jsstring.
Variable options : Options.

Lemma decimal_mark (e : Z) :
  ((e =? 101) || (e =? 69))%Z = true ->
  code_among [101; 69]%Z (Some e) = true /\ isDecDigit (Some e) = false
  /\ code_is 46 (Some e) = false.
Proof.
  intros He. apply orb_prop in He as [He | He]; apply Z.eqb_eq in He; subst e;
    repeat split.
Qed.

Lemma digit_not_x (c : Z) :
  isDecChar c = true -> code_among [120; 88]%Z (Some c) = false.
Proof.
  unfold isDecChar, isDecDigit, code_between, code_among, existsb.
  intros Hc. apply andb_prop in Hc as (H1 & H2). apply Z.leb_le in H1, H2.
  destruct (Z.eqb_spec c 120); [lia|]. destruct (Z.eqb_spec c 88); [lia|].
  reflexivity.
Qed.

Lemma dot_is_no_digit :
  isDecDigit (Some 46%Z) = false /\ code_among [101; 69]%Z (Some 46%Z) = false.
Proof. split; reflexivity. Qed.

(** What [readDecLiteral] does on a numeral that is written at the
    cursor: it reads all of it, or stops at the missing digit of the
    exponent. *)
Lemma readDecLiteral_scan (s : Cursor) (d : DecLiteral) (rest : jsstring) :
  decShaped d = true ->
  decScanEnds d (hd_error rest) = true ->
  skipn (index s) input = decLiteralText d ++ rest ->
  readDecLiteral (num := num) input s
    = match decExponent d with
      | Some (_, _, []) =>
        Throw (tokenError malformedNumber (line s) (lineStart s)
                 (tokenStart s, index s + length (decLiteralText d) + 1) None)
      | _ =>
        Return (parseFloat (slice input (tokenStart s)
                              (index s + length (decLiteralText d))))
          (set_index s (index s + length (decLiteralText d)))
      end.
Proof.
  intros Hwf Hend E.
  destruct d as [ds F Ex]. unfold decShaped in Hwf.
  cbn [decDigits decFraction decExponent] in *.
  apply andb_prop in Hwf as (Hwf & HEx).
  apply andb_prop in Hwf as (Hwf & Hstart).
  apply andb_prop in Hwf as (Hds & HF).
  unfold decLiteralText in *. cbn [decDigits decFraction decExponent] in *.
  unfold decScanEnds, endsDecLiteral in *.
  cbn [decDigits decFraction decExponent] in *.
  unfold readDecLiteral. cursor_simpl.
  set (i := index s) in *.
  set (textE := match Ex with
                | Some (e, sign, x) =>
                  e :: match sign with Some g => [g] | None => [] end ++ x
                | None => []
                end) in *.
  set (textF := match F with Some f => 46%Z :: f | None => [] end) in *.
  (* the character after the exponent part, when there is no exponent *)
  assert (Hrest : Ex = None ->
    isDecDigit (hd_error rest) = false
    /\ code_among [101; 69]%Z (hd_error rest) = false
    /\ (F = None -> code_is 46 (hd_error rest) = false)).
  { intros ->.
    apply andb_prop in Hend as (Hd & Hfull).
    apply andb_prop in Hfull as (He & Hdot).
    apply negb_true_iff in Hd, He. split; [assumption|]. split; [assumption|].
    intros ->. apply andb_prop in Hdot as (Hdot & _). now apply negb_true_iff. }
  (* what follows the fraction *)
  assert (HtailE : isDecDigit (hd_error (textE ++ rest)) = false
                   /\ (F = None -> code_is 46 (hd_error (textE ++ rest)) = false)
                   /\ code_among [101; 69]%Z (hd_error (textE ++ rest))
                      = match Ex with Some _ => true | None => false end).
  { subst textE. destruct Ex as [[[e sg] x]|]; cbn [app hd_error].
    - apply andb_prop in HEx as (HEx & _). apply andb_prop in HEx as (He & _).
      destruct (decimal_mark e He) as (Hm & Hd & Hdot).
      split; [exact Hd|]. split; [intros _; exact Hdot | exact Hm].
    - destruct (Hrest eq_refl) as (Hd & He & Hdot).
      split; [exact Hd|]. split; [exact Hdot | exact He]. }
  destruct HtailE as (HtailD & HtailDot & HtailE).
  (* the integer digits *)
  rewrite <- app_assoc in E.
  destruct (scan_run input isDecDigit i ds _ eq_refl E Hds) as (S1 & _ & E1).
  { rewrite <- app_assoc. subst textF. destruct F as [f|];
      [reflexivity | exact HtailD]. }
  rewrite !S1. set (i1 := i + length ds) in *.
  rewrite <- app_assoc in E1.
  (* the fraction *)
  assert (Hfrac : exists i2,
    i2 = i1 + length textF /\ skipn i2 input = textE ++ rest
    /\ (if code_is 46 (charCodeAt input i1)
        then {| index := scanAll input isDecDigit (i1 + 1); line := line s;
                lineStart := lineStart s; tokenStart := tokenStart s |}
        else {| index := i1; line := line s; lineStart := lineStart s;
                tokenStart := tokenStart s |})
       = {| index := i2; line := line s; lineStart := lineStart s;
            tokenStart := tokenStart s |}).
  { rewrite (suffix_hd _ _ _ E1). subst textF.
    destruct F as [f|]; cbn [app hd_error length] in *.
    - change (code_is 46 (Some 46%Z)) with true. cbn iota.
      assert (E2 := suffix_cons input i1 _ _ E1).
      destruct (scan_run input isDecDigit (i1 + 1) f _ eq_refl E2 HF HtailD)
        as (S2 & _ & E3).
      exists (i1 + 1 + length f). rewrite S2.
      split; [lia|]. split; [assumption | reflexivity].
    - exists i1. split; [lia|]. split; [assumption|].
      now rewrite (HtailDot eq_refl). }
  destruct Hfrac as (i2 & Hi2 & E3 & ->).
  cursor_simpl. rewrite (suffix_hd _ _ _ E3), HtailE.
  assert (Hlen : i + length (ds ++ textF ++ textE) = i2 + length textE).
  { rewrite !length_app. lia. }
  rewrite Hlen. clear Hlen.
  subst textE. destruct Ex as [[[e sg] x]|]; cbn [app hd_error length] in *.
  - (* an exponent *)
    apply andb_prop in HEx as (HEx & Hx).
    apply andb_prop in HEx as (He & Hsg).
    assert (E4 := suffix_cons input i2 _ _ E3).
    apply andb_prop in Hend as (Hstop & Hsign).
    apply negb_true_iff in Hstop.
    cursor_simpl.
    destruct sg as [g|]; cbn [app length] in *.
    + destruct (sign_mark g Hsg) as (Hg1 & _).
      rewrite (suffix_hd _ _ _ E4). cbn [hd_error]. rewrite Hg1.
      cursor_simpl.
      assert (E5 := suffix_cons input (i2 + 1) _ _ E4).
      rewrite (suffix_hd _ _ _ E5).
      destruct x as [|c x].
      * cbn [app] in *. rewrite Hstop. cbn [negb length].
        replace (i2 + 1 + 1 + 1) with (i2 + 2 + 1) by lia. reflexivity.
      * rewrite hd_error_app_nonEmpty, (isDecChar_hd (c :: x))
          by (assumption || reflexivity).
        cbn [negb].
        destruct (scan_run input isDecDigit (i2 + 1 + 1) (c :: x) rest eq_refl
                    E5 Hx Hstop) as (S3 & _ & _).
        rewrite !S3. rewrite ?length_app. cbn [length].
        replace (i2 + 1 + 1 + S (length x)) with (i2 + S (S (S (length x))))
          by lia.
        reflexivity.
    + destruct x as [|c x].
      * cbn [app orb nonEmpty] in *. apply negb_true_iff in Hsign.
        rewrite (suffix_hd _ _ _ E4), Hsign. cursor_simpl.
        rewrite (suffix_hd _ _ _ E4), Hstop. cbn [negb length].
        reflexivity.
      * rewrite (suffix_hd _ _ _ E4), hd_error_app_nonEmpty by reflexivity.
        rewrite (digit_not_sign _ (isDecChar_hd (c :: x) eq_refl Hx)).
        cursor_simpl.
        rewrite (suffix_hd _ _ _ E4), hd_error_app_nonEmpty,
          (isDecChar_hd (c :: x)) by (assumption || reflexivity).
        cbn [negb].
        destruct (scan_run input isDecDigit (i2 + 1) (c :: x) rest eq_refl E4 Hx
                    Hstop) as (S3 & _ & _).
        rewrite !S3. cbn [length].
        replace (i2 + 1 + S (length x)) with (i2 + S (S (length x))) by lia.
        reflexivity.
  - (* no exponent *)
    rewrite Nat.add_0_r. reflexivity.
Qed.

Lemma digit_starts_no_word (c : Z) :
  isDecChar c = true ->
  isIdentifierStart options (Some c) = false
  /\ code_is 39 (Some c) || code_is 34 (Some c) = false
  /\ code_between 48 57 (Some c) = true.
Proof.
  intros Hc. pose proof Hc as Hc'.
  unfold isDecChar, isDecDigit, code_between in Hc'.
  apply andb_prop in Hc' as (H1 & H2). apply Z.leb_le in H1, H2.
  split; [apply isIdentifierStart_low; lia|].
  split; [|exact Hc].
  unfold code_is. destruct (Z.eqb_spec c 39); [lia|].
  destruct (Z.eqb_spec c 34); [lia | reflexivity].
Qed.

Lemma lex_dispatch_dec (s : Cursor) (d : DecLiteral) (rest : jsstring) :
  decShaped d = true ->
  decScanEnds d (hd_error rest) = true ->
  skipn (index s) input = decLiteralText d ++ rest ->
  lex_dispatch (num := num) input options s
    = match readDecLiteral input (set_tokenStart s (index s)) with
      | Return v s' =>
        Return (mkToken NumericLiteral (VNumber v) (line s') (lineStart s')
                  (tokenStart s', index s')) s'
      | Throw e => Throw e
      end.
Proof.
  intros Hwf Hend E.
  destruct d as [ds F Ex]. unfold decShaped in Hwf.
  cbn [decDigits decFraction decExponent] in *.
  apply andb_prop in Hwf as (Hwf & HEx).
  apply andb_prop in Hwf as (Hwf & Hstart).
  apply andb_prop in Hwf as (Hds & HF).
  unfold decLiteralText in E. cbn [decDigits decFraction decExponent] in E.
  unfold decScanEnds, endsDecLiteral in Hend.
  cbn [decDigits decFraction decExponent] in Hend.
  rewrite <- app_assoc in E.
  pose proof (suffix_hd input _ _ E) as Hc.
  unfold lex_dispatch, scanNumericLiteral.
  cbn [set_tokenStart index].
  destruct ds as [|c ds].
  - (* a dot and a digit *)
    cbn [nonEmpty orb] in Hstart.
    destruct F as [[|c f]|]; try discriminate Hstart.
    cbn [app hd_error] in Hc, E.
    pose proof (suffix_hd input _ _ (suffix_cons input _ _ _ E)) as Hn.
    cbn [app hd_error] in Hn.
    cbn [forallb] in HF. apply andb_prop in HF as (Hcd & _).
    rewrite Hc, Hn. rewrite isIdentifierStart_low by lia.
    change (code_is 39 (Some 46%Z) || code_is 34 (Some 46%Z)) with false.
    change (code_between 48 57 (Some 46%Z)) with false.
    change (code_is 46 (Some 46%Z)) with true.
    change (isDecDigit (Some c)) with (isDecChar c). rewrite Hcd.
    change (code_is 48 (Some 46%Z)) with false. reflexivity.
  - cbn [app hd_error] in Hc, E.
    pose proof (suffix_hd input _ _ (suffix_cons input _ _ _ E)) as Hn.
    cbn [forallb] in Hds. apply andb_prop in Hds as (Hcd & Hds).
    destruct (digit_starts_no_word c Hcd) as (Hid & Hq & Hdig).
    rewrite Hc, Hid, Hq, Hdig.
    assert (Hnothex : code_is 48 (Some c)
                      && code_among [120; 88]%Z (charCodeAt input (index s + 1))
                      = false).
    { rewrite Hn.
      destruct ds as [|c2 ds].
      - cbn [app].
        destruct F as [f|]; [cbn [app hd_error]; now rewrite andb_false_r|].
        destruct Ex as [[[e sg] x]|].
        + cbn [app hd_error]. apply andb_prop in HEx as (HEx & _).
          apply andb_prop in HEx as (He & _).
          apply orb_prop in He as [He | He]; apply Z.eqb_eq in He; subst e;
            now rewrite andb_false_r.
        + cbn [app]. apply andb_prop in Hend as (_ & Hend).
          apply andb_prop in Hend as (_ & Hend).
          apply andb_prop in Hend as (_ & Hend).
          apply negb_true_iff in Hend.
          destruct (Z.eqb_spec c 48) as [-> | Hne].
          * exact Hend.
          * unfold code_is. destruct (Z.eqb_spec c 48); [contradiction|].
            reflexivity.
      - cbn [app hd_error forallb] in *.
        apply andb_prop in Hds as (Hc2 & _).
        rewrite (digit_not_x c2 Hc2). now rewrite andb_false_r. }
    rewrite Hnothex. reflexivity.
Qed.

End Dec.

(** X19. A decimal numeral (digits, an optional [.] with digits, an
    optional [e] or [E] with an optional sign and digits, beginning with a
    digit or with a dot and a digit) is read up to its last character and
    its NumericLiteral token has the value [parseFloat] gives to exactly
    that text.  An exponent mark that no digit follows raises
    [malformedNumber], with a range from the first character of the
    numeral to one character past the place where the digit is missing. *)
Theorem decimal_literal_decoding :
  forall num (N : JsNumber num) (input : jsstring) (options : Options)
         (s : Cursor) (d : DecLiteral) (rest : jsstring),
    decShaped d = true ->
    skipn (index s) input = decLiteralText d ++ rest ->
    (wellFormedDec d = true ->
     endsDecLiteral d (hd_error rest) = true ->
     lex_dispatch (num := num) input options s
       = Return (numericToken s (parseFloat (decLiteralText d))
                   (length (decLiteralText d)))
           (afterToken s (length (decLiteralText d))))
    /\ (missesDecExponentDigit d (hd_error rest) = true ->
        lex_dispatch (num := num) input options s
          = Throw (tokenError malformedNumber (line s) (lineStart s)
                     (index s, index s + length (decLiteralText d) + 1) None)).
Proof.
  intros num N input options s d rest Hshape E. split.
  - intros Hwf Hend.
    assert (Hscan : decScanEnds d (hd_error rest) = true).
    { unfold decScanEnds, wellFormedDec, endsDecLiteral in *.
      apply andb_prop in Hwf as (_ & Hne).
      destruct (decExponent d) as [[[e sg] x]|]; [|exact Hend].
      apply andb_prop in Hend as (-> & _). now rewrite Hne. }
    rewrite (lex_dispatch_dec input options s d rest Hshape Hscan E).
    rewrite (readDecLiteral_scan input (set_tokenStart s (index s)) d rest
               Hshape Hscan E).
    cbn [set_tokenStart index line lineStart tokenStart].
    rewrite (suffix_slice input _ _ _ E).
    unfold wellFormedDec in Hwf. apply andb_prop in Hwf as (_ & Hne).
    destruct (decExponent d) as [[[e sg] [|c x]]|]; try discriminate Hne;
      reflexivity.
  - intros Hmiss.
    assert (Hscan : decScanEnds d (hd_error rest) = true).
    { unfold decScanEnds, missesDecExponentDigit in *.
      destruct (decExponent d) as [[[e sg] [|c x]]|]; try discriminate Hmiss.
      exact Hmiss. }
    rewrite (lex_dispatch_dec input options s d rest Hshape Hscan E).
    rewrite (readDecLiteral_scan input (set_tokenStart s (index s)) d rest
               Hshape Hscan E).
    unfold missesDecExponentDigit in Hmiss.
    destruct (decExponent d) as [[[e sg] [|c x]]|]; try discriminate Hmiss.
    reflexivity.
Qed.

Lemma decimal_literal_decoding_witness :
  lex_dispatch (num := ExactNumber) (js "x=.5e-1;") defaultOptions
      {| index := 2; line := 1; lineStart := 0; tokenStart := 1 |}
    = Return (numericToken {| index := 2; line := 1; lineStart := 0; tokenStart := 1 |}
                (Finite (1 # 20)) 5)
        {| index := 7; line := 1; lineStart := 0; tokenStart := 2 |}
  /\ lex_dispatch (num := ExactNumber) (js "3e") defaultOptions start
     = Throw (tokenError malformedNumber 1 0 (0, 3) None).
Proof.
  split.
  - destruct (decimal_literal_decoding ExactNumber _ (js "x=.5e-1;")
                defaultOptions
                {| index := 2; line := 1; lineStart := 0; tokenStart := 1 |}
                {| decDigits := []; decFraction := Some (js "5");
                   decExponent := Some (101%Z, Some 45%Z, js "1") |}
                (js ";") eq_refl eq_refl) as (Hvalue & _).
    exact (Hvalue eq_refl eq_refl).
  - destruct (decimal_literal_decoding ExactNumber _ (js "3e") defaultOptions
                start
                {| decDigits := js "3"; decFraction := None;
                   decExponent := Some (101%Z, None, []) |}
                [] eq_refl eq_refl) as (_ & Hmissing).
    exact (Hmissing eq_refl).
Defined.

Section Delimiters.

Context {num : Type} `{JsNumber num}.
Variable input : jsstring.
Variable options : Options.

Lemma equals_run (i : nat) (eqs rest : jsstring) :
  skipn i input = eqs ++ rest ->
  forallb (Z.eqb 61) eqs = true ->
  code_is 61 (hd_error rest) = false ->
  scanAll input (code_is 61) i = i + length eqs.
Proof.
  intros E Heq Hstop.
  apply (suffix_scan input (code_is 61) i eqs rest); try assumption;
    [reflexivity|].
  rewrite forallb_forall in *. intros c Hin. specialize (Heq c Hin).
  apply Z.eqb_eq in Heq. subst c. reflexivity.
Qed.

Lemma invalid_delimiter_raises (s : Cursor) (eqs rest : jsstring) :
  skipn (index s) input = 91%Z :: eqs ++ rest ->
  nonEmpty eqs = true ->
  forallb (Z.eqb 61) eqs = true ->
  code_is 61 (hd_error rest) = false ->
  code_is 91 (hd_error rest) = false ->
  lex_dispatch (num := num) input options s
    = Throw (tokenError invalidDelimiter (line s) (lineStart s)
               (index s + 1 + length eqs, index s + 1 + length eqs + 1) None).
Proof.
  intros E Hne Heq Hstop Hopen.
  pose proof (suffix_hd input _ _ E) as Hc. cbn [hd_error] in Hc.
  pose proof (suffix_cons input _ _ _ E) as E1.
  pose proof (suffix_hd input _ _ E1) as Hn.
  rewrite hd_error_app_nonEmpty in Hn by assumption.
  assert (Hfirst : hd_error eqs = Some 61%Z).
  { destruct eqs as [|c eqs']; [discriminate|]. cbn [forallb] in Heq.
    apply andb_prop in Heq as (Hc1 & _). apply Z.eqb_eq in Hc1. now subst c. }
  rewrite Hfirst in Hn.
  unfold lex_dispatch. rewrite Hc, Hn.
  rewrite isIdentifierStart_low by lia.
  cbn [code_is code_between Z.eqb Z.leb Z.compare Pos.compare Pos.compare_cont
       Pos.eqb andb orb].
  unfold scanLongStringLiteral, readLongString.
  cbn [set_tokenStart set_index index line lineStart tokenStart].
  rewrite (equals_run (index s + 1) eqs rest E1 Heq Hstop).
  replace (index s + 1 + (index s + 1 + length eqs - (index s + 1)))
    with (index s + 1 + length eqs) by lia.
  rewrite (suffix_hd input _ _ (suffix_app input _ _ _ E1)), Hopen.
  cbn [negb]. cursor_simpl.
  rewrite (equals_run (index s + 1) eqs rest E1 Heq Hstop).
  reflexivity.
Qed.

End Delimiters.

(** X20. An opening bracket that equals signs follow, but no second
    bracket after them, is no long string: [invalidDelimiter] is raised at
    the first character that is no equals sign. *)
Theorem invalid_long_string_delimiter :
  forall num (N : JsNumber num) (input : jsstring) (options : Options)
         (s : Cursor) (eqs rest : jsstring),
    skipn (index s) input = 91%Z :: eqs ++ rest ->
    nonEmpty eqs = true ->
    forallb (Z.eqb 61) eqs = true ->
    code_is 61 (hd_error rest) = false ->
    code_is 91 (hd_error rest) = false ->
    lex_dispatch (num := num) input options s
      = Throw (tokenError invalidDelimiter (line s) (lineStart s)
                 (index s + 1 + length eqs, index s + 1 + length eqs + 1) None).
Proof. intros num N. apply invalid_delimiter_raises. Qed.

Lemma invalid_long_string_delimiter_witness :
  lex_dispatch (num := ExactNumber) (js "[==x]==]") defaultOptions start
    = Throw (tokenError invalidDelimiter 1 0 (3, 4) None).
Proof.
  apply (invalid_long_string_delimiter ExactNumber _ (js "[==x]==]")
           defaultOptions start (js "==") (js "x]==]")); reflexivity.
Defined.

Section LineComments.

Variable input : jsstring.

Lemma afterEquals_split (t : jsstring) :
  exists eqs t', t = eqs ++ t' /\ forallb (Z.eqb 61) eqs = true
                 /\ afterEquals t = hd_error t'
                 /\ code_is 61 (hd_error t') = false.
Proof.
  induction t as [|c t IH].
  - exists [], []. repeat split.
  - cbn [afterEquals]. destruct (Z.eqb_spec c 61) as [-> | Hne].
    + destruct IH as (eqs & t' & -> & Heq & Hafter & Hstop).
      exists (61%Z :: eqs), t'. repeat split; assumption.
    + exists [], (c :: t). repeat split. cbn.
      destruct (Z.eqb_spec c 61); [contradiction | reflexivity].
Qed.

Lemma line_end_is_no_bracket (rest : jsstring) :
  rest = [] \/ isLineTerminator (hd_error rest) = true ->
  code_is 61 (hd_error rest) = false /\ code_is 91 (hd_error rest) = false.
Proof.
  intros [-> | Hb]; [split; reflexivity|].
  destruct (hd_error rest) as [c|]; [|discriminate]. unfold code_is.
  destruct (Z.eqb_spec c 61) as [-> | _]; [discriminate|].
  destruct (Z.eqb_spec c 91) as [-> | _]; [discriminate|]. split; reflexivity.
Qed.

Lemma line_comment_scan (i : nat) (text rest : jsstring) :
  skipn i input = text ++ rest ->
  forallb (fun c => negb (isLineTerminator (Some c))) text = true ->
  rest = [] \/ isLineTerminator (hd_error rest) = true ->
  scanAll input
    (fun c => negb (isLineTerminator c)
              && match c with Some _ => true | None => false end) i
  = i + length text.
Proof.
  intros E Htext Hrest.
  apply (suffix_scan input _ i text rest); try assumption; [reflexivity | |].
  - rewrite forallb_forall in *. intros c Hin. rewrite (Htext c Hin). reflexivity.
  - destruct Hrest as [-> | Hb]; [reflexivity|]. now rewrite Hb.
Qed.

Lemma line_comment_pushed (s : Cursor) (l : list Comment) (text rest : jsstring) :
  skipn (index s) input = js "--" ++ text ++ rest ->
  forallb (fun c => negb (isLineTerminator (Some c))) text = true ->
  rest = [] \/ isLineTerminator (hd_error rest) = true ->
  opensLongBracket text = false ->
  scanComment input s (Some l)
    = (Return tt {| index := index s + 2 + length text; line := line s;
                    lineStart := lineStart s; tokenStart := index s |},
       Some (l ++ [lineComment s text])).
Proof.
  intros E Htext Hrest Hopen.
  change (js "--" ++ text ++ rest) with (45%Z :: 45%Z :: text ++ rest) in E.
  pose proof (suffix_cons input _ _ _ (suffix_cons input _ _ _ E)) as E2.
  replace (index s + 1 + 1) with (index s + 2) in E2 by lia.
  pose proof (suffix_slice input _ _ _ E2) as Hslice.
  assert (Hraw : slice input (index s) (index s + 2 + length text)
                 = js "--" ++ text).
  { replace (index s + 2 + length text)
      with (index s + length (js "--" ++ text)) by (rewrite length_app; cbn; lia).
    apply (suffix_slice input (index s) (js "--" ++ text) rest).
    now rewrite <- app_assoc. }
  unfold scanComment. cursor_simpl.
  assert (Hlong :
    (if code_is 91 (charCodeAt input (index s + 2))
     then match readLongString input true
                  {| index := index s + 2; line := line s;
                     lineStart := lineStart s; tokenStart := index s |} with
          | Return (Some content) s0 => Return (content, true) s0
          | Return None s0 => Return (charAt input (index s + 2), false) s0
          | Throw e => Throw e
          end
     else Return ([], false)
            {| index := index s + 2; line := line s;
               lineStart := lineStart s; tokenStart := index s |})
    = Return (if code_is 91 (charCodeAt input (index s + 2))
              then charAt input (index s + 2) else [], false)
        {| index := (if code_is 91 (charCodeAt input (index s + 2))
                     then index s + 2 + 1 else index s + 2);
           line := line s; lineStart := lineStart s; tokenStart := index s |}).
  { destruct (code_is 91 (charCodeAt input (index s + 2))) eqn:Hb;
      [|reflexivity].
    rewrite (suffix_hd input _ _ E2) in Hb.
    destruct text as [|c t]; cbn [app hd_error] in Hb.
    - destruct (line_end_is_no_bracket rest Hrest) as (_ & Hn). congruence.
    - apply code_is_Some in Hb. injection Hb as ->.
      cbn [opensLongBracket] in Hopen. rewrite Z.eqb_refl in Hopen.
      cbn [andb] in Hopen.
      destruct (afterEquals_split t) as (eqs & t' & -> & Heq & Hafter & Hstop).
      rewrite Hafter in Hopen.
      cbn [app] in E2. pose proof (suffix_cons input _ _ _ E2) as E3.
      rewrite <- app_assoc in E3.
      assert (Hnext : code_is 61 (hd_error (t' ++ rest)) = false
                      /\ code_is 91 (hd_error (t' ++ rest)) = false).
      { destruct t' as [|c t'].
        - cbn [app]. now apply line_end_is_no_bracket.
        - cbn [app hd_error] in *. now split. }
      destruct Hnext as (Hn61 & Hn91).
      unfold readLongString.
      cbn [set_index index line lineStart tokenStart].
      pose proof (suffix_scan input (code_is 61) (index s + 2 + 1) eqs
                    (t' ++ rest) eq_refl E3) as Hscan.
      rewrite Hscan; [|
        rewrite forallb_forall in *; intros c Hin; specialize (Heq c Hin);
        apply Z.eqb_eq in Heq; subst c; reflexivity | assumption].
      replace (index s + 2 + 1 + (index s + 2 + 1 + length eqs - (index s + 2 + 1)))
        with (index s + 2 + 1 + length eqs) by lia.
      rewrite (suffix_hd input _ _ (suffix_app input _ _ _ E3)), Hn91.
      reflexivity. }
  rewrite Hlong. cbn [negb index set_index line lineStart tokenStart].
  assert (Hend : scanAll input
      (fun c => negb (isLineTerminator c)
                && match c with Some _ => true | None => false end)
      (if code_is 91 (charCodeAt input (index s + 2))
       then index s + 2 + 1 else index s + 2)
    = index s + 2 + length text).
  { destruct (code_is 91 (charCodeAt input (index s + 2))) eqn:Hb.
    - rewrite (suffix_hd input _ _ E2) in Hb.
      destruct text as [|c t]; cbn [app hd_error] in Hb.
      + destruct (line_end_is_no_bracket rest Hrest) as (_ & Hn). congruence.
      + cbn [app] in E2. pose proof (suffix_cons input _ _ _ E2) as E3.
        cbn [forallb] in Htext. apply andb_prop in Htext as (_ & Htext).
        rewrite (line_comment_scan _ t rest E3 Htext Hrest). cbn [length]. lia.
    - now apply (line_comment_scan _ text rest). }
  rewrite Hend. cbn [index line lineStart tokenStart].
  rewrite Hslice, Hraw. reflexivity.
Qed.

End LineComments.

(** X21. A line comment runs from its two hyphens to the end of the line
    (or of the input): with a comments array, [scanComment] appends one
    comment whose value is the text after the hyphens and whose raw text,
    range and location are those of the whole comment, and it leaves the
    cursor on the line terminator.  A text that begins with [[] without
    opening a long bracket is a line comment like any other. *)
Theorem line_comment_is_collected :
  forall (input : jsstring) (s : Cursor) (l : list Comment)
         (text rest : jsstring),
    skipn (index s) input = js "--" ++ text ++ rest ->
    forallb (fun c => negb (isLineTerminator (Some c))) text = true ->
    rest = [] \/ isLineTerminator (hd_error rest) = true ->
    opensLongBracket text = false ->
    lineStart s <= index s ->
    scanComment input s (Some l)
      = (Return tt {| index := index s + 2 + length text; line := line s;
                      lineStart := lineStart s; tokenStart := index s |},
         Some (l ++ [lineComment s text])).
Proof.
  intros input s l text rest E Htext Hrest Hopen _.
  now apply (line_comment_pushed input s l text rest).
Qed.

Lemma line_comment_is_collected_witness :
  scanComment (js "x --[=a] b" ++ 10%Z :: js "y")
      {| index := 2; line := 1; lineStart := 0; tokenStart := 0 |} (Some [])
    = (Return tt {| index := 10; line := 1; lineStart := 0; tokenStart := 2 |},
       Some [{| comment_value := js "[=a] b";
                comment_raw := js "--[=a] b";
                comment_start := {| pos_line := 1; pos_column := 2 |};
                comment_end := {| pos_line := 1; pos_column := 10 |};
                comment_range := (2, 10) |}]).
Proof.
  apply (line_comment_is_collected (js "x --[=a] b" ++ 10%Z :: js "y")
           {| index := 2; line := 1; lineStart := 0; tokenStart := 0 |} []
           (js "[=a] b") (10%Z :: js "y")); try reflexivity.
  - now right.
  - cbn. lia.
Defined.

Section Collected.

Context {num : Type} `{JsNumber num}.
Variable input : jsstring.
Variable options : Options.

Lemma StronglySorted_app {A} (R : A -> A -> Prop) (a b : list A) :
  StronglySorted R a -> StronglySorted R b ->
  (forall x y, In x a -> In y b -> R x y) ->
  StronglySorted R (a ++ b).
Proof.
  induction a as [|x a IH]; intros Ha Hb Hab; [exact Hb|].
  inversion Ha as [|? ? Hsa Hxa]; subst. cbn [app]. constructor.
  - apply IH; [assumption | assumption|].
    intros u v Hu Hv. apply Hab; [now right | assumption].
  - apply Forall_app. split; [assumption|].
    apply Forall_forall. intros y Hy. apply Hab; [now left | assumption].
Qed.

Lemma pushedFrom_nil (i j : nat) : pushedFrom input i [] j.
Proof. repeat split; constructor. Qed.

Lemma pushedFrom_app (i j j' k : nat) (a b : list Comment) :
  pushedFrom input i a j -> pushedFrom input j' b k ->
  i <= j -> j <= j' -> j' <= k ->
  pushedFrom input i (a ++ b) k.
Proof.
  intros (Pa & Sa & Ba) (Pb & Sb & Bb) Hij Hjj Hjk.
  rewrite Forall_forall in Ba, Bb.
  split; [apply Forall_app; now split|]. split.
  - apply StronglySorted_app; try assumption.
    intros x y Hx Hy. unfold commentBefore.
    destruct (Ba x Hx) as (_ & Hxj). destruct (Bb y Hy) as (Hyj & _). lia.
  - apply Forall_forall. intros c Hin. apply in_app_or in Hin as [Hin | Hin].
    + destruct (Ba c Hin). lia.
    + destruct (Bb c Hin). lia.
Qed.

Lemma pushedFrom_weaken (i i' j j' : nat) (new : list Comment) :
  pushedFrom input i new j -> i' <= i -> j <= j' ->
  pushedFrom input i' new j'.
Proof.
  intros (P & S & B) Hi Hj. split; [assumption|]. split; [assumption|].
  eapply Forall_impl; [|exact B]. cbn beta. intros c (Hc1 & Hc2). lia.
Qed.

Lemma pushedFrom_inside (i j : nat) (new : list Comment) :
  pushedFrom input i new j -> pushedFrom input i new (length input).
Proof.
  intros (P & S & B). split; [assumption|]. split; [assumption|].
  rewrite Forall_forall in *. intros c Hin.
  destruct (B c Hin) as (Hc & _). destruct (P c Hin) as ((_ & Hlen) & _).
  split; assumption.
Qed.

Lemma slice_hyphens (i j : nat) :
  code_is 45 (charCodeAt input i) = true ->
  code_is 45 (charCodeAt input (i + 1)) = true ->
  i + 2 <= j ->
  firstn 2 (slice input i j) = js "--".
Proof.
  intros H1 H2 Hj. unfold slice. rewrite firstn_firstn.
  replace (Nat.min 2 (j - i)) with 2 by lia.
  apply code_is_Some in H1, H2.
  pose proof (slice_two input i _ _ H1 H2) as Hs. unfold slice in Hs.
  replace (i + 2 - i) with 2 in Hs by lia. exact Hs.
Qed.

Lemma scanComment_pushes (s : Cursor) (l : list Comment) :
  code_is 45 (charCodeAt input (index s)) = true ->
  code_is 45 (charCodeAt input (index s + 1)) = true ->
  match scanComment input s (Some l) with
  | (Return _ s', cs') =>
    exists c, cs' = Some (l ++ [c]) /\ pushedFrom input (index s) [c] (index s')
              /\ index s' <= length input
  | (Throw _, cs') => cs' = Some l
  end.
Proof.
  intros H1 H2.
  pose proof (code_is_lt input _ _ H2) as Hlen.
  unfold scanComment.
  set (s0 := set_tokenStart s (index s)).
  set (s1 := set_index s0 (index s0 + 2)).
  assert (Hlong : forall c sl,
    (if code_is 91 (charCodeAt input (index s1))
     then match readLongString input true s1 with
          | Return (Some content) s0 => Return (content, true) s0
          | Return None s0 => Return (charAt input (index s1), false) s0
          | Throw e => Throw e
          end
     else Return ([], false) s1)
    = Return c sl ->
    tokenStart sl = index s /\ index s + 2 <= index sl
    /\ index sl <= length input).
  { intros c sl. destruct (code_is 91 (charCodeAt input (index s1))) eqn:Hb.
    - destruct (readLongString input true s1) as [[str|] s2|e] eqn:E;
        try discriminate;
        pose proof (readLongString_gt input _ _ _ _ E) as Hgt;
        pose proof E as E';
        (apply readLongString_moves in E;
          [|revert Hb; apply code_is_no_break; lia]);
        destruct E as ((_ & Hts) & Hin);
        intros R; apply Return_inj in R as (<- & <-);
        (split; [exact Hts|]); (split; [cbn [s1 s0 set_index set_tokenStart index] in Hgt; lia|]).
      + apply Hin. discriminate.
      + pose proof (code_is_lt input _ _ Hb) as Hb'.
        unfold readLongString in E'.
        destruct (negb (code_is 91 _)); [|
          apply readLongString_loop_moves in E' as (_ & _ & Hr);
          now contradiction Hr].
        apply Return_inj in E' as (_ & <-).
        cbn [s1 s0 set_index set_tokenStart index] in *. lia.
    - intros R. apply Return_inj in R as (<- & <-).
      split; [reflexivity|]. cbn [s1 s0 set_index set_tokenStart index]. lia. }
  destruct (if code_is 91 (charCodeAt input (index s1)) then _ else _)
    as [[content isLong] s2|e] eqn:E; [|reflexivity].
  destruct (Hlong _ _ eq_refl) as (Hts & Hge & Hle).
  destruct isLong; cbn [negb].
  - eexists. split; [reflexivity|]. split; [|exact Hle].
    split; [|split; [repeat constructor|]].
    + constructor; [|constructor]. unfold commentPlaced.
      cbn [comment_range comment_raw comment_start comment_end pos_line fst snd].
      rewrite Hts. split; [lia|]. split; [reflexivity|].
      split; [now apply slice_hyphens | reflexivity].
    + constructor; [|constructor]. cbn [comment_range fst snd]. rewrite Hts. lia.
  - set (j := scanAll input _ (index s2)).
    assert (Hj : index s2 <= j <= length input).
    { split; [apply scanAll_ge|]. apply scanAll_le; [reflexivity | lia]. }
    eexists. split; [reflexivity|]. split; [|cbn [index set_index]; lia].
    split; [|split; [repeat constructor|]].
    + constructor; [|constructor]. unfold commentPlaced.
      cbn [comment_range comment_raw comment_start comment_end pos_line fst snd
           set_index index tokenStart line].
      rewrite Hts. split; [lia|]. split; [reflexivity|].
      split; [apply slice_hyphens; (assumption || lia) | reflexivity].
    + constructor; [|constructor].
      cbn [comment_range fst snd set_index index tokenStart]. rewrite Hts. lia.
Qed.

Lemma consumeEOL_le (s : Cursor) :
  isLineTerminator (charCodeAt input (index s)) = true ->
  index (snd (consumeEOL input s)) <= length input.
Proof.
  intros Hb. rewrite (consumeEOL_index input s Hb).
  destruct (bodyStart_skips input (index s)) as (_ & Hall & Hgt).
  specialize (Hgt Hb).
  specialize (Hall (bodyStart input (index s) - 1) ltac:(lia)).
  apply isLineTerminator_lt in Hall. lia.
Qed.

Lemma skipWhiteSpace_loop_le (fuel : nat) (s : Cursor) :
  index s <= length input ->
  index (skipWhiteSpace_loop input fuel s) <= length input.
Proof.
  revert s. induction fuel as [|fuel IH]; intros s Hs; cbn [skipWhiteSpace_loop];
    [exact Hs|].
  destruct (Nat.ltb_spec (index s) (length input)); [|exact Hs].
  destruct (isWhiteSpace (charCodeAt input (index s))).
  - apply IH. cbn [index set_index]. lia.
  - destruct (isLineTerminator (charCodeAt input (index s))) eqn:Hb.
    + pose proof (consumeEOL_le s Hb) as Hle.
      pose proof (consumeEOL_true input s Hb) as Ht.
      destruct (consumeEOL input s) as [eol s1]. cbn [fst snd] in *. subst eol.
      now apply IH.
    + rewrite (consumeEOL_false input s Hb). exact Hs.
Qed.

Lemma skipComments_pushes (fuel : nat) (s : Cursor) (l : list Comment) :
  index s <= length input ->
  exists new,
    snd (skipComments input fuel s (Some l)) = Some (l ++ new)
    /\ pushedFrom input (index s) new
         match fst (skipComments input fuel s (Some l)) with
         | Return _ s' => index s'
         | Throw _ => length input
         end
    /\ match fst (skipComments input fuel s (Some l)) with
       | Return _ s' => index s <= index s' <= length input
       | Throw _ => True
       end.
Proof.
  revert s l. induction fuel as [|fuel IH]; intros s l Hs; cbn [skipComments].
  - exists []. rewrite app_nil_r. cbn [fst snd].
    split; [reflexivity|]. split; [apply pushedFrom_nil | lia].
  - destruct (code_is 45 (charCodeAt input (index s))
              && code_is 45 (charCodeAt input (index s + 1))) eqn:Hc.
    + apply andb_prop in Hc as (H1 & H2).
      pose proof (scanComment_pushes s l H1 H2) as Hpush.
      destruct (scanComment input s (Some l)) as [[[] s1|e] cs1] eqn:E.
      * destruct Hpush as (c & -> & Hc & Hs1).
        pose proof (scanComment_gt input _ _ _ _ E) as Hgt.
        pose proof (skipWhiteSpace_ge input s1) as Hws.
        pose proof (skipWhiteSpace_loop_le (length input - index s1) s1 Hs1) as Hwl.
        fold (skipWhiteSpace input s1) in Hwl.
        destruct (IH (skipWhiteSpace input s1) (l ++ [c]) Hwl)
          as (new & Hcs & Hnew & Hend).
        exists (c :: new). rewrite Hcs, <- app_assoc. split; [reflexivity|].
        change (c :: new) with ([c] ++ new).
        destruct (fst (skipComments input fuel (skipWhiteSpace input s1)
                         (Some (l ++ [c])))) as [[] s2|e2].
        -- split; [|lia].
           apply (pushedFrom_app (index s) (index s1)
                    (index (skipWhiteSpace input s1)) (index s2));
             try assumption; lia.
        -- split; [|exact I].
           apply (pushedFrom_app (index s) (index s1)
                    (index (skipWhiteSpace input s1)) (length input));
             try assumption; lia.
      * subst cs1. exists []. rewrite app_nil_r. cbn [fst snd].
        split; [reflexivity|]. split; [apply pushedFrom_nil | exact I].
    + exists []. rewrite app_nil_r. cbn [fst snd].
      split; [reflexivity|]. split; [apply pushedFrom_nil | lia].
Qed.

Lemma lex_pushes (s : Cursor) (l : list Comment) :
  index s <= length input ->
  exists new,
    commentsOf (lex (num := num) input options s (Some l)) = Some (l ++ new)
    /\ pushedFrom input (index s) new
         match lex (num := num) input options s (Some l) with
         | LexToken _ s' _ => index s'
         | _ => length input
         end
    /\ match lex (num := num) input options s (Some l) with
       | LexToken _ s' _ => index s <= index s' <= length input
       | _ => True
       end.
Proof.
  intros Hs. unfold lex.
  pose proof (skipWhiteSpace_ge input s) as Hws.
  pose proof (skipWhiteSpace_loop_le (length input - index s) s Hs) as Hwl.
  fold (skipWhiteSpace input s) in Hwl.
  destruct (skipComments_pushes (length input - index (skipWhiteSpace input s))
              (skipWhiteSpace input s) l Hwl) as (new & Hcs & Hnew & Hend).
  destruct (skipComments input _ (skipWhiteSpace input s) (Some l))
    as [[[] s0|e] cs0]; cbn [fst snd] in *; subst cs0.
  - exists new.
    destruct (Nat.leb_spec (length input) (index s0)).
    + cbn [commentsOf]. split; [reflexivity|].
      split; [|exact I].
      apply pushedFrom_inside in Hnew.
      apply (pushedFrom_weaken _ _ _ _ _ Hnew); lia.
    + destruct (lex_dispatch input options s0) as [t s1|e] eqn:D;
        cbn [commentsOf]; (split; [reflexivity|]).
      * apply lex_dispatch_placed in D as (_ & Hb & _).
        split; [|lia]. apply (pushedFrom_weaken _ _ _ _ _ Hnew); lia.
      * split; [|exact I]. apply pushedFrom_inside in Hnew.
        apply (pushedFrom_weaken _ _ _ _ _ Hnew); lia.
  - exists new. cbn [commentsOf]. split; [reflexivity|]. split; [|exact I].
    apply (pushedFrom_weaken _ _ _ _ _ Hnew); lia.
Qed.

Lemma pullAll_pushes (fuel : nat) (s : Cursor) (l : list Comment) (r : Run num) :
  index s <= length input ->
  pullAll input options fuel s (Some l) = Some r ->
  exists new, collected r = Some (l ++ new)
              /\ pushedFrom input (index s) new (length input).
Proof.
  revert s l r. induction fuel as [|fuel IH]; intros s l r Hs; cbn [pullAll];
    [discriminate|].
  destruct (lex_pushes s l Hs) as (new & Hcs & Hnew & Hend).
  destruct (lex input options s (Some l)) as [t s1 cs1 | s1 cs1 | e cs1];
    cbn [commentsOf] in Hcs; subst cs1.
  - destruct (pullAll input options fuel s1 (Some (l ++ new))) as [r1|] eqn:E1;
      [|discriminate].
    intros R. inversion R; subst; clear R. cbn [collected].
    destruct (IH s1 (l ++ new) r1 ltac:(lia) E1) as (new1 & Hcs1 & Hnew1).
    exists (new ++ new1). rewrite Hcs1, app_assoc. split; [reflexivity|].
    apply (pushedFrom_app (index s) (index s1) (index s1) (length input));
      try assumption; lia.
  - intros R. inversion R; subst. exists new. now split.
  - intros R. inversion R; subst. exists new. now split.
Qed.

Lemma skipShebang_le (fuel : nat) (s s' : Cursor) :
  index s <= length input ->
  skipShebang input fuel s = Some s' -> index s' <= length input.
Proof.
  revert s. induction fuel as [|fuel IH]; intros s Hs; cbn [skipShebang];
    [discriminate|].
  destruct (isLineTerminator (charCodeAt input (index s))) eqn:Hb.
  - pose proof (consumeEOL_le s Hb) as Hle.
    pose proof (consumeEOL_true input s Hb) as Ht.
    destruct (consumeEOL input s) as [eol s1]. cbn [fst snd] in *. subst eol.
    intros R. inversion R; subst. exact Hle.
  - rewrite (consumeEOL_false input s Hb).
    destruct (Nat.lt_ge_cases (index s) (length input)) as [Hlt | Hge].
    + apply IH. cbn [index set_index]. lia.
    + intros R. exfalso.
      assert (Hnone : skipShebang input fuel (set_index s (index s + 1)) = None).
      { apply skipShebang_None. intros i Hi. cbn [index set_index] in Hi.
        rewrite charCodeAt_None by lia. reflexivity. }
      congruence.
Qed.

End Collected.

(** X22. With a comments array, a call appends the comments of the input
    in the order of the input, one entry for each: the range of an entry
    lies in the input and begins with the two hyphens, its raw text is
    that range of the input, and the line of its start location is the
    line of its end location (also for a long comment that spans several
    lines, both being read once the comment has been scanned). *)
Theorem comments_are_collected_in_order :
  forall num (N : JsNumber num) (fuel : nat) (input : jsstring)
         (o : TokenizerOptions) (l : list Comment) (r : Run num),
    tokenize fuel input (withComments o (Some l)) = Some r ->
    exists new,
      collected r = Some (l ++ new)
      /\ Forall (commentPlaced input) new
      /\ StronglySorted commentBefore new.
Proof.
  intros num N fuel input o l r. unfold tokenize.
  change (comments (resolveOptions (withComments o (Some l)))) with (Some l).
  unfold run.
  assert (Hfrom : forall s, index s <= length input ->
    pullAll input (resolveOptions (withComments o (Some l))) fuel s (Some l)
      = Some r ->
    exists new, collected r = Some (l ++ new)
                /\ Forall (commentPlaced input) new
                /\ StronglySorted commentBefore new).
  { intros s Hs R.
    destruct (pullAll_pushes input _ fuel s l r Hs R) as (new & Hcs & P & S & _).
    exists new. repeat split; assumption. }
  destruct (ignoreShebang (resolveOptions (withComments o (Some l)))
            && jsstring_eqb (firstn 2 input) (js "#!")).
  - destruct (skipShebang input fuel start) as [s|] eqn:E; [|discriminate].
    apply Hfrom. apply (skipShebang_le input fuel start s); [cbn; lia | exact E].
  - apply Hfrom. cbn. lia.
Qed.

Lemma comments_are_collected_in_order_witness :
  exists r new,
    tokenize (num := ExactNumber) 20
      (js "--[[a" ++ 10%Z :: js "b]] x -- y") (withComments noOptions (Some []))
      = Some r
    /\ collected r = Some ([] ++ new)
    /\ map (fun c => (comment_range c, comment_value c,
                      pos_line (comment_start c), pos_line (comment_end c))) new
       = [((0, 9), js "a" ++ 10%Z :: js "b", 2, 2); ((12, 16), js " y", 2, 2)]
    /\ Forall (commentPlaced (js "--[[a" ++ 10%Z :: js "b]] x -- y")) new.
Proof.
  assert (Hrun : exists r,
    tokenize (num := ExactNumber) 20
      (js "--[[a" ++ 10%Z :: js "b]] x -- y") (withComments noOptions (Some []))
      = Some r
    /\ option_map
         (map (fun c => (comment_range c, comment_value c,
                         pos_line (comment_start c), pos_line (comment_end c))))
         (collected r)
       = Some [((0, 9), js "a" ++ 10%Z :: js "b", 2, 2);
               ((12, 16), js " y", 2, 2)]).
  { eexists. split; [vm_compute; reflexivity | reflexivity]. }
  destruct Hrun as (r & Hrun & Hmap).
  destruct (comments_are_collected_in_order ExactNumber _ 20 _ noOptions [] r Hrun)
    as (new & Hcs & Hplaced & _).
  exists r, new. split; [exact Hrun|]. split; [exact Hcs|].
  rewrite Hcs in Hmap. cbn [app option_map] in Hmap.
  injection Hmap as Hmap. split; [exact Hmap | exact Hplaced].
Defined.

(** ** String values are byte strings *)

Lemma digitValue_nonneg (c d : Z) : digitValue c = Some d -> (0 <= d)%Z.
Proof.
  unfold digitValue. zbool; cbn; intros E; try discriminate;
    apply Some_inj in E; lia.
Qed.

(** [parseInt] reads no sign: its answer is at least the number read so
    far, and [length s] digits add at most that many places. *)
Lemma parseInt_from_bound (radix : Z) (s : jsstring) :
  (1 < radix)%Z ->
  forall (acc : option Z) (v : Z),
    (forall a, acc = Some a -> (0 <= a)%Z) ->
    parseInt_from radix acc s = Some v ->
    (0 <= v < (1 + or_default acc 0) * radix ^ Z.of_nat (length s))%Z.
Proof.
  intros Hr. induction s as [|c s IH]; intros acc v Hacc E.
  - cbn [parseInt_from] in E. subst acc. cbn [or_default length].
    specialize (Hacc v eq_refl).
    change (Z.of_nat 0) with 0%Z. rewrite Z.pow_0_r. lia.
  - assert (Hstop : acc = Some v ->
      (0 <= v < (1 + or_default acc 0) * radix ^ Z.of_nat (length (c :: s)))%Z).
    { intros ->. specialize (Hacc v eq_refl). cbn [or_default].
      assert (0 < radix ^ Z.of_nat (length (c :: s)))%Z
        by (apply Z.pow_pos_nonneg; lia).
      nia. }
    cbn [parseInt_from] in E.
    destruct (digitValue c) as [d|] eqn:D; [|now apply Hstop].
    destruct (Z.ltb_spec d radix); [|now apply Hstop].
    apply digitValue_nonneg in D.
    assert (Ha : (0 <= or_default acc 0)%Z).
    { destruct acc as [a|]; cbn; [now apply Hacc | lia]. }
    apply IH in E.
    + cbn [or_default] in E.
      replace (match acc with Some a => a | None => 0%Z end)
        with (or_default acc 0%Z) in E by reflexivity.
      replace (Z.of_nat (length (c :: s))) with (1 + Z.of_nat (length s))%Z
        by (cbn [length]; lia).
      rewrite Z.pow_add_r, Z.pow_1_r by lia.
      assert (0 < radix ^ Z.of_nat (length s))%Z by (apply Z.pow_pos_nonneg; lia).
      nia.
    + intros a Ea. apply Some_inj in Ea. subst a.
      replace (match acc with Some a => a | None => 0%Z end)
        with (or_default acc 0%Z) by reflexivity.
      nia.
Qed.

Lemma parseInt_bound (radix : Z) (s : jsstring) (n : nat) :
  (1 < radix)%Z -> length s <= n ->
  (0 <= or_default (parseInt s radix) 0 < radix ^ Z.of_nat n)%Z.
Proof.
  intros Hr Hn. unfold parseInt.
  assert (Hpos : (0 < radix ^ Z.of_nat n)%Z) by (apply Z.pow_pos_nonneg; lia).
  destruct (parseInt_from radix None s) as [v|] eqn:E; cbn [or_default]; [|lia].
  apply parseInt_from_bound in E; [|assumption|discriminate].
  cbn [or_default] in E.
  assert (radix ^ Z.of_nat (length s) <= radix ^ Z.of_nat n)%Z
    by (apply Z.pow_le_mono_r; lia).
  lia.
Qed.

Lemma encodeUTF8_bytes (cp : option Z) (bs : jsstring) :
  (0 <= or_default cp 0)%Z -> encodeUTF8 cp = Some bs -> Forall byteUnit bs.
Proof.
  destruct cp as [cp|]; [|discriminate]. cbn [or_default]. intros Hcp E.
  destruct (Z.ltb_spec cp 0x110000) as [Hlt|Hge].
  - destruct (encodeUTF8_utf8 cp (conj Hcp Hlt)) as (bs' & E' & _ & Hb).
    rewrite E in E'. apply Some_inj in E'. now subst bs'.
  - rewrite encodeUTF8_arith in E by assumption.
    destruct (Z.ltb_spec cp 128); [lia|]. destruct (Z.ltb_spec cp 2048); [lia|].
    destruct (Z.ltb_spec cp 65536); [lia|].
    destruct (Z.ltb_spec cp 1114112); [lia|discriminate].
Qed.

Ltac byte_list :=
  repeat (apply Forall_cons; [unfold byteUnit; lia|]); apply Forall_nil.

Section Bytes.

Context {num : Type} `{JsNumber num}.
Variable input : jsstring.
Variable options : Options.
Hypothesis Hinput : Forall codeUnit input.

Lemma slice_codeUnit (a b : nat) : Forall codeUnit (slice input a b).
Proof.
  unfold slice.
  assert (Hs : Forall codeUnit (skipn a input)).
  { pose proof Hinput as Hi. rewrite <- (firstn_skipn a input) in Hi.
    apply Forall_app in Hi. tauto. }
  rewrite <- (firstn_skipn (b - a) (skipn a input)) in Hs.
  apply Forall_app in Hs. tauto.
Qed.

Lemma slice_fixup_bytes (a b : nat) :
  Forall byteUnit (fixupHighCharacters (slice input a b)).
Proof. apply fixupHighCharacters_bytes_aux, slice_codeUnit. Qed.

Lemma slice_length_le (a b : nat) : length (slice input a b) <= b - a.
Proof. unfold slice. apply firstn_le_length. Qed.

Lemma readUnicodeEscapeSequence_bytes (s s' : Cursor) (e : jsstring) :
  readUnicodeEscapeSequence input s = Return e s' -> Forall byteUnit e.
Proof.
  unfold readUnicodeEscapeSequence.
  set (s1 := set_index s (index s + 1)).
  destruct (code_is 123 (charCodeAt input (index s1))); cbn [negb]; [|discriminate].
  set (s2 := set_index s1 (index s1 + 1)).
  destruct (negb (isHexDigit (charCodeAt input (index s2)))); [discriminate|].
  set (s3 := set_index s2 (scanAll input (code_is 48) (index s2))).
  destruct (readUnicodeDigits input (length input - index s3) (index s3)
              (line s1) (lineStart s1) s3) as [[] s4|err]; [|discriminate].
  destruct (code_is 125 (charCodeAt input (index s4))); cbn [negb].
  - destruct (encodeUTF8 _) as [bs|] eqn:E; [|discriminate].
    intros R. apply Return_inj in R as (<- & _).
    apply encodeUTF8_bytes in E; [assumption|].
    apply (parseInt_bound 16 _ (length (slice input (index s3)
             (index (set_index s4 (index s4 + 1)) - 1)))); lia.
  - destruct (code_is 34 (charCodeAt input (index s4))
              || code_is 39 (charCodeAt input (index s4))); discriminate.
Qed.

(** With [strictEscapes], every escape sequence stands for bytes. *)
Lemma readEscapeSequence_bytes (s s' : Cursor) (e : jsstring) :
  strictEscapes (features options) = true ->
  readEscapeSequence input options s = Return e s' -> Forall byteUnit e.
Proof.
  intros Hstrict.
  assert (Hdefault : forall e s', escape_case_default input (features options) s = Return e s' ->
                                  Forall byteUnit e).
  { unfold escape_case_default. rewrite Hstrict. discriminate. }
  assert (Hu : forall e s', escape_case_u input (features options) s = Return e s' ->
                            Forall byteUnit e).
  { unfold escape_case_u. intros e0 s0.
    destruct (unicodeEscapes (features options)); [|apply Hdefault].
    apply readUnicodeEscapeSequence_bytes. }
  assert (Hx : forall e s', escape_case_x input (features options) s = Return e s' ->
                            Forall byteUnit e).
  { unfold escape_case_x. intros e0 s0.
    destruct (hexEscapes (features options)); [|apply Hu].
    destruct (isHexDigit (charCodeAt input (index s + 1))
              && isHexDigit (charCodeAt input (index s + 2))); [|discriminate].
    intros R. apply Return_inj in R as (<- & _).
    apply Forall_cons; [|apply Forall_nil].
    match goal with
    | |- byteUnit (fromCharCode (or_default (parseInt ?w 16) 0%Z)) =>
      pose proof (parseInt_bound 16 w 2 ltac:(lia)) as Hb
    end.
    cbn [index set_index] in Hb |- *.
    pose proof (slice_length_le (index s + 1) (index s + 3)) as Hl.
    specialize (Hb ltac:(lia)).
    unfold byteUnit, fromCharCode. change (16 ^ Z.of_nat 2)%Z with 256%Z in Hb.
    rewrite Z.mod_small; lia. }
  assert (Hz : forall e s', escape_case_z input (features options) s = Return e s' ->
                            Forall byteUnit e).
  { unfold escape_case_z. intros e0 s0.
    destruct (skipWhitespaceEscape (features options)); [|apply Hx].
    intros R. apply Return_inj in R as (<- & _). apply Forall_nil. }
  unfold readEscapeSequence, readEscapeSequenceWith.
  repeat match goal with
         | |- (if code_is ?k ?c then Return _ (set_index _ _) else _) = _ -> _ =>
           destruct (code_is k c);
           [intros R; apply Return_inj in R as (<- & _); byte_list|]
         end.
  destruct (code_is 13 (charCodeAt input (index s))
            || code_is 10 (charCodeAt input (index s))).
  { intros R. apply Return_inj in R as (<- & _). byte_list. }
  destruct (code_between 48 57 (charCodeAt input (index s))).
  { match goal with
    | |- context [(255 <? or_default (parseInt ?w 10) 0)%Z] =>
      pose proof (parseInt_bound 10 w (length w) ltac:(lia) (le_n _)) as Hb
    end.
    destruct (Z.ltb_spec 255 (or_default (parseInt (slice input (index s)
                (index (set_index s (scanWhile input isDecDigit 3 (index s))))) 10) 0%Z));
      [discriminate|].
    intros R. apply Return_inj in R as (<- & _).
    apply Forall_cons; [|apply Forall_nil].
    unfold byteUnit, fromCharCode. rewrite Z.mod_small; lia. }
  destruct (code_is 122 (charCodeAt input (index s))); [apply Hz|].
  destruct (code_is 120 (charCodeAt input (index s))); [apply Hx|].
  destruct (code_is 117 (charCodeAt input (index s))); [apply Hu|].
  destruct (code_is 92 (charCodeAt input (index s))
            || code_is 34 (charCodeAt input (index s))
            || code_is 39 (charCodeAt input (index s))) eqn:Hq;
    [|apply Hdefault].
  unfold escape_case_quote, charAt.
  intros R. apply Return_inj in R as (<- & _).
  unfold charCodeAt in Hq.
  destruct (nth_error input (index s)) as [c|]; [|discriminate].
  cbn [code_is] in Hq.
  apply orb_prop in Hq as [Hq | Hq]; [apply orb_prop in Hq as [Hq | Hq]|];
    apply Z.eqb_eq in Hq; subst c; byte_list.
Qed.

Lemma scanStringLiteral_loop_bytes (fuel : nat) (delimiter : option Z)
    (beginLine beginLineStart stringStart : nat) (string : jsstring)
    (s s' : Cursor) (r : nat * jsstring) :
  strictEscapes (features options) = true ->
  Forall byteUnit string ->
  scanStringLiteral_loop input options fuel delimiter beginLine beginLineStart
    stringStart string s = Return r s' ->
  Forall byteUnit (snd r).
Proof.
  intros Hstrict.
  revert stringStart string s.
  induction fuel as [|fuel IH]; intros stringStart string s Hbytes;
    cbn [scanStringLiteral_loop].
  - intros R. apply Return_inj in R as (<- & _). exact Hbytes.
  - destruct (index s <? length input);
      [|intros R; apply Return_inj in R as (<- & _); exact Hbytes].
    destruct (code_eq delimiter (charCodeAt input (index s))).
    { intros R. apply Return_inj in R as (<- & _). exact Hbytes. }
    destruct (code_is 92 (charCodeAt input (index s))).
    + destruct (readEscapeSequence input options (set_index s (index s + 1)))
        as [esc s1|e] eqn:E; [|discriminate].
      apply readEscapeSequence_bytes in E; [|assumption].
      destruct (_ || _); [discriminate|].
      apply IH. apply Forall_app. split; [assumption|].
      apply Forall_app. split; [apply slice_fixup_bytes | assumption].
    + destruct (_ || _); [discriminate|]. now apply IH.
Qed.

Lemma scanStringLiteral_bytes (s s' : Cursor) (t : Token num) (v : jsstring) :
  strictEscapes (features options) = true ->
  scanStringLiteral input options s = Return t s' ->
  value t = VString v -> Forall byteUnit v.
Proof.
  intros Hstrict. unfold scanStringLiteral.
  destruct (scanStringLiteral_loop _ _ _ _ _ _ _ _ _) as [[stringStart string] s1|e]
    eqn:E; [|discriminate].
  apply scanStringLiteral_loop_bytes in E; [|assumption|apply Forall_nil].
  intros R. apply Return_inj in R as (<- & _). cbn [value].
  intros V. injection V as <-.
  apply Forall_app. split; [exact E | apply slice_fixup_bytes].
Qed.

Lemma readLongString_loop_slice (fuel level stringStart : nat)
    (unfinished : LexicalError) (s s' : Cursor) (w : jsstring) :
  readLongString_loop input fuel level stringStart unfinished s
    = Return (Some w) s' ->
  exists b, w = slice input stringStart b.
Proof.
  revert s. induction fuel as [|fuel IH]; intros s; cbn [readLongString_loop];
    [discriminate|].
  destruct (index s <? length input); [|discriminate].
  destruct (_ && _); [|apply IH].
  intros R. apply Return_inj in R as (R & _). apply Some_inj in R.
  eexists. symmetry. exact R.
Qed.

Lemma scanLongStringLiteral_bytes (s s' : Cursor) (t : Token num) (v : jsstring) :
  scanLongStringLiteral input s = Return t s' ->
  value t = VString v -> Forall byteUnit v.
Proof.
  unfold scanLongStringLiteral.
  destruct (readLongString input false s) as [[w|] s1|e] eqn:E; try discriminate.
  intros R. apply Return_inj in R as (<- & _). cbn [value].
  intros V. injection V as <-.
  unfold readLongString in E.
  destruct (negb _) in E; [discriminate|].
  apply readLongString_loop_slice in E as (b & ->).
  apply slice_fixup_bytes.
Qed.

Lemma scanIdentifierOrKeyword_bytes (s s' : Cursor) (t : Token num) (v : jsstring) :
  scanIdentifierOrKeyword input options s = Return t s' ->
  value t = VString v -> Forall byteUnit v.
Proof.
  unfold scanIdentifierOrKeyword.
  destruct (isKeyword _ _);
    [|destruct (_ || _); [|destruct (jsstring_eqb (js "nil") _)]];
    intros R; apply Return_inj in R as (<- & _); cbn [value mkToken];
    intros V; try discriminate; injection V as <-; apply slice_fixup_bytes.
Qed.

Lemma punctuators_are_bytes (text : jsstring) :
  In text punctuators -> Forall byteUnit text.
Proof.
  assert (Hall : forallb (forallb (fun c => (0 <=? c)%Z && (c <=? 255)%Z))
                   punctuators = true) by reflexivity.
  rewrite forallb_forall in Hall. intros Hin. specialize (Hall _ Hin).
  rewrite forallb_forall in Hall. apply Forall_forall. intros c Hc.
  specialize (Hall _ Hc). apply andb_prop in Hall as (H0 & H1).
  apply Z.leb_le in H0, H1. split; assumption.
Qed.

Lemma scannedBy_bytes (s s' : Cursor) (t : Token num) (v : jsstring) :
  strictEscapes (features options) = true ->
  scannedBy input options s t s' ->
  value t = VString v -> Forall byteUnit v.
Proof.
  intros Hstrict [_ R|_ R|_ R|_ R|_ R|text Hin _ R].
  - now apply (scanIdentifierOrKeyword_bytes s s').
  - now apply (scanStringLiteral_bytes s s').
  - unfold scanNumericLiteral in R. intros V.
    destruct (_ && _) in R;
      [destruct (readHexLiteral _ _) in R | destruct (readDecLiteral _ _) in R];
      try discriminate; apply Return_inj in R as (<- & _); discriminate.
  - now apply (scanLongStringLiteral_bytes s s').
  - unfold scanVarargLiteral in R. apply Return_inj in R as (<- & _).
    cbn [value mkToken]. intros V. injection V as <-. cbn. byte_list.
  - unfold scanPunctuator in R. apply Return_inj in R as (<- & _).
    cbn [value mkToken]. intros V. injection V as <-.
    now apply punctuators_are_bytes.
Qed.

End Bytes.

(** X23. When every character of the input is a UTF-16 code unit and the
    Lua version has strict escapes (every version but 5.1), every string
    that the tokenizer hands out as the value of a token consists of bytes
    only: the text of a string, decoded, with the characters above 0x7F
    and the code point escapes as their UTF-8 bytes, and the text of a
    name, a keyword or a punctuator. *)
Theorem string_values_are_bytes :
  forall num (N : JsNumber num) (fuel : nat) (input : jsstring)
         (options_ : TokenizerOptions) (r : Run num) (t : Token num)
         (v : jsstring),
    Forall codeUnit input ->
    strictEscapes (resolveFeatures (resolveOptions options_)) = true ->
    tokenize fuel input options_ = Some r ->
    In t (tokens r) -> value t = VString v -> Forall byteUnit v.
Proof.
  intros num N fuel input options_ r t v Hinput Hstrict R Hin V.
  destruct (tokenize_scanned fuel input options_ r t R Hin)
    as (s0 & s' & _ & _ & Hscan).
  exact (scannedBy_bytes input (resolveOptions options_) Hinput s0 s' t v
           Hstrict Hscan V).
Qed.

Lemma string_values_are_bytes_witness :
  exists r t,
    tokenize (num := ExactNumber) 20
      (js "s = " ++ 34%Z :: 233%Z :: 92%Z :: js "u{20AC}" ++ 92%Z :: js "65" ++ [34%Z])
      (withVersion Lua53) = Some r
    /\ nth_error (tokens r) 2 = Some t
    /\ value t = VString [0xc3; 0xa9; 0xe2; 0x82; 0xac; 65]%Z
    /\ Forall byteUnit [0xc3; 0xa9; 0xe2; 0x82; 0xac; 65]%Z.
Proof.
  assert (Hrun : exists r t,
    tokenize (num := ExactNumber) 20
      (js "s = " ++ 34%Z :: 233%Z :: 92%Z :: js "u{20AC}" ++ 92%Z :: js "65" ++ [34%Z])
      (withVersion Lua53) = Some r
    /\ nth_error (tokens r) 2 = Some t
    /\ value t = VString [0xc3; 0xa9; 0xe2; 0x82; 0xac; 65]%Z).
  { eexists. eexists. split; [vm_compute; reflexivity|].
    split; reflexivity. }
  destruct Hrun as (r & t & Hrun & Hnth & Hv). exists r, t.
  split; [exact Hrun|]. split; [exact Hnth|]. split; [exact Hv|].
  refine (string_values_are_bytes ExactNumber _ 20 _ (withVersion Lua53) r t _
            _ eq_refl Hrun (nth_error_In _ _ Hnth) Hv).
  match goal with
  | |- Forall _ ?l => let l' := eval vm_compute in l in change l with l'
  end.
  repeat (apply Forall_cons; [unfold codeUnit; lia|]). apply Forall_nil.
Defined.

(** ** Line numbers count the line breaks *)

(** A character that is no line terminator cuts the count of the line
    breaks in two. *)
Lemma lineBreaks_cut (a : jsstring) (c : Z) (b : jsstring) :
  isLineTerminator (Some c) = false ->
  lineBreaks (a ++ c :: b) = lineBreaks a + lineBreaks (c :: b).
Proof.
  intros Hc.
  assert (H10 : (c =? 10)%Z = false /\ (c =? 13)%Z = false).
  { unfold isLineTerminator, code_is in Hc. apply orb_false_elim in Hc. tauto. }
  destruct H10 as (H10 & H13).
  induction a as [|x|x y a IHa IHy] using pair_induction.
  - reflexivity.
  - cbn [app lineBreaks]. rewrite Hc, H10, H13, !andb_false_r. cbn [orb].
    destruct (isLineTerminator (Some x)); reflexivity.
  - change ((x :: y :: a) ++ c :: b) with (x :: y :: (a ++ c :: b)).
    change ((y :: a) ++ c :: b) with (y :: (a ++ c :: b)) in IHy.
    cbn [lineBreaks] in *.
    destruct (isLineTerminator (Some x)); [|exact IHy].
    destruct ((x =? 10)%Z && (y =? 13)%Z || (x =? 13)%Z && (y =? 10)%Z).
    + rewrite IHa. reflexivity.
    + rewrite IHy. reflexivity.
Qed.

Lemma lineBreaks_cut_after (a : jsstring) (c : Z) (b : jsstring) :
  isLineTerminator (Some c) = false ->
  lineBreaks ((a ++ [c]) ++ b) = lineBreaks (a ++ [c]) + lineBreaks b.
Proof.
  intros Hc. rewrite <- app_assoc. cbn [app].
  rewrite !lineBreaks_cut by assumption. cbn [lineBreaks]. rewrite Hc. lia.
Qed.

Section Lines.

Context {num : Type} `{JsNumber num}.
Variable input : jsstring.
Variable options : Options.

(** Where the character under the cursor is no line terminator, [line]
    has counted the line breaks before the cursor. *)
Lemma line_at (s : Cursor) :
  wellPlaced input s ->
  index s < length input ->
  isLineTerminator (charCodeAt input (index s)) = false ->
  line s = 1 + lineBreaks (firstn (index s) input).
Proof.
  intros (_ & _ & Hcount) Hlt Hc. unfold charCodeAt in Hc.
  destruct (nth_error input (index s)) as [c|] eqn:E;
    [|apply nth_error_None in E; lia].
  pose proof (lineBreaks_cut (firstn (index s) input) c
                (skipn (S (index s)) input) Hc) as Hcut.
  rewrite <- (skipn_nth_cons _ _ _ E), firstn_skipn in Hcut. lia.
Qed.

(** The same where the character before the cursor is none. *)
Lemma line_after (s : Cursor) :
  wellPlaced input s ->
  1 <= index s <= length input ->
  isLineTerminator (charCodeAt input (index s - 1)) = false ->
  line s = 1 + lineBreaks (firstn (index s) input).
Proof.
  intros (_ & _ & Hcount) Hlt Hc. unfold charCodeAt in Hc.
  destruct (nth_error input (index s - 1)) as [c|] eqn:E;
    [|apply nth_error_None in E; lia].
  assert (Hfirst : firstn (index s) input = firstn (index s - 1) input ++ [c]).
  { rewrite <- (firstn_skipn (index s - 1) input) at 1.
    rewrite (skipn_nth_cons _ _ _ E).
    rewrite firstn_app, length_firstn.
    replace (Nat.min (index s - 1) (length input)) with (index s - 1) by lia.
    replace (index s - (index s - 1)) with 1 by lia.
    rewrite firstn_firstn. replace (Nat.min (index s) (index s - 1))
      with (index s - 1) by lia.
    reflexivity. }
  pose proof (lineBreaks_cut_after (firstn (index s - 1) input) c
                (skipn (index s) input) Hc) as Hcut.
  rewrite <- Hfirst, firstn_skipn in Hcut. lia.
Qed.

Lemma isIdentifierStart_no_break (c : option Z) :
  isIdentifierStart options c = true -> isLineTerminator c = false.
Proof.
  unfold isIdentifierStart, isLineTerminator. destruct c as [c|]; [|reflexivity].
  cbn. destruct (Z.eqb_spec c 10) as [-> | ?];
    [cbn; rewrite andb_false_r; discriminate|].
  destruct (Z.eqb_spec c 13) as [-> | ?];
    [cbn; rewrite andb_false_r; discriminate|].
  reflexivity.
Qed.

Lemma punctuators_begin_clear (text : jsstring) :
  In text punctuators ->
  exists c w, text = c :: w /\ isLineTerminator (Some c) = false.
Proof.
  assert (Hall : forallb (fun text => match text with
                                      | c :: _ => negb (isLineTerminator (Some c))
                                      | [] => false
                                      end) punctuators = true) by reflexivity.
  rewrite forallb_forall in Hall. intros Hin. specialize (Hall _ Hin).
  destruct text as [|c w]; [discriminate|].
  exists c, w. split; [reflexivity|]. now apply negb_true_iff.
Qed.

(** No token begins with a line terminator. *)
Lemma scannedBy_starts (s s' : Cursor) (t : Token num) :
  scannedBy input options s t s' ->
  isLineTerminator (charCodeAt input (index s)) = false.
Proof.
  intros [Hid _ | Hq _ | Hn _ | Hb _ | Hd _ | text Hin Hs _].
  - now apply isIdentifierStart_no_break.
  - apply orb_prop in Hq as [Hq | Hq]; revert Hq; apply code_is_no_break; lia.
  - destruct Hn as [Hn | (Hn & _)];
      [now apply isDecDigit_no_break | revert Hn; apply code_is_no_break; lia].
  - revert Hb. apply code_is_no_break; lia.
  - pose proof (slice_hd input (index s) (index s + 3) ltac:(lia)) as Hhd.
    rewrite Hd in Hhd. rewrite <- Hhd. reflexivity.
  - destruct (punctuators_begin_clear text Hin) as (c & w & -> & Hc).
    pose proof (slice_hd input (index s) (index s + length (c :: w))
                  ltac:(cbn [length]; lia)) as Hhd.
    rewrite Hs in Hhd. rewrite <- Hhd. exact Hc.
Qed.

(** A short string ends after its closing quote, or after its opening one
    when that is the last character of the input. *)
Lemma scanStringLiteral_loop_closed (fuel : nat) (delimiter : option Z)
    (beginLine beginLineStart stringStart : nat) (string : jsstring)
    (s s' : Cursor) (r : nat * jsstring) :
  length input - index s <= fuel ->
  scanStringLiteral_loop input options fuel delimiter beginLine beginLineStart
    stringStart string s = Return r s' ->
  (s' = s /\ length input <= index s)
  \/ (1 <= index s' <= length input
      /\ code_eq delimiter (charCodeAt input (index s' - 1)) = true).
Proof.
  revert stringStart string s.
  induction fuel as [|fuel IH]; intros stringStart string s Hfuel;
    cbn [scanStringLiteral_loop].
  - intros R. apply Return_inj in R as (_ & <-). left. split; [reflexivity|lia].
  - destruct (Nat.ltb_spec (index s) (length input));
      [|intros R; apply Return_inj in R as (_ & <-); left; split; [reflexivity|lia]].
    destruct (code_eq delimiter (charCodeAt input (index s))) eqn:Hd.
    { intros R. apply Return_inj in R as (_ & <-). right.
      cbn [index set_index]. replace (index s + 1 - 1) with (index s) by lia.
      split; [lia | exact Hd]. }
    destruct (code_is 92 (charCodeAt input (index s))).
    + destruct (readEscapeSequence input options (set_index s (index s + 1)))
        as [esc s1|e] eqn:E; [|discriminate].
      apply readEscapeSequence_moves in E. destruct E as ((Hle & _) & _).
      cbn [index set_index] in Hle.
      destruct (Nat.leb_spec (length input) (index s1)); cbn [orb];
        [discriminate|].
      destruct (isLineTerminator _); [discriminate|].
      intros R. apply IH in R; [|lia].
      destruct R as [(_ & Hend) | R]; [lia | now right].
    + destruct (Nat.leb_spec (length input) (index (set_index s (index s + 1))));
        cbn [orb]; [discriminate|].
      destruct (isLineTerminator _); [discriminate|].
      intros R. apply IH in R; [|cbn [index set_index]; lia].
      destruct R as [(_ & Hend) | R]; [lia | now right].
Qed.

Lemma scanStringLiteral_closed (s s' : Cursor) (t : Token num) :
  code_is 39 (charCodeAt input (index s))
  || code_is 34 (charCodeAt input (index s)) = true ->
  scanStringLiteral input options s = Return t s' ->
  1 <= index s' <= length input
  /\ isLineTerminator (charCodeAt input (index s' - 1)) = false.
Proof.
  intros Hq. unfold scanStringLiteral.
  destruct (scanStringLiteral_loop _ _ _ _ _ _ _ _ _) as [[stringStart string] s1|e]
    eqn:E; [|discriminate].
  apply scanStringLiteral_loop_closed in E; [|lia].
  intros R. apply Return_inj in R as (_ & <-).
  assert (Hclear : forall o, code_eq (charCodeAt input (index s)) o = true ->
                             isLineTerminator o = false).
  { intros o Ho. destruct (charCodeAt input (index s)) as [c|]; [|discriminate].
    destruct o as [d|]; [|discriminate]. cbn [code_eq] in Ho.
    apply Z.eqb_eq in Ho. subst d.
    apply orb_prop in Hq as [Hq | Hq]; revert Hq; apply code_is_no_break; lia. }
  destruct E as [(-> & Hend) | (Hle & Hd)].
  - cbn [index set_index] in *. replace (index s + 1 - 1) with (index s) by lia.
    split; [|apply Hclear; destruct (charCodeAt input (index s)); [|discriminate];
             cbn; apply Z.eqb_refl].
    assert (index s < length input); [|lia].
    apply nth_error_Some. unfold charCodeAt in Hq.
    destruct (nth_error input (index s)); [discriminate | discriminate Hq].
  - split; [assumption | now apply Hclear].
Qed.

Lemma readLongString_loop_closed (fuel level stringStart : nat)
    (unfinished : LexicalError) (s s' : Cursor) (w : option jsstring) :
  readLongString_loop input fuel level stringStart unfinished s = Return w s' ->
  1 <= index s' <= length input
  /\ code_is 93 (charCodeAt input (index s' - 1)) = true.
Proof.
  revert s. induction fuel as [|fuel IH]; intros s; cbn [readLongString_loop];
    [discriminate|].
  destruct (index s <? length input); [|discriminate].
  destruct (code_is 93 _ && isTerminator input level _) eqn:Hend; [|apply IH].
  apply andb_prop in Hend as (_ & Hend). unfold isTerminator in Hend.
  apply andb_prop in Hend as (_ & Hend).
  intros R. apply Return_inj in R as (_ & <-).
  cbn [index set_index] in *.
  match goal with
  | H : code_is 93 (charCodeAt input ?i) = true |- context [?j - 1] =>
    replace (j - 1) with i by lia
  end.
  split; [|assumption]. split; [lia|].
  match type of Hend with
  | code_is 93 (charCodeAt input ?i) = true =>
    assert (i < length input); [|lia]
  end.
  apply nth_error_Some. unfold charCodeAt in Hend.
  destruct (nth_error input _); [discriminate | discriminate Hend].
Qed.

Lemma scanLongStringLiteral_closed (s s' : Cursor) (t : Token num) :
  scanLongStringLiteral input s = Return t s' ->
  1 <= index s' <= length input
  /\ isLineTerminator (charCodeAt input (index s' - 1)) = false.
Proof.
  unfold scanLongStringLiteral.
  destruct (readLongString input false s) as [[w|] s1|e] eqn:E; try discriminate.
  intros R. apply Return_inj in R as (_ & <-).
  unfold readLongString in E. destruct (negb _) in E; [discriminate|].
  apply readLongString_loop_closed in E as (Hle & Hc).
  split; [assumption|]. revert Hc. apply code_is_no_break; lia.
Qed.

(** A StringLiteral ends after a quote or a bracket. *)
Lemma scannedBy_closed (s s' : Cursor) (t : Token num) :
  scannedBy input options s t s' ->
  type t = StringLiteral ->
  1 <= index s' <= length input
  /\ isLineTerminator (charCodeAt input (index s' - 1)) = false.
Proof.
  intros [Hid R | Hq R | Hn R | Hb R | Hd R | text Hin Hs R] Hty.
  - destruct (scanIdentifierOrKeyword_word input options _ _ _ R)
      as (_ & _ & Hw & _). rewrite Hty in Hw. discriminate.
  - now apply (scanStringLiteral_closed s s' t).
  - destruct (scanNumericLiteral_stops input _ _ _ R) as (Hn' & _). congruence.
  - now apply (scanLongStringLiteral_closed s s' t).
  - unfold scanVarargLiteral in R. apply Return_inj in R as (<- & _). discriminate.
  - unfold scanPunctuator in R. apply Return_inj in R as (<- & _). discriminate.
Qed.

Lemma lex_counted (s s' : Cursor) (cs cs' : option (list Comment)) (t : Token num) :
  wellPlaced input s ->
  lex input options s cs = LexToken t s' cs' ->
  wellPlaced input s'
  /\ tok_line t = 1 + lineBreaks (firstn (fst (range t)) input)
  /\ (type t = StringLiteral ->
      lastLine t = Some (1 + lineBreaks (firstn (snd (range t)) input))).
Proof.
  intros Hs. unfold lex.
  pose proof (skipWhiteSpace_moves input s) as ((_ & _ & P1) & _).
  specialize (P1 Hs).
  destruct (skipComments input _ _ cs) as [[[] s0|e] cs0] eqn:E; [|discriminate].
  apply skipComments_passes in E. destruct E as (_ & _ & P0). specialize (P0 P1).
  destruct (Nat.leb_spec (length input) (index s0)); [discriminate|].
  destruct (lex_dispatch input options s0) as [t0 s1|e] eqn:D; [|discriminate].
  intros R. inversion R; subst; clear R.
  pose proof (lex_dispatch_placed input options _ _ _ D)
    as (Hr & Hlen & Hline & _ & Hlast & (_ & _ & Ps)).
  specialize (Ps P0).
  apply lex_dispatch_cases in D.
  pose proof (scannedBy_starts _ _ _ D) as Hstart.
  cbn [index set_tokenStart] in Hstart.
  split; [exact Ps|]. rewrite Hr. cbn [fst snd]. split.
  - rewrite Hline. now apply line_at.
  - intros Hstring. rewrite Hstring in Hlast. destruct Hlast as (-> & _).
    f_equal. destruct (scannedBy_closed _ _ _ D Hstring) as (Hle & Hc).
    now apply line_after.
Qed.

Lemma pullAll_counted (fuel : nat) (s : Cursor) (cs : option (list Comment))
    (r : Run num) (t : Token num) :
  wellPlaced input s ->
  pullAll input options fuel s cs = Some r ->
  In t (tokens r) ->
  tok_line t = 1 + lineBreaks (firstn (fst (range t)) input)
  /\ (type t = StringLiteral ->
      lastLine t = Some (1 + lineBreaks (firstn (snd (range t)) input))).
Proof.
  revert s cs r. induction fuel as [|fuel IH]; intros s cs r Hs; cbn [pullAll];
    [discriminate|].
  destruct (lex input options s cs) as [t0 s1 cs1 | s1 cs1 | e cs1] eqn:E.
  - destruct (pullAll input options fuel s1 cs1) as [r1|] eqn:E1; [|discriminate].
    intros R Hin. inversion R; subst; clear R. cbn [tokens] in Hin.
    destruct (lex_counted _ _ _ _ _ Hs E) as (Hs1 & Hcount).
    destruct Hin as [<- | Hin]; [exact Hcount | now apply (IH s1 cs1 r1 Hs1 E1)].
  - intros R Hin. inversion R; subst. contradiction.
  - intros R Hin. inversion R; subst. contradiction.
Qed.

End Lines.

(** X24. The line of a token is one more than the number of line breaks
    before its first character, a carriage return and a line feed next to
    each other, in either order, being one line break; the [lastLine] of a
    StringLiteral is one more than the number of line breaks before its
    end. *)
Theorem token_lines_count_the_line_breaks :
  forall num (N : JsNumber num) (fuel : nat) (input : jsstring)
         (options_ : TokenizerOptions) (r : Run num) (t : Token num),
    tokenize fuel input options_ = Some r ->
    In t (tokens r) ->
    tok_line t = 1 + lineBreaks (firstn (fst (range t)) input)
    /\ (type t = StringLiteral ->
        lastLine t = Some (1 + lineBreaks (firstn (snd (range t)) input))).
Proof.
  intros num N fuel input options_ r t. unfold tokenize, run.
  destruct (ignoreShebang (resolveOptions options_)
            && jsstring_eqb (firstn 2 input) (js "#!")).
  - destruct (skipShebang input fuel start) as [s|] eqn:E; [|discriminate].
    apply skipShebang_passes in E. destruct E as (_ & _ & Hs).
    apply pullAll_counted. apply Hs. apply start_wellPlaced.
  - apply pullAll_counted. apply start_wellPlaced.
Qed.

Lemma token_lines_count_the_line_breaks_witness :
  exists r t,
    tokenize (num := ExactNumber) 20
      (js "a" ++ 10%Z :: 13%Z :: 10%Z :: js "[[x" ++ 13%Z :: 10%Z :: js "y]]")
      noOptions = Some r
    /\ nth_error (tokens r) 1 = Some t
    /\ (type t, range t, tok_line t, lastLine t)
       = (StringLiteral, (4, 12), 3, Some 4)
    /\ tok_line t
       = 1 + lineBreaks (firstn (fst (range t))
                           (js "a" ++ 10%Z :: 13%Z :: 10%Z :: js "[[x"
                            ++ 13%Z :: 10%Z :: js "y]]"))
    /\ lastLine t
       = Some (1 + lineBreaks (firstn (snd (range t))
                                 (js "a" ++ 10%Z :: 13%Z :: 10%Z :: js "[[x"
                                  ++ 13%Z :: 10%Z :: js "y]]"))).
Proof.
  assert (Hrun : exists r t,
    tokenize (num := ExactNumber) 20
      (js "a" ++ 10%Z :: 13%Z :: 10%Z :: js "[[x" ++ 13%Z :: 10%Z :: js "y]]")
      noOptions = Some r
    /\ nth_error (tokens r) 1 = Some t
    /\ (type t, range t, tok_line t, lastLine t)
       = (StringLiteral, (4, 12), 3, Some 4)).
  { eexists. eexists. split; [vm_compute; reflexivity|].
    split; reflexivity. }
  destruct Hrun as (r & t & Hrun & Hnth & Hpos). exists r, t.
  split; [exact Hrun|]. split; [exact Hnth|]. split; [exact Hpos|].
  pose proof (token_lines_count_the_line_breaks ExactNumber _ 20 _ noOptions
                r t Hrun (nth_error_In _ _ Hnth)) as (Hline & Hlast).
  split; [exact Hline|]. apply Hlast. now injection Hpos.
Defined.
